(** * Page synchronisation core of the source viewer (src/App.tsx)

    A shallow embedding of the page estimator, the chunk-to-page index,
    the page bounds, the search navigator, the suppression window of the
    synchronisation coordinator and the external window bridge, with the
    properties the specification states about them.

    Conventions.  JavaScript numbers that hold page numbers, indices and
    counts are integers and are carried in [Z]; the one place where the
    source leaves the integers, the proportional estimate
    [(index / chunks.length) * documentTotalPages], is evaluated in IEEE-754
    binary64 with the Standard Library's [SpecFloat]; the real numbers
    serve only to bound the rounding error of that estimate.  Strings are
    [string]; a JavaScript object used as a map keeps its properties in
    insertion order. *)

From Stdlib Require Import ZArith Lia Bool String Ascii QArith Qround.
From Stdlib Require Import Floats.SpecFloat.
From Stdlib Require Import Reals Lra.
From stdpp Require Import base option list sorting strings.

Local Open Scope Z_scope.

(** ** IEEE-754 binary64, the arithmetic of a JavaScript [number] *)

Module Binary64.

Definition prec : Z := 53.
Definition emax : Z := 1024.

(** The double nearest to an integer (exact below [2^53]). *)
Definition of_int (z : Z) : spec_float := binary_normalize prec emax z 0 false.

Definition div (x y : spec_float) : spec_float := SFdiv prec emax x y.
Definition mul (x y : spec_float) : spec_float := SFmul prec emax x y.

(** [Math.floor] of a finite double, as an integer.  Infinities and NaN
    have no integer floor; [0] stands in for them.  The page estimate
    handles [+Infinity] itself and never meets [-Infinity] or NaN
    ([estimate_nonneg]). *)
Definition floor (x : spec_float) : Z :=
  match x with
  | S754_finite s m e =>
      let v := if s then Z.neg m else Z.pos m in
      if 0 <=? e then v * 2 ^ e else v / 2 ^ (- e)
  | _ => 0
  end.

(** Doubles that are [+0], [-0], positive and finite, or [+Infinity]. *)
Definition nonneg (x : spec_float) : Prop :=
  match x with
  | S754_zero _ => True
  | S754_finite s _ _ => s = false
  | S754_infinity s => s = false
  | S754_nan => False
  end.

(** Positive finite doubles. *)
Definition pos_finite (x : spec_float) : Prop :=
  match x with
  | S754_finite s _ _ => s = false
  | _ => False
  end.

End Binary64.

(** Where the real [y] lies between the mantissa [m] and [m + 1], as the
    round bit and the sticky bit record it. *)
Definition located (mrs : shr_record) (y : R) : Prop :=
  match shr_r mrs, shr_s mrs with
  | false, false => y = IZR (shr_m mrs)
  | false, true => (IZR (shr_m mrs) < y < IZR (shr_m mrs) + / 2)%R
  | true, false => y = (IZR (shr_m mrs) + / 2)%R
  | true, true => (IZR (shr_m mrs) + / 2 < y < IZR (shr_m mrs) + 1)%R
  end.

(** ** Chunks and the page estimator (chunksByPage, lines 832-863) *)

(** [chunk_page] is [chunk.metadata?.page]: [None] when the metadata or
    its page is absent. *)
Record PDFChunk : Type := {
  chunk_id : string;
  chunk_content : string;
  chunk_page : option Z
}.

#[global] Instance PDFChunk_eq_dec : EqDecision PDFChunk.
Proof. solve_decision. Defined.

(** [!c.metadata?.page || c.metadata.page === 0] *)
Definition pageFalsy (c : PDFChunk) : bool :=
  match chunk_page c with
  | None => true
  | Some p => p =? 0
  end.

(** [chunks.length > 0 && chunks.every(...)] *)
Definition allPagesZero (chunks : list PDFChunk) : bool :=
  (0 <? Z.of_nat (length chunks)) && forallb pageFalsy chunks.

(** [Math.min(Math.floor((index / chunks.length) * documentTotalPages) + 1,
    documentTotalPages)], with the quotient and the product in binary64.
    [Math.min(Infinity, t)] is [t].  Past the floor the numbers are
    integers, exact in a double below [2^53], and are carried in [Z]. *)
Definition proportionalPage (index count documentTotalPages : Z) : Z :=
  let x := Binary64.mul (Binary64.div (Binary64.of_int index) (Binary64.of_int count))
                        (Binary64.of_int documentTotalPages) in
  match x with
  | S754_infinity false => documentTotalPages
  | _ => Z.min (Binary64.floor x + 1) documentTotalPages
  end.

Definition chunksPerPage : Z := 3.

(** [Math.floor(index / chunksPerPage) + 1].  The quotient of an array
    index by 3 is an integer or lies a third away from one, so rounding to
    a double never crosses an integer and the floor is the integer
    quotient ([densityPage_binary64] checks it on a range). *)
Definition densityPage (index : Z) : Z := index / chunksPerPage + 1.

(** The body of the [forEach] callback up to the assignment of [pageNum]. *)
Definition pageNum (chunks : list PDFChunk) (documentTotalPages : Z)
    (index : nat) (chunk : PDFChunk) : Z :=
  if allPagesZero chunks then
    if 0 <? documentTotalPages then
      proportionalPage (Z.of_nat index) (Z.of_nat (length chunks)) documentTotalPages
    else densityPage (Z.of_nat index)
  else default 0 (chunk_page chunk).

(** [Record<number, PDFChunk[]>]: the properties in insertion order. *)
Definition PageGroups : Type := list (Z * list PDFChunk).

(** [grouped[pageNum]] *)
Fixpoint lookup_group (k : Z) (grouped : PageGroups) : option (list PDFChunk) :=
  match grouped with
  | [] => None
  | (k', l) :: rest => if k =? k' then Some l else lookup_group k rest
  end.

(** [if (!grouped[pageNum]) grouped[pageNum] = []; grouped[pageNum].push(chunk)] *)
Fixpoint push_group (k : Z) (c : PDFChunk) (grouped : PageGroups) : PageGroups :=
  match grouped with
  | [] => [(k, [c])]
  | (k', l) :: rest =>
      if k =? k' then (k', l ++ [c]) :: rest else (k', l) :: push_group k c rest
  end.

(** [chunks.forEach((chunk, index) => ...)] from position [index] on, over
    the mutable [grouped]. *)
Fixpoint forEach_group (pn : nat -> PDFChunk -> Z) (index : nat)
    (rest : list PDFChunk) (grouped : PageGroups) : PageGroups :=
  match rest with
  | [] => grouped
  | c :: rest' => forEach_group pn (S index) rest' (push_group (pn index c) c grouped)
  end.

Definition chunksByPage (chunks : list PDFChunk) (documentTotalPages : Z) : PageGroups :=
  forEach_group (pageNum chunks documentTotalPages) 0 chunks [].

(** The keys of an object enumerate array indices first, ascending, then
    the other keys in insertion order. *)
Definition isArrayIndex (k : Z) : bool := (0 <=? k) && (k <? 2 ^ 32 - 1).

Definition key_le (a b : Z * list PDFChunk) : Prop := a.1 <= b.1.

#[global] Instance key_le_dec : RelDecision key_le.
Proof. intros a b. unfold key_le. apply _. Defined.

Definition Object_entries (grouped : PageGroups) : PageGroups :=
  merge_sort key_le (filter (fun e => isArrayIndex e.1 = true) grouped)
  ++ filter (fun e => isArrayIndex e.1 = false) grouped.

(** [Object.keys(chunksByPage).map(Number)] *)
Definition Object_keys (grouped : PageGroups) : list Z := (Object_entries grouped).*1.

(** The chunks the page groups hold, group after group. *)
Definition all_grouped (grouped : PageGroups) : list PDFChunk := concat (grouped.*2).

(** The chunks of [rest] (at positions [index], [index+1], ...) that the
    page function sends to page [k], in order. *)
Fixpoint chunks_on_page (pn : nat -> PDFChunk -> Z) (k : Z) (index : nat)
    (rest : list PDFChunk) : list PDFChunk :=
  match rest with
  | [] => []
  | c :: rest' =>
      if pn index c =? k then c :: chunks_on_page pn k (S index) rest'
      else chunks_on_page pn k (S index) rest'
  end.

(** A group after the loop has consumed more chunks: the chunks it held
    followed by the new ones, absent while both are empty. *)
Definition merge_lookup (o : option (list PDFChunk)) (l : list PDFChunk) :=
  match o, l with
  | None, [] => None
  | _, _ => Some (default [] o ++ l)
  end.

(** The estimate in the specification's words (section 4.1, steps 2 and
    3), in exact arithmetic: [floor(index / chunkCount * totalPages) + 1]
    clamped to [[1, totalPages]] when the total is known,
    [floor(index / 3) + 1] when it is not. *)
Definition spec_estimate (index chunkCount totalPages : Z) : Z :=
  if 0 <? totalPages then
    Z.max 1 (Z.min totalPages
               (Qfloor (inject_Z index / inject_Z chunkCount * inject_Z totalPages)%Q + 1))
  else Qfloor (inject_Z index / inject_Z 3)%Q + 1.

(** A chunk without page metadata. *)
Definition bare_chunk (i : string) : PDFChunk :=
  {| chunk_id := i; chunk_content := ""; chunk_page := None |}.

Definition paged_chunk (i : string) (p : Z) : PDFChunk :=
  {| chunk_id := i; chunk_content := ""; chunk_page := Some p |}.

(** ** Page bounds (lines 865-885) *)

(** [pages.length > 0 ? Math.max(...pages) : 0] *)
Definition maxPage (grouped : PageGroups) : Z :=
  match Object_keys grouped with
  | [] => 0
  | p :: pages => fold_left Z.max pages p
  end.

(** The value the effect of lines 866-875 leaves in [maxPdfPage]. *)
Definition maxPdfPage_effect (grouped : PageGroups) (documentTotalPages maxPdfPage : Z) : Z :=
  if 0 <? maxPage grouped then maxPage grouped
  else if 0 <? documentTotalPages then documentTotalPages
  else maxPdfPage.

(** [Object.keys(chunksByPage).map(Number).sort((a, b) => a - b)] *)
Definition pdfPageNumbers (grouped : PageGroups) : list Z :=
  merge_sort Z.le (Object_keys grouped).

(** [documentTotalPages > 0 ? documentTotalPages
     : (maxPdfPage || pdfPageNumbers.length)] *)
Definition totalPages (documentTotalPages maxPdfPage : Z) (grouped : PageGroups) : Z :=
  if 0 <? documentTotalPages then documentTotalPages
  else if maxPdfPage =? 0 then Z.of_nat (length (pdfPageNumbers grouped))
  else maxPdfPage.

(** [chunksByPage[p] && chunksByPage[p].length > 0] *)
Definition hasChunks (grouped : PageGroups) (p : Z) : bool :=
  match lookup_group p grouped with
  | Some (_ :: _) => true
  | _ => false
  end.

Inductive Direction : Type := prev | next.

(** [findNearestPageWithChunks] (lines 1343-1355); the two [for] loops
    run over [startPage + 1 .. totalPages] and [startPage - 1 .. 1]. *)
Definition findNearestPageWithChunks (grouped : PageGroups) (totalPages : Z)
    (startPage : Z) (direction : Direction) : Z :=
  if hasChunks grouped startPage then startPage
  else
    match direction with
    | next =>
        default startPage
          (List.find (hasChunks grouped) (seqZ (startPage + 1) (totalPages - startPage)))
    | prev =>
        default startPage
          (List.find (hasChunks grouped) (reverse (seqZ 1 (startPage - 1))))
    end.

(** ** Strings *)

(** [String.prototype.trim] and [toLowerCase]: the development is
    generic in them; [ascii_strings] is the instance used to run it. *)
Class JsString : Type := {
  trim : string -> string;
  toLowerCase : string -> string
}.

(** [s.includes(q)] *)
Fixpoint includes (s q : string) : bool :=
  Stdlib.Strings.String.prefix q s
  || match s with
     | EmptyString => false
     | String _ s' => includes s' q
     end.

Definition ascii_lower (a : ascii) : ascii :=
  let n := nat_of_ascii a in
  if ((65 <=? n) && (n <=? 90))%nat then ascii_of_nat (n + 32) else a.

Fixpoint ascii_toLowerCase (s : string) : string :=
  match s with
  | EmptyString => EmptyString
  | String a s' => String (ascii_lower a) (ascii_toLowerCase s')
  end.

Definition ascii_space (a : ascii) : bool :=
  let n := nat_of_ascii a in
  ((n =? 32) || ((9 <=? n) && (n <=? 13)))%nat.

Fixpoint trim_start (s : string) : string :=
  match s with
  | String a s' => if ascii_space a then trim_start s' else s
  | EmptyString => EmptyString
  end.

Definition ascii_trim (s : string) : string :=
  String.rev (trim_start (String.rev (trim_start s))).

#[global] Instance ascii_strings : JsString := {
  trim := ascii_trim;
  toLowerCase := ascii_toLowerCase
}.

(** ** The runtime: component state, timers and the effects of handlers *)

Inductive ViewMode : Type := text | pdf.

#[global] Instance ViewMode_eq_dec : EqDecision ViewMode.
Proof. solve_decision. Defined.

(** [{ type: 'changePage', page, highlight?, searchText? }] *)
Record ChangePage : Type := {
  msg_page : Z;
  msg_highlight : option (list string);
  msg_searchText : option string
}.

(** The viewer address: [/chat7v/pdf-viewer.html?url=..&page=..&title=..]
    with the optional [highlight] and [searchText] parameters. *)
Record ViewerUrl : Type := {
  url_filename : string;
  url_page : Z;
  url_title : string;
  url_highlight : option (list string);
  url_searchText : option string
}.

(** The callbacks handed to [setTimeout] and [setInterval].  A callback
    carries what its closure captured when it was created. *)
Inductive Task : Type :=
| ScrollToPageFirstChunk (firstChunk : option string)
| ResumeObserver
| SyncScroll (firstChunk : string)
| ScrollToMatch (matchId : string)
| RetryScrollToMatch (matchId : string)
| ObserverPageChange (actualPage : Z)
| CheckDelivered (win : nat)
| PollClosed (win : nat).

(** What a handler does to the world outside its own locals, in program
    order: writes to refs, state setters, callbacks to the parent, timers,
    DOM and window calls. *)
Inductive Effect : Type :=
| SetSuppressObserver (b : bool)
| OnPdfPageChange (page : Z)
| SetTimeout (callback : Task) (ms : nat)
| DebounceTimeout (callback : Task) (ms : nat)
| ClearObserverTimeout
| ScrollIntoView (chunk : string)
| ScrollContainerTo (chunk : string)
| SetIsSearching (b : bool)
| SetSearchResults (matches : list PDFChunk)
| SetCurrentSearchIndex (i : Z)
| SetLastSearchQuery (q : string)
| SetSearchText (s : string)
| SetChunks (chunks : list PDFChunk)
| SetDocumentTotalPages (t : Z)
| SetMaxPdfPage (p : Z)
| SetPdfViewerMode (m : ViewMode)
| PostMessage (win : nat) (message : ChangePage)
| PostMessageFailed (win : nat)
| FocusWindow (win : nat)
| WindowOpen (url : ViewerUrl) (newWindow : option nat)
| SetPdfViewerWindowRef (r : option nat)
| ConfirmDialog
| LocationAssign (url : ViewerUrl)
| UserClosesWindow (win : nat)
| UncaughtTypeError.

(** The state of [App] and [SourceViewer] the page logic reads, the
    browser's timer queue and window table, and the history of effects.
    The viewer is modelled with a document selected and no highlighted
    chunk. *)
Record Runtime : Type := mkRuntime {
  pdfCurrentPage : Z;
  pdfViewerMode : ViewMode;
  pdfViewerWindowRef : option nat;
  chunks : list PDFChunk;
  documentTotalPages : Z;
  maxPdfPage : Z;
  searchText : string;
  isSearching : bool;
  searchResults : list PDFChunk;
  currentSearchIndex : Z;
  lastSearchQuery : string;
  suppressObserverRef : bool;
  clock : nat;
  timers : list (nat * Task);
  closedWindows : list nat;
  openedWindows : nat;
  history : list Effect
}.

Definition with_pdfCurrentPage (v : Z) (w : Runtime) : Runtime :=
  let 'mkRuntime _ a2 a3 a4 a5 a6 a7 a8 a9 a10 a11 a12 a13 a14 a15 a16 a17 := w in
  mkRuntime v a2 a3 a4 a5 a6 a7 a8 a9 a10 a11 a12 a13 a14 a15 a16 a17.

Definition with_pdfViewerMode (v : ViewMode) (w : Runtime) : Runtime :=
  let 'mkRuntime a1 _ a3 a4 a5 a6 a7 a8 a9 a10 a11 a12 a13 a14 a15 a16 a17 := w in
  mkRuntime a1 v a3 a4 a5 a6 a7 a8 a9 a10 a11 a12 a13 a14 a15 a16 a17.

Definition with_pdfViewerWindowRef (v : option nat) (w : Runtime) : Runtime :=
  let 'mkRuntime a1 a2 _ a4 a5 a6 a7 a8 a9 a10 a11 a12 a13 a14 a15 a16 a17 := w in
  mkRuntime a1 a2 v a4 a5 a6 a7 a8 a9 a10 a11 a12 a13 a14 a15 a16 a17.

Definition with_chunks (v : list PDFChunk) (w : Runtime) : Runtime :=
  let 'mkRuntime a1 a2 a3 _ a5 a6 a7 a8 a9 a10 a11 a12 a13 a14 a15 a16 a17 := w in
  mkRuntime a1 a2 a3 v a5 a6 a7 a8 a9 a10 a11 a12 a13 a14 a15 a16 a17.

Definition with_documentTotalPages (v : Z) (w : Runtime) : Runtime :=
  let 'mkRuntime a1 a2 a3 a4 _ a6 a7 a8 a9 a10 a11 a12 a13 a14 a15 a16 a17 := w in
  mkRuntime a1 a2 a3 a4 v a6 a7 a8 a9 a10 a11 a12 a13 a14 a15 a16 a17.

Definition with_maxPdfPage (v : Z) (w : Runtime) : Runtime :=
  let 'mkRuntime a1 a2 a3 a4 a5 _ a7 a8 a9 a10 a11 a12 a13 a14 a15 a16 a17 := w in
  mkRuntime a1 a2 a3 a4 a5 v a7 a8 a9 a10 a11 a12 a13 a14 a15 a16 a17.

Definition with_searchText (v : string) (w : Runtime) : Runtime :=
  let 'mkRuntime a1 a2 a3 a4 a5 a6 _ a8 a9 a10 a11 a12 a13 a14 a15 a16 a17 := w in
  mkRuntime a1 a2 a3 a4 a5 a6 v a8 a9 a10 a11 a12 a13 a14 a15 a16 a17.

Definition with_isSearching (v : bool) (w : Runtime) : Runtime :=
  let 'mkRuntime a1 a2 a3 a4 a5 a6 a7 _ a9 a10 a11 a12 a13 a14 a15 a16 a17 := w in
  mkRuntime a1 a2 a3 a4 a5 a6 a7 v a9 a10 a11 a12 a13 a14 a15 a16 a17.

Definition with_searchResults (v : list PDFChunk) (w : Runtime) : Runtime :=
  let 'mkRuntime a1 a2 a3 a4 a5 a6 a7 a8 _ a10 a11 a12 a13 a14 a15 a16 a17 := w in
  mkRuntime a1 a2 a3 a4 a5 a6 a7 a8 v a10 a11 a12 a13 a14 a15 a16 a17.

Definition with_currentSearchIndex (v : Z) (w : Runtime) : Runtime :=
  let 'mkRuntime a1 a2 a3 a4 a5 a6 a7 a8 a9 _ a11 a12 a13 a14 a15 a16 a17 := w in
  mkRuntime a1 a2 a3 a4 a5 a6 a7 a8 a9 v a11 a12 a13 a14 a15 a16 a17.

Definition with_lastSearchQuery (v : string) (w : Runtime) : Runtime :=
  let 'mkRuntime a1 a2 a3 a4 a5 a6 a7 a8 a9 a10 _ a12 a13 a14 a15 a16 a17 := w in
  mkRuntime a1 a2 a3 a4 a5 a6 a7 a8 a9 a10 v a12 a13 a14 a15 a16 a17.

Definition with_suppressObserverRef (v : bool) (w : Runtime) : Runtime :=
  let 'mkRuntime a1 a2 a3 a4 a5 a6 a7 a8 a9 a10 a11 _ a13 a14 a15 a16 a17 := w in
  mkRuntime a1 a2 a3 a4 a5 a6 a7 a8 a9 a10 a11 v a13 a14 a15 a16 a17.

Definition with_clock (v : nat) (w : Runtime) : Runtime :=
  let 'mkRuntime a1 a2 a3 a4 a5 a6 a7 a8 a9 a10 a11 a12 _ a14 a15 a16 a17 := w in
  mkRuntime a1 a2 a3 a4 a5 a6 a7 a8 a9 a10 a11 a12 v a14 a15 a16 a17.

Definition with_timers (v : list (nat * Task)) (w : Runtime) : Runtime :=
  let 'mkRuntime a1 a2 a3 a4 a5 a6 a7 a8 a9 a10 a11 a12 a13 _ a15 a16 a17 := w in
  mkRuntime a1 a2 a3 a4 a5 a6 a7 a8 a9 a10 a11 a12 a13 v a15 a16 a17.

Definition with_closedWindows (v : list nat) (w : Runtime) : Runtime :=
  let 'mkRuntime a1 a2 a3 a4 a5 a6 a7 a8 a9 a10 a11 a12 a13 a14 _ a16 a17 := w in
  mkRuntime a1 a2 a3 a4 a5 a6 a7 a8 a9 a10 a11 a12 a13 a14 v a16 a17.

Definition with_openedWindows (v : nat) (w : Runtime) : Runtime :=
  let 'mkRuntime a1 a2 a3 a4 a5 a6 a7 a8 a9 a10 a11 a12 a13 a14 a15 _ a17 := w in
  mkRuntime a1 a2 a3 a4 a5 a6 a7 a8 a9 a10 a11 a12 a13 a14 a15 v a17.

Definition with_history (v : list Effect) (w : Runtime) : Runtime :=
  let 'mkRuntime a1 a2 a3 a4 a5 a6 a7 a8 a9 a10 a11 a12 a13 a14 a15 a16 _ := w in
  mkRuntime a1 a2 a3 a4 a5 a6 a7 a8 a9 a10 a11 a12 a13 a14 a15 a16 v.

(** The derived values of a render. *)
Definition grouped (w : Runtime) : PageGroups :=
  chunksByPage (chunks w) (documentTotalPages w).

Definition total (w : Runtime) : Z :=
  totalPages (documentTotalPages w) (maxPdfPage w) (grouped w).

(** [existingWindow && !existingWindow.closed] *)
Definition liveWindow (w : Runtime) : option nat :=
  match pdfViewerWindowRef w with
  | Some win => if bool_decide (win ∈ closedWindows w) then None else Some win
  | None => None
  end.

(** [chunksByPage[page]?.[0]?.id] *)
Definition firstChunkOf (grouped : PageGroups) (page : Z) : option string :=
  match lookup_group page grouped with
  | Some (firstChunk :: _) => Some (chunk_id firstChunk)
  | _ => None
  end.

(** The [for (const [pageNum, pageChunks] of Object.entries(chunksByPage))]
    loops: the key of the first group that holds a chunk with this id. *)
Definition pageOfChunk (grouped : PageGroups) (id : string) : option Z :=
  fst <$> List.find (fun e => existsb (fun c => String.eqb (chunk_id c) id) e.2)
                    (Object_entries grouped).

(** [window.document.getElementById(`chunk-${id}`)]: the text view
    renders the chunks of the current page. *)
Definition rendered (w : Runtime) (id : string) : bool :=
  bool_decide (pdfViewerMode w = text)
  && existsb (fun c => String.eqb (chunk_id c) id)
             (default [] (lookup_group (pdfCurrentPage w) (grouped w))).

(** [scrollContainerRef.current] *)
Definition scrollContainer (w : Runtime) : bool := bool_decide (pdfViewerMode w = text).

(** The page number input (lines 1766-1769); [v] is the parsed value. *)
Definition handlePageInput (v : Z) (w : Runtime) : list Effect :=
  [OnPdfPageChange (Z.min (Z.max 1 v) (Z.max 1 (total w)))].

(** Lines 1357-1371. *)
Definition handlePreviousPage (w : Runtime) : list Effect :=
  let requested := Z.max 1 (pdfCurrentPage w - 1) in
  let target := findNearestPageWithChunks (grouped w) (total w) requested prev in
  if target =? pdfCurrentPage w then []
  else [SetSuppressObserver true;
        OnPdfPageChange target;
        SetTimeout (ScrollToPageFirstChunk (firstChunkOf (grouped w) target)) 0;
        SetTimeout ResumeObserver 400].

(** Lines 1373-1387. *)
Definition handleNextPage (w : Runtime) : list Effect :=
  let requested := Z.min (total w) (pdfCurrentPage w + 1) in
  let target := findNearestPageWithChunks (grouped w) (total w) requested next in
  if target =? pdfCurrentPage w then []
  else [SetSuppressObserver true;
        OnPdfPageChange target;
        SetTimeout (ScrollToPageFirstChunk (firstChunkOf (grouped w) target)) 0;
        SetTimeout ResumeObserver 400].

(** Lines 1236-1294, up to the first [setTimeout]. *)
Definition navigateToSearchResult (w : Runtime) (result : PDFChunk) : list Effect :=
  let targetPage := default 1 (pageOfChunk (grouped w) (chunk_id result)) in
  [SetSuppressObserver true;
   OnPdfPageChange targetPage;
   SetTimeout (ScrollToMatch (chunk_id result)) 400].

(** [searchResults[nextIndex]] *)
Definition nth_result (l : list PDFChunk) (i : Z) : option PDFChunk :=
  if i <? 0 then None else l !! Z.to_nat i.

(** Lines 1297-1327.  The JavaScript remainder [%] is [Z.rem]. *)
Definition handleSearchSubmit `{JsString} (w : Runtime) : list Effect :=
  let query := toLowerCase (trim (searchText w)) in
  if String.eqb query "" || (length (chunks w) =? 0)%nat then []
  else
    [SetIsSearching true]
    ++ (if negb (String.eqb query (lastSearchQuery w)) then
          let matches :=
            List.filter (fun c => includes (toLowerCase (chunk_content c)) query) (chunks w) in
          [SetSearchResults matches; SetCurrentSearchIndex 0; SetLastSearchQuery query]
          ++ match matches with
             | first :: _ => navigateToSearchResult w first
             | [] => []
             end
        else
          match searchResults w with
          | [] => []
          | _ :: _ =>
              let nextIndex :=
                Z.rem (currentSearchIndex w + 1) (Z.of_nat (length (searchResults w))) in
              SetCurrentSearchIndex nextIndex
              :: match nth_result (searchResults w) nextIndex with
                 | Some result => navigateToSearchResult w result
                 | None => [UncaughtTypeError]
                 end
          end)
    ++ [SetIsSearching false].

(** An [IntersectionObserverEntry]: the chunk id of the target, whether
    it intersects and its ratio. *)
Record Entry : Type := {
  entry_target : string;
  isIntersecting : bool;
  intersectionRatio : Q
}.

(** The [entries.forEach] of the observer callback (lines 1552-1564). *)
Definition mostVisibleChunk (chunks : list PDFChunk) (entries : list Entry) : option PDFChunk :=
  fst (fold_left
         (fun (acc : option PDFChunk * Q) (entry : Entry) =>
            let '(mostVisible, maxVisibilityRatio) := acc in
            if isIntersecting entry
               && negb (Qle_bool (intersectionRatio entry) maxVisibilityRatio)
            then
              match List.find (fun c => String.eqb (chunk_id c) (entry_target entry)) chunks with
              | Some chunk => (Some chunk, intersectionRatio entry)
              | None => acc
              end
            else acc)
         entries (None, 0%Q)).

(** The observer callback (lines 1547-1584).  An observer exists only in
    the text view of a non-empty chunk list (line 1540). *)
Definition observerCallback (entries : list Entry) (w : Runtime) : list Effect :=
  if bool_decide (pdfViewerMode w = pdf) || (length (chunks w) =? 0)%nat then []
  else if suppressObserverRef w then []
  else
    match mostVisibleChunk (chunks w) entries with
    | None => []
    | Some chunk =>
        match pageOfChunk (grouped w) (chunk_id chunk) with
        | Some actualPage =>
            if actualPage =? pdfCurrentPage w then []
            else [DebounceTimeout (ObserverPageChange actualPage) 100]
        | None => []
        end
    end.

(** The effect of lines 1612-1630 that scrolls the text view to the
    current page. *)
Definition syncScrollEffect (w : Runtime) : list Effect :=
  if bool_decide (pdfViewerMode w = text) && (0 <? pdfCurrentPage w)
     && (0 <? length (chunks w))%nat
  then
    match firstChunkOf (grouped w) (pdfCurrentPage w) with
    | Some firstChunk => [SetSuppressObserver true; SetTimeout (SyncScroll firstChunk) 50]
    | None => []
    end
  else [].

(** The effect of lines 866-875. *)
Definition maxPdfPageEffect (w : Runtime) : list Effect :=
  if 0 <? maxPage (grouped w) then [SetMaxPdfPage (maxPage (grouped w))]
  else if 0 <? documentTotalPages w then [SetMaxPdfPage (documentTotalPages w)]
  else [].

(** The effect of lines 1438-1444. *)
Definition searchResetEffect `{JsString} (w : Runtime) : list Effect :=
  if String.eqb (trim (searchText w)) "" then
    [SetSearchResults []; SetCurrentSearchIndex (-1); SetLastSearchQuery ""]
  else [].

(** [scrollToMatch] inside [navigateToSearchResult] (lines 1251-1281). *)
Definition scrollToMatch (w : Runtime) (matchId : string) : list Effect :=
  if rendered w matchId && scrollContainer w then
    [ScrollContainerTo matchId; SetTimeout ResumeObserver 500]
  else if rendered w matchId then
    [ScrollIntoView matchId; SetSuppressObserver false]
  else [].

(** What a timer callback does when it runs. *)
Definition fire (w : Runtime) (t : Task) : list Effect :=
  match t with
  | ScrollToPageFirstChunk (Some firstChunk) =>
      if rendered w firstChunk then [ScrollIntoView firstChunk] else []
  | ScrollToPageFirstChunk None => []
  | ResumeObserver => [SetSuppressObserver false]
  | SyncScroll firstChunk =>
      (if rendered w firstChunk then [ScrollIntoView firstChunk] else [])
      ++ [SetTimeout ResumeObserver 300]
  | ScrollToMatch matchId =>
      scrollToMatch w matchId ++ [SetTimeout (RetryScrollToMatch matchId) 200]
  | RetryScrollToMatch matchId =>
      if rendered w matchId && scrollContainer w then scrollToMatch w matchId else []
  | ObserverPageChange actualPage => [OnPdfPageChange actualPage]
  | CheckDelivered win =>
      if bool_decide (win ∈ closedWindows w) then [SetPdfViewerWindowRef None] else []
  | PollClosed win =>
      if bool_decide (win ∈ closedWindows w) then [SetPdfViewerWindowRef None]
      else [SetTimeout (PollClosed win) 1000]
  end.

Definition isObserverPageChange (t : Task) : bool :=
  match t with
  | ObserverPageChange _ => true
  | _ => false
  end.

Definition record (e : Effect) (w : Runtime) : Runtime :=
  with_history (history w ++ [e]) w.

(** One effect takes place.  [OnPdfPageChange] is the callback [App]
    passes down (lines 686-702): it stores the page and forwards it to a
    live external window. *)
Definition perform (e : Effect) (w : Runtime) : Runtime :=
  let w := record e w in
  match e with
  | SetSuppressObserver b => with_suppressObserverRef b w
  | OnPdfPageChange page =>
      let w := with_pdfCurrentPage page w in
      match liveWindow w with
      | Some win =>
          record (PostMessage win {| msg_page := page; msg_highlight := None;
                                     msg_searchText := None |}) w
      | None => w
      end
  | SetTimeout callback ms => with_timers (timers w ++ [((clock w + ms)%nat, callback)]) w
  | DebounceTimeout callback ms =>
      with_timers
        (List.filter (fun t => negb (isObserverPageChange t.2)) (timers w)
         ++ [((clock w + ms)%nat, callback)]) w
  | ClearObserverTimeout =>
      with_timers (List.filter (fun t => negb (isObserverPageChange t.2)) (timers w)) w
  | SetIsSearching b => with_isSearching b w
  | SetSearchResults matches => with_searchResults matches w
  | SetCurrentSearchIndex i => with_currentSearchIndex i w
  | SetLastSearchQuery q => with_lastSearchQuery q w
  | SetSearchText s => with_searchText s w
  | SetChunks l => with_chunks l w
  | SetDocumentTotalPages t => with_documentTotalPages t w
  | SetMaxPdfPage p => with_maxPdfPage p w
  | SetPdfViewerMode m => with_pdfViewerMode m w
  | WindowOpen _ (Some _) => with_openedWindows (S (openedWindows w)) w
  | SetPdfViewerWindowRef r => with_pdfViewerWindowRef r w
  | UserClosesWindow win => with_closedWindows (win :: closedWindows w) w
  | _ => w
  end.

Definition perform_all (effects : list Effect) (w : Runtime) : Runtime :=
  fold_left (fun w e => perform e w) effects w.

Definition isSetChunks (e : Effect) : bool :=
  match e with
  | SetChunks _ => true
  | _ => false
  end.

(** The effects React runs after the render that follows a batch of
    state changes, by their dependency lists: the cleanup of the
    observer, then the effects in the order of the source. *)
Definition render_effects `{JsString} (effects : list Effect) (before after : Runtime)
    : list Effect :=
  let groupedChanged :=
    existsb isSetChunks effects
    || negb (documentTotalPages before =? documentTotalPages after) in
  let pageChanged := negb (pdfCurrentPage before =? pdfCurrentPage after) in
  let modeChanged := negb (bool_decide (pdfViewerMode before = pdfViewerMode after)) in
  (if groupedChanged || pageChanged || modeChanged then [ClearObserverTimeout] else [])
  ++ (if groupedChanged then maxPdfPageEffect after else [])
  ++ (if negb (String.eqb (searchText before) (searchText after))
      then searchResetEffect after else [])
  ++ (if pageChanged || modeChanged || groupedChanged then syncScrollEffect after else []).

(** A handler or callback runs to completion, then React renders. *)
Definition run `{JsString} (effects : list Effect) (w : Runtime) : Runtime :=
  let w1 := perform_all effects w in
  perform_all (render_effects effects w w1) w1.

Definition dispatch `{JsString} (handler : Runtime -> list Effect) (w : Runtime) : Runtime :=
  run (handler w) w.

Definition fire_all `{JsString} (ready : list Task) (w : Runtime) : Runtime :=
  fold_left (fun w t => run (fire w t) w) ready w.

(** One millisecond passes: the timers that are due run, earliest first. *)
Definition tick `{JsString} (w : Runtime) : Runtime :=
  let c := S (clock w) in
  let late := List.filter (fun t => (t.1 <? c)%nat) (timers w) in
  let due := List.filter (fun t => (t.1 =? c)%nat) (timers w) in
  let waiting := List.filter (fun t => (c <? t.1)%nat) (timers w) in
  fire_all ((late ++ due).*2) (with_timers waiting (with_clock c w)).

Definition advance `{JsString} (ms : nat) (w : Runtime) : Runtime := Nat.iter ms tick w.

(** ** The external window bridge (handleReferenceClick, lines 236-421) *)

(** The detail of a [referenceClick] event.  The keyword extraction of
    lines 252-308 is string processing whose results, [uniqueKeywords]
    and [coreSearchText], are taken as given. *)
Record ReferenceClick : Type := {
  ref_filename : string;
  ref_page : option Z;
  ref_title : string;
  ref_chunkContent : string;
  uniqueKeywords : list string;
  coreSearchText : option string
}.

(** What the browser answers: whether [postMessage] throws, whether the
    popup is blocked, and the answer to the confirmation dialog. *)
Record Browser : Type := {
  postMessageThrows : bool;
  popupBlocked : bool;
  confirmOpen : bool
}.

(** [coreSearchText || (chunkContent ? chunkContent.substring(0, 30) : undefined)] *)
Definition searchSnippet (d : ReferenceClick) : option string :=
  match coreSearchText d with
  | Some s => if String.eqb s "" then
                if String.eqb (ref_chunkContent d) "" then None
                else Some (substring 0 30 (ref_chunkContent d))
              else Some s
  | None => if String.eqb (ref_chunkContent d) "" then None
            else Some (substring 0 30 (ref_chunkContent d))
  end.

Definition highlightOf (d : ReferenceClick) : option (list string) :=
  match uniqueKeywords d with
  | [] => None
  | ks => Some ks
  end.

(** Lines 354-406: open a new window, or fall back when it is blocked. *)
Definition openViewerWindow (b : Browser) (d : ReferenceClick) (page : Z) (w : Runtime)
    : list Effect :=
  let viewerUrl :=
    {| url_filename := ref_filename d;
       url_page := page;
       url_title := if String.eqb (ref_title d) "" then ref_filename d else ref_title d;
       url_highlight := highlightOf d;
       url_searchText := searchSnippet d |} in
  if popupBlocked b then
    [WindowOpen viewerUrl None; ConfirmDialog]
    ++ (if confirmOpen b then [LocationAssign viewerUrl] else [])
  else
    let newWindow := openedWindows w in
    [WindowOpen viewerUrl (Some newWindow);
     SetPdfViewerWindowRef (Some newWindow);
     SetTimeout (PollClosed newWindow) 1000].

Definition handleReferenceClick (b : Browser) (d : ReferenceClick) (w : Runtime)
    : list Effect :=
  match ref_page d with
  | Some page =>
      if negb (String.eqb (ref_filename d) "") && negb (page =? 0) && (0 <? page) then
        match liveWindow w with
        | Some existingWindow =>
            if postMessageThrows b then
              [PostMessageFailed existingWindow; SetPdfViewerWindowRef None]
              ++ openViewerWindow b d page w
            else
              [PostMessage existingWindow
                 {| msg_page := page; msg_highlight := highlightOf d;
                    msg_searchText := searchSnippet d |};
               FocusWindow existingWindow;
               SetTimeout (CheckDelivered existingWindow) 100]
        | None => openViewerWindow b d page w
        end
      else []
  | None => []
  end.

(** The component right after mount: page 1 in the text view, nothing
    loaded, no window. *)
Definition initial : Runtime :=
  {| pdfCurrentPage := 1; pdfViewerMode := text; pdfViewerWindowRef := None;
     chunks := []; documentTotalPages := 0; maxPdfPage := 0;
     searchText := ""; isSearching := false; searchResults := [];
     currentSearchIndex := -1; lastSearchQuery := "";
     suppressObserverRef := false; clock := 0; timers := [];
     closedWindows := []; openedWindows := 0; history := [] |}.

(** The two state updates of [loadChunks] (lines 1446-1494), each
    followed by its render: the declared page count of the document
    ([document.totalPages || 0]) and the chunk list. *)
Definition resolveTotalPages `{JsString} (t : Z) (w : Runtime) : Runtime :=
  dispatch (fun _ => [SetDocumentTotalPages t]) w.

Definition resolveChunks `{JsString} (l : list PDFChunk) (w : Runtime) : Runtime :=
  dispatch (fun _ => [SetChunks l]) w.

(** The effect of lines 866-875 has run on the current render. *)
Definition settled (w : Runtime) : Prop :=
  maxPdfPage w = maxPdfPage_effect (grouped w) (documentTotalPages w) (maxPdfPage w).

(** A reference to page 3 of a file, with one keyword. *)
Definition sample_click : ReferenceClick :=
  {| ref_filename := "guide.pdf"; ref_page := Some 3; ref_title := "Guide";
     ref_chunkContent := "Smoking is not allowed in the building.";
     uniqueKeywords := ["smoking"]; coreSearchText := None |}.

Definition plain_browser : Browser :=
  {| postMessageThrows := false; popupBlocked := false; confirmOpen := false |}.

(** ** Which effect writes which field *)

Definition sets_pdfCurrentPage (e : Effect) : option Z :=
  match e with OnPdfPageChange p => Some p | _ => None end.
Definition sets_pdfViewerMode (e : Effect) : option ViewMode :=
  match e with SetPdfViewerMode m => Some m | _ => None end.
Definition sets_pdfViewerWindowRef (e : Effect) : option (option nat) :=
  match e with SetPdfViewerWindowRef r => Some r | _ => None end.
Definition sets_chunks (e : Effect) : option (list PDFChunk) :=
  match e with SetChunks l => Some l | _ => None end.
Definition sets_documentTotalPages (e : Effect) : option Z :=
  match e with SetDocumentTotalPages t => Some t | _ => None end.
Definition sets_maxPdfPage (e : Effect) : option Z :=
  match e with SetMaxPdfPage p => Some p | _ => None end.
Definition sets_searchText (e : Effect) : option string :=
  match e with SetSearchText s => Some s | _ => None end.
Definition sets_isSearching (e : Effect) : option bool :=
  match e with SetIsSearching b => Some b | _ => None end.
Definition sets_searchResults (e : Effect) : option (list PDFChunk) :=
  match e with SetSearchResults l => Some l | _ => None end.
Definition sets_currentSearchIndex (e : Effect) : option Z :=
  match e with SetCurrentSearchIndex i => Some i | _ => None end.
Definition sets_lastSearchQuery (e : Effect) : option string :=
  match e with SetLastSearchQuery q => Some q | _ => None end.
Definition sets_suppressObserverRef (e : Effect) : option bool :=
  match e with SetSuppressObserver b => Some b | _ => None end.

(** The last write of a batch wins. *)
Definition last_set {T : Type} (sets : Effect -> option T) (effects : list Effect) (v : T) : T :=
  fold_left (fun v e => default v (sets e)) effects v.

(** The timer queue after one effect, at clock [c]. *)
Definition timers_after (c : nat) (e : Effect) (q : list (nat * Task)) : list (nat * Task) :=
  match e with
  | SetTimeout callback ms => q ++ [((c + ms)%nat, callback)]
  | DebounceTimeout callback ms =>
      List.filter (fun t => negb (isObserverPageChange t.2)) q ++ [((c + ms)%nat, callback)]
  | ClearObserverTimeout => List.filter (fun t => negb (isObserverPageChange t.2)) q
  | _ => q
  end.

(** A document that declares 5 pages while one of its chunks carries
    page 10. *)
Definition overshooting_document : Runtime :=
  resolveChunks [paged_chunk "a" 10] (resolveTotalPages 5 initial).

(** The effects a render can add. *)
Definition is_render_effect (e : Effect) : bool :=
  match e with
  | ClearObserverTimeout | SetMaxPdfPage _ | SetSearchResults _
  | SetCurrentSearchIndex _ | SetLastSearchQuery _ | SetSuppressObserver _
  | SetTimeout _ _ => true
  | _ => false
  end.

(** Effects that leave every dependency of the render effects alone. *)
Definition is_quiet (e : Effect) : bool :=
  match e with
  | OnPdfPageChange _ | SetPdfViewerMode _ | SetChunks _
  | SetDocumentTotalPages _ | SetSearchText _ => false
  | _ => true
  end.

(** The chunks whose lower-cased content contains the query (line 1308). *)
Definition search_matches `{JsString} (query : string) (l : list PDFChunk) : list PDFChunk :=
  List.filter (fun c => includes (toLowerCase (chunk_content c)) query) l.





(** ** The cooldown after a page navigation *)

(** The callbacks that may be pending while a page navigation cools
    down: its own, and the liveness checks of the external window. *)
Definition cooldown_task (t : Task) : bool :=
  match t with
  | ScrollToPageFirstChunk _ | SyncScroll _ | ResumeObserver
  | CheckDelivered _ | PollClosed _ => true
  | _ => false
  end.

(** The callbacks that may be pending when a navigation starts without
    overlapping an earlier programmatic move: a scroll to a page, the
    liveness checks of the external window and a debounced observation. *)
Definition idle_task (t : Task) : bool :=
  match t with
  | ScrollToPageFirstChunk _ | CheckDelivered _ | PollClosed _
  | ObserverPageChange _ => true
  | _ => false
  end.

Definition isResumeObserver (t : Task) : bool :=
  match t with
  | ResumeObserver => true
  | _ => false
  end.

(** The timers a cooldown callback sets when it runs. *)
Definition timers_set_by (w : Runtime) (t : Task) : list (nat * Task) :=
  match t with
  | SyncScroll _ => [((clock w + 300)%nat, ResumeObserver)]
  | PollClosed win =>
      if bool_decide (win ∈ closedWindows w) then []
      else [((clock w + 1000)%nat, PollClosed win)]
  | _ => []
  end.

(** A timer of a navigation that started at clock [c0]: the scroll to
    the page is due 50 ms later at the earliest, a release of the
    observer 350 ms later at the earliest. *)
Definition cooldown_timer (c0 : nat) (t : nat * Task) : Prop :=
  cooldown_task t.2 = true
  /\ (forall firstChunk, t.2 = SyncScroll firstChunk -> (c0 + 50 <= t.1)%nat)
  /\ (t.2 = ResumeObserver -> (c0 + 350 <= t.1)%nat).

(** The runtime [k] ms into the cooldown of a navigation started at [c0]. *)
Definition cooling (c0 k : nat) (w : Runtime) : Prop :=
  clock w = (c0 + k)%nat
  /\ Forall (cooldown_timer c0) (timers w)
  /\ ((k < 350)%nat -> suppressObserverRef w = true)
  /\ ((k < 400)%nat -> ((c0 + 400)%nat, ResumeObserver) ∈ timers w)
  /\ ((400 <= k)%nat -> suppressObserverRef w = false).

(** A timer set while callbacks due at clock [c] run: a release of the
    observer 300 ms after a scroll to the page that was due, or the next
    poll of the external window. *)
Definition set_while_firing (c : nat) (ready : list Task) (t : nat * Task) : Prop :=
  (t = ((c + 300)%nat, ResumeObserver) /\ exists firstChunk, SyncScroll firstChunk ∈ ready)
  \/ exists win, t.2 = PollClosed win.

(** The batch of effects of a page navigation (lines 1363-1370 and
    1379-1386). *)
Definition navigation (target : Z) (firstChunk : option string) : list Effect :=
  [SetSuppressObserver true;
   OnPdfPageChange target;
   SetTimeout (ScrollToPageFirstChunk firstChunk) 0;
   SetTimeout ResumeObserver 400].

(** Ten chunks on five pages, declared as five pages, page 1 shown. *)
Definition five_page_document : Runtime :=
  Eval vm_compute in
  resolveChunks
    (map (fun i => paged_chunk (String (ascii_of_nat (97 + i)) "") (Z.of_nat (i / 2) + 1))
         (seq 0 10))
    (resolveTotalPages 5 initial).

(** The same document once the timers of the load have run, with an
    external window opened by a reference click and polled every second. *)
Definition five_page_document_at_rest : Runtime :=
  Eval vm_compute in
  dispatch (handleReferenceClick plain_browser sample_click)
           (advance 400 five_page_document).

(** The same document 300 ms after a click on the next-page button: the
    two releases of that navigation are still pending. *)
Definition clicked_300_ms_ago : Runtime :=
  Eval vm_compute in advance 300 (dispatch handleNextPage five_page_document_at_rest).

(** The same document 400 ms after that click, on page 2: the
    navigation has cooled down. *)
Definition five_page_document_on_page_2 : Runtime :=
  Eval vm_compute in advance 400 (dispatch handleNextPage five_page_document_at_rest).

(** ** Counting what reaches the external window *)

Definition isWindowOpen (e : Effect) : bool :=
  match e with
  | WindowOpen _ _ => true
  | _ => false
  end.

Definition isPostMessage (e : Effect) : bool :=
  match e with
  | PostMessage _ _ => true
  | _ => false
  end.

(** The windows a batch of effects opens. *)
Definition windows_opened (effects : list Effect) : nat :=
  length (List.filter (fun e => match e with WindowOpen _ (Some _) => true | _ => false end)
                      effects).

(** A first click opened window 0. *)
Definition window_open : Runtime :=
  Eval vm_compute in dispatch (handleReferenceClick plain_browser sample_click) initial.

(** The user closed it before the poll noticed. *)
Definition window_closed : Runtime :=
  Eval vm_compute in dispatch (fun _ => [UserClosesWindow 0]) window_open.

(** ** The chunks on the screen (getPaginatedChunks, lines 899-907) *)

(** [chunksByPage[pdfCurrentPage] || []] *)
Definition getPaginatedChunks (w : Runtime) : list PDFChunk :=
  default [] (lookup_group (pdfCurrentPage w) (grouped w)).

(** Chunks on pages 1, 2 and 5 of a document that declares seven pages. *)
Definition sparse_document : Runtime :=
  Eval vm_compute in
  resolveChunks [paged_chunk "a" 1; paged_chunk "b" 2; paged_chunk "c" 5; paged_chunk "d" 2]
    (resolveTotalPages 7 initial).

(** The same document with page 2 on the screen. *)
Definition sparse_document_on_page_2 : Runtime :=
  Eval vm_compute in dispatch (handlePageInput 2) sparse_document.

(** What the observer sees while page 2 is scrolled: chunk [d] mostly in
    view, chunk [b] partly, an element that is no chunk fully. *)
Definition sample_entries : list Entry :=
  [ {| entry_target := "b"; isIntersecting := true; intersectionRatio := (6 # 10)%Q |};
    {| entry_target := "zz"; isIntersecting := true; intersectionRatio := 1%Q |};
    {| entry_target := "d"; isIntersecting := true; intersectionRatio := (9 # 10)%Q |};
    {| entry_target := "a"; isIntersecting := false; intersectionRatio := 0%Q |} ].

(** [chunks.find((c) => c.id === chunkId)] *)
Definition chunkOfEntry (chunks : list PDFChunk) (entry : Entry) : option PDFChunk :=
  List.find (fun c => String.eqb (chunk_id c) (entry_target entry)) chunks.

(** ** What a batch of effects asks of the page and of the external window *)

(** The pages a batch of effects reports through [onPdfPageChange]. *)
Definition pageChanges (effects : list Effect) : list Z := omap sets_pdfCurrentPage effects.

(** The messages posted so far, with the window they went to. *)
Definition messages (effects : list Effect) : list (nat * ChangePage) :=
  omap (fun e => match e with PostMessage win m => Some (win, m) | _ => None end) effects.

(** [{ type: 'changePage', page: page }] (lines 694-697). *)
Definition pageMessage (page : Z) : ChangePage :=
  {| msg_page := page; msg_highlight := None; msg_searchText := None |}.

(** Effects that neither touch the stored window or the window table
    nor post to a window themselves. *)
Definition keeps_window (e : Effect) : bool :=
  match e with
  | SetPdfViewerWindowRef _ | UserClosesWindow _ | PostMessage _ _ => false
  | _ => true
  end.

(** Effects that neither store a window nor close one. *)
Definition poll_safe (e : Effect) : bool :=
  match e with
  | SetPdfViewerWindowRef (Some _) | UserClosesWindow _ => false
  | _ => true
  end.

(** What [onPdfPageChange] posts on top of storing the page (lines
    690-701). *)
Definition forwarded (e : Effect) (w : Runtime) : list Effect :=
  match e with
  | OnPdfPageChange page =>
      match liveWindow w with
      | Some win => [PostMessage win (pageMessage page)]
      | None => []
      end
  | _ => []
  end.

(** The poll of a window: either the stored window is already dropped,
    or the poll is still pending for a window that is closed. *)
Definition poll_pending (old due : nat) (w : Runtime) : Prop :=
  pdfViewerWindowRef w = None
  \/ ((due, PollClosed old) ∈ timers w /\ old ∈ closedWindows w /\ (clock w < due)%nat).

(** The user closed window 0 and clicked a reference again before the
    poll of window 0 noticed: window 1 is open and stored. *)
Definition reopened_within_the_second : Runtime :=
  Eval vm_compute in
  dispatch (handleReferenceClick plain_browser sample_click) window_closed.

(** The five-page document with "SMOKING " typed into the search box,
    and a chunk that mentions it on page 3. *)
Definition smoking_document : Runtime :=
  Eval vm_compute in
  dispatch (fun _ => [SetSearchText "SMOKING "])
    (resolveChunks
       [ {| chunk_id := "c1"; chunk_content := "Scope"; chunk_page := Some 1 |};
         {| chunk_id := "c2"; chunk_content := "No smoking indoors"; chunk_page := Some 3 |};
         {| chunk_id := "c3"; chunk_content := "Smoking areas"; chunk_page := Some 4 |} ]
       (resolveTotalPages 5 initial)).

(** The same document after two submissions of the query. *)
Definition smoking_document_second_match : Runtime :=
  Eval vm_compute in
  dispatch handleSearchSubmit (dispatch handleSearchSubmit smoking_document).

(** ** Sessions: what happens to the viewer, one event after another *)

(** The events the modelled handlers answer: the page controls, the
    search box and its form, the intersection observer, a reference click
    in the chat, the user closing the external window, the two answers of
    [loadChunks], a change of the view mode, and the passing of a
    millisecond. *)
Inductive Event : Type :=
| PageTyped (v : Z)
| PreviousClicked
| NextClicked
| SearchTyped (s : string)
| SearchSubmitted
| Observed (entries : list Entry)
| ReferenceClicked (b : Browser) (d : ReferenceClick)
| WindowClosedByUser (win : nat)
| TotalPagesLoaded (t : Z)
| ChunksLoaded (l : list PDFChunk)
| ViewModeChanged (m : ViewMode)
| MillisecondPassed.

Definition handle `{JsString} (ev : Event) (w : Runtime) : Runtime :=
  match ev with
  | PageTyped v => dispatch (handlePageInput v) w
  | PreviousClicked => dispatch handlePreviousPage w
  | NextClicked => dispatch handleNextPage w
  | SearchTyped s => dispatch (fun _ => [SetSearchText s]) w
  | SearchSubmitted => dispatch handleSearchSubmit w
  | Observed entries => dispatch (observerCallback entries) w
  | ReferenceClicked b d => dispatch (handleReferenceClick b d) w
  | WindowClosedByUser win => dispatch (fun _ => [UserClosesWindow win]) w
  | TotalPagesLoaded t => resolveTotalPages t w
  | ChunksLoaded l => resolveChunks l w
  | ViewModeChanged m => dispatch (fun _ => [SetPdfViewerMode m]) w
  | MillisecondPassed => tick w
  end.

(** The runtime after a session that starts at the mounted component. *)
Definition replay `{JsString} (events : list Event) : Runtime :=
  fold_left (fun w ev => handle ev w) events initial.

(** The effects of the handler that an event runs; time runs timers
    instead. *)
Definition handlerEffects `{JsString} (ev : Event) (w : Runtime) : list Effect :=
  match ev with
  | PageTyped v => handlePageInput v w
  | PreviousClicked => handlePreviousPage w
  | NextClicked => handleNextPage w
  | SearchTyped s => [SetSearchText s]
  | SearchSubmitted => handleSearchSubmit w
  | Observed entries => observerCallback entries w
  | ReferenceClicked b d => handleReferenceClick b d w
  | WindowClosedByUser win => [UserClosesWindow win]
  | TotalPagesLoaded t => [SetDocumentTotalPages t]
  | ChunksLoaded l => [SetChunks l]
  | ViewModeChanged m => [SetPdfViewerMode m]
  | MillisecondPassed => []
  end.

(** The events of the viewer itself: not a reference click in the chat,
    not the user closing the external window, not the passing of time. *)
Definition viewer_event (ev : Event) : bool :=
  match ev with
  | ReferenceClicked _ _ | WindowClosedByUser _ | MillisecondPassed => false
  | _ => true
  end.

(** The external window of [reopened_within_the_second] one second
    later: the poll of the first window has run. *)
Definition after_the_stale_poll : Runtime :=
  Eval vm_compute in advance 1000 reopened_within_the_second.

(** Effects that leave the search session alone and raise no error. *)
Definition search_neutral (e : Effect) : bool :=
  match e with
  | SetSearchText _ | SetSearchResults _ | SetCurrentSearchIndex _
  | SetLastSearchQuery _ | SetIsSearching _ | UncaughtTypeError => false
  | _ => true
  end.

(** The search is not marked as running; without matches the cursor is
    -1 or 0, with matches it is an index into the match list; and no
    handler has run into an undefined match. *)
Definition search_session_ok (w : Runtime) : Prop :=
  isSearching w = false
  /\ (searchResults w = [] -> currentSearchIndex w = -1 \/ currentSearchIndex w = 0)
  /\ (searchResults w <> [] ->
      0 <= currentSearchIndex w < Z.of_nat (length (searchResults w)))
  /\ UncaughtTypeError ∉ history w.

(** ** The observer's debounced page report *)

(** The page reports of the observer that wait for their debounce. *)
Definition pendingObservations (w : Runtime) : list (nat * Task) :=
  List.filter (fun t => isObserverPageChange t.2) (timers w).

(** Effects that change nothing a render depends on and neither set nor
    clear a page report of the observer. *)
Definition observation_free (e : Effect) : bool :=
  match e with
  | DebounceTimeout _ _ | ClearObserverTimeout | OnPdfPageChange _ | SetPdfViewerMode _
  | SetChunks _ | SetDocumentTotalPages _ | SetSearchText _ => false
  | SetTimeout callback _ => negb (isObserverPageChange callback)
  | _ => true
  end.

(** The runtime after an observation made at clock [c0] that saw page
    [seen] while page [shown] was on the screen: until the debounce is
    over the page is [shown] and the report is the only one pending,
    afterwards the page is [seen] and no report is pending. *)
Definition debouncing (c0 : nat) (shown seen : Z) (w : Runtime) : Prop :=
  ((clock w < c0 + 100)%nat ->
   pdfCurrentPage w = shown
   /\ pendingObservations w = [((c0 + 100)%nat, ObserverPageChange seen)])
  /\ ((c0 + 100 <= clock w)%nat ->
      pdfCurrentPage w = seen /\ pendingObservations w = []).

(** Effects that schedule no page report of the observer. *)
Definition report_free (e : Effect) : bool :=
  match e with
  | DebounceTimeout _ _ => false
  | SetTimeout callback _ => negb (isObserverPageChange callback)
  | _ => true
  end.

(** Two chunks that share an id, on pages 1 and 2; page 2 on the screen
    and the timers of the page change run out. *)
Definition shared_id_document : Runtime :=
  Eval vm_compute in
  advance 400
    (dispatch (handlePageInput 2)
       (resolveChunks [paged_chunk "a" 1; paged_chunk "a" 2] (resolveTotalPages 2 initial))).

(** The chunk on the screen fills the view. *)
Definition shared_id_entries : list Entry :=
  [ {| entry_target := "a"; isIntersecting := true; intersectionRatio := 1%Q |} ].

(** Page 2 of the sparse document on the screen, at rest. *)
Definition sparse_document_at_rest : Runtime :=
  Eval vm_compute in advance 400 sparse_document_on_page_2.

(** ** Selecting a document and loading it (lines 1413-1494) *)



(** A call of [loadChunks]: waiting at the [await] of line 1450, waiting
    at the [await] of line 1459, or returned. *)
Inductive Load : Type :=
| AwaitsDocument
| AwaitsChunks
| Finished.

(** The viewer with its loading flag and the calls of [loadChunks] made
    so far, in the order they were made.  [loadChunks] carries no token of
    the selection it was called for, so every call stores its answers. *)
Record Viewer : Type := {
  runtime : Runtime;
  isLoading : bool;
  loads : list Load
}.







(** The viewer right after mount. *)
Definition mounted : Viewer :=
  {| runtime := initial; isLoading := false; loads := [] |}.





(** ** JavaScript strings as UTF-16 code units

    The keyword extraction of the reference click and the whitespace
    normaliser of the text view measure strings in code units ([length],
    [substring], [slice]) and test characters against ranges such as the
    Hangul syllables.  There a string is the list of its UTF-16 code
    units, which is what ECMAScript defines a string to be; the regular
    expressions involved carry no [u] flag and match code unit by code
    unit. *)

Module Utf16.

(** [\s] of a regular expression and the characters [trim] removes:
    WhiteSpace and LineTerminator of ECMAScript. *)
Definition isWhiteSpace (c : Z) : bool :=
  ((0x09 <=? c) && (c <=? 0x0D)) || (c =? 0x20) || (c =? 0xA0) || (c =? 0x1680)
  || ((0x2000 <=? c) && (c <=? 0x200A)) || (c =? 0x2028) || (c =? 0x2029)
  || (c =? 0x202F) || (c =? 0x205F) || (c =? 0x3000) || (c =? 0xFEFF).

(** [\d] *)
Definition isDigit (c : Z) : bool := (0x30 <=? c) && (c <=? 0x39).

(** [\w] *)
Definition isWordChar (c : Z) : bool :=
  ((0x41 <=? c) && (c <=? 0x5A)) || ((0x61 <=? c) && (c <=? 0x7A)) || isDigit c
  || (c =? 0x5F).

(** The range [가-힣] of the Hangul syllables. *)
Definition isHangul (c : Z) : bool := (0xAC00 <=? c) && (c <=? 0xD7A3).

Fixpoint trimStart (s : list Z) : list Z :=
  match s with
  | c :: s' => if isWhiteSpace c then trimStart s' else s
  | [] => []
  end.

(** [s.trim()] *)
Definition trim (s : list Z) : list Z := reverse (trimStart (reverse (trimStart s))).

(** [s.split(/[...]/)] for a class of single characters: the pieces
    between the separators, empty pieces included. *)
Fixpoint split (sep : Z -> bool) (s : list Z) : list (list Z) :=
  match s with
  | [] => [[]]
  | c :: s' =>
      if sep c then [] :: split sep s'
      else match split sep s' with
           | piece :: pieces => (c :: piece) :: pieces
           | [] => [[c]]
           end
  end.

(** [s.split(/[...]+/)]: the pieces between the maximal runs of
    separators; a run at either end leaves an empty piece there. *)
Fixpoint splitRuns (sep : Z -> bool) (s : list Z) : list (list Z) :=
  match s with
  | [] => [[]]
  | c :: s' =>
      if sep c then
        match s' with
        | c' :: _ => if sep c' then splitRuns sep s' else [] :: splitRuns sep s'
        | [] => [] :: splitRuns sep s'
        end
      else match splitRuns sep s' with
           | piece :: pieces => (c :: piece) :: pieces
           | [] => [[c]]
           end
  end.

Fixpoint startsWith (s p : list Z) : bool :=
  match p, s with
  | [], _ => true
  | c :: p', d :: s' => (c =? d) && startsWith s' p'
  | _ :: _, [] => false
  end.

(** [s.endsWith(p)] *)
Definition endsWith (s p : list Z) : bool := startsWith (reverse s) (reverse p).

(** The code units of a string of ASCII characters. *)
Definition ascii (s : string) : list Z :=
  map (fun a => Z.of_nat (nat_of_ascii a)) (list_ascii_of_string s).

End Utf16.

(** ** The highlight keywords of a reference click (lines 252-308) *)

Module ReferenceKeywords.

(** [/[.。!！?？\n]/]: full stop, ideographic full stop, exclamation and
    question marks in their ASCII and full-width forms, line feed. *)
Definition sentenceEnd (c : Z) : bool :=
  bool_decide (c ∈ [0x2E; 0x3002; 0x21; 0xFF01; 0x3F; 0xFF1F; 0x0A]).

(** Lines 254-268: the first sentence of at least 10 characters, cut
    to 30. *)
Definition coreSearchText (chunkContent : list Z) : option (list Z) :=
  match chunkContent with
  | [] => None
  | _ :: _ =>
      match List.filter (fun s => (10 <=? length (Utf16.trim s))%nat)
                        (Utf16.split sentenceEnd chunkContent) with
      | [] => None
      | sentence :: _ =>
          let corePhrase := take 30 (Utf16.trim sentence) in
          if (10 <=? length corePhrase)%nat then Some corePhrase else None
      end
  end.

(** [coreSearchText || (chunkContent ? chunkContent.substring(0, 30)
    : undefined)] (lines 324 and 367-372). *)
Definition searchText (chunkContent : list Z) : option (list Z) :=
  match coreSearchText chunkContent with
  | Some (c :: core) => Some (c :: core)
  | _ =>
      match chunkContent with
      | [] => None
      | _ :: _ => Some (take 30 chunkContent)
      end
  end.

(** [k && k.trim().length >= 3 && k.trim().length <= 20] *)
Definition validKeyword (k : list Z) : bool :=
  negb (bool_decide (k = []))
  && (3 <=? length (Utf16.trim k))%nat && (length (Utf16.trim k) <=? 20)%nat.

(** The 33 stop words of line 281, in the order of the source. *)
Definition stopWords : list (list Z) :=
  [ [0xC740]; [0xB294]; [0xC774]; [0xAC00]; [0xC744]; [0xB97C]; [0xC5D0]; [0xC758];
    [0xC640]; [0xACFC]; [0xB3C4]; [0xB9CC]; [0xC870; 0xCC28]; [0xB9C8; 0xC800];
    [0xAE4C; 0xC9C0]; [0xBD80; 0xD130]; [0xC5D0; 0xC11C]; [0xC5D0; 0xAC8C];
    [0xD55C; 0xD14C]; [0xAED8]; [0xB85C]; [0xC73C; 0xB85C]; [0xAC83]; [0xC218];
    [0xC788]; [0xC5C6]; [0xB418]; [0xD558]; [0xB4F1]; [0xB54C]; [0xACBD; 0xC6B0];
    [0xC704; 0xD574]; [0xB54C; 0xBB38] ].

(** The 18 particles of line 292, in the order of the source: twelve of
    one syllable, then 에서, 에게, 한테, 께, 로, 으로. *)
Definition particles : list (list Z) :=
  [ [0xC740]; [0xB294]; [0xC774]; [0xAC00]; [0xC744]; [0xB97C]; [0xC5D0]; [0xC758];
    [0xC640]; [0xACFC]; [0xB3C4]; [0xB9CC]; [0xC5D0; 0xC11C]; [0xC5D0; 0xAC8C];
    [0xD55C; 0xD14C]; [0xAED8]; [0xB85C]; [0xC73C; 0xB85C] ].

(** The callback of [.map] (lines 290-298): the first particle of the
    list the word ends with, if the word is longer, is cut off. *)
Definition stripParticle (word : list Z) : list Z :=
  match List.find (fun particle =>
                     Utf16.endsWith word particle && (length particle <? length word)%nat)
                  particles with
  | Some particle => take (length word - length particle) word
  | None => word
  end.

(** [questionContent.replace(/[^\w가-힣\s]/g, ' ')] *)
Definition withoutPunctuation (questionContent : list Z) : list Z :=
  map (fun c => if Utf16.isWordChar c || Utf16.isHangul c || Utf16.isWhiteSpace c
                then c else 0x20) questionContent.

(** The first [.filter] (lines 286-289). *)
Definition longEnough (w : list Z) : bool :=
  let word := Utf16.trim w in
  (3 <=? length word)%nat && negb (bool_decide (word ∈ stopWords)).

(** Lines 283-300. *)
Definition questionWords (questionContent : list Z) : list (list Z) :=
  take 2
    (List.filter (fun w => (3 <=? length w)%nat)
       (map stripParticle
          (List.filter longEnough
             (Utf16.splitRuns Utf16.isWhiteSpace (withoutPunctuation questionContent))))).

(** What lines 272-303 push to [highlightKeywords]. *)
Definition highlightKeywords (keywords : list (list Z)) (questionContent : list Z)
    : list (list Z) :=
  take 2 (List.filter validKeyword keywords)
  ++ match questionContent with
     | [] => []
     | _ :: _ => questionWords questionContent
     end.

(** [[...new Set(l)]]: the first occurrence of each element, in order. *)
Fixpoint newSet (seen l : list (list Z)) : list (list Z) :=
  match l with
  | [] => []
  | x :: l' =>
      if bool_decide (x ∈ seen) then newSet seen l' else x :: newSet (x :: seen) l'
  end.

(** Lines 306-308. *)
Definition uniqueKeywords (keywords : list (list Z)) (questionContent : list Z)
    : list (list Z) :=
  take 3 (List.filter validKeyword (newSet [] (highlightKeywords keywords questionContent))).

End ReferenceKeywords.

(** ** The whitespace normaliser of the text view (normalizeWhitespace,
    lines 1152-1233) *)

Module Normalizer.

(** [[ \t]] *)
Definition isBlank (c : Z) : bool := (c =? 0x20) || (c =? 0x09).

(** [line.replace(/[ \t]+/g, ' ')] *)
Fixpoint collapseBlanks (s : list Z) : list Z :=
  match s with
  | [] => []
  | c :: s' =>
      if isBlank c then
        match s' with
        | c' :: _ => if isBlank c' then collapseBlanks s' else 0x20 :: collapseBlanks s'
        | [] => [0x20]
        end
      else c :: collapseBlanks s'
  end.

(** The rest of a string after its longest prefix of characters in a
    class: what a greedy [[...]*] leaves, when what follows in the
    pattern cannot match a character of the class. *)
Fixpoint skip (class : Z -> bool) (s : list Z) : list Z :=
  match s with
  | c :: s' => if class c then skip class s' else s
  | [] => []
  end.

(** [\d+] followed by [k]. *)
Definition digitsThen (k : list Z -> bool) (s : list Z) : bool :=
  (length (skip Utf16.isDigit s) <? length s)%nat && k (skip Utf16.isDigit s).

(** The next character is in the list. *)
Definition oneOf (chars : list Z) (s : list Z) : bool :=
  match s with
  | c :: _ => bool_decide (c ∈ chars)
  | [] => false
  end.

(** [/^[\d①②③④⑤⑥⑦⑧⑨⑩·\-\•■○]/] *)
Definition startsItemMark (line : list Z) : bool :=
  match line with
  | c :: _ =>
      Utf16.isDigit c || ((0x2460 <=? c) && (c <=? 0x2469))
      || bool_decide (c ∈ [0xB7; 0x2D; 0x2022; 0x25A0; 0x25CB])
  | [] => false
  end.

(** [/^제\d+[의조항호의]/] *)
Definition startsArticle (line : list Z) : bool :=
  match line with
  | c :: rest => (c =? 0xC81C) && digitsThen (oneOf [0xC758; 0xC870; 0xD56D; 0xD638]) rest
  | [] => false
  end.

(** [/^\d+[\.\）\)]/] *)
Definition startsNumbered (line : list Z) : bool :=
  digitsThen (oneOf [0x2E; 0xFF09; 0x29]) line.

(** [/^\d+의\d+\./] *)
Definition startsSubNumbered (line : list Z) : bool :=
  digitsThen (fun rest =>
                match rest with
                | c :: rest' => (c =? 0xC758) && digitsThen (oneOf [0x2E]) rest'
                | [] => false
                end) line.

(** [/^[가-힣]\./] *)
Definition startsHangulItem (line : list Z) : bool :=
  match line with
  | c :: d :: _ => Utf16.isHangul c && (d =? 0x2E)
  | _ => false
  end.

(** [/^-{4,}\.?/] *)
Definition startsRule (line : list Z) : bool :=
  Utf16.startsWith line [0x2D; 0x2D; 0x2D; 0x2D].

(** [/^Q\./] *)
Definition startsQuestion (line : list Z) : bool := Utf16.startsWith line [0x51; 0x2E].

(** [[A-Z가-힣]] *)
Definition isTitleChar (c : Z) : bool := ((0x41 <=? c) && (c <=? 0x5A)) || Utf16.isHangul c.

(** [/^[A-Z가-힣]{2,}\s*$/] *)
Definition isTitle (line : list Z) : bool :=
  (2 <=? length line - length (skip isTitleChar line))%nat
  && forallb Utf16.isWhiteSpace (skip isTitleChar line).

(** The eight tests of lines 1178-1185 (and 1207-1214). *)
Definition isNewItem (line : list Z) : bool :=
  startsItemMark line || startsArticle line || startsNumbered line
  || startsSubNumbered line || startsHangulItem line || startsRule line
  || startsQuestion line || isTitle line.

(** [if (currentParagraph) result.push(currentParagraph.trim())] *)
Definition flush (currentParagraph : list Z) : list (list Z) :=
  match currentParagraph with
  | [] => []
  | _ :: _ => [Utf16.trim currentParagraph]
  end.

(** [currentParagraph += (currentParagraph ? ' ' : '') + line] *)
Definition extend (currentParagraph line : list Z) : list Z :=
  currentParagraph
  ++ match currentParagraph with
     | [] => []
     | _ :: _ => [0x20]
     end
  ++ line.

(** The [for] loop of lines 1161-1225 with the flush of lines 1228-1230:
    what is pushed to [result] from the lines that are left, given the
    paragraph accumulated so far. *)
Fixpoint paragraphs (currentParagraph : list Z) (lines : list (list Z)) : list (list Z) :=
  match lines with
  | [] => flush currentParagraph
  | line :: rest =>
      match line with
      | [] => flush currentParagraph ++ [] :: paragraphs [] rest
      | _ :: _ =>
          if isNewItem line then flush currentParagraph ++ line :: paragraphs [] rest
          else
            let closes :=
              match rest with
              | [] => true
              | nextLine :: _ =>
                  match nextLine with
                  | [] => true
                  | _ :: _ => isNewItem nextLine
                  end
              end in
            if closes
            then Utf16.trim (extend currentParagraph line) :: paragraphs [] rest
            else paragraphs (extend currentParagraph line) rest
      end
  end.

(** The separator of [split('\n')] and of [join('\n')]. *)
Definition isLineFeed (c : Z) : bool := c =? 0x0A.

(** [text.split('\n').map(line => line.replace(/[ \t]+/g, ' ').trim())] *)
Definition lines (text : list Z) : list (list Z) :=
  map (fun line => Utf16.trim (collapseBlanks line)) (Utf16.split isLineFeed text).

(** The array [result] when the loop is over. *)
Definition result (text : list Z) : list (list Z) := paragraphs [] (lines text).

(** [result.join('\n')] *)
Fixpoint join (pieces : list (list Z)) : list Z :=
  match pieces with
  | [] => []
  | [piece] => piece
  | piece :: rest => piece ++ 0x0A :: join rest
  end.

Definition normalizeWhitespace (text : list Z) : list Z :=
  match text with
  | [] => []
  | _ :: _ => join (result text)
  end.

(** The characters that are no whitespace, in order. *)
Definition ink (s : list Z) : list Z := List.filter (fun c => negb (Utf16.isWhiteSpace c)) s.

(** The number of empty lines among some lines. *)
Definition emptyLines (pieces : list (list Z)) : nat :=
  length (List.filter (fun piece => match piece with [] => true | _ :: _ => false end) pieces).

(** A paragraph of three lines, an empty line, a numbered item and a
    last line, with a tab and doubled blanks. *)
Definition sample_text : list Z :=
  Utf16.ascii "Smoking is" ++ [0x0A] ++ Utf16.ascii "  not" ++ [0x09; 0x20] ++ Utf16.ascii "allowed" ++ [0x0A]
  ++ Utf16.ascii "here." ++ [0x0A; 0x20; 0x0A] ++ Utf16.ascii "1. indoors" ++ [0x0A]
  ++ Utf16.ascii "and  outdoors".

End Normalizer.

(** ** The width of the sidebar (App, lines 35-101)

    The widths are numbers of pixels.  They start at 450, are set from
    [clientX], an integer, and are multiplied by 1.5 at most a few times
    before the bound 800 stops them, so that they are rationals that a
    binary64 number holds exactly; they are modelled as rationals.  As
    for the viewer, a state update is followed at once by its render and
    its effects. *)

Module Sidebar.

Record State : Type := {
  sidebarWidth : Q;
  originalSidebarWidth : Q;
  isResizing : bool;
  selectedDocumentId : option string;
  (** The two variables of the resize effect's closure: the width that
      waits for the next animation frame, and whether a frame is
      requested. *)
  pendingWidth : option Q;
  rafId : bool
}.

(** [Math.min(a, b)] *)
Definition Math_min (a b : Q) : Q := if Qle_bool a b then a else b.

(** [Math.min(Math.max(250, e.clientX), 800)] *)
Definition newWidth (clientX : Z) : Q := inject_Z (Z.min (Z.max 250 clientX) 800).

(** [Math.min(currentWidth * 1.5, 800)] *)
Definition expandedWidth (currentWidth : Q) : Q := Math_min (currentWidth * (3 # 2)) 800%Q.

(** The mouse is pressed on the resize handle (lines 40-43).  The effect
    of lines 45-86 runs when [isResizing] has changed, with a fresh
    closure. *)
Definition handleResizeStart (s : State) : State :=
  if isResizing s then s
  else {| sidebarWidth := sidebarWidth s; originalSidebarWidth := originalSidebarWidth s;
          isResizing := true; selectedDocumentId := selectedDocumentId s;
          pendingWidth := None; rafId := false |}.

(** [mousemove] (lines 58-66); the listener exists while [isResizing]. *)
Definition handleResize (clientX : Z) (s : State) : State :=
  if isResizing s then
    {| sidebarWidth := sidebarWidth s; originalSidebarWidth := originalSidebarWidth s;
       isResizing := true; selectedDocumentId := selectedDocumentId s;
       pendingWidth := Some (newWidth clientX); rafId := true |}
  else s.

(** The animation frame (lines 50-56); it comes when one is requested. *)
Definition flushWidth (s : State) : State :=
  if rafId s then
    {| sidebarWidth := default (sidebarWidth s) (pendingWidth s);
       originalSidebarWidth := originalSidebarWidth s;
       isResizing := isResizing s; selectedDocumentId := selectedDocumentId s;
       pendingWidth := None; rafId := false |}
  else s.

(** [mouseup] (lines 68-70), and the clean-up of the effect (lines 79-85),
    which cancels the frame that is requested. *)
Definition handleResizeEnd (s : State) : State :=
  if isResizing s then
    {| sidebarWidth := sidebarWidth s; originalSidebarWidth := originalSidebarWidth s;
       isResizing := false; selectedDocumentId := selectedDocumentId s;
       pendingWidth := None; rafId := false |}
  else s.

(** [setSelectedDocumentId(id)] and the effect of lines 89-101, which
    runs when the id has changed.  An empty id is falsy and is not
    [undefined]: neither branch runs. *)
Definition selectDocument (id : option string) (s : State) : State :=
  if decide (id = selectedDocumentId s) then s
  else
    match id with
    | Some documentId =>
        if String.eqb documentId "" then
          {| sidebarWidth := sidebarWidth s; originalSidebarWidth := originalSidebarWidth s;
             isResizing := isResizing s; selectedDocumentId := id;
             pendingWidth := pendingWidth s; rafId := rafId s |}
        else
          {| sidebarWidth := expandedWidth (sidebarWidth s);
             originalSidebarWidth := sidebarWidth s;
             isResizing := isResizing s; selectedDocumentId := id;
             pendingWidth := pendingWidth s; rafId := rafId s |}
    | None =>
        {| sidebarWidth := originalSidebarWidth s;
           originalSidebarWidth := originalSidebarWidth s;
           isResizing := isResizing s; selectedDocumentId := None;
           pendingWidth := pendingWidth s; rafId := rafId s |}
    end.

Inductive Event : Type :=
| MouseDown
| MouseMove (clientX : Z)
| AnimationFrame
| MouseUp
| DocumentSelected (id : option string).

Definition handle (ev : Event) (s : State) : State :=
  match ev with
  | MouseDown => handleResizeStart s
  | MouseMove clientX => handleResize clientX s
  | AnimationFrame => flushWidth s
  | MouseUp => handleResizeEnd s
  | DocumentSelected id => selectDocument id s
  end.

Definition after (events : list Event) (s : State) : State :=
  fold_left (fun s ev => handle ev s) events s.

(** The application after mount (lines 25, 35-37); the effect of lines
    89-101 has set the width to the original width, which it had. *)
Definition initial : State :=
  {| sidebarWidth := 450; originalSidebarWidth := 450; isResizing := false;
     selectedDocumentId := None; pendingWidth := None; rafId := false |}.

(** The events of a resize. *)
Definition isResizeEvent (ev : Event) : bool :=
  match ev with
  | DocumentSelected _ => false
  | _ => true
  end.

Definition within_bounds (q : Q) : Prop := (250 <= q <= 800)%Q.

End Sidebar.

(** ** The reference buttons of a chat message (Message,
    handleReferenceClick, lines 269-334 of the component)

    A chunk reference is read through several field names, each of which
    may be absent.  The reference number and the message index are
    integers. *)

Module Message.

Inductive Role : Type := user | model.

(** The fields of a chunk reference, under their names in the source. *)
Module Chunk.

Record Metadata : Type := {
  pageIndex : option Z;
  metadata_page : option Z;
  metadata_logicalPageNumber : option Z;
  source : option string
}.

Record ChunkReference : Type := {
  documentId : option string;
  id : option string;
  chunkId : option string;
  chunk_id : option string;
  documentTitle : option string;
  title : option string;
  page : option Z;
  metadata : option Metadata;
  filename : option string;
  documentFilename : option string;
  content : option string;
  text : option string;
  keywords : option (list string)
}.

End Chunk.

Record MessageType : Type := {
  role : Role;
  message_content : string;
  chunkReferences : option (list Chunk.ChunkReference)
}.

(** The detail of the [referenceClick] event. *)
Record Detail : Type := {
  detail_documentId : string;
  detail_chunkId : string;
  detail_title : string;
  detail_page : option Z;
  detail_logicalPageNumber : option Z;
  detail_filename : string;
  questionContent : string;
  chunkContent : string;
  detail_keywords : list string;
  responseText : string;
  referenceNumber : Z
}.

Inductive Outcome : Type :=
| Nothing
| Dispatched (detail : Detail)
| TypeError.

(** [a || b] on strings that may be absent: the empty string and
    [undefined] are falsy. *)
Definition orString (a b : option string) : option string :=
  match a with
  | Some s => if String.eqb s "" then b else a
  | None => b
  end.

(** [a || b] on numbers that may be absent: 0 and [undefined] are falsy. *)
Definition orNumber (a b : option Z) : option Z :=
  match a with
  | Some n => if n =? 0 then b else a
  | None => b
  end.

(** The loop of lines 291-296, with [i] indices left: it reads
    [allMessages[i - 1]], then [allMessages[i - 2]], down to index 0;
    [None] is the TypeError of reading [role] of [undefined]. *)
Fixpoint questionBefore (allMessages : list MessageType) (i : nat) : option string :=
  match i with
  | O => Some ""
  | S j =>
      match allMessages !! j with
      | None => None
      | Some m =>
          match role m with
          | user => Some (message_content m)
          | model => questionBefore allMessages j
          end
      end
  end.

Definition handleReferenceClick (message : MessageType) (allMessages : list MessageType)
    (messageIndex : Z) (referenceNumber : Z) : Outcome :=
  match chunkReferences message with
  | Some (first :: others) =>
      let references := first :: others in
      let chunkIndex := referenceNumber - 1 in
      if (0 <=? chunkIndex) && (chunkIndex <? Z.of_nat (length references)) then
        match references !! Z.to_nat chunkIndex with
        | Some chunk =>
            let documentId := default "" (orString (Chunk.documentId chunk) (Chunk.id chunk)) in
            let chunkId := default "" (orString (Chunk.chunkId chunk) (Chunk.chunk_id chunk)) in
            let title := default "" (orString (Chunk.documentTitle chunk) (Chunk.title chunk)) in
            let page :=
              orNumber
                (orNumber
                   (orNumber (Chunk.metadata chunk ≫= Chunk.pageIndex) (Chunk.page chunk))
                   (Chunk.metadata chunk ≫= Chunk.metadata_page))
                (Chunk.metadata chunk ≫= Chunk.metadata_logicalPageNumber) in
            let logicalPageNumber :=
              orNumber
                (orNumber (Chunk.metadata chunk ≫= Chunk.metadata_logicalPageNumber)
                   (Chunk.page chunk))
                (Chunk.metadata chunk ≫= Chunk.metadata_page) in
            let filename :=
              default "" (orString (orString (Chunk.filename chunk) (Chunk.documentFilename chunk))
                            (Chunk.metadata chunk ≫= Chunk.source)) in
            let question :=
              if (0 <? messageIndex) && (0 <? length allMessages)%nat
              then questionBefore allMessages (Z.to_nat messageIndex)
              else Some "" in
            match question with
            | None => TypeError
            | Some questionContent =>
                if String.eqb documentId "" || String.eqb chunkId "" then Nothing
                else
                  Dispatched
                    {| detail_documentId := documentId;
                       detail_chunkId := chunkId;
                       detail_title := title;
                       detail_page := page;
                       detail_logicalPageNumber := logicalPageNumber;
                       detail_filename := filename;
                       questionContent := questionContent;
                       chunkContent :=
                         default "" (orString (Chunk.content chunk) (Chunk.text chunk));
                       detail_keywords := default [] (Chunk.keywords chunk);
                       responseText := message_content message;
                       referenceNumber := referenceNumber |}
            end
        | None => TypeError
        end
      else Nothing
  | _ => Nothing
  end.

(** The message at index [j] is a question of the user, and no message
    between it and the message at index [messageIndex] is. *)
Definition nearest_question (allMessages : list MessageType) (messageIndex : Z)
    (j : nat) (m : MessageType) : Prop :=
  Z.of_nat j < messageIndex /\ allMessages !! j = Some m /\ role m = user
  /\ forall k m', (j < k)%nat -> Z.of_nat k < messageIndex ->
                  allMessages !! k = Some m' -> role m' = model.

(** A chat of a question and an answer with two references, the second
    of which has no document id. *)
Definition sample_reference : Chunk.ChunkReference :=
  {| Chunk.documentId := Some "doc-1"; Chunk.id := None;
     Chunk.chunkId := Some "chunk-7"; Chunk.chunk_id := None;
     Chunk.documentTitle := Some "Guide"; Chunk.title := None; Chunk.page := Some 4;
     Chunk.metadata :=
       Some {| Chunk.pageIndex := Some 0; Chunk.metadata_page := Some 5;
               Chunk.metadata_logicalPageNumber := Some 2;
               Chunk.source := Some "guide.pdf" |};
     Chunk.filename := None; Chunk.documentFilename := Some "";
     Chunk.content := Some "Smoking is not allowed."; Chunk.text := None;
     Chunk.keywords := None |}.

Definition sample_answer : MessageType :=
  {| role := model; message_content := "Nowhere inside 1.";
     chunkReferences :=
       Some [sample_reference;
             {| Chunk.documentId := Some ""; Chunk.id := None;
                Chunk.chunkId := Some "chunk-8"; Chunk.chunk_id := None;
                Chunk.documentTitle := None; Chunk.title := None; Chunk.page := None;
                Chunk.metadata := None; Chunk.filename := None;
                Chunk.documentFilename := None; Chunk.content := None;
                Chunk.text := None; Chunk.keywords := None |}] |}.

Definition sample_chat : list MessageType :=
  [ {| role := user; message_content := "Where may I smoke?"; chunkReferences := None |};
    sample_answer ].

End Message.

(** ** Turning pages with the wheel (handleWheelInScrollArea, lines
    1390-1410)

    The handler keeps a reference of its own, [wheelCooldownRef], and
    sets timeouts that do nothing but release it; they are kept beside
    the runtime of the viewer, whose clock they share. *)

Module Wheel.

(** What the handler reads of a wheel event and of the scroll container:
    [e.deltaY] and [container.scrollTop] are numbers, the two heights are
    integers. *)
Record WheelEvent : Type := {
  deltaY : spec_float;
  scrollTop : spec_float;
  clientHeight : Z;
  scrollHeight : Z
}.

Definition zero : spec_float := S754_zero false.

(** [Math.ceil]; the result of a number between -1 and 0 is [+0] here,
    which compares as [-0] does. *)
Definition ceil (x : spec_float) : spec_float :=
  match x with
  | S754_finite s m e =>
      let v := if s then Z.neg m else Z.pos m in
      if 0 <=? e then x else Binary64.of_int (- ((- v) / 2 ^ (- e)))
  | _ => x
  end.

(** [container.scrollTop <= 0] *)
Definition atTop (e : WheelEvent) : bool := SFleb (scrollTop e) zero.

(** [Math.ceil(container.scrollTop + container.clientHeight) >= container.scrollHeight] *)
Definition atBottom (e : WheelEvent) : bool :=
  SFleb (Binary64.of_int (scrollHeight e))
        (ceil (SFadd Binary64.prec Binary64.emax (scrollTop e)
                 (Binary64.of_int (clientHeight e)))).

Record State : Type := {
  viewer : Runtime;
  wheelCooldownRef : bool;
  (** The times at which the timeouts of lines 1403 and 1407 are due. *)
  cooldownTimers : list nat
}.

(** The three statements of each branch: the reference is set, the page
    handler runs, the timeout is set; then React renders. *)
Definition turnPage `{JsString} (handler : Runtime -> list Effect) (s : State) : State :=
  {| viewer := dispatch handler (viewer s);
     wheelCooldownRef := true;
     cooldownTimers := cooldownTimers s ++ [(clock (viewer s) + 300)%nat] |}.

Definition handleWheelInScrollArea `{JsString} (e : WheelEvent) (s : State) : State :=
  if negb (bool_decide (pdfViewerMode (viewer s) = text)) then s
  else if negb (scrollContainer (viewer s)) then s
  else if wheelCooldownRef s then s
  else if SFltb (deltaY e) zero && atTop e && (1 <? pdfCurrentPage (viewer s))
  then turnPage handlePreviousPage s
  else if SFltb zero (deltaY e) && atBottom e
          && (pdfCurrentPage (viewer s) <? total (viewer s))
  then turnPage handleNextPage s
  else s.

(** One millisecond passes: the timers of the viewer that are due run,
    and the timeouts that are due release the reference. *)
Definition elapse `{JsString} (s : State) : State :=
  let c := S (clock (viewer s)) in
  {| viewer := tick (viewer s);
     wheelCooldownRef :=
       if existsb (fun due => (due <=? c)%nat) (cooldownTimers s) then false
       else wheelCooldownRef s;
     cooldownTimers := List.filter (fun due => (c <? due)%nat) (cooldownTimers s) |}.

(** What happens to the viewer: a turn of the wheel over the text, or one
    of the events of a session. *)
Inductive Input : Type :=
| Wheeled (e : WheelEvent)
| Other (ev : Event).

Definition react `{JsString} (input : Input) (s : State) : State :=
  match input with
  | Wheeled e => handleWheelInScrollArea e s
  | Other MillisecondPassed => elapse s
  | Other ev =>
      {| viewer := handle ev (viewer s);
         wheelCooldownRef := wheelCooldownRef s;
         cooldownTimers := cooldownTimers s |}
  end.

Definition after `{JsString} (inputs : list Input) (s : State) : State :=
  fold_left (fun s input => react input s) inputs s.

Definition mounted : State :=
  {| viewer := initial; wheelCooldownRef := false; cooldownTimers := [] |}.

Definition session `{JsString} (inputs : list Input) : State := after inputs mounted.

(** The milliseconds that pass during some inputs. *)
Definition milliseconds (inputs : list Input) : nat :=
  length (List.filter (fun input => match input with
                                    | Other MillisecondPassed => true
                                    | _ => false
                                    end) inputs).

Definition isWheeled (input : Input) : bool :=
  match input with
  | Wheeled _ => true
  | Other _ => false
  end.

(** Either the reference is released and no timeout waits, or it is set
    and one timeout waits, due within 300 milliseconds. *)
Definition cooldown_ok (s : State) : Prop :=
  (wheelCooldownRef s = false /\ cooldownTimers s = [])
  \/ (wheelCooldownRef s = true
      /\ exists due, cooldownTimers s = [due]
                     /\ (clock (viewer s) < due <= clock (viewer s) + 300)%nat).

(** A document of two pages, and a turn of the wheel downwards at the
    bottom of the text. *)
Definition two_pages : list Input :=
  [Other (ChunksLoaded [paged_chunk "a" 1; paged_chunk "b" 2])].

Definition wheel_down_at_bottom : WheelEvent :=
  {| deltaY := Binary64.of_int 100; scrollTop := Binary64.of_int 500;
     clientHeight := 300; scrollHeight := 800 |}.

End Wheel.

(** ** The embedding cache (LocalEmbeddingService: embedText, hashText,
    getCacheStats, clearCache)

    The cache is a [Map] from the hash of a text to its embedding; a
    [Map] keeps its entries in the order in which their keys were first
    set. *)

Module Embedding.

Definition Vector : Type := list spec_float.

Definition Cache : Type := list (string * Vector).

(** [text.toLowerCase().trim()] *)
Definition hashText `{JsString} (text : string) : string := trim (toLowerCase text).

(** [cache.get(key)], [undefined] when [cache.has(key)] is false. *)
Fixpoint Map_get (key : string) (cache : Cache) : option Vector :=
  match cache with
  | [] => None
  | (k, v) :: rest => if String.eqb k key then Some v else Map_get key rest
  end.

(** [cache.set(key, value)]: a key that is present keeps its place. *)
Fixpoint Map_set (key : string) (value : Vector) (cache : Cache) : Cache :=
  match cache with
  | [] => [(key, value)]
  | (k, v) :: rest =>
      if String.eqb k key then (key, value) :: rest else (k, v) :: Map_set key value rest
  end.

Definition maxSize : nat := 1000.

(** The lines that store an embedding: [cache.set], then the entry of
    the first key is deleted when the size is above 1000.  No [await]
    separates them. *)
Definition store (key : string) (embedding : Vector) (cache : Cache) : Cache :=
  let cache := Map_set key embedding cache in
  if (maxSize <? length cache)%nat then tail cache else cache.

(** [embedText(text)] with the cache before the call; [generateEmbedding]
    stands for the model, loaded if need be, with the conversion of its
    output to an array; it answers [None] when loading or running it
    fails, and the call is rejected.  The result is the embedding and the
    cache after the call. *)
Definition embedText `{JsString} (generateEmbedding : string -> option Vector)
    (text : string) (cache : Cache) : option Vector * Cache :=
  let hash := hashText text in
  match Map_get hash cache with
  | Some embedding => (Some embedding, cache)
  | None =>
      match generateEmbedding text with
      | Some embedding => (Some embedding, store hash embedding cache)
      | None => (None, cache)
      end
  end.

Definition clearCache (cache : Cache) : Cache := [].

(** [getCacheStats()]: the size and the bound. *)
Definition getCacheStats (cache : Cache) : nat * nat := (length cache, maxSize).

(** What is done to the cache: an embedding is stored, by a call of
    [embedText] that missed, or the cache is cleared.  Calls that overlap
    in time can store the same key twice. *)
Inductive Operation : Type :=
| Store (key : string) (embedding : Vector)
| Clear.

Definition apply (op : Operation) (cache : Cache) : Cache :=
  match op with
  | Store key embedding => store key embedding cache
  | Clear => clearCache cache
  end.

(** The cache of the service after some operations. *)
Definition cacheAfter (ops : list Operation) : Cache :=
  fold_left (fun cache op => apply op cache) ops [].

Definition sample_vector : Vector := [Binary64.of_int 1; Binary64.of_int 0].

End Embedding.

(** ** A click on a source (App, handleSourceClick, lines 104-171) *)

Module SourceClick.

(** Of a source the handler reads the id, of a document the id and the
    file name. *)
Record SourceInfo : Type := { source_id : string }.

Record PDFDocument : Type := {
  doc_id : string;
  doc_filename : string
}.

Definition isDigit (a : ascii) : bool :=
  let n := nat_of_ascii a in ((48 <=? n) && (n <=? 57))%nat.

Fixpoint allDigits (s : string) : bool :=
  match s with
  | EmptyString => true
  | String a s' => isDigit a && allDigits s'
  end.

(** [/^\d+$/.test(sourceId)] *)
Definition isNumber (sourceId : string) : bool :=
  negb (String.eqb sourceId "") && allDigits sourceId.

(** [parseInt] of a string of digits, read from the left.  Beyond [2^53]
    JavaScript rounds the value; it is then, as here, no index of an
    array. *)
Fixpoint parseDigits (acc : N) (s : string) : N :=
  match s with
  | EmptyString => acc
  | String a s' => parseDigits (10 * acc + N.of_nat (nat_of_ascii a - 48))%N s'
  end.

Definition parseInt (s : string) : N := parseDigits 0%N s.

(** [sourceId.split('-')] *)
Fixpoint split (s : string) : list string :=
  match s with
  | EmptyString => [EmptyString]
  | String a s' =>
      if Ascii.eqb a "-" then EmptyString :: split s'
      else match split s' with
           | piece :: pieces => String a piece :: pieces
           | [] => [String a EmptyString]
           end
  end.

(** The three searches of lines 131-153; [parts !! 0] is always there. *)
Definition matchingDoc (allDocuments : list PDFDocument) (sourceId : string)
    : option PDFDocument :=
  let parts := split sourceId in
  let parts0 := default "" (parts !! 0%nat) in
  match List.find (fun doc => String.eqb (doc_id doc) sourceId) allDocuments with
  | Some doc => Some doc
  | None =>
      match List.find (fun doc =>
                         String.eqb (doc_filename doc) (parts0 ++ ".pdf")
                         || String.eqb (doc_filename doc) parts0
                         || String.prefix parts0 (doc_filename doc)) allDocuments with
      | Some doc => Some doc
      | None =>
          match parts with
          | _ :: parts1 :: _ =>
              let firstTwo := (parts0 ++ "-" ++ parts1)%string in
              List.find (fun doc =>
                           includes (doc_filename doc) firstTwo
                           || String.prefix parts0 (doc_filename doc)) allDocuments
          | _ => None
          end
      end
  end.

(** What a call does to the state. *)
Inductive Outcome : Type :=
| Selected (selectedDocumentId pdfFilename : string)
| Unchanged
| RangeError.

(** [handleSourceClick(sourceId)].  [allDocuments] is the answer of
    [getAllDocuments()], [None] when it fails.  The function calls
    itself for a source id that is a number; [depth] is the number of
    nested calls that the call stack allows. *)
Fixpoint handleSourceClick (depth : nat) (sources : list SourceInfo)
    (allDocuments : option (list PDFDocument)) (sourceId : string) : Outcome :=
  match depth with
  | O => RangeError
  | S depth' =>
      if isNumber sourceId then
        match sources !! N.to_nat (parseInt sourceId) with
        | Some source => handleSourceClick depth' sources allDocuments (source_id source)
        | None => Unchanged
        end
      else
        match allDocuments with
        | Some documents =>
            match matchingDoc documents sourceId with
            | Some doc => Selected (doc_id doc) (doc_filename doc)
            | None => Unchanged
            end
        | None => Unchanged
        end
  end.

(** [doc] is the first of the documents that passes the test. *)
Definition first_with (test : PDFDocument -> bool) (documents : list PDFDocument)
    (doc : PDFDocument) : Prop :=
  exists before after,
    documents = before ++ doc :: after /\ test doc = true
    /\ Forall (fun d => test d = false) before.

Definition none_with (test : PDFDocument -> bool) (documents : list PDFDocument) : Prop :=
  Forall (fun d => test d = false) documents.

Definition sample_documents : list PDFDocument :=
  [ {| doc_id := "d1"; doc_filename := "health-guide-2024.pdf" |};
    {| doc_id := "d2"; doc_filename := "law.pdf" |};
    {| doc_id := "law"; doc_filename := "old-law.pdf" |} ].

End SourceClick.

(** * Properties *)

(** ** Facts about binary64 rounding *)

Section Binary64Facts.
Import Binary64.

Lemma iter_pos_preserves {A} (P : A -> Prop) (f : A -> A) :
  (forall x, P x -> P (f x)) -> forall n x, P x -> P (SpecFloat.iter_pos f n x).
Proof.
  intros Hf n. induction n as [n IH | n IH | ]; intros x Hx; simpl; auto.
Qed.

Lemma shr_1_nonneg mrs : 0 <= shr_m mrs -> 0 <= shr_m (shr_1 mrs).
Proof.
  destruct mrs as [m r s]. simpl. intros Hm.
  destruct m as [ | [p | p | ] | p ]; simpl; lia.
Qed.

Lemma shr_nonneg mrs e n : 0 <= shr_m mrs -> 0 <= shr_m (shr mrs e n).1.
Proof.
  intros Hm. destruct n as [ | p | p ]; simpl; auto.
  apply (iter_pos_preserves (fun x => 0 <= shr_m x)); auto using shr_1_nonneg.
Qed.

Lemma shr_record_of_loc_m m l : shr_m (shr_record_of_loc m l) = m.
Proof. destruct l as [ | [ | | ] ]; reflexivity. Qed.

Lemma shr_fexp_nonneg m e l : 0 <= m -> 0 <= shr_m (shr_fexp prec emax m e l).1.
Proof.
  intros Hm. unfold shr_fexp. apply shr_nonneg. now rewrite shr_record_of_loc_m.
Qed.

Lemma round_nearest_even_nonneg m l : 0 <= m -> 0 <= round_nearest_even m l.
Proof.
  intros Hm. destruct l as [ | [ | | ] ]; simpl; try lia.
  destruct (Z.even m); lia.
Qed.

Lemma binary_round_aux_nonneg m e l :
  0 <= m -> nonneg (binary_round_aux prec emax false m e l).
Proof.
  intros Hm. unfold binary_round_aux.
  pose proof (shr_fexp_nonneg m e l Hm) as H1.
  destruct (shr_fexp prec emax m e l) as [mrs' e'] eqn:E1. simpl in H1.
  pose proof (shr_fexp_nonneg _ e' loc_Exact
                (round_nearest_even_nonneg _ (loc_of_shr_record mrs') H1)) as H2.
  destruct (shr_fexp prec emax _ e' loc_Exact) as [mrs'' e''] eqn:E2. simpl in H2.
  destruct (shr_m mrs'') as [ | p | p ]; simpl; auto; try lia.
  destruct (e'' <=? emax - prec); simpl; auto.
Qed.

Lemma digits2_pos_size p : digits2_pos p = Pos.size p.
Proof. induction p; simpl; congruence. Qed.

Lemma digits2_pos_bound p : Z.pos p < 2 ^ 53 -> Z.pos (digits2_pos p) <= 53.
Proof.
  intros Hp. rewrite digits2_pos_size.
  pose proof (Pos.size_le p) as Hle.
  apply Pos2Z.pos_le_pos in Hle.
  rewrite Pos2Z.inj_pow in Hle.
  destruct (Z_le_gt_dec (Z.pos (Pos.size p)) 53) as [ | Hgt ]; [ assumption | exfalso ].
  assert (H54 : 2 ^ 54 <= 2 ^ Z.pos (Pos.size p)) by (apply Z.pow_le_mono_r; lia).
  change (2 ^ 54) with (2 * 2 ^ 53) in H54.
  generalize dependent (2 ^ 53). generalize dependent (2 ^ Z.pos (Pos.size p)).
  intros; lia.
Qed.

Lemma digits2_pos_iter_xO p k :
  Z.pos (digits2_pos (Pos.iter xO p k)) = Z.pos (digits2_pos p) + Z.pos k.
Proof.
  induction k as [ | k IH ] using Pos.peano_ind.
  - simpl. lia.
  - rewrite Pos.iter_succ. simpl. lia.
Qed.

Lemma binary_round_aux_exact s m e :
  Z.pos (digits2_pos m) = 53 -> -1074 <= e <= 971 ->
  binary_round_aux prec emax s (Z.pos m) e loc_Exact = S754_finite s m e.
Proof.
  intros Hd He.
  assert (Hfexp : fexp prec emax (Z.pos (digits2_pos m) + e) - e = 0).
  { unfold fexp, emin, prec, emax. rewrite Hd. lia. }
  unfold binary_round_aux, shr_fexp. cbn [Zdigits2 shr_record_of_loc].
  rewrite Hfexp. cbn [shr shr_m loc_of_shr_record round_nearest_even Zdigits2].
  rewrite Hfexp. cbn [shr shr_m].
  replace (e <=? emax - prec) with true; [ reflexivity | ].
  symmetry. apply Z.leb_le. unfold emax, prec. lia.
Qed.

Lemma of_int_pos_finite z : 0 < z < 2 ^ 53 -> pos_finite (of_int z).
Proof.
  intros [Hz0 Hz]. destruct z as [ | p | p ]; try lia.
  pose proof (digits2_pos_bound p Hz) as Hd.
  unfold of_int, binary_normalize, binary_round.
  assert (Hfexp : fexp prec emax (Z.pos (digits2_pos p) + 0) = Z.pos (digits2_pos p) - 53).
  { unfold fexp, emin, prec, emax. lia. }
  rewrite Hfexp. unfold shl_align.
  destruct (Z.pos (digits2_pos p) - 53 - 0) as [ | k | k ] eqn:Ek; try lia.
  - rewrite binary_round_aux_exact; [ reflexivity | lia | lia ].
  - rewrite binary_round_aux_exact; [ reflexivity | | lia ].
    rewrite digits2_pos_iter_xO. lia.
Qed.

Lemma SFdiv_core_binary_nonneg m1 e1 m2 e2 :
  0 <= (SFdiv_core_binary prec emax (Z.pos m1) e1 (Z.pos m2) e2).1.1.
Proof.
  unfold SFdiv_core_binary.
  set (s := _ - _ - Z.min _ _).
  set (m' := match s with Z0 => Z.pos m1 | Z.pos _ => Z.shiftl (Z.pos m1) s | Z.neg _ => 0 end).
  assert (Hm' : 0 <= m').
  { subst m'. destruct s; try lia. apply Z.shiftl_nonneg. lia. }
  pose proof (Z_div_mod m' (Z.pos m2) eq_refl) as Hdm.
  destruct (Z.div_eucl m' (Z.pos m2)) as [q r]. simpl. nia.
Qed.

Lemma div_nonneg a b :
  a = S754_zero false \/ pos_finite a -> pos_finite b -> nonneg (div a b).
Proof.
  intros Ha Hb. destruct b as [ | | | sb mb eb ]; simpl in Hb; try contradiction. subst sb.
  destruct Ha as [-> | Ha]; [ exact I | ].
  destruct a as [ | | | sa ma ea ]; simpl in Ha; try contradiction. subst sa.
  unfold div, SFdiv.
  pose proof (SFdiv_core_binary_nonneg ma ea mb eb) as Hq.
  destruct (SFdiv_core_binary prec emax (Z.pos ma) ea (Z.pos mb) eb) as [[mz ez] lz].
  apply binary_round_aux_nonneg. exact Hq.
Qed.

Lemma mul_nonneg x c : nonneg x -> pos_finite c -> nonneg (mul x c).
Proof.
  intros Hx Hc. destruct c as [ | | | sc mc ec ]; simpl in Hc; try contradiction. subst sc.
  destruct x as [ sx | sx | | sx mx ex ]; simpl in Hx; try contradiction.
  - exact I.
  - subst sx. reflexivity.
  - subst sx. unfold mul, SFmul. apply binary_round_aux_nonneg. lia.
Qed.

Lemma floor_nonneg x : nonneg x -> 0 <= floor x.
Proof.
  destruct x as [ | | | s m e ]; simpl; try lia.
  intros ->. destruct (Z.leb_spec 0 e).
  - apply Z.mul_nonneg_nonneg; [ lia | apply Z.pow_nonneg; lia ].
  - apply Z.div_pos; [ lia | apply Z.pow_pos_nonneg; lia ].
Qed.

Lemma of_int_zero_or_pos z :
  0 <= z < 2 ^ 53 -> of_int z = S754_zero false \/ pos_finite (of_int z).
Proof.
  intros [Hz0 Hz]. destruct (Z.eq_dec z 0) as [-> | Hne]; [ now left | right ].
  apply of_int_pos_finite. lia.
Qed.
End Binary64Facts.

(** ** The error of a rounded quotient and product *)

Section Binary64Error.
Import Binary64.
Local Open Scope R_scope.

Lemma IZR_xO p : IZR (Z.pos p~0) = 2 * IZR (Z.pos p).
Proof. now rewrite <- mult_IZR. Qed.

Lemma IZR_xI p : IZR (Z.pos p~1) = 2 * IZR (Z.pos p) + 1.
Proof. rewrite <- mult_IZR, <- plus_IZR. reflexivity. Qed.

Lemma shr_1_located mrs y :
  (0 <= shr_m mrs)%Z -> located mrs y -> located (shr_1 mrs) (y / 2).
Proof.
  destruct mrs as [m r s]. unfold located. cbn [shr_m shr_r shr_s]. intros Hm Hy.
  destruct m as [ | [p | p | ] | p ]; try lia;
    destruct r, s; cbn [shr_1 orb shr_m shr_r shr_s];
    rewrite ?(IZR_xO p), ?(IZR_xI p) in *; lra.
Qed.

Lemma iter_pos_located n :
  forall mrs y, (0 <= shr_m mrs)%Z -> located mrs y ->
  located (SpecFloat.iter_pos shr_1 n mrs) (y / 2 ^ Pos.to_nat n).
Proof.
  assert (Hnn : forall k mrs, (0 <= shr_m mrs)%Z ->
                (0 <= shr_m (SpecFloat.iter_pos shr_1 k mrs))%Z).
  { intros k mrs. apply (iter_pos_preserves (fun x => (0 <= shr_m x)%Z)). apply shr_1_nonneg. }
  induction n as [n IH | n IH | ]; intros mrs y Hm Hy; cbn [SpecFloat.iter_pos].
  - replace (y / 2 ^ Pos.to_nat n~1) with (y / 2 / 2 ^ Pos.to_nat n / 2 ^ Pos.to_nat n).
    + apply IH; [ apply Hnn, shr_1_nonneg, Hm | ].
      apply IH; [ apply shr_1_nonneg, Hm | ]. now apply shr_1_located.
    + rewrite Pos2Nat.inj_xI.
      replace (S (2 * Pos.to_nat n)) with (1 + Pos.to_nat n + Pos.to_nat n)%nat by lia.
      rewrite !pow_add, pow_1.
      pose proof (pow_lt 2 (Pos.to_nat n) ltac:(lra)). field. lra.
  - replace (y / 2 ^ Pos.to_nat n~0) with (y / 2 ^ Pos.to_nat n / 2 ^ Pos.to_nat n).
    + apply IH; [ apply Hnn, Hm | ]. now apply IH.
    + rewrite Pos2Nat.inj_xO.
      replace (2 * Pos.to_nat n)%nat with (Pos.to_nat n + Pos.to_nat n)%nat by lia.
      rewrite pow_add.
      pose proof (pow_lt 2 (Pos.to_nat n) ltac:(lra)). field. lra.
  - replace (y / 2 ^ Pos.to_nat 1) with (y / 2) by (change (Pos.to_nat 1) with 1%nat; now rewrite pow_1).
    now apply shr_1_located.
Qed.

Lemma located_bounds mrs y : located mrs y -> IZR (shr_m mrs) <= y < IZR (shr_m mrs) + 1.
Proof. destruct mrs as [m [ | ] [ | ]]; unfold located; cbn; lra. Qed.

Lemma round_nearest_even_located mrs y :
  located mrs y ->
  let m := round_nearest_even (shr_m mrs) (loc_of_shr_record mrs) in
  (m = shr_m mrs \/ m = (shr_m mrs + 1)%Z) /\ Rabs (IZR m - y) <= / 2.
Proof.
  destruct mrs as [m [ | ] [ | ]]; unfold located; cbn [shr_m shr_r shr_s loc_of_shr_record round_nearest_even];
    intros Hy; try destruct (Z.even m); (split; [ auto | ]);
    rewrite ?plus_IZR; apply Rabs_le; lra.
Qed.

Lemma shr_record_of_loc_located m l y :
  located (shr_record_of_loc m l) y <->
  match l with
  | loc_Exact => y = IZR m
  | loc_Inexact Lt => IZR m < y < IZR m + / 2
  | loc_Inexact Eq => y = IZR m + / 2
  | loc_Inexact Gt => IZR m + / 2 < y < IZR m + 1
  end.
Proof. destruct l as [ | [ | | ] ]; reflexivity. Qed.


Lemma digits2_pos_bounds p :
  (2 ^ (Z.pos (digits2_pos p) - 1) <= Z.pos p < 2 ^ Z.pos (digits2_pos p))%Z.
Proof.
  induction p as [p IH | p IH | ]; cbn [digits2_pos]; [ | | split; reflexivity ];
    rewrite Pos2Z.inj_succ;
    replace (Z.succ (Z.pos (digits2_pos p)) - 1)%Z with (Z.succ (Z.pos (digits2_pos p) - 1)) by lia;
    rewrite !Z.pow_succ_r by lia; lia.
Qed.

Lemma Zdigits2_normal m : (2 ^ 52 <= m < 2 ^ 53)%Z -> Zdigits2 m = 53%Z.
Proof.
  intros [Hlo Hhi]. destruct m as [ | p | p ]; try (exfalso; lia).
  cbn [Zdigits2]. destruct (digits2_pos_bounds p) as [Hd1 Hd2].
  destruct (Z.lt_trichotomy (Z.pos (digits2_pos p)) 53) as [Hlt | [Heq | Hgt]]; [ | exact Heq | ].
  - exfalso. assert (2 ^ Z.pos (digits2_pos p) <= 2 ^ 52)%Z by (apply Z.pow_le_mono_r; lia). lia.
  - exfalso. assert (2 ^ 53 <= 2 ^ (Z.pos (digits2_pos p) - 1))%Z by (apply Z.pow_le_mono_r; lia). lia.
Qed.

Lemma IZR_pow2 (k : nat) : IZR (2 ^ Z.of_nat k) = 2 ^ k.
Proof. now rewrite <- pow_IZR. Qed.

(** The first shift of [binary_round_aux] on a mantissa of at least 53
    digits: 53 digits are left and the true value keeps its place. *)
Lemma shr_fexp_normal mx ex lx y :
  (0 < mx)%Z -> located (shr_record_of_loc mx lx) y ->
  (53 <= Zdigits2 mx)%Z -> (-1074 <= ex)%Z ->
  let n := Z.to_nat (Zdigits2 mx - 53) in
  exists mrs,
    shr_fexp prec emax mx ex lx = (mrs, (ex + Z.of_nat n)%Z)
    /\ located mrs (y / 2 ^ n)
    /\ (2 ^ 52 <= shr_m mrs < 2 ^ 53)%Z.
Proof.
  intros Hmx Hy Hd Hex n.
  assert (Hshift : (fexp prec emax (Zdigits2 mx + ex) - ex = Z.of_nat n)%Z).
  { unfold fexp, emin, prec, emax. lia. }
  assert (Hloc : exists mrs, shr_fexp prec emax mx ex lx = (mrs, (ex + Z.of_nat n)%Z)
                             /\ located mrs (y / 2 ^ n)).
  { unfold shr_fexp. rewrite Hshift. destruct (Z.of_nat n) as [ | k | k ] eqn:Ek; try lia.
    - exists (shr_record_of_loc mx lx). assert (n = 0%nat) as -> by lia.
      split; [ cbn [shr]; f_equal; lia | ]. now replace (y / 2 ^ 0) with y by (cbn; field).
    - exists (SpecFloat.iter_pos shr_1 k (shr_record_of_loc mx lx)). split; [ reflexivity | ].
      assert (n = Pos.to_nat k) as -> by lia.
      apply iter_pos_located; [ rewrite shr_record_of_loc_m; lia | exact Hy ]. }
  destruct Hloc as (mrs & Hshr & Hy1). exists mrs. split; [ exact Hshr | ]. split; [ exact Hy1 | ].
  apply located_bounds in Hy1, Hy. rewrite shr_record_of_loc_m in Hy.
  destruct mx as [ | p | p ]; try lia. cbn [Zdigits2] in *.
  destruct (digits2_pos_bounds p) as [Hd1 Hd2].
  replace (Z.pos (digits2_pos p)) with (Z.of_nat (53 + n)) in Hd2 by lia.
  replace (Z.pos (digits2_pos p) - 1)%Z with (Z.of_nat (52 + n)) in Hd1 by lia.
  assert (Hd3 : (Z.pos p + 1 <= 2 ^ Z.of_nat (53 + n))%Z) by lia.
  apply IZR_le in Hd1, Hd3. rewrite plus_IZR in Hd3. rewrite IZR_pow2, pow_add in Hd1, Hd3.
  pose proof (pow_lt 2 n ltac:(lra)) as Hpow.
  assert (Hlow : 2 ^ 52 <= y / 2 ^ n).
  { apply Rmult_le_reg_r with (2 ^ n); [ exact Hpow | ].
    replace (y / 2 ^ n * 2 ^ n) with y by (field; lra). lra. }
  assert (Hhigh : y / 2 ^ n < 2 ^ 53).
  { apply Rmult_lt_reg_r with (2 ^ n); [ exact Hpow | ].
    replace (y / 2 ^ n * 2 ^ n) with y by (field; lra).
    lra. }
  change (2 ^ 52)%Z with (2 ^ Z.of_nat 52)%Z. change (2 ^ 53)%Z with (2 ^ Z.of_nat 53)%Z.
  split.
  - assert (Hlt : (2 ^ Z.of_nat 52 < shr_m mrs + 1)%Z).
    { apply lt_IZR. rewrite plus_IZR, IZR_pow2. lra. }
    lia.
  - apply lt_IZR. rewrite IZR_pow2. lra.
Qed.


Lemma powerRZ_shift ex (n : nat) y :
  y / 2 ^ n * powerRZ 2 (ex + Z.of_nat n) = y * powerRZ 2 ex.
Proof.
  rewrite powerRZ_add by lra. rewrite <- pow_powerRZ.
  pose proof (pow_lt 2 n ltac:(lra)). field. lra.
Qed.

(** Rounding to nearest, ties to even, of a positive value in the normal
    range: the result is a double with a mantissa of 53 digits, at most
    half a unit in the last place away, hence within the relative error
    [2^-53]. *)
Lemma binary_round_aux_normal mx ex lx y :
  (0 < mx)%Z -> located (shr_record_of_loc mx lx) y ->
  (53 <= Zdigits2 mx)%Z -> (-1074 <= ex)%Z -> (Zdigits2 mx + ex <= 1023)%Z ->
  exists m e,
    binary_round_aux prec emax false mx ex lx = S754_finite false m e
    /\ (2 ^ 52 <= Z.pos m < 2 ^ 53)%Z
    /\ (ex + Zdigits2 mx - 53 <= e <= ex + Zdigits2 mx - 52)%Z
    /\ Rabs (IZR (Z.pos m) * powerRZ 2 e - y * powerRZ 2 ex) <= y * powerRZ 2 ex / 2 ^ 53.
Proof.
  intros Hmx Hy Hd Hex Hover.
  destruct (shr_fexp_normal mx ex lx y Hmx Hy Hd Hex) as (mrs & Hshr & Hy1 & Hm1).
  set (n := Z.to_nat (Zdigits2 mx - 53)) in *. set (e1 := (ex + Z.of_nat n)%Z) in *.
  destruct (round_nearest_even_located mrs _ Hy1) as (Hm2 & Herr).
  unfold binary_round_aux. rewrite Hshr.
  set (m2 := round_nearest_even (shr_m mrs) (loc_of_shr_record mrs)) in *.
  pose proof (located_bounds _ _ Hy1) as Hb.
  assert (H52 : IZR (2 ^ 52) <= y / 2 ^ n).
  { apply Rle_trans with (IZR (shr_m mrs)); [ apply IZR_le; lia | lra ]. }
  change (2 ^ 52)%Z with (2 ^ Z.of_nat 52)%Z in H52. rewrite IZR_pow2 in H52.
  pose proof (powerRZ_lt 2 e1 ltac:(lra)) as Hp1.
  assert (Hval : y * powerRZ 2 ex = y / 2 ^ n * powerRZ 2 e1)
    by (symmetry; apply powerRZ_shift).
  assert (Hbound : Rabs (IZR m2 * powerRZ 2 e1 - y * powerRZ 2 ex) <= y * powerRZ 2 ex / 2 ^ 53).
  { rewrite Hval. replace (IZR m2 * powerRZ 2 e1 - y / 2 ^ n * powerRZ 2 e1)
      with ((IZR m2 - y / 2 ^ n) * powerRZ 2 e1) by ring.
    rewrite Rabs_mult, (Rabs_pos_eq (powerRZ 2 e1)) by lra.
    apply Rle_trans with (/ 2 * powerRZ 2 e1).
    - apply Rmult_le_compat_r; lra.
    - change (2 ^ 53) with (2 * 2 ^ 52).
      assert (H0 : 0 < 2 ^ 52) by (apply pow_lt; lra).
      pose proof (pow_lt 2 n ltac:(lra)) as Hn0.
      replace (y / 2 ^ n * powerRZ 2 e1 / (2 * 2 ^ 52))
        with (/ 2 * powerRZ 2 e1 * (y / 2 ^ n / 2 ^ 52)) by (field; repeat split; lra).
      rewrite <- (Rmult_1_r (/ 2 * powerRZ 2 e1)) at 1.
      apply Rmult_le_compat_l; [ lra | ].
      apply Rmult_le_reg_r with (2 ^ 52); [ exact H0 | ].
      replace (y / 2 ^ n / 2 ^ 52 * 2 ^ 52) with (y / 2 ^ n) by (field; repeat split; lra). lra. }
  assert (He1 : (e1 = ex + Zdigits2 mx - 53)%Z) by (subst e1 n; lia).
  destruct (Z.eq_dec m2 (2 ^ 53)%Z) as [Htop | Hnot].
  - (* the mantissa was rounded up to [2^53] *)
    exists (2 ^ 52)%positive, (e1 + 1)%Z.
    rewrite Htop in *.
    split; [ | split; [ split; [ reflexivity | reflexivity ] | split; [ lia | ] ] ].
    + unfold shr_fexp. change (Zdigits2 (2 ^ 53)) with 54%Z.
      replace (fexp prec emax (54 + e1) - e1)%Z with 1%Z
        by (unfold fexp, emin, prec, emax; lia).
      change (2 ^ 53)%Z with 9007199254740992%Z.
      cbn [shr shr_record_of_loc SpecFloat.iter_pos shr_1 shr_m orb].
      replace (e1 + 1 <=? emax - prec)%Z with true; [ reflexivity | ].
      symmetry. apply Z.leb_le. unfold emax, prec. lia.
    + replace (IZR (Z.pos (2 ^ 52)) * powerRZ 2 (e1 + 1)) with (IZR (2 ^ 53) * powerRZ 2 e1);
        [ exact Hbound | ].
      rewrite powerRZ_add by lra. change (powerRZ 2 1) with (2 * 1).
      change (Z.pos (2 ^ 52)) with (2 ^ Z.of_nat 52)%Z. change (2 ^ 53)%Z with (2 ^ Z.of_nat 53)%Z.
      rewrite !IZR_pow2. change (2 ^ 53) with (2 * 2 ^ 52). ring.
  - assert (Hr : (2 ^ 52 <= m2 < 2 ^ 53)%Z) by lia.
    destruct m2 as [ | p | p ] eqn:Em2; try lia.
    exists p, e1. split; [ | split; [ exact Hr | split; [ lia | exact Hbound ] ] ].
    unfold shr_fexp. rewrite (Zdigits2_normal _ Hr).
    replace (fexp prec emax (53 + e1) - e1)%Z with 0%Z
      by (unfold fexp, emin, prec, emax; lia).
    cbn [shr shr_record_of_loc shr_m].
    replace (e1 <=? emax - prec)%Z with true; [ reflexivity | ].
    symmetry. apply Z.leb_le. unfold emax, prec. lia.
Qed.


Lemma iter_xO_pow2 p k : Z.pos (Pos.iter xO p k) = (Z.pos p * 2 ^ Z.pos k)%Z.
Proof.
  induction k as [ | k IH ] using Pos.peano_ind.
  - cbn [Pos.iter]. lia.
  - rewrite Pos.iter_succ, Pos2Z.inj_succ, Z.pow_succ_r by lia.
    rewrite Pos2Z.inj_xO, IH. lia.
Qed.

(** An integer below [2^53] is a double. *)
Lemma of_int_value z :
  (0 < z < 2 ^ 53)%Z ->
  exists m e, of_int z = S754_finite false m e
              /\ (2 ^ 52 <= Z.pos m < 2 ^ 53)%Z /\ (-52 <= e <= 0)%Z
              /\ IZR (Z.pos m) * powerRZ 2 e = IZR z.
Proof.
  intros [Hz0 Hz]. destruct z as [ | p | p ]; try lia.
  pose proof (digits2_pos_bound p Hz) as Hd.
  destruct (digits2_pos_bounds p) as [Hlo Hhi].
  unfold of_int, binary_normalize, binary_round.
  assert (Hfexp : fexp prec emax (Z.pos (digits2_pos p) + 0) = (Z.pos (digits2_pos p) - 53)%Z).
  { unfold fexp, emin, prec, emax. lia. }
  rewrite Hfexp. unfold shl_align.
  destruct (Z.pos (digits2_pos p) - 53 - 0)%Z as [ | k | k ] eqn:Ek; try lia.
  - exists p, 0%Z. rewrite binary_round_aux_exact by lia.
    replace (Z.pos (digits2_pos p)) with 53%Z in * by lia.
    split; [ reflexivity | ]. split; [ exact (conj Hlo Hhi) | ]. split; [ lia | ].
    cbn [powerRZ]. ring.
  - exists (Pos.iter xO p k), (Z.pos (digits2_pos p) - 53)%Z.
    assert (Hdig : Z.pos (digits2_pos (Pos.iter xO p k)) = 53%Z)
      by (rewrite digits2_pos_iter_xO; lia).
    rewrite binary_round_aux_exact by lia.
    split; [ reflexivity | ]. split; [ | split; [ lia | ] ].
    + pose proof (digits2_pos_bounds (Pos.iter xO p k)) as Hb. rewrite Hdig in Hb. exact Hb.
    + rewrite iter_xO_pow2, mult_IZR.
      replace (Z.pos (digits2_pos p) - 53)%Z with (- Z.pos k)%Z by lia.
      replace (Z.pos k) with (Z.of_nat (Pos.to_nat k)) by lia.
      rewrite IZR_pow2, powerRZ_neg', <- pow_powerRZ.
      pose proof (pow_lt 2 (Pos.to_nat k) ltac:(lra)). field. lra.
Qed.

Lemma new_location_located nb q r :
  (0 <= r < nb)%Z ->
  located (shr_record_of_loc q (new_location nb r)) (IZR q + IZR r / IZR nb).
Proof.
  intros [Hr0 Hr]. apply shr_record_of_loc_located.
  assert (Hnb : 0 < IZR nb) by (apply IZR_lt; lia).
  assert (Hlow : r <> 0%Z -> 0 < IZR r / IZR nb).
  { intros Hne. apply Rdiv_lt_0_compat; [ apply IZR_lt; lia | exact Hnb ]. }
  assert (Hhigh : IZR r / IZR nb < 1).
  { apply Rmult_lt_reg_r with (IZR nb); [ exact Hnb | ].
    replace (IZR r / IZR nb * IZR nb) with (IZR r) by (field; lra).
    rewrite Rmult_1_l. apply IZR_lt. lia. }
  assert (Hhalf : forall c, (2 * r ?= nb)%Z = c ->
                  match c with
                  | Lt => IZR r / IZR nb < / 2
                  | Eq => IZR r / IZR nb = / 2
                  | Gt => / 2 < IZR r / IZR nb
                  end).
  { intros c <-. destruct (Z.compare_spec (2 * r) nb) as [Heq | Hlt | Hgt].
    - rewrite <- Heq, mult_IZR. field. apply not_0_IZR. lia.
    - apply Rmult_lt_reg_r with (IZR nb); [ exact Hnb | ].
      replace (IZR r / IZR nb * IZR nb) with (IZR r) by (field; lra).
      apply IZR_lt in Hlt. rewrite mult_IZR in Hlt. lra.
    - apply Rmult_lt_reg_r with (IZR nb); [ exact Hnb | ].
      replace (IZR r / IZR nb * IZR nb) with (IZR r) by (field; lra).
      apply IZR_lt in Hgt. rewrite mult_IZR in Hgt. lra. }
  unfold new_location.
  destruct (Z.eq_dec r 0%Z) as [-> | Hne].
  - destruct (Z.even nb); unfold new_location_even, new_location_odd;
      cbn [Z.eqb]; unfold Rdiv; rewrite Rmult_0_l; ring.
  - specialize (Hlow Hne). pose proof (Hhalf _ eq_refl) as Hc.
    apply Z.eqb_neq in Hne.
    destruct (Z.even nb) eqn:Eev; unfold new_location_even, new_location_odd; rewrite Hne.
    + destruct (2 * r ?= nb)%Z; lra.
    + assert (Hodd : (2 * r)%Z <> nb).
      { intros <-. rewrite Z.even_mul in Eev. discriminate. }
      destruct (Z.compare_spec (2 * r + 1) nb) as [Heq | Hlt | Hgt];
        destruct (Z.compare_spec (2 * r) nb) as [Heq' | Hlt' | Hgt']; try lia; lra.
Qed.

Lemma Zdigits2_range m :
  (2 ^ 52 <= m)%Z -> forall k, (53 <= k)%Z -> (m < 2 ^ k)%Z -> (53 <= Zdigits2 m <= k)%Z.
Proof.
  intros Hlo k Hk Hhi. destruct m as [ | p | p ]; try lia. cbn [Zdigits2].
  destruct (digits2_pos_bounds p) as [Hd1 Hd2]. split.
  - destruct (Z_le_gt_dec 53 (Z.pos (digits2_pos p))) as [ | Hgt ]; [ assumption | exfalso ].
    assert (2 ^ Z.pos (digits2_pos p) <= 2 ^ 52)%Z by (apply Z.pow_le_mono_r; lia). lia.
  - destruct (Z_le_gt_dec (Z.pos (digits2_pos p)) k) as [ | Hgt ]; [ assumption | exfalso ].
    assert (2 ^ k <= 2 ^ (Z.pos (digits2_pos p) - 1))%Z by (apply Z.pow_le_mono_r; lia). lia.
Qed.


(** The quotient of two doubles with full mantissas, far from overflow
    and underflow, is within the relative error [2^-53] of the exact
    quotient. *)
Lemma div_error ma ea mb eb :
  (2 ^ 52 <= Z.pos ma < 2 ^ 53)%Z -> (2 ^ 52 <= Z.pos mb < 2 ^ 53)%Z ->
  (-52 <= ea <= 0)%Z -> (-52 <= eb <= 0)%Z ->
  let x := IZR (Z.pos ma) * powerRZ 2 ea / (IZR (Z.pos mb) * powerRZ 2 eb) in
  exists m e,
    div (S754_finite false ma ea) (S754_finite false mb eb) = S754_finite false m e
    /\ (2 ^ 52 <= Z.pos m < 2 ^ 53)%Z /\ (-106 <= e <= 1)%Z
    /\ Rabs (IZR (Z.pos m) * powerRZ 2 e - x) <= x / 2 ^ 53.
Proof.
  intros Hma Hmb Hea Heb x.
  unfold div, SFdiv, SFdiv_core_binary. cbn [xorb].
  rewrite (Zdigits2_normal _ Hma), (Zdigits2_normal _ Hmb).
  replace (Z.min (fexp prec emax (53 + ea - (53 + eb))) (ea - eb)) with (ea - eb - 53)%Z
    by (unfold fexp, emin, prec, emax; lia).
  replace (ea - eb - (ea - eb - 53))%Z with 53%Z by lia. cbv iota.
  rewrite Z.shiftl_mul_pow2 by lia.
  pose proof (Z_div_mod (Z.pos ma * 2 ^ 53) (Z.pos mb) eq_refl) as Hdm.
  destruct (Z.div_eucl (Z.pos ma * 2 ^ 53) (Z.pos mb)) as [q r]. destruct Hdm as [Hdm Hr].
  assert (Hq : (2 ^ 52 <= q < 2 ^ 54)%Z).
  { change (2 ^ 54)%Z with (2 * 2 ^ 53)%Z. change (2 ^ 53)%Z with (2 * 2 ^ 52)%Z in *.
    generalize dependent (2 ^ 52)%Z. intros; nia. }
  destruct (Zdigits2_range q (proj1 Hq) 54 ltac:(lia) (proj2 Hq)) as [Hd1 Hd2].
  pose proof (new_location_located (Z.pos mb) q r Hr) as Hloc.
  destruct (binary_round_aux_normal q (ea - eb - 53) (new_location (Z.pos mb) r) _
              ltac:(lia) Hloc Hd1 ltac:(lia) ltac:(lia)) as (m & e & Hres & Hm & He & Herr).
  exists m, e. split; [ exact Hres | ]. split; [ exact Hm | ]. split; [ lia | ].
  replace x with ((IZR q + IZR r / IZR (Z.pos mb)) * powerRZ 2 (ea - eb - 53)); [ exact Herr | ].
  subst x. unfold Z.sub. rewrite !powerRZ_add, !powerRZ_neg' by lra.
  change (powerRZ 2 53) with (2 ^ 53).
  assert (Hreal : IZR (Z.pos ma) * 2 ^ 53 = IZR (Z.pos mb) * IZR q + IZR r).
  { change 53%nat with (Z.to_nat 53). rewrite <- IZR_pow2, <- !mult_IZR, <- plus_IZR.
    f_equal. exact Hdm. }
  pose proof (powerRZ_lt 2 ea ltac:(lra)). pose proof (powerRZ_lt 2 eb ltac:(lra)).
  assert (H53 : 0 < 2 ^ 53) by (apply pow_lt; lra).
  assert (Hb : 0 < IZR (Z.pos mb)) by (apply IZR_lt; lia).
  apply Rmult_eq_reg_r with (IZR (Z.pos mb) * powerRZ 2 eb * 2 ^ 53); [ | nra ].
  transitivity ((IZR (Z.pos mb) * IZR q + IZR r) * powerRZ 2 ea); [ field; lra | ].
  rewrite <- Hreal. field. lra.
Qed.

(** The product of two doubles with full mantissas, far from overflow
    and underflow, is within the relative error [2^-53] of the exact
    product. *)
Lemma mul_error mx ex my ey :
  (2 ^ 52 <= Z.pos mx < 2 ^ 53)%Z -> (2 ^ 52 <= Z.pos my < 2 ^ 53)%Z ->
  (-1074 <= ex + ey <= 900)%Z ->
  let x := IZR (Z.pos mx) * powerRZ 2 ex * (IZR (Z.pos my) * powerRZ 2 ey) in
  exists m e,
    mul (S754_finite false mx ex) (S754_finite false my ey) = S754_finite false m e
    /\ Rabs (IZR (Z.pos m) * powerRZ 2 e - x) <= x / 2 ^ 53.
Proof.
  intros Hmx Hmy He x. unfold mul, SFmul. cbn [xorb].
  assert (Hp : (2 ^ 52 <= Z.pos (mx * my) < 2 ^ 106)%Z).
  { rewrite Pos2Z.inj_mul. change (2 ^ 106)%Z with (2 ^ 53 * 2 ^ 53)%Z.
    change (2 ^ 53)%Z with (2 * 2 ^ 52)%Z in *.
    assert (1 <= 2 ^ 52)%Z by (vm_compute; discriminate).
    generalize dependent (2 ^ 52)%Z. intros; nia. }
  destruct (Zdigits2_range _ (proj1 Hp) 106 ltac:(lia) (proj2 Hp)) as [Hd1 Hd2].
  assert (Hloc : located (shr_record_of_loc (Z.pos (mx * my)) loc_Exact) (IZR (Z.pos (mx * my))))
    by reflexivity.
  destruct (binary_round_aux_normal (Z.pos (mx * my)) (ex + ey) loc_Exact _ ltac:(lia) Hloc Hd1
              ltac:(lia) ltac:(lia)) as (m & e & Hres & _ & _ & Herr).
  exists m, e. split; [ exact Hres | ].
  replace x with (IZR (Z.pos (mx * my)) * powerRZ 2 (ex + ey)); [ exact Herr | ].
  subst x. rewrite Pos2Z.inj_mul, mult_IZR, powerRZ_add by lra. ring.
Qed.

Lemma floor_value m e :
  IZR (floor (S754_finite false m e)) <= IZR (Z.pos m) * powerRZ 2 e
  < IZR (floor (S754_finite false m e)) + 1.
Proof.
  cbn [floor]. destruct (Z.leb_spec 0 e) as [He | He].
  - replace e with (Z.of_nat (Z.to_nat e)) by lia.
    rewrite mult_IZR, IZR_pow2, <- pow_powerRZ. lra.
  - set (k := Z.to_nat (- e)). assert (He' : e = (- Z.of_nat k)%Z) by lia.
    clearbody k. subst e. rewrite Z.opp_involutive, powerRZ_neg', <- pow_powerRZ.
    assert (Hpos : (0 < 2 ^ Z.of_nat k)%Z) by (apply Z.pow_pos_nonneg; lia).
    pose proof (Z.mul_div_le (Z.pos m) _ Hpos) as Hlo.
    pose proof (Z.mul_succ_div_gt (Z.pos m) _ Hpos) as Hhi.
    apply IZR_le in Hlo. apply IZR_lt in Hhi.
    rewrite mult_IZR, IZR_pow2 in Hlo, Hhi. rewrite succ_IZR in Hhi.
    pose proof (pow_lt 2 k ltac:(lra)) as Hk.
    set (F := IZR (Z.pos m / 2 ^ Z.of_nat k)) in *.
    split.
    + apply Rmult_le_reg_r with (2 ^ k); [ exact Hk | ].
      replace (IZR (Z.pos m) * / 2 ^ k * 2 ^ k) with (IZR (Z.pos m)) by (field; lra).
      rewrite Rmult_comm. exact Hlo.
    + apply Rmult_lt_reg_r with (2 ^ k); [ exact Hk | ].
      replace (IZR (Z.pos m) * / 2 ^ k * 2 ^ k) with (IZR (Z.pos m)) by (field; lra).
      rewrite Rmult_comm. exact Hhi.
Qed.


Lemma Rabs_le_between a b : Rabs a <= b -> - b <= a <= b.
Proof. unfold Rabs. destruct (Rcase_abs a); lra. Qed.

(** Two roundings in a row, each within the relative error [u], move
    [N] times the result less than 1 away from the integer [I * T] when
    [I * T] is at most a quarter of [1 / u]. *)
Lemma two_roundings (I N T u P vq vp : R) :
  0 < I -> 0 < N -> 0 < T -> 0 < u -> 4 * P * u = 1 -> 1 <= P -> I * T <= P ->
  Rabs (vq - I / N) <= I / N * u ->
  Rabs (vp - vq * T) <= vq * T * u ->
  I * T - 1 < N * vp < I * T + 1.
Proof.
  intros HI HN HT Hu HP HP1 HA Hq Hp.
  assert (Hu4 : u <= / 4) by nra.
  assert (HX : N * (I / N) = I) by (field; lra).
  set (X0 := I / N) in *.
  assert (HX0 : 0 < X0) by (apply Rdiv_lt_0_compat; assumption).
  apply Rabs_le_between in Hq, Hp.
  assert (Hw1 : I - I * u <= N * vq) by nra.
  assert (Hw2 : N * vq <= I + I * u) by nra.
  assert (Hvq : 0 < vq) by nra.
  set (w := N * vq) in *.
  assert (Hz1 : w * T - w * T * u <= N * vp) by (subst w; nra).
  assert (Hz2 : N * vp <= w * T + w * T * u) by (subst w; nra).
  set (A := I * T) in *.
  assert (HAu : A * u <= / 4) by nra.
  assert (HA0 : 0 < A) by (subst A; nra).
  assert (HAuu : A * u * u <= / 16) by nra.
  assert (Hup : w * T + w * T * u <= A + 2 * (A * u) + A * u * u).
  { replace (A + 2 * (A * u) + A * u * u) with ((I + I * u) * (T * (1 + u))) by (subst A; ring).
    replace (w * T + w * T * u) with (w * (T * (1 + u))) by ring.
    apply Rmult_le_compat_r; [ nra | exact Hw2 ]. }
  assert (Hdown : A - 2 * (A * u) + A * u * u <= w * T - w * T * u).
  { replace (A - 2 * (A * u) + A * u * u) with ((I - I * u) * (T * (1 - u))) by (subst A; ring).
    replace (w * T - w * T * u) with (w * (T * (1 - u))) by ring.
    apply Rmult_le_compat_r; [ nra | exact Hw1 ]. }
  assert (0 <= A * u * u) by nra.
  split; lra.
Qed.


(** The floor of [(i / n) * t] computed in doubles is the floor of the
    exact [i * t / n], or one less where [i * t / n] is a whole number. *)
Lemma estimate_floor i n t :
  (0 < i < n)%Z -> (0 < t)%Z -> (n * t <= 2 ^ 51)%Z ->
  exists m e,
    mul (div (of_int i) (of_int n)) (of_int t) = S754_finite false m e
    /\ (i * t / n - 1 <= floor (S754_finite false m e) <= i * t / n)%Z
    /\ ((i * t) mod n <> 0 -> floor (S754_finite false m e) = i * t / n)%Z.
Proof.
  intros Hi Ht Hnt.
  assert (Hn51 : (n <= 2 ^ 51)%Z) by nia.
  assert (Ht51 : (t <= 2 ^ 51)%Z) by nia.
  assert (H5153 : (2 ^ 51 < 2 ^ 53)%Z) by reflexivity.
  destruct (of_int_value i ltac:(lia)) as (mi & ei & -> & Hmi & Hei & Hvi).
  destruct (of_int_value n ltac:(lia)) as (mn & en & -> & Hmn & Hen & Hvn).
  destruct (of_int_value t ltac:(lia)) as (mt & et & -> & Hmt & Het & Hvt).
  destruct (div_error mi ei mn en Hmi Hmn Hei Hen) as (mq & eq & -> & Hmq & Heq & Hq).
  destruct (mul_error mq eq mt et Hmq Hmt ltac:(lia)) as (m & e & -> & Hp).
  exists m, e. split; [ reflexivity | ].
  rewrite Hvi, Hvn in Hq. rewrite Hvt in Hp.
  pose proof (floor_value m e) as Hf.
  set (F := floor (S754_finite false m e)) in *.
  set (vp := IZR (Z.pos m) * powerRZ 2 e) in *.
  set (vq := IZR (Z.pos mq) * powerRZ 2 eq) in *.
  assert (H0i : 0 < IZR i) by (apply IZR_lt; lia).
  assert (H0n : 0 < IZR n) by (apply IZR_lt; lia).
  assert (H0t : 0 < IZR t) by (apply IZR_lt; lia).
  assert (Hu : 0 < / 2 ^ 53) by (apply Rinv_0_lt_compat, pow_lt; lra).
  assert (HP1 : 1 <= 2 ^ 51) by (apply pow_R1_Rle; lra).
  assert (HP : 4 * 2 ^ 51 * / 2 ^ 53 = 1).
  { change (2 ^ 53) with (2 * (2 * 2 ^ 51)). field. }
  assert (HA : IZR i * IZR t <= 2 ^ 51).
  { rewrite <- mult_IZR. change 51%nat with (Z.to_nat 51). rewrite <- IZR_pow2.
    apply IZR_le. change (Z.of_nat (Z.to_nat 51)) with 51%Z. nia. }
  destruct (two_roundings (IZR i) (IZR n) (IZR t) (/ 2 ^ 53) (2 ^ 51) vq vp
              H0i H0n H0t Hu HP HP1 HA Hq Hp) as [Hlow Hhigh].
  assert (Hint1 : (n * F < i * t + 1)%Z).
  { apply lt_IZR. rewrite plus_IZR, !mult_IZR. nra. }
  assert (Hint2 : (i * t - 1 < n * (F + 1))%Z).
  { apply lt_IZR. rewrite minus_IZR, !mult_IZR, plus_IZR. nra. }
  pose proof (Z.div_mod (i * t) n ltac:(lia)) as Hdm.
  pose proof (Z.mod_pos_bound (i * t) n ltac:(lia)) as Hmod.
  split; [ split | intros Hne ]; nia.
Qed.

End Binary64Error.

Lemma estimate_nonneg i n t :
  0 <= i < 2 ^ 53 -> 0 < n < 2 ^ 53 -> 0 < t < 2 ^ 53 ->
  Binary64.nonneg (Binary64.mul (Binary64.div (Binary64.of_int i) (Binary64.of_int n))
                                (Binary64.of_int t)).
Proof.
  intros Hi Hn Ht.
  apply mul_nonneg; [ apply div_nonneg | ]; auto using of_int_zero_or_pos, of_int_pos_finite.
Qed.

Lemma proportionalPage_upper i n t : proportionalPage i n t <= t.
Proof.
  unfold proportionalPage.
  destruct (Binary64.mul _ _) as [ | [ | ] | | ]; cbv beta iota zeta; lia.
Qed.

Lemma proportionalPage_lower i n t :
  0 <= i < 2 ^ 53 -> 0 < n < 2 ^ 53 -> 0 < t < 2 ^ 53 -> 1 <= proportionalPage i n t.
Proof.
  intros Hi Hn Ht. pose proof (estimate_nonneg i n t Hi Hn Ht) as Hx.
  unfold proportionalPage.
  pose proof (floor_nonneg _ Hx) as Hf.
  destruct (Binary64.mul _ _) as [ | [ | ] | | ];
    simpl in Hx; try discriminate; try contradiction; cbv beta iota zeta; lia.
Qed.

(** ** Facts about the grouping loop *)

Section Grouping.
Variable pn : nat -> PDFChunk -> Z.

Lemma lookup_push_group k k' c grouped :
  lookup_group k' (push_group k c grouped) =
  if k' =? k then Some (default [] (lookup_group k grouped) ++ [c])
  else lookup_group k' grouped.
Proof.
  induction grouped as [ | [k0 l0] rest IH ]; simpl.
  - destruct (Z.eqb_spec k' k); reflexivity.
  - destruct (Z.eqb_spec k k0) as [-> | Hne]; simpl.
    + destruct (Z.eqb_spec k' k0); reflexivity.
    + destruct (Z.eqb_spec k' k0) as [-> | Hne'].
      * destruct (Z.eqb_spec k0 k); [ congruence | reflexivity ].
      * exact IH.
Qed.

Lemma keys_push_group k c grouped :
  (push_group k c grouped).*1 = if decide (k ∈ grouped.*1) then grouped.*1 else grouped.*1 ++ [k].
Proof.
  induction grouped as [ | [k0 l0] rest IH ]; csimpl.
  - reflexivity.
  - destruct (Z.eqb_spec k k0) as [-> | Hne]; csimpl.
    + rewrite decide_True by (apply elem_of_cons; now left). reflexivity.
    + rewrite IH. destruct (decide (k ∈ rest.*1)) as [Hin | Hnin].
      * rewrite decide_True by (apply elem_of_cons; now right). reflexivity.
      * rewrite decide_False; [ reflexivity | ].
        intros [Heq | Hin]%elem_of_cons; [ congruence | contradiction ].
Qed.

Lemma NoDup_push_group k c grouped :
  NoDup grouped.*1 -> NoDup (push_group k c grouped).*1.
Proof.
  intros Hnd. rewrite keys_push_group. destruct (decide (k ∈ grouped.*1)); [ assumption | ].
  apply NoDup_app. repeat split; [ assumption | | apply NoDup_singleton ].
  intros x Hx Hx'. apply list_elem_of_singleton in Hx'. congruence.
Qed.

Lemma all_grouped_push_group k c grouped :
  all_grouped (push_group k c grouped) ≡ₚ all_grouped grouped ++ [c].
Proof.
  unfold all_grouped. induction grouped as [ | [k0 l0] rest IH ]; simpl.
  - reflexivity.
  - destruct (Z.eqb_spec k k0) as [-> | Hne]; simpl.
    + rewrite <- !(assoc_L (++)). apply Permutation_app_head, Permutation_app_comm.
    + rewrite IH. now rewrite (assoc_L (++)).
Qed.

Lemma NoDup_forEach_group index rest grouped :
  NoDup grouped.*1 -> NoDup (forEach_group pn index rest grouped).*1.
Proof.
  revert index grouped. induction rest as [ | c rest IH ]; intros index grouped Hnd; simpl.
  - assumption.
  - apply IH, NoDup_push_group, Hnd.
Qed.

Lemma all_grouped_forEach_group index rest grouped :
  all_grouped (forEach_group pn index rest grouped) ≡ₚ all_grouped grouped ++ rest.
Proof.
  revert index grouped. induction rest as [ | c rest IH ]; intros index grouped; simpl.
  - now rewrite app_nil_r.
  - rewrite IH, all_grouped_push_group. now rewrite <- (assoc_L (++)).
Qed.

Lemma lookup_forEach_group k index rest grouped :
  lookup_group k (forEach_group pn index rest grouped) =
  merge_lookup (lookup_group k grouped) (chunks_on_page pn k index rest).
Proof.
  revert index grouped. induction rest as [ | c rest IH ]; intros index grouped; simpl.
  - destruct (lookup_group k grouped); simpl; [ now rewrite app_nil_r | reflexivity ].
  - rewrite IH, lookup_push_group. rewrite (Z.eqb_sym (pn index c) k).
    destruct (Z.eqb_spec k (pn index c)) as [-> | Hne].
    + unfold merge_lookup. simpl. rewrite <- (assoc_L (++)). simpl.
      destruct (lookup_group (pn index c) grouped); reflexivity.
    + reflexivity.
Qed.

Lemma elem_of_chunks_on_page k index rest c :
  c ∈ chunks_on_page pn k index rest <->
  exists j, rest !! j = Some c /\ pn (index + j)%nat c = k.
Proof.
  revert index. induction rest as [ | c0 rest IH ]; intros index; simpl.
  - split; [ intros H; inversion H | intros (j & Hj & _); discriminate ].
  - destruct (Z.eqb_spec (pn index c0) k) as [Heq | Hne].
    + rewrite elem_of_cons, IH. split.
      * intros [-> | (j & Hj & Hk)].
        -- exists 0%nat. rewrite Nat.add_0_r. auto.
        -- exists (S j). rewrite Nat.add_succ_r. auto.
      * intros ([ | j] & Hj & Hk); simpl in Hj.
        -- left. congruence.
        -- right. exists j. rewrite Nat.add_succ_r in Hk. auto.
    + rewrite IH. split.
      * intros (j & Hj & Hk). exists (S j). rewrite Nat.add_succ_r. auto.
      * intros ([ | j] & Hj & Hk); simpl in Hj.
        -- rewrite Nat.add_0_r in Hk. congruence.
        -- exists j. rewrite Nat.add_succ_r in Hk. auto.
Qed.
End Grouping.

Lemma lookup_chunksByPage chunks t k :
  lookup_group k (chunksByPage chunks t) =
  match chunks_on_page (pageNum chunks t) k 0 chunks with
  | [] => None
  | l => Some l
  end.
Proof.
  unfold chunksByPage. rewrite lookup_forEach_group. simpl.
  destruct (chunks_on_page _ _ _ _); reflexivity.
Qed.

(** ** The page estimator and the page groups *)

Lemma allPagesZero_true chunks :
  allPagesZero chunks = true <->
  chunks <> [] /\ Forall (fun c => chunk_page c = None \/ chunk_page c = Some 0) chunks.
Proof.
  unfold allPagesZero. rewrite andb_true_iff, Z.ltb_lt, forallb_forall, Forall_forall.
  split; intros [Hlen Hall]; split.
  - intros ->. simpl in Hlen. lia.
  - intros c Hc. apply list_elem_of_In in Hc. specialize (Hall c Hc). unfold pageFalsy in Hall.
    destruct (chunk_page c) as [p | ]; [ right | now left ].
    apply Z.eqb_eq in Hall. now subst.
  - destruct chunks; [ congruence | simpl; lia ].
  - intros c Hc. apply list_elem_of_In in Hc. specialize (Hall c Hc). unfold pageFalsy.
    destruct Hall as [-> | ->]; reflexivity.
Qed.

Lemma allPagesZero_false chunks c p :
  c ∈ chunks -> chunk_page c = Some p -> p <> 0 -> allPagesZero chunks = false.
Proof.
  intros Hc Hp Hne. destruct (allPagesZero chunks) eqn:E; [ exfalso | reflexivity ].
  apply allPagesZero_true in E as [_ Hall].
  rewrite Forall_forall in Hall. destruct (Hall c Hc); congruence.
Qed.

Lemma forEach_group_ext pn pn' index rest grouped :
  (forall i c, pn i c = pn' i c) ->
  forEach_group pn index rest grouped = forEach_group pn' index rest grouped.
Proof.
  intros Hext. revert index grouped.
  induction rest as [ | c rest IH ]; intros index grouped; simpl; [ reflexivity | ].
  now rewrite Hext, IH.
Qed.

Lemma chunk_in_its_group chunks t i c :
  chunks !! i = Some c ->
  exists l, lookup_group (pageNum chunks t i c) (chunksByPage chunks t) = Some l /\ c ∈ l.
Proof.
  intros Hc. rewrite lookup_chunksByPage.
  assert (Hin : c ∈ chunks_on_page (pageNum chunks t) (pageNum chunks t i c) 0 chunks).
  { apply elem_of_chunks_on_page. exists i. auto. }
  destruct (chunks_on_page _ _ _ _) as [ | c1 l ]; [ inversion Hin | ].
  eexists; split; [ reflexivity | assumption ].
Qed.

(** Claim C2.  When some chunk of the document carries a nonzero page,
    every chunk resolves to its own metadata page ([chunk.page || 0]) and
    lands in the group of that page, whatever its index and whatever the
    declared page count: no estimate enters, and the grouping does not
    depend on the declared count. *)
Theorem metadata_all_or_nothing (chunks : list PDFChunk) (c0 : PDFChunk) (p0 : Z) :
  c0 ∈ chunks -> chunk_page c0 = Some p0 -> p0 <> 0 ->
  forall (documentTotalPages : Z) (index : nat) (c : PDFChunk),
    chunks !! index = Some c ->
    pageNum chunks documentTotalPages index c = default 0 (chunk_page c)
    /\ (exists l, lookup_group (default 0 (chunk_page c))
                   (chunksByPage chunks documentTotalPages) = Some l /\ c ∈ l)
    /\ (forall t j, pageNum chunks t j c = default 0 (chunk_page c))
    /\ (forall t, chunksByPage chunks t = chunksByPage chunks documentTotalPages).
Proof.
  intros Hc0 Hp0 Hne t index c Hc.
  pose proof (allPagesZero_false chunks c0 p0 Hc0 Hp0 Hne) as Hz.
  assert (Hpn : forall t j c', pageNum chunks t j c' = default 0 (chunk_page c')).
  { intros t' j c'. unfold pageNum. now rewrite Hz. }
  split; [ apply Hpn | ]. split; [ | split; [ intros; apply Hpn | ] ].
  - rewrite <- (Hpn t index c). now apply chunk_in_its_group.
  - intros t'. unfold chunksByPage. apply forEach_group_ext.
    intros i c'. now rewrite !Hpn.
Qed.

Lemma metadata_all_or_nothing_witness :
  let chunks := [paged_chunk "a" 3; bare_chunk "b"] in
  pageNum chunks 5 1 (bare_chunk "b") = 0.
Proof.
  intros chunks.
  assert (Hin : paged_chunk "a" 3 ∈ chunks) by (apply elem_of_cons; now left).
  exact (proj1 (metadata_all_or_nothing chunks (paged_chunk "a" 3) 3 Hin eq_refl
                  ltac:(discriminate) 5 1%nat (bare_chunk "b") eq_refl)).
Defined.

(** Claim C9.  The page groups partition the chunk list: the keys are
    pairwise distinct, the groups together hold exactly the chunks of the
    list (as many times as the list does), a group is never empty and holds
    the chunks its page was resolved for in list order, every chunk sits in
    the group of its resolved page, and in a list without repeated chunks
    no chunk sits in two groups.  The keys need not be contiguous. *)
Theorem chunksByPage_partition (chunks : list PDFChunk) (documentTotalPages : Z) :
  let grouped := chunksByPage chunks documentTotalPages in
  NoDup grouped.*1
  /\ all_grouped grouped ≡ₚ chunks
  /\ (forall k l, lookup_group k grouped = Some l ->
        l <> [] /\ l = chunks_on_page (pageNum chunks documentTotalPages) k 0 chunks)
  /\ (forall i c, chunks !! i = Some c ->
        exists l, lookup_group (pageNum chunks documentTotalPages i c) grouped = Some l /\ c ∈ l)
  /\ (NoDup chunks ->
      forall c k1 k2 l1 l2,
        lookup_group k1 grouped = Some l1 -> c ∈ l1 ->
        lookup_group k2 grouped = Some l2 -> c ∈ l2 -> k1 = k2)
  /\ (exists cs t, Object_keys (chunksByPage cs t) = [1; 5]).
Proof.
  intros grouped. subst grouped. repeat split.
  - unfold chunksByPage. apply NoDup_forEach_group. constructor.
  - unfold chunksByPage. now rewrite all_grouped_forEach_group.
  - rewrite lookup_chunksByPage in H. destruct (chunks_on_page _ _ _ _); congruence.
  - rewrite lookup_chunksByPage in H. destruct (chunks_on_page _ _ _ _); congruence.
  - intros i c Hc. now apply chunk_in_its_group.
  - intros Hnd c k1 k2 l1 l2 H1 Hc1 H2 Hc2.
    rewrite lookup_chunksByPage in H1, H2.
    assert (Hin1 : c ∈ chunks_on_page (pageNum chunks documentTotalPages) k1 0 chunks).
    { destruct (chunks_on_page _ k1 _ _); [ discriminate | congruence ]. }
    assert (Hin2 : c ∈ chunks_on_page (pageNum chunks documentTotalPages) k2 0 chunks).
    { destruct (chunks_on_page _ k2 _ _); [ discriminate | congruence ]. }
    apply elem_of_chunks_on_page in Hin1 as (j1 & Hj1 & <-).
    apply elem_of_chunks_on_page in Hin2 as (j2 & Hj2 & <-).
    now rewrite (NoDup_lookup _ _ _ _ Hnd Hj1 Hj2).
  - exists [paged_chunk "a" 1; paged_chunk "b" 5], 0. reflexivity.
Qed.

Lemma chunksByPage_partition_witness :
  let chunks := [paged_chunk "a" 2; bare_chunk "b"; paged_chunk "c" 2] in
  NoDup chunks /\
  forall c k1 k2 l1 l2,
    lookup_group k1 (chunksByPage chunks 4) = Some l1 -> c ∈ l1 ->
    lookup_group k2 (chunksByPage chunks 4) = Some l2 -> c ∈ l2 -> k1 = k2.
Proof.
  intros chunks.
  assert (Hnd : NoDup chunks) by (refine (bool_decide_unpack (NoDup chunks) _); vm_compute; exact I).
  split; [ exact Hnd | ].
  exact (proj1 (proj2 (proj2 (proj2 (proj2 (chunksByPage_partition chunks 4))))) Hnd).
Defined.

Lemma pageNum_estimated chunks t i c :
  allPagesZero chunks = true ->
  pageNum chunks t i c =
  if 0 <? t then proportionalPage (Z.of_nat i) (Z.of_nat (length chunks)) t
  else densityPage (Z.of_nat i).
Proof. intros Hz. unfold pageNum. now rewrite Hz. Qed.

Lemma pageNum_metadata chunks t i c :
  allPagesZero chunks = false -> pageNum chunks t i c = default 0 (chunk_page c).
Proof. intros Hz. unfold pageNum. now rewrite Hz. Qed.

Lemma densityPage_lower i : 0 <= i -> 1 <= densityPage i.
Proof.
  intros Hi. unfold densityPage, chunksPerPage.
  pose proof (Z.div_pos i 3 Hi ltac:(lia)). lia.
Qed.

(** On a range of indices the double-precision quotient has the floor
    of the integer quotient. *)
Lemma densityPage_binary64 :
  forallb (fun i => Binary64.floor (Binary64.div (Binary64.of_int i) (Binary64.of_int chunksPerPage)) + 1
                    =? densityPage i) (seqZ 0 4096) = true.
Proof. vm_compute. reflexivity. Qed.

(** The double-precision product can fall just below the exact one:
    with 22 chunks on 22 pages, [15 / 22 * 22] rounds below 15 and the
    chunk at index 15 shares page 15 with the chunk at index 14. *)
Remark proportionalPage_rounding :
  proportionalPage 15 22 22 = 15 /\ proportionalPage 14 22 22 = 15 /\ 15 * 22 / 22 + 1 = 16.
Proof. vm_compute. auto. Qed.

(** The specified estimate with the floors written as integer
    quotients. *)
Lemma spec_estimate_quotient i n t :
  0 < n ->
  spec_estimate i n t
  = if 0 <? t then Z.max 1 (Z.min t (i * t / n + 1)) else i / 3 + 1.
Proof.
  intros Hn. unfold spec_estimate.
  assert (Hp : Qfloor (inject_Z i / inject_Z n * inject_Z t)%Q = i * t / n).
  { destruct n as [ | p | p ]; try lia.
    transitivity (Qfloor ((i * t) # p)); [ | reflexivity ].
    apply Qfloor_comp. unfold Qeq, Qdiv, Qmult, Qinv, inject_Z. cbn. lia. }
  assert (Hd : Qfloor (inject_Z i / inject_Z 3)%Q = i / 3).
  { unfold Qdiv, Qmult, Qinv, inject_Z, Qfloor. cbn. now rewrite Z.mul_1_r. }
  now rewrite Hp, Hd.
Qed.

(** The proportional estimate of the source against the exact quotient:
    the page of the exact formula, or the page before it where
    [i * t / n] is a whole number. *)
Lemma proportionalPage_exact i n t :
  0 <= i < n -> 0 < t -> n * t <= 2 ^ 51 ->
  (proportionalPage i n t = i * t / n + 1 \/ proportionalPage i n t = i * t / n)
  /\ ((i * t) mod n <> 0 -> proportionalPage i n t = i * t / n + 1)
  /\ 0 <= i * t / n < t.
Proof.
  intros Hi Ht Hnt.
  assert (Hrange : 0 <= i * t / n < t).
  { split; [ apply Z.div_pos; nia | apply Z.div_lt_upper_bound; nia ]. }
  destruct (Z.eq_dec i 0) as [-> | Hne].
  - assert (Hzero : proportionalPage 0 n t = 1).
    { unfold proportionalPage. change (Binary64.of_int 0) with (S754_zero false).
      destruct (of_int_value n) as (mn & en & -> & _);
        [ assert (2 ^ 51 < 2 ^ 53) by reflexivity; nia | ].
      destruct (of_int_value t) as (mt & et & -> & _);
        [ assert (2 ^ 51 < 2 ^ 53) by reflexivity; nia | ].
      cbn. lia. }
    rewrite Hzero, Z.mul_0_l, Z.div_0_l, Z.mod_0_l by lia. repeat split; auto; lia.
  - destruct (estimate_floor i n t ltac:(lia) Ht Hnt) as (m & e & Hx & Hf & Hfe).
    unfold proportionalPage. rewrite Hx. cbv zeta.
    split; [ | split; [ | exact Hrange ] ].
    + destruct (Z.eq_dec (Binary64.floor (S754_finite false m e)) (i * t / n)); lia.
    + intros Hmod. specialize (Hfe Hmod). lia.
Qed.

(** Claim C3, amended.  In a document whose chunks all report page 0 or
    none, the chunk at [index] resolves to the page of the specified
    formula, [floor(index / chunkCount * totalPages) + 1] clamped to
    [[1, totalPages]], or to the page before it: the source takes the
    quotient and the product in doubles, and where
    [index * totalPages / chunkCount] is a whole number the rounded
    product can fall just below it.  Wherever that number is not whole the
    page is the specified one.  The page lies in [[1, totalPages]] and the
    chunk sits in the group of its page.  When the total is not known the
    page is [floor(index / 3) + 1], as specified.  The size of the
    document is bounded by [chunkCount * totalPages <= 2^51].  With 10
    chunks and 5 pages every index is on the specified page, index 0 on
    page 1 and index 9 on page 5; with 7 chunks and no total, indices 0-2
    are on page 1, 3-5 on page 2 and 6 on page 3. *)
Theorem estimation_fallback (chunks : list PDFChunk) (documentTotalPages : Z)
    (index : nat) (c : PDFChunk) :
  Forall (fun c => chunk_page c = None \/ chunk_page c = Some 0) chunks ->
  chunks !! index = Some c ->
  Z.of_nat (length chunks) * documentTotalPages <= 2 ^ 51 ->
  let page := pageNum chunks documentTotalPages index c in
  let specified :=
    spec_estimate (Z.of_nat index) (Z.of_nat (length chunks)) documentTotalPages in
  (page = specified \/ page = specified - 1)
  /\ ((Z.of_nat index * documentTotalPages) mod Z.of_nat (length chunks) <> 0 ->
      page = specified)
  /\ (0 < documentTotalPages -> 1 <= page <= documentTotalPages)
  /\ (documentTotalPages <= 0 -> page = specified /\ page = Z.of_nat index / 3 + 1)
  /\ (exists l, lookup_group page (chunksByPage chunks documentTotalPages) = Some l /\ c ∈ l)
  /\ (length chunks = 10%nat -> documentTotalPages = 5 ->
      page = specified /\ page = Z.of_nat index / 2 + 1
      /\ (index = 0%nat -> page = 1) /\ (index = 9%nat -> page = 5))
  /\ (length chunks = 7%nat -> documentTotalPages = 0 ->
      ((index <= 2)%nat -> page = 1) /\ ((3 <= index <= 5)%nat -> page = 2)
      /\ (index = 6%nat -> page = 3)).
Proof.
  intros Hall Hc Hsize page specified.
  assert (Hz : allPagesZero chunks = true).
  { apply allPagesZero_true. split; [ | assumption ]. intros ->. discriminate. }
  pose proof (lookup_lt_Some _ _ _ Hc) as Hlt.
  assert (Hpage : page = if 0 <? documentTotalPages
                         then proportionalPage (Z.of_nat index) (Z.of_nat (length chunks))
                                               documentTotalPages
                         else densityPage (Z.of_nat index))
    by (apply pageNum_estimated; assumption).
  assert (Hspec : specified = if 0 <? documentTotalPages
                              then Z.max 1 (Z.min documentTotalPages
                                              (Z.of_nat index * documentTotalPages
                                               / Z.of_nat (length chunks) + 1))
                              else Z.of_nat index / 3 + 1)
    by (apply spec_estimate_quotient; lia).
  assert (Hgroup : exists l, lookup_group page (chunksByPage chunks documentTotalPages) = Some l
                             /\ c ∈ l) by (now apply chunk_in_its_group).
  destruct (Z.ltb_spec 0 documentTotalPages) as [Hpos | Hle].
  - destruct (proportionalPage_exact (Z.of_nat index) (Z.of_nat (length chunks))
                documentTotalPages ltac:(lia) Hpos Hsize) as (Hnear & Hexact & Hrange).
    rewrite <- Hpage in Hnear, Hexact.
    assert (Hs : specified = Z.of_nat index * documentTotalPages / Z.of_nat (length chunks) + 1)
      by lia.
    assert (Hbounds : 1 <= page <= documentTotalPages).
    { assert (2 ^ 51 < 2 ^ 53) by reflexivity. rewrite Hpage.
      split; [ apply proportionalPage_lower; nia | apply proportionalPage_upper ]. }
    split; [ lia | ]. split; [ intros Hmod; specialize (Hexact Hmod); lia | ].
    split; [ intros _; exact Hbounds | ]. split; [ lia | ]. split; [ exact Hgroup | ].
    split; [ | intros _ ->; lia ].
    intros Hlen ->. rewrite Hlen in Hpage, Hs, Hlt.
    assert (Hvalue : page = Z.of_nat index / 2 + 1).
    { rewrite Hpage.
      do 10 (destruct index as [ | index ]; [ vm_compute; reflexivity | ]). lia. }
    assert (Hhalf : Z.of_nat index * 5 / Z.of_nat 10 = Z.of_nat index / 2).
    { change (Z.of_nat 10) with (5 * 2). rewrite Z.mul_comm, Z.div_mul_cancel_l by lia.
      reflexivity. }
    split; [ lia | ]. split; [ exact Hvalue | ].
    split; intros ->; rewrite Hvalue; reflexivity.
  - assert (Hd : page = Z.of_nat index / 3 + 1) by (rewrite Hpage; reflexivity).
    split; [ left; congruence | ]. split; [ intros _; congruence | ]. split; [ lia | ].
    split; [ intros _; split; [ congruence | exact Hd ] | ]. split; [ exact Hgroup | ].
    split; [ intros _ ->; lia | ].
    intros Hlen _. rewrite Hlen in Hlt. rewrite Hd. repeat split; intros Hi.
    + rewrite Z.div_small by lia. reflexivity.
    + replace (Z.of_nat index / 3) with 1; [ reflexivity | ].
      apply Z.div_unique with (r := Z.of_nat index - 3); lia.
    + subst index. reflexivity.
Qed.

Lemma estimation_fallback_witness :
  let chunks := replicate 10 (bare_chunk "c") in
  pageNum chunks 5 9 (bare_chunk "c") = 5
  /\ exists l, lookup_group (pageNum chunks 5 9 (bare_chunk "c")) (chunksByPage chunks 5) = Some l
               /\ bare_chunk "c" ∈ l.
Proof.
  intros chunks.
  assert (Hall : Forall (fun c => chunk_page c = None \/ chunk_page c = Some 0) chunks)
    by (repeat constructor).
  assert (Hc : chunks !! 9%nat = Some (bare_chunk "c")) by reflexivity.
  assert (Hn : Z.of_nat (length chunks) * 5 <= 2 ^ 51) by (vm_compute; discriminate).
  pose proof (estimation_fallback chunks 5 9 (bare_chunk "c") Hall Hc Hn)
    as (_ & _ & _ & _ & Hgroup & Hten & _).
  split; [ exact (proj2 (proj2 (proj2 (Hten eq_refl eq_refl))) eq_refl) | exact Hgroup ].
Defined.

(** Claim C3 fails as stated: with 22 chunks and 22 declared pages the
    formula puts the chunk at index 15 on page 16, and the source puts it
    on page 15. *)
Lemma estimate_is_not_the_exact_formula :
  ~ (forall (chunks : list PDFChunk) (documentTotalPages : Z) (index : nat) (c : PDFChunk),
        Forall (fun c => chunk_page c = None \/ chunk_page c = Some 0) chunks ->
        chunks !! index = Some c ->
        pageNum chunks documentTotalPages index c
        = spec_estimate (Z.of_nat index) (Z.of_nat (length chunks)) documentTotalPages).
Proof.
  intros H.
  specialize (H (replicate 22 (bare_chunk "c")) 22 15%nat (bare_chunk "c")
                ltac:(repeat constructor) eq_refl).
  vm_compute in H. discriminate.
Qed.

(** Claim C4 fails as stated: in the list of a chunk with page 3 followed
    by a chunk without page, the second chunk resolves to page 0. *)
Lemma resolved_page_can_be_zero :
  ~ (forall (chunks : list PDFChunk) (documentTotalPages : Z) (index : nat) (c : PDFChunk),
        chunks <> [] -> chunks !! index = Some c ->
        1 <= pageNum chunks documentTotalPages index c).
Proof.
  intros H.
  specialize (H [paged_chunk "a" 3; bare_chunk "b"] 5 1%nat (bare_chunk "b")
                ltac:(discriminate) eq_refl).
  vm_compute in H. apply H. reflexivity.
Qed.

(** Claim C4, amended.  On both estimation paths (all chunks report page
    0 or none) the resolved page is at least 1.  On the metadata path the
    resolved page is the chunk's own page, 0 when it has none, so it is at
    least 1 exactly when the chunk carries a positive page. *)
Theorem resolved_page_lower_bound (chunks : list PDFChunk) (documentTotalPages : Z)
    (index : nat) (c : PDFChunk) :
  chunks !! index = Some c ->
  Z.of_nat (length chunks) < 2 ^ 53 -> documentTotalPages < 2 ^ 53 ->
  (allPagesZero chunks = true -> 1 <= pageNum chunks documentTotalPages index c)
  /\ (allPagesZero chunks = false ->
      pageNum chunks documentTotalPages index c = default 0 (chunk_page c)
      /\ (1 <= pageNum chunks documentTotalPages index c <->
          exists p, chunk_page c = Some p /\ 1 <= p)).
Proof.
  intros Hc Hn Ht. split; intros Hz.
  - rewrite pageNum_estimated by assumption. apply lookup_lt_Some in Hc.
    destruct (Z.ltb_spec 0 documentTotalPages).
    + apply proportionalPage_lower; lia.
    + apply densityPage_lower. lia.
  - rewrite pageNum_metadata by assumption. split; [ reflexivity | ].
    destruct (chunk_page c) as [p | ]; simpl.
    + split; [ intros Hp; eauto | intros (p' & [= <-] & Hp); assumption ].
    + split; [ lia | intros (p' & [=] & _) ].
Qed.

Lemma resolved_page_lower_bound_witness :
  let chunks := [paged_chunk "a" 3; bare_chunk "b"] in
  pageNum chunks 5 0 (paged_chunk "a" 3) = 3 /\ pageNum chunks 5 1 (bare_chunk "b") = 0.
Proof.
  intros chunks.
  assert (Hn : Z.of_nat (length chunks) < 2 ^ 53) by (vm_compute; reflexivity).
  assert (Ht : 5 < 2 ^ 53) by (vm_compute; reflexivity).
  split.
  - exact (proj1 (proj2 (resolved_page_lower_bound chunks 5 0 (paged_chunk "a" 3)
                           eq_refl Hn Ht) eq_refl)).
  - exact (proj1 (proj2 (resolved_page_lower_bound chunks 5 1 (bare_chunk "b")
                           eq_refl Hn Ht) eq_refl)).
Defined.

(** ** The interpreter field by field *)

Section Frame.
Context {T : Type} (f : Runtime -> T) (sets : Effect -> option T).
Hypothesis perform_f : forall e w, f (perform e w) = default (f w) (sets e).

Lemma perform_all_field effects w :
  f (perform_all effects w) = last_set sets effects (f w).
Proof.
  revert w. induction effects as [ | e effects IH ]; intros w; simpl; [ reflexivity | ].
  unfold perform_all in IH. rewrite IH, perform_f. reflexivity.
Qed.
End Frame.

Ltac frame_cases :=
  intros e w; destruct w; destruct e; cbn; try reflexivity;
  repeat match goal with
         | |- context [match ?x with _ => _ end] => destruct x; cbn; try reflexivity
         end.

Lemma perform_pdfCurrentPage e w :
  pdfCurrentPage (perform e w) = default (pdfCurrentPage w) (sets_pdfCurrentPage e).
Proof. revert e w. frame_cases. Qed.

Lemma perform_pdfViewerMode e w :
  pdfViewerMode (perform e w) = default (pdfViewerMode w) (sets_pdfViewerMode e).
Proof. revert e w. frame_cases. Qed.

Lemma perform_pdfViewerWindowRef e w :
  pdfViewerWindowRef (perform e w) = default (pdfViewerWindowRef w) (sets_pdfViewerWindowRef e).
Proof. revert e w. frame_cases. Qed.

Lemma perform_chunks e w : chunks (perform e w) = default (chunks w) (sets_chunks e).
Proof. revert e w. frame_cases. Qed.

Lemma perform_documentTotalPages e w :
  documentTotalPages (perform e w) = default (documentTotalPages w) (sets_documentTotalPages e).
Proof. revert e w. frame_cases. Qed.


Lemma perform_searchText e w :
  searchText (perform e w) = default (searchText w) (sets_searchText e).
Proof. revert e w. frame_cases. Qed.

Lemma perform_isSearching e w :
  isSearching (perform e w) = default (isSearching w) (sets_isSearching e).
Proof. revert e w. frame_cases. Qed.

Lemma perform_searchResults e w :
  searchResults (perform e w) = default (searchResults w) (sets_searchResults e).
Proof. revert e w. frame_cases. Qed.

Lemma perform_currentSearchIndex e w :
  currentSearchIndex (perform e w) = default (currentSearchIndex w) (sets_currentSearchIndex e).
Proof. revert e w. frame_cases. Qed.

Lemma perform_lastSearchQuery e w :
  lastSearchQuery (perform e w) = default (lastSearchQuery w) (sets_lastSearchQuery e).
Proof. revert e w. frame_cases. Qed.

Lemma perform_suppressObserverRef e w :
  suppressObserverRef (perform e w)
  = default (suppressObserverRef w) (sets_suppressObserverRef e).
Proof. revert e w. frame_cases. Qed.

Lemma perform_clock e w : clock (perform e w) = clock w.
Proof. revert e w. frame_cases. Qed.

Lemma perform_timers e w : timers (perform e w) = timers_after (clock w) e (timers w).
Proof. revert e w. frame_cases. Qed.

Lemma perform_all_clock effects w : clock (perform_all effects w) = clock w.
Proof.
  revert w. induction effects as [ | e effects IH ]; intros w; simpl; [ reflexivity | ].
  unfold perform_all in IH. now rewrite IH, perform_clock.
Qed.

Lemma perform_all_timers effects w :
  timers (perform_all effects w)
  = fold_left (fun q e => timers_after (clock w) e q) effects (timers w).
Proof.
  revert w. induction effects as [ | e effects IH ]; intros w; simpl; [ reflexivity | ].
  unfold perform_all in IH. now rewrite IH, perform_clock, perform_timers.
Qed.

Lemma elem_of_Object_entries grouped e : e ∈ Object_entries grouped <-> e ∈ grouped.
Proof.
  unfold Object_entries. rewrite elem_of_app, merge_sort_Permutation, !list_elem_of_filter.
  destruct (isArrayIndex e.1); intuition congruence.
Qed.

Lemma elem_of_Object_keys grouped k : k ∈ Object_keys grouped <-> k ∈ grouped.*1.
Proof.
  unfold Object_keys. rewrite !list_elem_of_fmap.
  split; intros (e & -> & He); exists e; (split; [ reflexivity | ]);
    now apply elem_of_Object_entries.
Qed.

Lemma fold_left_max_ge pages p : p <= fold_left Z.max pages p.
Proof.
  revert p. induction pages as [ | q pages IH ]; intros p; simpl; [ lia | ].
  specialize (IH (Z.max p q)). lia.
Qed.

Lemma fold_left_max_upper pages p k : k ∈ pages -> k <= fold_left Z.max pages p.
Proof.
  revert p. induction pages as [ | q pages IH ]; intros p Hk; simpl.
  - inversion Hk.
  - apply elem_of_cons in Hk as [-> | Hk]; [ | now apply IH ].
    pose proof (fold_left_max_ge pages (Z.max p q)). lia.
Qed.

Lemma fold_left_max_in pages p : fold_left Z.max pages p ∈ p :: pages.
Proof.
  revert p. induction pages as [ | q pages IH ]; intros p; simpl.
  - apply elem_of_cons. now left.
  - specialize (IH (Z.max p q)). apply elem_of_cons in IH as [IH | IH].
    + rewrite IH. destruct (Z.max_spec p q) as [[_ ->] | [_ ->]].
      * apply elem_of_cons. right. apply elem_of_cons. now left.
      * apply elem_of_cons. now left.
    + apply elem_of_cons. right. apply elem_of_cons. now right.
Qed.

(** [maxPage] is the largest key of the page groups. *)
Lemma maxPage_largest grouped :
  (forall k, k ∈ grouped.*1 -> k <= maxPage grouped)
  /\ (grouped <> [] -> maxPage grouped ∈ grouped.*1).
Proof.
  unfold maxPage. split.
  - intros k Hk. apply elem_of_Object_keys in Hk.
    destruct (Object_keys grouped) as [ | p pages ]; [ inversion Hk | ].
    apply elem_of_cons in Hk as [-> | Hk];
      [ apply fold_left_max_ge | now apply fold_left_max_upper ].
  - intros Hne. apply elem_of_Object_keys.
    destruct (Object_keys grouped) as [ | p pages ] eqn:E; [ | apply fold_left_max_in ].
    exfalso. destruct grouped as [ | [k l] rest ]; [ congruence | ].
    assert (Hk : k ∈ Object_keys ((k, l) :: rest))
      by (apply elem_of_Object_keys, elem_of_cons; now left).
    rewrite E in Hk. inversion Hk.
Qed.

Lemma findNearest_next_upper grouped t startPage :
  startPage <= t -> findNearestPageWithChunks grouped t startPage next <= t.
Proof.
  intros Hs. unfold findNearestPageWithChunks.
  destruct (hasChunks grouped startPage); [ assumption | ].
  destruct (List.find _ _) as [p | ] eqn:E; simpl; [ | assumption ].
  apply find_some in E as [Hin _]. apply list_elem_of_In, elem_of_seqZ in Hin. lia.
Qed.

Lemma findNearest_next_lower grouped t startPage :
  startPage <= findNearestPageWithChunks grouped t startPage next.
Proof.
  unfold findNearestPageWithChunks.
  destruct (hasChunks grouped startPage); [ lia | ].
  destruct (List.find _ _) as [p | ] eqn:E; simpl; [ | lia ].
  apply find_some in E as [Hin _]. apply list_elem_of_In, elem_of_seqZ in Hin. lia.
Qed.

Lemma findNearest_prev_bounds grouped t startPage :
  1 <= startPage ->
  1 <= findNearestPageWithChunks grouped t startPage prev <= startPage.
Proof.
  intros Hs. unfold findNearestPageWithChunks.
  destruct (hasChunks grouped startPage); [ lia | ].
  destruct (List.find _ _) as [p | ] eqn:E; simpl; [ | lia ].
  apply find_some in E as [Hin _].
  apply list_elem_of_In, elem_of_reverse, elem_of_seqZ in Hin. lia.
Qed.

Lemma total_declared w : 0 < documentTotalPages w -> total w = documentTotalPages w.
Proof.
  intros Hpos. unfold total, totalPages.
  now replace (0 <? documentTotalPages w) with true by (symmetry; now apply Z.ltb_lt).
Qed.

Lemma total_undeclared w :
  documentTotalPages w <= 0 -> settled w -> 0 < maxPage (grouped w) ->
  total w = maxPage (grouped w).
Proof.
  unfold settled, total, totalPages, maxPdfPage_effect. intros Hle Hs Hpos.
  replace (0 <? documentTotalPages w) with false by (symmetry; apply Z.ltb_ge; lia).
  replace (0 <? maxPage (grouped w)) with true in Hs by (symmetry; now apply Z.ltb_lt).
  rewrite Hs. replace (maxPage (grouped w) =? 0) with false; [ reflexivity | ].
  symmetry. apply Z.eqb_neq. lia.
Qed.

(** Claim C1, amended.  The bound of the page navigation is the declared
    page count of the document when that is positive; without a declared
    count it is the largest page-group key (once the effect that records it
    has run and that key is positive), and then no group lies beyond it.
    A typed page number is clamped into [[1, max(1, bound)]]: below 1 it
    becomes 1, above the bound it becomes the bound, inside it is kept.
    The previous-page button never requests a page below 1 and the
    next-page button never one above the bound. *)
Theorem page_bounds (w : Runtime) :
  (0 < documentTotalPages w -> total w = documentTotalPages w)
  /\ (documentTotalPages w <= 0 -> settled w -> 0 < maxPage (grouped w) ->
      total w = maxPage (grouped w)
      /\ forall k, k ∈ (grouped w).*1 -> k <= total w)
  /\ (forall v, exists p,
        handlePageInput v w = [OnPdfPageChange p]
        /\ 1 <= p <= Z.max 1 (total w)
        /\ (v < 1 -> p = 1)
        /\ (Z.max 1 (total w) < v -> p = Z.max 1 (total w))
        /\ (1 <= v <= Z.max 1 (total w) -> p = v))
  /\ (forall p, OnPdfPageChange p ∈ handlePreviousPage w ->
        1 <= p <= Z.max 1 (pdfCurrentPage w - 1))
  /\ (forall p, OnPdfPageChange p ∈ handleNextPage w ->
        Z.min (total w) (pdfCurrentPage w + 1) <= p <= total w).
Proof.
  split; [ apply total_declared | ]. split; [ | split; [ | split ] ].
  - intros Hle Hs Hpos. pose proof (total_undeclared w Hle Hs Hpos) as Ht.
    split; [ exact Ht | ]. intros k Hk. rewrite Ht. now apply maxPage_largest.
  - intros v. eexists. split; [ reflexivity | ]. lia.
  - intros p. unfold handlePreviousPage.
    pose proof (findNearest_prev_bounds (grouped w) (total w)
                  (Z.max 1 (pdfCurrentPage w - 1)) ltac:(lia)) as Hb.
    destruct (_ =? _); intros Hin; [ inversion Hin | ].
    repeat (apply elem_of_cons in Hin as [Hin | Hin]; [ try discriminate | ]);
      [ | inversion Hin ].
    injection Hin as ->. exact Hb.
  - intros p. unfold handleNextPage.
    pose proof (findNearest_next_upper (grouped w) (total w)
                  (Z.min (total w) (pdfCurrentPage w + 1)) ltac:(lia)) as Hu.
    pose proof (findNearest_next_lower (grouped w) (total w)
                  (Z.min (total w) (pdfCurrentPage w + 1))) as Hl.
    destruct (_ =? _); intros Hin; [ inversion Hin | ].
    repeat (apply elem_of_cons in Hin as [Hin | Hin]; [ try discriminate | ]);
      [ | inversion Hin ].
    injection Hin as ->. lia.
Qed.

Lemma settled_overshooting : settled overshooting_document.
Proof. vm_compute. reflexivity. Qed.

(** Claim C1 fails as stated: for a document that declares 5 pages and
    has a chunk on page 10 the bound is 5, not the greater of the two. *)
Lemma bound_is_declared_total_not_the_greater :
  ~ (forall w : Runtime,
        settled w ->
        total w = Z.max (maxPage (grouped w)) (documentTotalPages w)
        /\ forall v, 1 <= v <= Z.max (maxPage (grouped w)) (documentTotalPages w) ->
                     handlePageInput v w = [OnPdfPageChange v]).
Proof.
  intros H. destruct (H overshooting_document settled_overshooting) as [Ht _].
  vm_compute in Ht. discriminate.
Qed.

Lemma page_bounds_witness :
  total overshooting_document = 5
  /\ handlePageInput 8 overshooting_document = [OnPdfPageChange 5]
  /\ handlePageInput 0 overshooting_document = [OnPdfPageChange 1].
Proof.
  pose proof (page_bounds overshooting_document) as (Hdecl & _ & Hinput & _).
  split; [ exact (Hdecl eq_refl) | ].
  split.
  - destruct (Hinput 8) as (p & Hp & _ & _ & Hhigh & _).
    rewrite Hp. f_equal. f_equal. apply Hhigh. vm_compute. reflexivity.
  - destruct (Hinput 0) as (p & Hp & _ & Hlow & _).
    rewrite Hp. f_equal. f_equal. apply Hlow. reflexivity.
Defined.


Lemma last_set_none {T} (sets : Effect -> option T) l v :
  Forall (fun e => sets e = None) l -> last_set sets l v = v.
Proof.
  intros Hl. revert v. unfold last_set.
  induction Hl as [ | e l He _ IH ]; intros v; simpl; [ reflexivity | ].
  now rewrite He, IH.
Qed.

Section RunFacts.
Context `{JsString}.

Lemma render_effects_kind effects before after :
  Forall (fun e => is_render_effect e = true) (render_effects effects before after).
Proof.
  unfold render_effects, maxPdfPageEffect, searchResetEffect, syncScrollEffect.
  repeat match goal with
         | |- context [if ?b then _ else _] => destruct b
         | |- context [match ?x with _ => _ end] => destruct x
         end; repeat constructor.
Qed.

Lemma render_effects_frame {T} (sets : Effect -> option T) effects before after v :
  (forall e, is_render_effect e = true -> sets e = None) ->
  last_set sets (render_effects effects before after) v = v.
Proof.
  intros Hsets. apply last_set_none.
  eapply Forall_impl; [ apply render_effects_kind | ]. auto.
Qed.

Lemma run_pdfCurrentPage effects w :
  pdfCurrentPage (run effects w) = last_set sets_pdfCurrentPage effects (pdfCurrentPage w).
Proof.
  unfold run. rewrite !(perform_all_field _ _ perform_pdfCurrentPage).
  apply render_effects_frame. now intros [].
Qed.

Lemma run_chunks effects w :
  chunks (run effects w) = last_set sets_chunks effects (chunks w).
Proof.
  unfold run. rewrite !(perform_all_field _ _ perform_chunks).
  apply render_effects_frame. now intros [].
Qed.

Lemma run_documentTotalPages effects w :
  documentTotalPages (run effects w)
  = last_set sets_documentTotalPages effects (documentTotalPages w).
Proof.
  unfold run. rewrite !(perform_all_field _ _ perform_documentTotalPages).
  apply render_effects_frame. now intros [].
Qed.

Lemma run_pdfViewerMode effects w :
  pdfViewerMode (run effects w) = last_set sets_pdfViewerMode effects (pdfViewerMode w).
Proof.
  unfold run. rewrite !(perform_all_field _ _ perform_pdfViewerMode).
  apply render_effects_frame. now intros [].
Qed.

Lemma run_searchText effects w :
  searchText (run effects w) = last_set sets_searchText effects (searchText w).
Proof.
  unfold run. rewrite !(perform_all_field _ _ perform_searchText).
  apply render_effects_frame. now intros [].
Qed.


Lemma last_set_maxPdfPage_other l v :
  Forall (fun e => match e with SetMaxPdfPage _ => False | _ => True end) l ->
  last_set sets_maxPdfPage l v = v.
Proof.
  intros Hl. apply last_set_none. eapply Forall_impl; [ exact Hl | ].
  intros []; simpl; tauto.
Qed.








End RunFacts.

Lemma lookup_group_elem k l (g : PageGroups) :
  NoDup g.*1 -> (k, l) ∈ g -> lookup_group k g = Some l.
Proof.
  induction g as [ | [k0 l0] g IH ]; intros Hnd Hin; [ inversion Hin | ].
  apply NoDup_cons in Hnd as [Hk0 Hnd]. cbn.
  apply elem_of_cons in Hin as [[= -> ->] | Hin].
  - now rewrite Z.eqb_refl.
  - destruct (Z.eqb_spec k k0) as [-> | _]; [ | now apply IH ].
    exfalso. apply Hk0. apply list_elem_of_fmap. now exists (k0, l).
Qed.

Lemma elem_lookup_group k l (g : PageGroups) :
  lookup_group k g = Some l -> (k, l) ∈ g.
Proof.
  induction g as [ | [k0 l0] g IH ]; cbn; [ discriminate | ].
  destruct (Z.eqb_spec k k0) as [-> | _].
  - intros [= ->]. apply elem_of_cons. now left.
  - intros Hl. apply elem_of_cons. right. now apply IH.
Qed.

(** With distinct chunk ids, the page a search or an observation looks
    up for a chunk is the page the chunk was resolved to. *)
Lemma pageOfChunk_resolved chunks t i c :
  NoDup (chunk_id <$> chunks) -> chunks !! i = Some c ->
  pageOfChunk (chunksByPage chunks t) (chunk_id c) = Some (pageNum chunks t i c).
Proof.
  intros Hids Hc. unfold pageOfChunk.
  destruct (List.find _ _) as [[k l] | ] eqn:E; cbn.
  - apply find_some in E as [Hin Hex]. cbn in Hex.
    apply list_elem_of_In in Hin. apply (proj1 (elem_of_Object_entries _ _)) in Hin.
    apply lookup_group_elem in Hin; [ | apply NoDup_forEach_group; constructor ].
    rewrite lookup_chunksByPage in Hin.
    apply existsb_exists in Hex as (c' & Hc' & Heq). apply String.eqb_eq in Heq.
    assert (Hon : c' ∈ chunks_on_page (pageNum chunks t) k 0 chunks).
    { destruct (chunks_on_page _ k _ _); [ discriminate | ].
      injection Hin as <-. now apply list_elem_of_In. }
    apply elem_of_chunks_on_page in Hon as (j & Hj & <-). cbn in Hj |- *.
    assert (Hji : j = i).
    { eapply NoDup_lookup; [ exact Hids | | ]; rewrite list_lookup_fmap.
      - rewrite Hj. cbn. reflexivity.
      - rewrite Hc. cbn. now rewrite Heq. }
    subst j. congruence.
  - exfalso. destruct (chunk_in_its_group chunks t i c Hc) as (l & Hl & Hin).
    apply elem_lookup_group in Hl. apply (proj2 (elem_of_Object_entries _ _)) in Hl.
    apply list_elem_of_In in Hl.
    pose proof (find_none _ _ E _ Hl) as Hnone. cbn in Hnone.
    apply not_true_iff_false in Hnone. apply Hnone, existsb_exists.
    exists c. split; [ now apply list_elem_of_In | apply String.eqb_refl ].
Qed.

Section SearchFacts.
Context `{JsString}.

Lemma render_effects_quiet effects w :
  Forall (fun e => is_quiet e = true) effects ->
  render_effects effects w (perform_all effects w) = [].
Proof.
  intros Hq. unfold render_effects.
  rewrite (perform_all_field _ _ perform_documentTotalPages),
    (perform_all_field _ _ perform_pdfCurrentPage),
    (perform_all_field _ _ perform_pdfViewerMode),
    (perform_all_field _ _ perform_searchText).
  rewrite !last_set_none
    by (eapply Forall_impl; [ exact Hq | ]; now intros []).
  replace (existsb isSetChunks effects) with false.
  2:{ symmetry. apply not_true_is_false. intros (e & He & Hs)%existsb_exists.
      rewrite Forall_forall in Hq. apply list_elem_of_In in He. specialize (Hq e He).
      destruct e; discriminate. }
  rewrite !Z.eqb_refl, String.eqb_refl, bool_decide_eq_true_2 by reflexivity.
  reflexivity.
Qed.

Lemma run_quiet effects w :
  Forall (fun e => is_quiet e = true) effects -> run effects w = perform_all effects w.
Proof. intros Hq. unfold run. now rewrite render_effects_quiet. Qed.

(** A render that follows a batch without [SetSearchText] does not touch
    the search session. *)
Lemma render_effects_search_frame {T} (sets : Effect -> option T) effects w v :
  Forall (fun e => sets_searchText e = None) effects ->
  (forall e, sets e <> None ->
             match e with
             | SetSearchResults _ | SetCurrentSearchIndex _ | SetLastSearchQuery _
             | SetIsSearching _ => True
             | _ => False
             end) ->
  last_set sets (render_effects effects w (perform_all effects w)) v = v.
Proof.
  intros Hq Hsets. unfold render_effects.
  rewrite (perform_all_field _ _ perform_searchText effects w), (last_set_none _ effects)
    by assumption.
  rewrite String.eqb_refl. cbn [negb]. rewrite app_nil_l.
  apply last_set_none. apply Forall_app. split; [ | apply Forall_app; split ].
  - destruct (_ || _ || _); repeat constructor.
    destruct (sets ClearObserverTimeout) eqn:E; [ | reflexivity ].
    exfalso. apply (Hsets ClearObserverTimeout). congruence.
  - destruct (_ || _); [ | constructor ]. unfold maxPdfPageEffect.
    repeat match goal with
           | |- context [if ?b then _ else _] => destruct b
           end; repeat constructor;
      match goal with
      | |- sets ?e = None =>
          destruct (sets e) eqn:E; [ exfalso; apply (Hsets e); congruence | reflexivity ]
      end.
  - destruct (_ || _ || _); [ | constructor ]. unfold syncScrollEffect.
    repeat match goal with
           | |- context [if ?b then _ else _] => destruct b
           | |- context [match ?x with _ => _ end] => destruct x
           end; repeat constructor;
      match goal with
      | |- sets ?e = None =>
          destruct (sets e) eqn:E; [ exfalso; apply (Hsets e); congruence | reflexivity ]
      end.
Qed.

Lemma run_searchResults effects w :
  Forall (fun e => sets_searchText e = None) effects ->
  searchResults (run effects w) = last_set sets_searchResults effects (searchResults w).
Proof.
  intros Hq. unfold run. rewrite !(perform_all_field _ _ perform_searchResults).
  apply render_effects_search_frame; [ assumption | ].
  intros []; simpl; intros Hn; try exact I; now apply Hn.
Qed.

Lemma run_currentSearchIndex effects w :
  Forall (fun e => sets_searchText e = None) effects ->
  currentSearchIndex (run effects w)
  = last_set sets_currentSearchIndex effects (currentSearchIndex w).
Proof.
  intros Hq. unfold run. rewrite !(perform_all_field _ _ perform_currentSearchIndex).
  apply render_effects_search_frame; [ assumption | ].
  intros []; simpl; intros Hn; try exact I; now apply Hn.
Qed.

Lemma run_lastSearchQuery effects w :
  Forall (fun e => sets_searchText e = None) effects ->
  lastSearchQuery (run effects w) = last_set sets_lastSearchQuery effects (lastSearchQuery w).
Proof.
  intros Hq. unfold run. rewrite !(perform_all_field _ _ perform_lastSearchQuery).
  apply render_effects_search_frame; [ assumption | ].
  intros []; simpl; intros Hn; try exact I; now apply Hn.
Qed.

Lemma run_isSearching effects w :
  Forall (fun e => sets_searchText e = None) effects ->
  isSearching (run effects w) = last_set sets_isSearching effects (isSearching w).
Proof.
  intros Hq. unfold run. rewrite !(perform_all_field _ _ perform_isSearching).
  apply render_effects_search_frame; [ assumption | ].
  intros []; simpl; intros Hn; try exact I; now apply Hn.
Qed.

Lemma handleSearchSubmit_no_SetSearchText w :
  Forall (fun e => sets_searchText e = None) (handleSearchSubmit w).
Proof.
  unfold handleSearchSubmit, navigateToSearchResult.
  repeat match goal with
         | |- context [if ?b then _ else _] => destruct b
         | |- context [match ?x with _ => _ end] => destruct x
         end; repeat constructor.
Qed.


(** The handler on a new query. *)
Lemma handleSearchSubmit_new w :
  chunks w <> [] ->
  toLowerCase (trim (searchText w)) <> "" ->
  toLowerCase (trim (searchText w)) <> lastSearchQuery w ->
  let query := toLowerCase (trim (searchText w)) in
  handleSearchSubmit w =
  [SetIsSearching true]
  ++ ([SetSearchResults (search_matches query (chunks w)); SetCurrentSearchIndex 0;
       SetLastSearchQuery query]
      ++ match search_matches query (chunks w) with
         | first :: _ => navigateToSearchResult w first
         | [] => []
         end)
  ++ [SetIsSearching false].
Proof.
  intros Hc Hq Hnew query. unfold handleSearchSubmit. fold query.
  destruct (String.eqb_spec query "") as [ | _ ]; [ contradiction | ].
  destruct (chunks w) as [ | c l ] eqn:El; [ contradiction | ]. cbn [length Nat.eqb orb].
  destruct (String.eqb_spec query (lastSearchQuery w)) as [ | _ ]; [ contradiction | ].
  reflexivity.
Qed.

End SearchFacts.

Section SearchNavigator.
Context `{JsString}.



End SearchNavigator.



Section Cooldown.
Context `{JsString}.

Lemma with_timers_fields q c w :
  clock (with_timers q (with_clock c w)) = c
  /\ timers (with_timers q (with_clock c w)) = q
  /\ suppressObserverRef (with_timers q (with_clock c w)) = suppressObserverRef w.
Proof. destruct w. repeat split. Qed.

Lemma fire_cooldown_quiet t w :
  cooldown_task t = true -> Forall (fun e => is_quiet e = true) (fire w t).
Proof.
  destruct t as [ [f | ] | | f | | | | win | win ]; try discriminate; intros _; cbn.
  - destruct (rendered w f); repeat constructor.
  - constructor.
  - repeat constructor.
  - destruct (rendered w f); repeat constructor.
  - destruct (bool_decide _); repeat constructor.
  - destruct (bool_decide _); repeat constructor.
Qed.

Lemma run_fire_cooldown t w :
  cooldown_task t = true ->
  clock (run (fire w t) w) = clock w
  /\ suppressObserverRef (run (fire w t) w)
     = (if isResumeObserver t then false else suppressObserverRef w)
  /\ timers (run (fire w t) w) = timers w ++ timers_set_by w t.
Proof.
  intros Ht. rewrite (run_quiet _ _ (fire_cooldown_quiet t w Ht)).
  rewrite perform_all_clock, perform_all_timers,
    (perform_all_field _ _ perform_suppressObserverRef).
  destruct t as [ [f | ] | | f | | | | win | win ]; try discriminate; cbn;
    try destruct (rendered w f); try destruct (bool_decide _);
    cbn; rewrite ?app_nil_r; auto.
Qed.

Lemma fire_all_cooldown ready w :
  Forall (fun t => cooldown_task t = true) ready ->
  clock (fire_all ready w) = clock w
  /\ suppressObserverRef (fire_all ready w)
     = (if existsb isResumeObserver ready then false else suppressObserverRef w)
  /\ exists set, timers (fire_all ready w) = timers w ++ set
                 /\ Forall (set_while_firing (clock w) ready) set.
Proof.
  intros Hr. revert w. induction Hr as [ | t ready Ht _ IH ]; intros w.
  - cbn. repeat split. exists []. rewrite app_nil_r. auto.
  - cbn [fire_all fold_left]. fold (fire_all ready (run (fire w t) w)).
    destruct (run_fire_cooldown t w Ht) as (Hc & Hs & Hq).
    destruct (IH (run (fire w t) w)) as (Hc' & Hs' & set & Hq' & Hset).
    rewrite Hc', Hs', Hq', Hc, Hs, Hq. repeat split.
    + cbn [existsb]. destruct (isResumeObserver t), (existsb isResumeObserver ready); reflexivity.
    + exists (timers_set_by w t ++ set). split; [ now rewrite (assoc_L (++)) | ].
      apply Forall_app. split.
      * destruct t as [ [f | ] | | f | | | | win | win ]; try discriminate; cbn;
          try destruct (bool_decide _); try (constructor; fail);
          (constructor; [ | constructor ]).
        -- left. split; [ reflexivity | ]. exists f. apply elem_of_cons. now left.
        -- right. now exists win.
      * rewrite Hc in Hset. eapply Forall_impl; [ exact Hset | ].
        intros x [(-> & f & Hf) | Hpoll]; [ left | now right ].
        split; [ reflexivity | ]. exists f. apply elem_of_cons. now right.
Qed.

Lemma cooling_tick c0 k w : cooling c0 k w -> cooling c0 (S k) (tick w).
Proof.
  intros (Hclock & Hq & Hearly & Hpending & Hlate).
  unfold tick.
  set (c := S (clock w)).
  set (late := List.filter (fun t => (t.1 <? c)%nat) (timers w)).
  set (due := List.filter (fun t => (t.1 =? c)%nat) (timers w)).
  set (waiting := List.filter (fun t => (c <? t.1)%nat) (timers w)).
  destruct (with_timers_fields waiting c w) as (Hc1 & Hq1 & Hs1).
  assert (Hready : Forall (fun t => cooldown_timer c0 t /\ (t.1 <= c)%nat) (late ++ due)).
  { rewrite Forall_forall in Hq. apply Forall_forall. intros t Ht.
    apply elem_of_app in Ht as [Ht | Ht]; apply list_elem_of_In, filter_In in Ht as [Hin Hf];
      apply list_elem_of_In in Hin; (split; [ now apply Hq | ]).
    - apply Nat.ltb_lt in Hf. lia.
    - apply Nat.eqb_eq in Hf. lia. }
  assert (Htasks : Forall (fun t => cooldown_task t = true) (late ++ due).*2).
  { apply Forall_fmap. eapply Forall_impl; [ exact Hready | ].
    intros t [(Hk & _) _]. exact Hk. }
  destruct (fire_all_cooldown _ (with_timers waiting (with_clock c w)) Htasks)
    as (Hc2 & Hs2 & set & Hq2 & Hset).
  rewrite Hc1 in Hc2, Hset. rewrite Hs1 in Hs2. rewrite Hq1 in Hq2.
  assert (Hc : c = (c0 + S k)%nat) by (unfold c; lia).
  assert (Hnoresume : (S k < 350)%nat -> existsb isResumeObserver (late ++ due).*2 = false).
  { intros Hk. apply not_true_is_false. intros (t & Ht & Hres)%existsb_exists.
    apply list_elem_of_In, list_elem_of_fmap in Ht as (qt & -> & Hqt).
    rewrite Forall_forall in Hready. destruct (Hready qt Hqt) as [(_ & _ & Hr) Hle].
    destruct qt as [d t]. cbn in *. destruct t; try discriminate.
    specialize (Hr eq_refl). lia. }
  split; [ rewrite Hc2; exact Hc | ]. split; [ | split; [ | split ] ].
  - rewrite Hq2. apply Forall_app. split.
    + rewrite Forall_forall in Hq. apply Forall_forall. intros t Ht.
      apply list_elem_of_In, filter_In in Ht as [Hin _]. apply Hq, list_elem_of_In, Hin.
    + eapply Forall_impl; [ exact Hset | ].
      intros t [(-> & f & Hf) | (win & Hpoll)].
      * apply list_elem_of_fmap in Hf as (qt & Heq & Hqt).
        rewrite Forall_forall in Hready. destruct (Hready qt Hqt) as [(_ & Hsync & _) Hle].
        specialize (Hsync f (eq_sym Heq)).
        repeat split; cbn; [ discriminate | lia ].
      * destruct t as [d task]. cbn in Hpoll. subst task.
        repeat split; cbn; discriminate.
  - intros Hk. rewrite Hs2, Hnoresume by assumption. apply Hearly. lia.
  - intros Hk. rewrite Hq2. apply elem_of_app. left.
    apply list_elem_of_In, filter_In. split; [ apply list_elem_of_In, Hpending; lia | ].
    cbn [fst]. apply Nat.ltb_lt. lia.
  - intros Hk. rewrite Hs2.
    destruct (existsb isResumeObserver (late ++ due).*2) eqn:E; [ reflexivity | ].
    destruct (Nat.eq_dec k 399%nat) as [-> | Hne]; [ exfalso | apply Hlate; lia ].
    apply not_true_iff_false in E. apply E, existsb_exists.
    exists ResumeObserver. split; [ | reflexivity ].
    apply list_elem_of_In, list_elem_of_fmap. exists ((c0 + 400)%nat, ResumeObserver).
    split; [ reflexivity | ]. apply elem_of_app. right.
    apply list_elem_of_In, filter_In. split; [ apply list_elem_of_In, Hpending; lia | ].
    cbn [fst]. apply Nat.eqb_eq. lia.
Qed.

Lemma cooling_advance c0 ms w : cooling c0 0 w -> cooling c0 ms (advance ms w).
Proof.
  intros H0. induction ms as [ | ms IH ]; [ exact H0 | ].
  unfold advance. cbn [Nat.iter]. apply cooling_tick. exact IH.
Qed.
End Cooldown.

Section Navigation.
Context `{JsString}.

Lemma syncScrollEffect_cases w :
  syncScrollEffect w = []
  \/ exists firstChunk,
       syncScrollEffect w = [SetSuppressObserver true; SetTimeout (SyncScroll firstChunk) 50].
Proof.
  unfold syncScrollEffect. destruct (_ && _); [ | now left ].
  destruct (firstChunkOf _ _) as [f | ]; [ right; now exists f | now left ].
Qed.

Lemma render_after_navigation target firstChunk w :
  target <> pdfCurrentPage w ->
  render_effects (navigation target firstChunk) w
    (perform_all (navigation target firstChunk) w)
  = ClearObserverTimeout :: syncScrollEffect (perform_all (navigation target firstChunk) w).
Proof.
  intros Hne. unfold render_effects.
  rewrite (perform_all_field _ _ perform_documentTotalPages),
    (perform_all_field _ _ perform_pdfCurrentPage),
    (perform_all_field _ _ perform_pdfViewerMode),
    (perform_all_field _ _ perform_searchText).
  cbn [navigation last_set fold_left sets_documentTotalPages sets_pdfCurrentPage
       sets_pdfViewerMode sets_searchText default existsb isSetChunks orb].
  rewrite Z.eqb_refl, String.eqb_refl, bool_decide_eq_true_2 by reflexivity.
  unfold Datatypes.id.
  replace (pdfCurrentPage w =? target) with false
    by (symmetry; apply Z.eqb_neq; congruence).
  reflexivity.
Qed.

Lemma idle_timer_cools c0 t :
  idle_task t.2 = true -> isObserverPageChange t.2 = false -> cooldown_timer c0 t.
Proof.
  destruct t as [d [ | | | | | | | ]]; cbn; try discriminate; intros _ _;
    repeat split; discriminate.
Qed.

Lemma navigation_starts_cooldown target firstChunk w :
  Forall (fun t => idle_task t.2 = true) (timers w) -> target <> pdfCurrentPage w ->
  cooling (clock w) 0 (run (navigation target firstChunk) w).
Proof.
  intros Hidle Hne. unfold run. rewrite render_after_navigation by assumption.
  set (w1 := perform_all (navigation target firstChunk) w).
  assert (Hc1 : clock w1 = clock w) by apply perform_all_clock.
  assert (Hq1 : timers w1 = timers w ++ [((clock w + 0)%nat, ScrollToPageFirstChunk firstChunk);
                                         ((clock w + 400)%nat, ResumeObserver)]).
  { unfold w1. rewrite perform_all_timers. cbn. now rewrite <- (assoc_L (++)). }
  assert (Hs1 : suppressObserverRef w1 = true).
  { unfold w1. now rewrite (perform_all_field _ _ perform_suppressObserverRef). }
  set (kept := List.filter (fun t => negb (isObserverPageChange t.2)) (timers w)).
  assert (Hkept : Forall (cooldown_timer (clock w)) kept).
  { rewrite Forall_forall in Hidle. apply Forall_forall. intros t Ht.
    apply list_elem_of_In, filter_In in Ht as [Hin Hf]. apply list_elem_of_In in Hin.
    apply idle_timer_cools; [ now apply Hidle | now apply negb_true_iff ]. }
  assert (Hown : Forall (cooldown_timer (clock w))
                   [((clock w + 0)%nat, ScrollToPageFirstChunk firstChunk);
                    ((clock w + 400)%nat, ResumeObserver)]).
  { repeat constructor; cbn; try discriminate; intros; lia. }
  unfold cooling.
  rewrite perform_all_clock, perform_all_timers,
    (perform_all_field _ _ perform_suppressObserverRef), Hc1, Hq1, Hs1.
  assert (Hfilter : List.filter (fun t : nat * Task => negb (isObserverPageChange t.2))
                      (timers w ++ [((clock w + 0)%nat, ScrollToPageFirstChunk firstChunk);
                                    ((clock w + 400)%nat, ResumeObserver)])
                    = kept ++ [((clock w + 0)%nat, ScrollToPageFirstChunk firstChunk);
                               ((clock w + 400)%nat, ResumeObserver)])
    by (rewrite List.filter_app; reflexivity).
  destruct (syncScrollEffect_cases w1) as [-> | (f & ->)];
    cbn [fold_left timers_after last_set sets_suppressObserverRef default];
    rewrite Hfilter.
  - split; [ lia | ]. split; [ | split; [ reflexivity | split; [ | lia ] ] ].
    + apply Forall_app. split; assumption.
    + intros _. apply elem_of_app. right. apply elem_of_cons. right.
      apply elem_of_cons. now left.
  - split; [ lia | ]. split; [ | split; [ reflexivity | split; [ | lia ] ] ].
    + apply Forall_app. split; [ apply Forall_app; split; assumption | ].
      repeat constructor; cbn; try discriminate; intros; lia.
    + intros _. apply elem_of_app. left. apply elem_of_app. right. apply elem_of_cons. right.
      apply elem_of_cons. now left.
Qed.

Lemma handleNextPage_cases w :
  handleNextPage w = []
  \/ exists target firstChunk,
       target <> pdfCurrentPage w /\ handleNextPage w = navigation target firstChunk.
Proof.
  unfold handleNextPage. destruct (_ =? pdfCurrentPage w) eqn:E; [ now left | right ].
  apply Z.eqb_neq in E. eexists _, _. split; [ exact E | reflexivity ].
Qed.

Lemma handlePreviousPage_cases w :
  handlePreviousPage w = []
  \/ exists target firstChunk,
       target <> pdfCurrentPage w /\ handlePreviousPage w = navigation target firstChunk.
Proof.
  unfold handlePreviousPage. destruct (_ =? pdfCurrentPage w) eqn:E; [ now left | right ].
  apply Z.eqb_neq in E. eexists _, _. split; [ exact E | reflexivity ].
Qed.

Lemma observerCallback_suppressed entries w :
  suppressObserverRef w = true -> observerCallback entries w = [].
Proof.
  intros Hs. unfold observerCallback. rewrite Hs.
  now destruct (_ || _).
Qed.

Lemma navigation_sets_the_flag target firstChunk w :
  target <> pdfCurrentPage w ->
  suppressObserverRef (run (navigation target firstChunk) w) = true
  /\ pdfCurrentPage (run (navigation target firstChunk) w) = target.
Proof.
  intros Hne. split; [ | now rewrite run_pdfCurrentPage ].
  unfold run. rewrite render_after_navigation by assumption.
  set (w1 := perform_all (navigation target firstChunk) w).
  assert (Hs1 : suppressObserverRef w1 = true)
    by (unfold w1; now rewrite (perform_all_field _ _ perform_suppressObserverRef)).
  rewrite (perform_all_field _ _ perform_suppressObserverRef), Hs1.
  destruct (syncScrollEffect_cases w1) as [-> | (f & ->)]; reflexivity.
Qed.

Lemma handleNextPage_acts w :
  pdfCurrentPage w < total w ->
  exists target firstChunk,
    target <> pdfCurrentPage w /\ handleNextPage w = navigation target firstChunk.
Proof.
  intros Hlt. destruct (handleNextPage_cases w) as [Hnil | Hc]; [ exfalso | exact Hc ].
  unfold handleNextPage in Hnil.
  pose proof (findNearest_next_lower (grouped w) (total w)
                (Z.min (total w) (pdfCurrentPage w + 1))) as Hlow.
  destruct (_ =? pdfCurrentPage w) eqn:E; [ | discriminate ].
  apply Z.eqb_eq in E. lia.
Qed.

Lemma handlePreviousPage_acts w :
  1 < pdfCurrentPage w ->
  exists target firstChunk,
    target <> pdfCurrentPage w /\ handlePreviousPage w = navigation target firstChunk.
Proof.
  intros Hlt. destruct (handlePreviousPage_cases w) as [Hnil | Hc]; [ exfalso | exact Hc ].
  unfold handlePreviousPage in Hnil.
  pose proof (findNearest_prev_bounds (grouped w) (total w)
                (Z.max 1 (pdfCurrentPage w - 1)) ltac:(lia)) as Hb.
  destruct (_ =? pdfCurrentPage w) eqn:E; [ | discriminate ].
  apply Z.eqb_eq in E. lia.
Qed.

(** Claim C6, amended.  While the suppression flag is set, the observer
    callback does nothing, whatever it observes.  A click on the
    next-page button below the page bound, or on the previous-page button
    above page 1, changes the page: it first sets the flag, then reports
    the new page, then schedules the scroll and, 400 ms later, a release
    of the flag; right after the click the flag is set, in every state.
    When the click does not overlap an earlier programmatic move (the
    pending timers are scrolls to a page, liveness checks of the external
    window or a debounced observation), the flag stays set for the first
    350 ms, so that observations yield nothing, and is clear from 400 ms
    on.  With the flag clear, an observation whose most visible chunk is
    on another page schedules, after the 100 ms debounce, the report of
    that page.  When releases of an earlier move are pending, the flag
    can be cleared earlier. *)
Theorem suppression_window (w : Runtime) :
  (suppressObserverRef w = true ->
   forall entries,
     observerCallback entries w = [] /\ dispatch (observerCallback entries) w = w)
  /\ (forall handler,
        (handler = handleNextPage /\ pdfCurrentPage w < total w)
        \/ (handler = handlePreviousPage /\ 1 < pdfCurrentPage w) ->
        exists target firstChunk,
          target <> pdfCurrentPage w
          /\ handler w =
             [SetSuppressObserver true; OnPdfPageChange target;
              SetTimeout (ScrollToPageFirstChunk firstChunk) 0;
              SetTimeout ResumeObserver 400]
          /\ suppressObserverRef (dispatch handler w) = true
          /\ pdfCurrentPage (dispatch handler w) = target
          /\ (Forall (fun t => idle_task t.2 = true) (timers w) ->
              (forall ms, (ms < 350)%nat ->
                 suppressObserverRef (advance ms (dispatch handler w)) = true
                 /\ forall entries,
                      observerCallback entries (advance ms (dispatch handler w)) = [])
              /\ (forall ms, (400 <= ms)%nat ->
                    suppressObserverRef (advance ms (dispatch handler w)) = false)))
  /\ (suppressObserverRef w = false -> pdfViewerMode w = text -> chunks w <> [] ->
      forall entries chunk actualPage,
        mostVisibleChunk (chunks w) entries = Some chunk ->
        pageOfChunk (grouped w) (chunk_id chunk) = Some actualPage ->
        actualPage <> pdfCurrentPage w ->
        observerCallback entries w = [DebounceTimeout (ObserverPageChange actualPage) 100]
        /\ fire w (ObserverPageChange actualPage) = [OnPdfPageChange actualPage]).
Proof.
  split; [ | split ].
  - intros Hs entries. pose proof (observerCallback_suppressed entries w Hs) as Hnil.
    split; [ exact Hnil | ]. unfold dispatch. rewrite Hnil.
    rewrite run_quiet by constructor. reflexivity.
  - intros handler Hhandler.
    assert (Hcases : exists target firstChunk,
               target <> pdfCurrentPage w /\ handler w = navigation target firstChunk).
    { destruct Hhandler as [(-> & Hlt) | (-> & Hlt)];
        [ now apply handleNextPage_acts | now apply handlePreviousPage_acts ]. }
    destruct Hcases as (target & firstChunk & Hne & Heff).
    exists target, firstChunk. split; [ exact Hne | ]. split; [ exact Heff | ].
    destruct (navigation_sets_the_flag target firstChunk w Hne) as (Hflag & Hpage).
    unfold dispatch at 1 2. rewrite Heff.
    split; [ exact Hflag | ]. split; [ exact Hpage | ].
    intros Hidle.
    assert (Hcool : forall ms, cooling (clock w) ms (advance ms (dispatch handler w))).
    { intros ms. apply cooling_advance. unfold dispatch. rewrite Heff.
      now apply navigation_starts_cooldown. }
    split.
    + intros ms Hms. destruct (Hcool ms) as (_ & _ & Hearly & _).
      split; [ now apply Hearly | ].
      intros entries. apply observerCallback_suppressed. now apply Hearly.
    + intros ms Hms. destruct (Hcool ms) as (_ & _ & _ & _ & Hlate). now apply Hlate.
  - intros Hs Hmode Hchunks entries chunk actualPage Hmost Hpage Hne.
    split; [ | reflexivity ].
    unfold observerCallback. rewrite Hs, Hmode, Hmost, Hpage.
    destruct (chunks w) as [ | c l ]; [ contradiction | ]. cbn.
    replace (actualPage =? pdfCurrentPage w) with false; [ reflexivity | ].
    symmetry. now apply Z.eqb_neq.
Qed.
End Navigation.

(** Claim C6 fails as stated: the flag is not kept for a cooldown of
    roughly 300-400 ms after every navigation.  A second click on the
    next-page button, 300 ms after the first, sets the flag, and the
    release that the first click left pending clears it 50 ms later. *)
Lemma suppression_released_early :
  ~ (forall (w : Runtime) (handler : Runtime -> list Effect) (ms : nat),
        handler = handleNextPage \/ handler = handlePreviousPage ->
        handler w <> [] ->
        (ms < 300)%nat ->
        suppressObserverRef (advance ms (dispatch handler w)) = true).
Proof.
  intros Hclaim.
  specialize (Hclaim clicked_300_ms_ago handleNextPage 50%nat (or_introl eq_refl)
                ltac:(vm_compute; discriminate) ltac:(lia)).
  vm_compute in Hclaim. discriminate.
Qed.

Lemma suppression_window_witness :
  (pdfCurrentPage (dispatch handleNextPage five_page_document_at_rest) = 2
   /\ suppressObserverRef (dispatch handleNextPage five_page_document_at_rest) = true
   /\ suppressObserverRef (advance 349 (dispatch handleNextPage five_page_document_at_rest))
      = true
   /\ suppressObserverRef (advance 400 (dispatch handleNextPage five_page_document_at_rest))
      = false)
  /\ (pdfCurrentPage (dispatch handlePreviousPage five_page_document_on_page_2) = 1
      /\ suppressObserverRef (dispatch handlePreviousPage five_page_document_on_page_2) = true
      /\ suppressObserverRef
           (advance 349 (dispatch handlePreviousPage five_page_document_on_page_2)) = true
      /\ suppressObserverRef
           (advance 400 (dispatch handlePreviousPage five_page_document_on_page_2)) = false)
  /\ (suppressObserverRef (dispatch handleNextPage clicked_300_ms_ago) = true
      /\ suppressObserverRef (advance 50 (dispatch handleNextPage clicked_300_ms_ago))
         = false).
Proof.
  destruct (suppression_window five_page_document_at_rest) as (_ & Hnext & _).
  destruct (Hnext handleNextPage (or_introl (conj eq_refl eq_refl)))
    as (target & firstChunk & _ & _ & Hflag & _ & Hwin).
  destruct (Hwin ltac:(vm_compute; repeat constructor)) as (Hearly & Hlate).
  destruct (suppression_window five_page_document_on_page_2) as (_ & Hprev & _).
  destruct (Hprev handlePreviousPage (or_intror (conj eq_refl eq_refl)))
    as (target' & firstChunk' & _ & _ & Hflag' & _ & Hwin').
  destruct (Hwin' ltac:(vm_compute; repeat constructor)) as (Hearly' & Hlate').
  destruct (suppression_window clicked_300_ms_ago) as (_ & Hagain & _).
  destruct (Hagain handleNextPage (or_introl (conj eq_refl eq_refl)))
    as (target'' & firstChunk'' & _ & _ & Hflag'' & _ & _).
  split; [ | split ].
  - split; [ vm_compute; reflexivity | ]. split; [ exact Hflag | ].
    split; [ exact (proj1 (Hearly 349%nat ltac:(lia))) | exact (Hlate 400%nat ltac:(lia)) ].
  - split; [ vm_compute; reflexivity | ]. split; [ exact Hflag' | ].
    split; [ exact (proj1 (Hearly' 349%nat ltac:(lia))) | exact (Hlate' 400%nat ltac:(lia)) ].
  - split; [ exact Hflag'' | vm_compute; reflexivity ].
Defined.

Lemma perform_openedWindows e w :
  openedWindows (perform e w) = (openedWindows w + windows_opened [e])%nat.
Proof.
  destruct w, e; cbn; try lia;
    repeat match goal with
           | |- context [match ?x with _ => _ end] => destruct x; cbn; try lia
           end.
Qed.

Lemma windows_opened_cons e effects :
  windows_opened (e :: effects) = (windows_opened [e] + windows_opened effects)%nat.
Proof. unfold windows_opened. cbn. destruct e as [ | | | | | | | | | | | | | | | | | | | ? [ | ] | | | | | ]; reflexivity. Qed.

Lemma perform_all_openedWindows effects w :
  openedWindows (perform_all effects w) = (openedWindows w + windows_opened effects)%nat.
Proof.
  revert w. induction effects as [ | e effects IH ]; intros w.
  - cbn. unfold windows_opened. cbn. lia.
  - cbn [perform_all fold_left]. fold (perform_all effects (perform e w)).
    rewrite IH, perform_openedWindows, (windows_opened_cons e effects). lia.
Qed.

Lemma liveWindow_Some w win :
  liveWindow w = Some win <-> pdfViewerWindowRef w = Some win /\ win ∉ closedWindows w.
Proof.
  unfold liveWindow. destruct (pdfViewerWindowRef w) as [win' | ].
  - destruct (bool_decide_reflect (win' ∈ closedWindows w)); split.
    + discriminate.
    + intros [[= ->] Hn]. contradiction.
    + intros [= ->]. auto.
    + intros [[= ->] _]. reflexivity.
  - split; [ discriminate | intros [[=] _] ].
Qed.

Lemma liveWindow_None w :
  liveWindow w = None <->
  pdfViewerWindowRef w = None
  \/ exists win, pdfViewerWindowRef w = Some win /\ win ∈ closedWindows w.
Proof.
  unfold liveWindow. destruct (pdfViewerWindowRef w) as [win' | ].
  - destruct (bool_decide_reflect (win' ∈ closedWindows w)); split.
    + intros _. right. eauto.
    + reflexivity.
    + discriminate.
    + intros [[=] | (win & [= ->] & Hin)]. contradiction.
  - split; [ now left | reflexivity ].
Qed.

Lemma handleReferenceClick_valid b d w page :
  ref_filename d <> "" -> ref_page d = Some page -> 0 < page ->
  handleReferenceClick b d w =
  match liveWindow w with
  | Some existingWindow =>
      if postMessageThrows b then
        [PostMessageFailed existingWindow; SetPdfViewerWindowRef None]
        ++ openViewerWindow b d page w
      else
        [PostMessage existingWindow
           {| msg_page := page; msg_highlight := highlightOf d;
              msg_searchText := searchSnippet d |};
         FocusWindow existingWindow;
         SetTimeout (CheckDelivered existingWindow) 100]
  | None => openViewerWindow b d page w
  end.
Proof.
  intros Hf Hp Hpos. unfold handleReferenceClick. rewrite Hp.
  destruct (String.eqb_spec (ref_filename d) "") as [ | _ ]; [ contradiction | ].
  replace (page =? 0) with false by (symmetry; apply Z.eqb_neq; lia).
  replace (0 <? page) with true by (symmetry; apply Z.ltb_lt; lia).
  reflexivity.
Qed.

Section Bridge.
Context `{JsString}.

(** Claim C10.  A reference click that names a file and a positive page:
    when the stored window is still open at that moment (and the message
    can be posted), the click opens no window; the window receives exactly
    one [changePage] message for the page and is focused, and stays the
    stored window.  When no window is stored, or the stored one has been
    closed, the click calls [window.open] exactly once and posts nothing;
    the new window becomes the stored one and is polled, or, when the
    popup is blocked, the user is asked whether to open the viewer in
    place. *)
Theorem external_window_reuse_or_reopen (b : Browser) (d : ReferenceClick)
    (w : Runtime) (page : Z) :
  ref_filename d <> "" -> ref_page d = Some page -> 0 < page ->
  let effects := handleReferenceClick b d w in
  let w' := dispatch (handleReferenceClick b d) w in
  (forall win,
     pdfViewerWindowRef w = Some win -> win ∉ closedWindows w ->
     postMessageThrows b = false ->
     effects =
     [PostMessage win {| msg_page := page; msg_highlight := highlightOf d;
                         msg_searchText := searchSnippet d |};
      FocusWindow win;
      SetTimeout (CheckDelivered win) 100]
     /\ length (List.filter isPostMessage effects) = 1%nat
     /\ List.filter isWindowOpen effects = []
     /\ pdfViewerWindowRef w' = Some win
     /\ openedWindows w' = openedWindows w)
  /\ (pdfViewerWindowRef w = None
      \/ (exists win, pdfViewerWindowRef w = Some win /\ win ∈ closedWindows w) ->
      length (List.filter isWindowOpen effects) = 1%nat
      /\ List.filter isPostMessage effects = []
      /\ (popupBlocked b = false ->
          pdfViewerWindowRef w' = Some (openedWindows w)
          /\ openedWindows w' = S (openedWindows w)
          /\ (PollClosed (openedWindows w)) ∈ (timers w').*2)
      /\ (popupBlocked b = true ->
          ConfirmDialog ∈ effects /\ openedWindows w' = openedWindows w)).
Proof.
  intros Hf Hp Hpos effects w'.
  pose proof (handleReferenceClick_valid b d w page Hf Hp Hpos) as Heff.
  fold effects in Heff.
  split.
  - intros win Href Hlive Hpost.
    assert (Hw : liveWindow w = Some win) by (apply liveWindow_Some; auto).
    rewrite Hw, Hpost in Heff.
    assert (Hquiet : Forall (fun e => is_quiet e = true) effects)
      by (rewrite Heff; repeat constructor).
    unfold w', dispatch. fold effects. rewrite (run_quiet _ _ Hquiet).
    rewrite (perform_all_field _ _ perform_pdfViewerWindowRef), perform_all_openedWindows.
    rewrite Heff. repeat split; try reflexivity.
    + exact Href.
    + cbn. lia.
  - intros Hgone. apply liveWindow_None in Hgone as Hw. rewrite Hw in Heff.
    unfold openViewerWindow in Heff.
    assert (Hquiet : Forall (fun e => is_quiet e = true) effects).
    { rewrite Heff. destruct (popupBlocked b), (confirmOpen b); repeat constructor. }
    unfold w', dispatch. fold effects. rewrite (run_quiet _ _ Hquiet).
    rewrite (perform_all_field _ _ perform_pdfViewerWindowRef), perform_all_openedWindows,
      perform_all_timers.
    rewrite Heff. destruct (popupBlocked b) eqn:Eb.
    + destruct (confirmOpen b);
        (split; [ reflexivity | split; [ reflexivity | split ] ];
         [ intros [=]
         | intros _; split;
           [ apply elem_of_cons; right; apply elem_of_cons; now left | cbn; lia ] ]).
    + split; [ reflexivity | split; [ reflexivity | split ] ]; [ | intros [=] ].
      intros _. split; [ reflexivity | split; [ cbn; lia | ] ].
      cbn. rewrite fmap_app. apply elem_of_app. right. cbn. apply elem_of_cons. now left.
Qed.
End Bridge.

Lemma external_window_reuse_or_reopen_witness :
  handleReferenceClick plain_browser sample_click window_open =
  [PostMessage 0%nat {| msg_page := 3; msg_highlight := Some ["smoking"];
                        msg_searchText := Some "Smoking is not allowed in the " |};
   FocusWindow 0%nat; SetTimeout (CheckDelivered 0%nat) 100]
  /\ pdfViewerWindowRef
       (dispatch (handleReferenceClick plain_browser sample_click) window_closed)
     = Some 1%nat.
Proof.
  assert (Hf : ref_filename sample_click <> "") by discriminate.
  destruct (external_window_reuse_or_reopen plain_browser sample_click window_open 3
              Hf eq_refl eq_refl) as [Hreuse _].
  destruct (external_window_reuse_or_reopen plain_browser sample_click window_closed 3
              Hf eq_refl eq_refl) as [_ Hreopen].
  split.
  - refine (proj1 (Hreuse 0%nat eq_refl _ eq_refl)).
    vm_compute. intros Hin. inversion Hin.
  - refine (proj1 (proj1 (proj2 (proj2 (Hreopen _))) eq_refl)).
    right. exists 0%nat. split; [ reflexivity | ]. vm_compute. constructor.
Defined.

(** ** The page list, the nearest page with chunks and the page buttons *)

Lemma Object_entries_Permutation grouped : Object_entries grouped ≡ₚ grouped.
Proof.
  unfold Object_entries, PageGroups in *. rewrite merge_sort_Permutation.
  induction grouped as [ | e grouped IH ]; [ reflexivity | ].
  rewrite !filter_cons. destruct (isArrayIndex e.1) eqn:E.
  - rewrite decide_True, decide_False by congruence. simpl. now rewrite IH.
  - rewrite decide_False, decide_True by congruence.
    rewrite <- Permutation_middle. now rewrite IH.
Qed.

Lemma Object_keys_Permutation grouped : Object_keys grouped ≡ₚ grouped.*1.
Proof. unfold Object_keys. now rewrite Object_entries_Permutation. Qed.

Lemma StronglySorted_le_NoDup_lt (l : list Z) :
  StronglySorted Z.le l -> NoDup l -> StronglySorted Z.lt l.
Proof.
  induction 1 as [ | x l Hs IH Hall ]; intros Hnd; constructor.
  - apply IH. now apply NoDup_cons in Hnd as [_ Hnd].
  - apply NoDup_cons in Hnd as [Hx _].
    rewrite Forall_forall in Hall |- *. intros y Hy.
    specialize (Hall y Hy). assert (x <> y) by (intros ->; contradiction). lia.
Qed.

Lemma hasChunks_lookup grouped p :
  hasChunks grouped p = true <-> exists c l, lookup_group p grouped = Some (c :: l).
Proof.
  unfold hasChunks. destruct (lookup_group p grouped) as [ [ | c l ] | ];
    split; try discriminate; eauto; intros (c' & l' & [=]).
Qed.

Lemma hasChunks_chunksByPage chunks t p :
  hasChunks (chunksByPage chunks t) p = true <-> p ∈ (chunksByPage chunks t).*1.
Proof.
  rewrite hasChunks_lookup, lookup_chunksByPage. split.
  - intros (c & l & Hl).
    assert (Hg : lookup_group p (chunksByPage chunks t) = Some (c :: l)).
    { rewrite lookup_chunksByPage. destruct (chunks_on_page _ _ _ _); congruence. }
    apply elem_lookup_group in Hg. apply list_elem_of_fmap. now exists (p, c :: l).
  - intros ([k l] & -> & Hin)%list_elem_of_fmap. cbn.
    apply lookup_group_elem in Hin; [ | apply NoDup_forEach_group; constructor ].
    rewrite lookup_chunksByPage in Hin.
    destruct (chunks_on_page _ _ _ _) as [ | c l' ]; [ discriminate | eauto ].
Qed.

Lemma key_of_chunksByPage chunks t p :
  p ∈ (chunksByPage chunks t).*1 <->
  exists i c, chunks !! i = Some c /\ pageNum chunks t i c = p.
Proof.
  rewrite <- hasChunks_chunksByPage, hasChunks_lookup, lookup_chunksByPage. split.
  - intros (c & l & Hl).
    assert (Hin : c ∈ chunks_on_page (pageNum chunks t) p 0 chunks).
    { destruct (chunks_on_page _ _ _ _); [ discriminate | ].
      injection Hl as <- <-. apply elem_of_cons. now left. }
    apply elem_of_chunks_on_page in Hin as (j & Hj & Hp). eauto.
  - intros (i & c & Hc & Hp).
    assert (Hin : c ∈ chunks_on_page (pageNum chunks t) p 0 chunks)
      by (apply elem_of_chunks_on_page; eauto).
    destruct (chunks_on_page _ _ _ _) as [ | c' l ]; [ inversion Hin | eauto ].
Qed.

(** X1.  The page numbers of the page list are strictly ascending, so
    no page is listed twice; a page is listed exactly when some chunk
    resolves to it, which is exactly when its group holds a chunk; and
    there are as many page numbers as groups. *)
Theorem pdfPageNumbers_ascending (chunks : list PDFChunk) (t : Z) :
  let pages := pdfPageNumbers (chunksByPage chunks t) in
  StronglySorted Z.lt pages
  /\ (forall p, p ∈ pages <-> exists i c, chunks !! i = Some c /\ pageNum chunks t i c = p)
  /\ (forall p, p ∈ pages <-> hasChunks (chunksByPage chunks t) p = true)
  /\ length pages = length (chunksByPage chunks t).
Proof.
  intros pages. subst pages. unfold pdfPageNumbers.
  assert (Hperm : merge_sort Z.le (Object_keys (chunksByPage chunks t))
                  ≡ₚ (chunksByPage chunks t).*1)
    by (now rewrite merge_sort_Permutation, Object_keys_Permutation).
  repeat split.
  - apply StronglySorted_le_NoDup_lt.
    + apply (StronglySorted_merge_sort Z.le).
    + rewrite Hperm. apply NoDup_forEach_group. constructor.
  - rewrite Hperm. apply key_of_chunksByPage.
  - rewrite Hperm. apply key_of_chunksByPage.
  - rewrite Hperm. apply hasChunks_chunksByPage.
  - rewrite Hperm. apply hasChunks_chunksByPage.
  - rewrite Hperm. apply length_fmap.
Qed.

Lemma find_seqZ_first (f : Z -> bool) a n p :
  List.find f (seqZ a n) = Some p ->
  a <= p < a + n /\ f p = true /\ forall q, a <= q < p -> f q = false.
Proof.
  remember (Z.to_nat n) as k eqn:Ek. revert a n Ek.
  induction k as [ | k IH ]; intros a n Ek.
  - rewrite seqZ_nil by lia. discriminate.
  - rewrite seqZ_cons by lia. cbn. destruct (f a) eqn:Ea.
    + intros [= <-]. repeat split; try lia; assumption.
    + intros Hf. apply IH in Hf as (Hb & Hp & Hq); [ | lia ].
      repeat split; try lia; [ assumption | ].
      intros q Hq'. destruct (Z.eq_dec q a) as [-> | Hne]; [ assumption | ].
      apply Hq. lia.
Qed.

Lemma find_seqZ_last (f : Z -> bool) a n p :
  List.find f (reverse (seqZ a n)) = Some p ->
  a <= p < a + n /\ f p = true /\ forall q, p < q < a + n -> f q = false.
Proof.
  destruct (Z.le_gt_cases n 0) as [Hn | Hn]; [ rewrite seqZ_nil by lia; discriminate | ].
  rewrite <- (Z2Nat.id n) by lia. generalize (Z.to_nat n) as k. clear n Hn.
  induction k as [ | k IH ]; [ discriminate | ].
  rewrite seqZ_S, reverse_snoc. cbn. destruct (f (a + Z.of_nat k)) eqn:Ea.
  - intros [= <-]. repeat split; try lia; assumption.
  - intros Hf. apply IH in Hf as (Hb & Hp & Hq).
    repeat split; try lia; [ assumption | ].
    intros q Hq'. destruct (Z.eq_dec q (a + Z.of_nat k)) as [-> | Hne]; [ assumption | ].
    apply Hq. lia.
Qed.

Lemma find_seqZ_none (f : Z -> bool) a n :
  List.find f (seqZ a n) = None -> forall q, a <= q < a + n -> f q = false.
Proof.
  intros Hf q Hq. apply (find_none _ _ Hf). apply list_elem_of_In, elem_of_seqZ. lia.
Qed.

Lemma find_reverse_seqZ_none (f : Z -> bool) a n :
  List.find f (reverse (seqZ a n)) = None -> forall q, a <= q < a + n -> f q = false.
Proof.
  intros Hf q Hq. apply (find_none _ _ Hf).
  apply list_elem_of_In, elem_of_reverse, elem_of_seqZ. lia.
Qed.

(** The scan of [findNearestPageWithChunks] from a page without chunks. *)
Lemma findNearest_next_scan grouped t startPage :
  hasChunks grouped startPage = false ->
  let p := findNearestPageWithChunks grouped t startPage next in
  (p = startPage /\ forall q, startPage < q <= t -> hasChunks grouped q = false)
  \/ (startPage < p <= t /\ hasChunks grouped p = true
      /\ forall q, startPage < q < p -> hasChunks grouped q = false).
Proof.
  intros Hs p. subst p. unfold findNearestPageWithChunks. rewrite Hs.
  destruct (List.find _ _) as [p | ] eqn:E; cbn.
  - right. apply find_seqZ_first in E as (Hb & Hp & Hq).
    repeat split; try lia; [ assumption | ]. intros q Hq'. apply Hq. lia.
  - left. split; [ reflexivity | ]. intros q Hq.
    apply (find_seqZ_none _ _ _ E). lia.
Qed.

Lemma findNearest_prev_scan grouped t startPage :
  hasChunks grouped startPage = false ->
  let p := findNearestPageWithChunks grouped t startPage prev in
  (p = startPage /\ forall q, 1 <= q < startPage -> hasChunks grouped q = false)
  \/ (1 <= p < startPage /\ hasChunks grouped p = true
      /\ forall q, p < q < startPage -> hasChunks grouped q = false).
Proof.
  intros Hs p. subst p. unfold findNearestPageWithChunks. rewrite Hs.
  destruct (List.find _ _) as [p | ] eqn:E; cbn.
  - right. apply find_seqZ_last in E as (Hb & Hp & Hq).
    repeat split; try lia; [ assumption | ]. intros q Hq'. apply Hq. lia.
  - left. split; [ reflexivity | ]. intros q Hq.
    apply (find_reverse_seqZ_none _ _ _ E). lia.
Qed.

(** X2.  [findNearestPageWithChunks] keeps a start page that has chunks.
    From a start page without chunks it returns the nearest page with
    chunks in the direction asked for, up to the page bound going forward
    and down to page 1 going backward; when there is no such page it
    falls back to the start page itself, which has no chunks. *)
Theorem findNearestPageWithChunks_nearest (grouped : PageGroups) (t startPage : Z)
    (direction : Direction) :
  let p := findNearestPageWithChunks grouped t startPage direction in
  (hasChunks grouped startPage = true -> p = startPage)
  /\ (hasChunks grouped startPage = false ->
      match direction with
      | next =>
          (p = startPage /\ forall q, startPage < q <= t -> hasChunks grouped q = false)
          \/ (startPage < p <= t /\ hasChunks grouped p = true
              /\ forall q, startPage < q < p -> hasChunks grouped q = false)
      | prev =>
          (p = startPage /\ forall q, 1 <= q < startPage -> hasChunks grouped q = false)
          \/ (1 <= p < startPage /\ hasChunks grouped p = true
              /\ forall q, p < q < startPage -> hasChunks grouped q = false)
      end).
Proof.
  intros p. subst p. split.
  - intros Hs. unfold findNearestPageWithChunks. now rewrite Hs.
  - intros Hs. destruct direction;
      [ now apply findNearest_prev_scan | now apply findNearest_next_scan ].
Qed.

Lemma findNearestPageWithChunks_nearest_witness :
  findNearestPageWithChunks (grouped sparse_document) 7 3 next = 5
  /\ findNearestPageWithChunks (grouped sparse_document) 7 6 next = 6.
Proof.
  pose proof (findNearestPageWithChunks_nearest (grouped sparse_document) 7 3 next)
    as [_ H3].
  pose proof (findNearestPageWithChunks_nearest (grouped sparse_document) 7 6 next)
    as [_ H6].
  specialize (H3 ltac:(vm_compute; reflexivity)).
  specialize (H6 ltac:(vm_compute; reflexivity)).
  split.
  - destruct H3 as [[_ Hnone] | (Hb & Hp & Hq)].
    + specialize (Hnone 5 ltac:(lia)). vm_compute in Hnone. discriminate.
    + vm_compute. reflexivity.
  - destruct H6 as [[Hp _] | (Hb & Hp & _)]; [ exact Hp | ].
    vm_compute. reflexivity.
Defined.

(** X3.  While the current page is below the page bound, the next-page
    handler moves to a strictly greater page within the bound: the
    nearest page with chunks, or the adjacent page when no page up to the
    bound has chunks.  While the current page is above 1, the
    previous-page handler moves to a strictly smaller page, not below 1,
    chosen the same way.  On the last page the next-page handler does
    nothing, on page 1 the previous-page handler does nothing. *)
Theorem page_buttons_progress (w : Runtime) :
  (pdfCurrentPage w < total w ->
   exists target,
     handleNextPage w = navigation target (firstChunkOf (grouped w) target)
     /\ pdfCurrentPage w < target <= total w
     /\ (forall q, pdfCurrentPage w < q < target -> hasChunks (grouped w) q = false)
     /\ (hasChunks (grouped w) target = false ->
         target = pdfCurrentPage w + 1
         /\ forall q, pdfCurrentPage w < q <= total w -> hasChunks (grouped w) q = false))
  /\ (1 < pdfCurrentPage w ->
      exists target,
        handlePreviousPage w = navigation target (firstChunkOf (grouped w) target)
        /\ 1 <= target < pdfCurrentPage w
        /\ (forall q, target < q < pdfCurrentPage w -> hasChunks (grouped w) q = false)
        /\ (hasChunks (grouped w) target = false ->
            target = pdfCurrentPage w - 1
            /\ forall q, 1 <= q < pdfCurrentPage w -> hasChunks (grouped w) q = false))
  /\ (pdfCurrentPage w = total w -> handleNextPage w = [])
  /\ (pdfCurrentPage w = 1 -> handlePreviousPage w = []).
Proof.
  split; [ | split; [ | split ] ].
  - intros Hlt. unfold handleNextPage.
    replace (Z.min (total w) (pdfCurrentPage w + 1)) with (pdfCurrentPage w + 1) by lia.
    set (target := findNearestPageWithChunks _ _ _ _).
    exists target.
    assert (Ht : pdfCurrentPage w < target <= total w
                 /\ (forall q, pdfCurrentPage w < q < target -> hasChunks (grouped w) q = false)
                 /\ (hasChunks (grouped w) target = false ->
                     target = pdfCurrentPage w + 1
                     /\ forall q, pdfCurrentPage w < q <= total w ->
                                  hasChunks (grouped w) q = false)).
    { destruct (hasChunks (grouped w) (pdfCurrentPage w + 1)) eqn:Es.
      - assert (target = pdfCurrentPage w + 1) as ->
          by (unfold target, findNearestPageWithChunks; now rewrite Es).
        repeat split; try lia; congruence.
      - destruct (findNearest_next_scan (grouped w) (total w) _ Es)
          as [[Hp Hnone] | (Hb & Hp & Hq)]; fold target in Hp |- *.
        + rewrite Hp. repeat split; try lia.
          intros q Hq. destruct (Z.eq_dec q (pdfCurrentPage w + 1)) as [-> | Hne];
            [ assumption | apply Hnone; lia ].
        + fold target in Hb, Hq. repeat split; try lia; try congruence.
          intros q Hq'. destruct (Z.eq_dec q (pdfCurrentPage w + 1)) as [-> | Hne];
            [ assumption | apply Hq; lia ]. }
    split; [ | exact Ht ].
    replace (target =? pdfCurrentPage w) with false by (symmetry; apply Z.eqb_neq; lia).
    reflexivity.
  - intros Hlt. unfold handlePreviousPage.
    replace (Z.max 1 (pdfCurrentPage w - 1)) with (pdfCurrentPage w - 1) by lia.
    set (target := findNearestPageWithChunks _ _ _ _).
    exists target.
    assert (Ht : 1 <= target < pdfCurrentPage w
                 /\ (forall q, target < q < pdfCurrentPage w -> hasChunks (grouped w) q = false)
                 /\ (hasChunks (grouped w) target = false ->
                     target = pdfCurrentPage w - 1
                     /\ forall q, 1 <= q < pdfCurrentPage w ->
                                  hasChunks (grouped w) q = false)).
    { destruct (hasChunks (grouped w) (pdfCurrentPage w - 1)) eqn:Es.
      - assert (target = pdfCurrentPage w - 1) as ->
          by (unfold target, findNearestPageWithChunks; now rewrite Es).
        repeat split; try lia; congruence.
      - destruct (findNearest_prev_scan (grouped w) (total w) _ Es)
          as [[Hp Hnone] | (Hb & Hp & Hq)]; fold target in Hp |- *.
        + rewrite Hp. repeat split; try lia.
          intros q Hq. destruct (Z.eq_dec q (pdfCurrentPage w - 1)) as [-> | Hne];
            [ assumption | apply Hnone; lia ].
        + fold target in Hb, Hq. repeat split; try lia; try congruence.
          intros q Hq'. destruct (Z.eq_dec q (pdfCurrentPage w - 1)) as [-> | Hne];
            [ assumption | apply Hq; lia ]. }
    split; [ | exact Ht ].
    replace (target =? pdfCurrentPage w) with false by (symmetry; apply Z.eqb_neq; lia).
    reflexivity.
  - intros Heq. unfold handleNextPage.
    replace (Z.min (total w) (pdfCurrentPage w + 1)) with (total w) by lia.
    assert (findNearestPageWithChunks (grouped w) (total w) (total w) next = total w) as ->.
    { unfold findNearestPageWithChunks. destruct (hasChunks _ _); [ reflexivity | ].
      rewrite seqZ_nil by lia. reflexivity. }
    rewrite Heq, Z.eqb_refl. reflexivity.
  - intros Heq. unfold handlePreviousPage. rewrite Heq. cbn [Z.sub Z.max].
    assert (findNearestPageWithChunks (grouped w) (total w) (Z.max 1 (1 - 1)) prev = 1) as ->.
    { unfold findNearestPageWithChunks. cbn. destruct (hasChunks _ _); reflexivity. }
    reflexivity.
Qed.

Lemma page_buttons_progress_witness :
  handleNextPage sparse_document_on_page_2 = navigation 5 (Some "c")
  /\ handlePreviousPage sparse_document_on_page_2 = navigation 1 (Some "a").
Proof.
  pose proof (page_buttons_progress sparse_document_on_page_2) as (Hn & Hp & _).
  destruct (Hn ltac:(vm_compute; reflexivity)) as (tn & Hen & _).
  destruct (Hp ltac:(vm_compute; reflexivity)) as (tp & Hep & _).
  split.
  - rewrite Hen. vm_compute in Hen. injection Hen as <- _. vm_compute. reflexivity.
  - rewrite Hep. vm_compute in Hep. injection Hep as <- _. vm_compute. reflexivity.
Defined.

(** ** The match a search navigates to is on the screen *)

Lemma run_pdfViewerWindowRef `{JsString} effects w :
  pdfViewerWindowRef (run effects w)
  = last_set sets_pdfViewerWindowRef effects (pdfViewerWindowRef w).
Proof.
  unfold run. rewrite !(perform_all_field _ _ perform_pdfViewerWindowRef).
  apply render_effects_frame. now intros [].
Qed.

Section SearchDisplay.
Context `{JsString}.

(** X4.  A new query with at least one match, in a document whose chunk
    ids are distinct: after the submission the first match is among the
    chunks of the page on the screen, so in the text view its element
    exists when the handler's scroll looks for it; in the PDF view no
    chunk element exists. *)
Theorem search_match_is_displayed (w : Runtime) (first : PDFChunk) (others : list PDFChunk) :
  let query := toLowerCase (trim (searchText w)) in
  query <> "" -> query <> lastSearchQuery w ->
  NoDup (chunk_id <$> chunks w) ->
  search_matches query (chunks w) = first :: others ->
  let w' := dispatch handleSearchSubmit w in
  first ∈ getPaginatedChunks w'
  /\ (pdfViewerMode w = text -> rendered w' (chunk_id first) = true)
  /\ (pdfViewerMode w = pdf -> rendered w' (chunk_id first) = false).
Proof.
  intros query Hq Hnew Hids Hm w'.
  assert (Hin : first ∈ chunks w).
  { assert (Hf : first ∈ search_matches query (chunks w))
      by (rewrite Hm; apply elem_of_cons; now left).
    unfold search_matches in Hf.
    apply list_elem_of_In, filter_In in Hf as [Hf _]. now apply list_elem_of_In. }
  assert (Hc : chunks w <> []) by (intros E; rewrite E in Hin; inversion Hin).
  apply list_elem_of_lookup in Hin as [i Hi].
  pose proof (handleSearchSubmit_new w Hc Hq Hnew) as Heff. cbv zeta in Heff.
  fold query in Heff. rewrite Hm in Heff.
  pose proof (handleSearchSubmit_no_SetSearchText w) as Hns.
  assert (Hpage : pdfCurrentPage w' = pageNum (chunks w) (documentTotalPages w) i first).
  { unfold w', dispatch. rewrite run_pdfCurrentPage, Heff.
    unfold navigateToSearchResult, grouped.
    rewrite (pageOfChunk_resolved _ _ i first Hids Hi). reflexivity. }
  assert (Hchunks : chunks w' = chunks w)
    by (unfold w', dispatch; rewrite run_chunks, Heff; reflexivity).
  assert (Htotal : documentTotalPages w' = documentTotalPages w)
    by (unfold w', dispatch; rewrite run_documentTotalPages, Heff; reflexivity).
  assert (Hmode : pdfViewerMode w' = pdfViewerMode w)
    by (unfold w', dispatch; rewrite run_pdfViewerMode, Heff; reflexivity).
  destruct (chunk_in_its_group (chunks w) (documentTotalPages w) i first Hi)
    as (l & Hl & Hfl).
  assert (Hshown : getPaginatedChunks w' = l).
  { unfold getPaginatedChunks, grouped. now rewrite Hpage, Hchunks, Htotal, Hl. }
  split; [ now rewrite Hshown | ].
  unfold rendered. fold (getPaginatedChunks w'). rewrite Hshown, Hmode. split.
  - intros ->. cbn. apply existsb_exists. exists first.
    split; [ now apply list_elem_of_In | apply String.eqb_refl ].
  - intros ->. reflexivity.
Qed.

End SearchDisplay.

Lemma search_match_is_displayed_witness :
  chunk_id <$> getPaginatedChunks (dispatch handleSearchSubmit smoking_document) = ["c2"]
  /\ rendered (dispatch handleSearchSubmit smoking_document) "c2" = true.
Proof.
  assert (Hq : toLowerCase (trim (searchText smoking_document)) <> "")
    by (vm_compute; discriminate).
  assert (Hnew : toLowerCase (trim (searchText smoking_document))
                 <> lastSearchQuery smoking_document) by (vm_compute; discriminate).
  assert (Hids : NoDup (chunk_id <$> chunks smoking_document)).
  { refine (bool_decide_unpack _ _). vm_compute. exact I. }
  destruct (search_match_is_displayed smoking_document
              {| chunk_id := "c2"; chunk_content := "No smoking indoors"; chunk_page := Some 3 |}
              [ {| chunk_id := "c3"; chunk_content := "Smoking areas"; chunk_page := Some 4 |} ]
              Hq Hnew Hids ltac:(vm_compute; reflexivity)) as (_ & Hshown & _).
  split; [ vm_compute; reflexivity | ].
  exact (Hshown eq_refl).
Defined.

(** ** The observer follows the most visible chunk *)

Lemma Qle_bool_false_lt (x y : Q) : Qle_bool x y = false -> (y < x)%Q.
Proof.
  intros Hf. apply Qnot_le_lt. intros Hle. apply Qle_bool_iff in Hle. congruence.
Qed.

(** The state of the [entries.forEach] loop after the entries [seen]. *)
Lemma mostVisibleChunk_loop chunks (seen : list Entry) :
  let acc :=
    fold_left
      (fun (acc : option PDFChunk * Q) (entry : Entry) =>
         let '(mostVisible, maxVisibilityRatio) := acc in
         if isIntersecting entry
            && negb (Qle_bool (intersectionRatio entry) maxVisibilityRatio)
         then
           match List.find (fun c => String.eqb (chunk_id c) (entry_target entry)) chunks with
           | Some chunk => (Some chunk, intersectionRatio entry)
           | None => acc
           end
         else acc)
      seen (None, 0%Q) in
  (0 <= acc.2)%Q
  /\ (forall other, other ∈ seen -> isIntersecting other = true ->
        chunkOfEntry chunks other <> None -> (intersectionRatio other <= acc.2)%Q)
  /\ match acc.1 with
     | Some chunk =>
         exists entry, entry ∈ seen /\ isIntersecting entry = true
           /\ (0 < intersectionRatio entry)%Q
           /\ chunkOfEntry chunks entry = Some chunk
           /\ acc.2 = intersectionRatio entry
     | None => acc.2 = 0%Q
     end.
Proof.
  induction seen as [ | entry seen IH ] using rev_ind.
  - cbn. repeat split; [ apply Qle_refl | ]. intros other Hin. inversion Hin.
  - rewrite fold_left_app. cbn [fold_left]. cbv zeta in IH |- *.
    destruct (fold_left _ seen (None, 0%Q)) as [mostVisible ratio].
    cbn [fst snd] in IH. destruct IH as (Hpos & Hmax & Hbest).
    fold (chunkOfEntry chunks entry).
    destruct (isIntersecting entry) eqn:Ei; cbn [andb].
    + destruct (Qle_bool (intersectionRatio entry) ratio) eqn:Ele; cbn [negb].
      * cbn [fst snd]. apply Qle_bool_iff in Ele. split; [ exact Hpos | ]. split.
        -- intros other [Hin | ->%list_elem_of_singleton]%elem_of_app;
             [ now apply Hmax | intros _ _; exact Ele ].
        -- destruct mostVisible as [chunk | ]; [ | exact Hbest ].
           destruct Hbest as (e & He & Hrest). exists e.
           split; [ apply elem_of_app; now left | exact Hrest ].
      * apply Qle_bool_false_lt in Ele.
        destruct (chunkOfEntry chunks entry) as [chunk | ] eqn:Ec; cbn [fst snd].
        -- split; [ eapply Qle_trans; [ exact Hpos | now apply Qlt_le_weak ] | ]. split.
           ++ intros other [Hin | ->%list_elem_of_singleton]%elem_of_app;
                [ | intros _ _; apply Qle_refl ].
              intros Ho Hk. eapply Qle_trans; [ now apply Hmax | now apply Qlt_le_weak ].
           ++ exists entry. split; [ apply elem_of_app; right; now apply list_elem_of_singleton | ].
              repeat split; try assumption.
              eapply Qle_lt_trans; [ exact Hpos | exact Ele ].
        -- split; [ exact Hpos | ]. split.
           ++ intros other [Hin | ->%list_elem_of_singleton]%elem_of_app;
                [ now apply Hmax | intros _ Hk; now rewrite Ec in Hk ].
           ++ destruct mostVisible as [chunk | ]; [ | exact Hbest ].
              destruct Hbest as (e & He & Hrest). exists e.
              split; [ apply elem_of_app; now left | exact Hrest ].
    + cbn [fst snd]. split; [ exact Hpos | ]. split.
      * intros other [Hin | ->%list_elem_of_singleton]%elem_of_app;
          [ now apply Hmax | intros Ho; congruence ].
      * destruct mostVisible as [chunk | ]; [ | exact Hbest ].
        destruct Hbest as (e & He & Hrest). exists e.
        split; [ apply elem_of_app; now left | exact Hrest ].
Qed.

(** X5.  The chunk the observer callback settles on belongs to an entry
    that intersects, has a positive ratio and names a chunk of the list,
    and no intersecting entry of a known chunk has a greater ratio.  It
    settles on no chunk only when every intersecting entry with a
    positive ratio names an element that is no chunk of the list. *)
Theorem mostVisibleChunk_most_visible (chunks : list PDFChunk) (entries : list Entry) :
  match mostVisibleChunk chunks entries with
  | Some chunk =>
      exists entry, entry ∈ entries /\ isIntersecting entry = true
        /\ (0 < intersectionRatio entry)%Q
        /\ chunkOfEntry chunks entry = Some chunk
        /\ forall other, other ∈ entries -> isIntersecting other = true ->
             chunkOfEntry chunks other <> None ->
             (intersectionRatio other <= intersectionRatio entry)%Q
  | None =>
      forall entry, entry ∈ entries -> isIntersecting entry = true ->
        (0 < intersectionRatio entry)%Q -> chunkOfEntry chunks entry = None
  end.
Proof.
  pose proof (mostVisibleChunk_loop chunks entries) as Hloop. cbv zeta in Hloop.
  unfold mostVisibleChunk.
  destruct (fold_left _ entries (None, 0%Q)) as [mostVisible ratio].
  cbn [fst snd] in Hloop |- *. destruct Hloop as (Hpos & Hmax & Hbest).
  destruct mostVisible as [chunk | ].
  - destruct Hbest as (entry & Hin & Hi & Hr & Hc & ->). exists entry.
    repeat split; assumption.
  - subst ratio. intros entry Hin Hi Hr.
    destruct (chunkOfEntry chunks entry) as [chunk | ] eqn:Ec; [ exfalso | reflexivity ].
    assert (Hle : (intersectionRatio entry <= 0)%Q)
      by (apply Hmax; [ assumption | assumption | congruence ]).
    exact (Qlt_not_le _ _ Hr Hle).
Qed.

Lemma mostVisibleChunk_most_visible_witness :
  chunk_id <$> mostVisibleChunk (chunks sparse_document) sample_entries = Some "d".
Proof.
  pose proof (mostVisibleChunk_most_visible (chunks sparse_document) sample_entries) as Hm.
  destruct (mostVisibleChunk (chunks sparse_document) sample_entries) as [chunk | ] eqn:E.
  - vm_compute in E. injection E as <-. reflexivity.
  - exfalso.
    assert (Hin : {| entry_target := "b"; isIntersecting := true;
                     intersectionRatio := (6 # 10)%Q |} ∈ sample_entries)
      by (apply elem_of_cons; now left).
    specialize (Hm _ Hin eq_refl eq_refl). vm_compute in Hm. discriminate.
Defined.

(** ** The search box *)

Section SearchBox.
Context `{JsString}.

Lemma run_SetSearchText s w :
  run [SetSearchText s] w
  = perform_all (if negb (String.eqb (searchText w) s)
                 then searchResetEffect (perform (SetSearchText s) w) else [])
                (perform (SetSearchText s) w).
Proof.
  unfold run, render_effects.
  cbn [perform_all fold_left existsb isSetChunks orb].
  rewrite perform_documentTotalPages, perform_pdfCurrentPage, perform_pdfViewerMode,
    perform_searchText.
  cbn [sets_documentTotalPages sets_pdfCurrentPage sets_pdfViewerMode sets_searchText default].
  rewrite !Z.eqb_refl, bool_decide_eq_true_2 by reflexivity.
  cbn [negb orb app]. now rewrite app_nil_r.
Qed.

Lemma typed_search_fields s w :
  let w' := dispatch (fun _ => [SetSearchText s]) w in
  searchText w' = s
  /\ chunks w' = chunks w
  /\ pdfCurrentPage w' = pdfCurrentPage w
  /\ (trim s = "" -> s <> searchText w ->
      searchResults w' = [] /\ currentSearchIndex w' = -1 /\ lastSearchQuery w' = "")
  /\ (trim s <> "" ->
      searchResults w' = searchResults w
      /\ currentSearchIndex w' = currentSearchIndex w
      /\ lastSearchQuery w' = lastSearchQuery w).
Proof.
  intros w'. subst w'. unfold dispatch. rewrite run_SetSearchText.
  unfold searchResetEffect. rewrite perform_searchText. cbn [sets_searchText default].
  rewrite (perform_all_field _ _ perform_searchText), (perform_all_field _ _ perform_chunks),
    (perform_all_field _ _ perform_pdfCurrentPage),
    (perform_all_field _ _ perform_searchResults),
    (perform_all_field _ _ perform_currentSearchIndex),
    (perform_all_field _ _ perform_lastSearchQuery).
  rewrite perform_searchText, perform_chunks, perform_pdfCurrentPage, perform_searchResults,
    perform_currentSearchIndex, perform_lastSearchQuery.
  cbn [sets_searchText sets_chunks sets_pdfCurrentPage sets_searchResults
       sets_currentSearchIndex sets_lastSearchQuery default].
  unfold Datatypes.id.
  destruct (String.eqb_spec (searchText w) s) as [Hsame | Hdiff];
    destruct (String.eqb_spec (trim s) "") as [Hblank | Hfull]; cbn;
    repeat split; try reflexivity; try congruence; intros; congruence.
Qed.

(** X6.  Typing into the search box stores the text and moves no page.
    When the new text is blank (empty after trimming) the search session
    is reset: no matches, cursor -1, no last query.  Any other text leaves
    the matches, the cursor and the last query as they were.  Therefore a
    query that is retyped after the box was blank starts over at the first
    match, even when it equals the query searched before: the submission
    refilters the chunks and sets the cursor to 0. *)
Theorem search_box_edit (w : Runtime) (s : string) :
  let w' := dispatch (fun _ => [SetSearchText s]) w in
  searchText w' = s
  /\ pdfCurrentPage w' = pdfCurrentPage w
  /\ (trim s = "" -> s <> searchText w ->
      searchResults w' = [] /\ currentSearchIndex w' = -1 /\ lastSearchQuery w' = ""
      /\ forall s2,
           let query := toLowerCase (trim s2) in
           let w2 := dispatch handleSearchSubmit (dispatch (fun _ => [SetSearchText s2]) w') in
           trim s2 <> "" -> query <> "" -> chunks w <> [] ->
           searchResults w2 = search_matches query (chunks w)
           /\ currentSearchIndex w2 = 0
           /\ lastSearchQuery w2 = query)
  /\ (trim s <> "" ->
      searchResults w' = searchResults w
      /\ currentSearchIndex w' = currentSearchIndex w
      /\ lastSearchQuery w' = lastSearchQuery w).
Proof.
  intros w'. destruct (typed_search_fields s w) as (Ht & Hc & Hp & Hblank & Hfull).
  fold w' in Ht, Hc, Hp, Hblank, Hfull.
  split; [ exact Ht | ]. split; [ exact Hp | ]. split; [ | exact Hfull ].
  intros Hb Hne. destruct (Hblank Hb Hne) as (Hr & Hi & Hl).
  split; [ exact Hr | ]. split; [ exact Hi | ]. split; [ exact Hl | ].
  intros s2 query w2 Hs2 Hq Hchunks.
  destruct (typed_search_fields s2 w') as (Ht2 & Hc2 & _ & _ & Hfull2).
  destruct (Hfull2 Hs2) as (_ & _ & Hl2).
  set (w1 := dispatch (fun _ => [SetSearchText s2]) w') in *.
  assert (Hq1 : toLowerCase (trim (searchText w1)) <> "") by now rewrite Ht2.
  assert (Hc1 : chunks w1 <> []) by (rewrite Hc2, Hc; exact Hchunks).
  assert (Hnew : toLowerCase (trim (searchText w1)) <> lastSearchQuery w1)
    by (rewrite Hl2, Hl; exact Hq1).
  pose proof (handleSearchSubmit_new w1 Hc1 Hq1 Hnew) as Heff. cbv zeta in Heff.
  pose proof (handleSearchSubmit_no_SetSearchText w1) as Hns.
  unfold w2, dispatch. fold w1.
  rewrite run_searchResults, run_currentSearchIndex, run_lastSearchQuery by assumption.
  rewrite Heff, Ht2, Hc2, Hc. fold query.
  destruct (search_matches query (chunks w)); repeat split; reflexivity.
Qed.

End SearchBox.

Lemma search_box_edit_witness :
  currentSearchIndex smoking_document_second_match = 1
  /\ currentSearchIndex
       (dispatch handleSearchSubmit
          (dispatch (fun _ => [SetSearchText "smoking"])
             (dispatch (fun _ => [SetSearchText " "]) smoking_document_second_match))) = 0.
Proof.
  split; [ reflexivity | ].
  destruct (search_box_edit smoking_document_second_match " ") as (_ & _ & Hblank & _).
  destruct (Hblank eq_refl ltac:(vm_compute; discriminate)) as (_ & _ & _ & Hagain).
  destruct (Hagain "smoking" ltac:(vm_compute; discriminate) ltac:(vm_compute; discriminate)
              ltac:(vm_compute; discriminate)) as (_ & Hi & _).
  exact Hi.
Defined.

(** ** Page changes reach the external window *)

Lemma perform_history e w : history (perform e w) = history w ++ e :: forwarded e w.
Proof.
  destruct e as [ | page | | | | | | | | | | | | | | | | | | url [win | ] | | | | | ];
    try (destruct w; reflexivity).
  unfold perform, forwarded.
  assert (Hlive : liveWindow (with_pdfCurrentPage page (record (OnPdfPageChange page) w))
                  = liveWindow w) by (destruct w; reflexivity).
  rewrite Hlive. destruct (liveWindow w); destruct w; cbn;
    rewrite <- ?(assoc_L (++)); reflexivity.
Qed.

Lemma perform_closedWindows e w :
  closedWindows (perform e w)
  = match e with UserClosesWindow win => win :: closedWindows w | _ => closedWindows w end.
Proof. revert e w. frame_cases. Qed.

Lemma perform_liveWindow e w : keeps_window e = true -> liveWindow (perform e w) = liveWindow w.
Proof.
  intros Hk. unfold liveWindow. rewrite perform_pdfViewerWindowRef, perform_closedWindows.
  destruct e; try discriminate; reflexivity.
Qed.

Lemma messages_app l1 l2 : messages (l1 ++ l2) = messages l1 ++ messages l2.
Proof. unfold messages. apply omap_app. Qed.

Lemma perform_all_messages effects w :
  Forall (fun e => keeps_window e = true) effects ->
  liveWindow (perform_all effects w) = liveWindow w
  /\ messages (history (perform_all effects w))
     = messages (history w)
       ++ match liveWindow w with
          | Some win => (fun page => (win, pageMessage page)) <$> pageChanges effects
          | None => []
          end.
Proof.
  intros Hk. revert w. induction Hk as [ | e effects He _ IH ]; intros w.
  - cbn. split; [ reflexivity | ]. destruct (liveWindow w); now rewrite app_nil_r.
  - cbn [perform_all fold_left]. fold (perform_all effects (perform e w)).
    destruct (IH (perform e w)) as (Hlive & Hmsg).
    rewrite Hlive, Hmsg, (perform_liveWindow e w He), perform_history.
    split; [ reflexivity | ].
    rewrite messages_app, <- (assoc_L (++)). f_equal.
    destruct e; try discriminate; cbn; try reflexivity.
    destruct (liveWindow w); reflexivity.
Qed.

Lemma pageChanges_render l :
  Forall (fun e => is_render_effect e = true) l -> pageChanges l = [].
Proof.
  induction 1 as [ | e l He _ IH ]; [ reflexivity | ].
  unfold pageChanges in *. cbn. rewrite IH. now destruct e.
Qed.

Section Forwarding.
Context `{JsString}.

(** A batch of effects that leaves the windows alone, and the render
    that follows it, post the page changes of the batch to the stored
    window, when it is not closed, and nothing else. *)
Lemma run_messages (effects : list Effect) (w : Runtime) :
  Forall (fun e => keeps_window e = true) effects ->
  liveWindow (run effects w) = liveWindow w
  /\ messages (history (run effects w))
     = messages (history w)
       ++ match liveWindow w with
          | Some win => (fun page => (win, pageMessage page)) <$> pageChanges effects
          | None => []
          end.
Proof.
  intros Hk. unfold run.
  set (w1 := perform_all effects w).
  destruct (perform_all_messages effects w Hk) as (Hlive & Hmsg). fold w1 in Hlive, Hmsg.
  assert (Hr : Forall (fun e => keeps_window e = true) (render_effects effects w w1)).
  { eapply Forall_impl; [ apply render_effects_kind | ]. now intros []. }
  assert (Hnone : pageChanges (render_effects effects w w1) = [])
    by apply pageChanges_render, render_effects_kind.
  destruct (perform_all_messages _ w1 Hr) as (Hlive' & Hmsg').
  split; [ now rewrite Hlive', Hlive | ].
  rewrite Hmsg', Hmsg, Hlive, Hnone. destruct (liveWindow w); cbn; now rewrite app_nil_r.
Qed.

End Forwarding.

(** ** The poll of a closed window *)

Lemma perform_poll_safe e w :
  poll_safe e = true ->
  closedWindows (perform e w) = closedWindows w
  /\ (pdfViewerWindowRef w = None -> pdfViewerWindowRef (perform e w) = None).
Proof.
  intros Hs. rewrite perform_closedWindows, perform_pdfViewerWindowRef.
  destruct e as [ | | | | | | | | | | | | | | | | | | | | [win | ] | | | | ];
    try discriminate; cbn; auto.
Qed.

Lemma perform_keeps_timer e w x :
  x ∈ timers w -> isObserverPageChange x.2 = false -> x ∈ timers (perform e w).
Proof.
  intros Hx Ho. rewrite perform_timers.
  destruct e; cbn; try assumption.
  - apply elem_of_app. now left.
  - apply elem_of_app. left. apply list_elem_of_In, filter_In.
    split; [ now apply list_elem_of_In | now rewrite Ho ].
  - apply list_elem_of_In, filter_In.
    split; [ now apply list_elem_of_In | now rewrite Ho ].
Qed.

Lemma perform_all_poll_safe effects w :
  Forall (fun e => poll_safe e = true) effects ->
  closedWindows (perform_all effects w) = closedWindows w
  /\ (pdfViewerWindowRef w = None -> pdfViewerWindowRef (perform_all effects w) = None)
  /\ (forall x, x ∈ timers w -> isObserverPageChange x.2 = false ->
                x ∈ timers (perform_all effects w)).
Proof.
  intros Hs. revert w. induction Hs as [ | e effects He _ IH ]; intros w; [ now cbn | ].
  cbn [perform_all fold_left]. fold (perform_all effects (perform e w)).
  destruct (IH (perform e w)) as (Hc & Hr & Ht).
  destruct (perform_poll_safe e w He) as (Hc1 & Hr1).
  split; [ congruence | ]. split; [ auto | ].
  intros x Hx Ho. apply Ht; [ now apply perform_keeps_timer | assumption ].
Qed.

Lemma fire_poll_safe w t : Forall (fun e => poll_safe e = true) (fire w t).
Proof.
  destruct t as [ [f | ] | | f | m | m | p | win | win ]; cbn; unfold scrollToMatch;
    repeat match goal with
           | |- context [if ?b then _ else _] => destruct b
           end; cbn; repeat constructor.
Qed.

Section Poll.
Context `{JsString}.

Lemma run_poll_safe effects w :
  Forall (fun e => poll_safe e = true) effects ->
  closedWindows (run effects w) = closedWindows w
  /\ (pdfViewerWindowRef w = None -> pdfViewerWindowRef (run effects w) = None)
  /\ (forall x, x ∈ timers w -> isObserverPageChange x.2 = false ->
                x ∈ timers (run effects w))
  /\ clock (run effects w) = clock w.
Proof.
  intros Hs. unfold run. set (w1 := perform_all effects w).
  assert (Hr : Forall (fun e => poll_safe e = true) (render_effects effects w w1)).
  { eapply Forall_impl; [ apply render_effects_kind | ]. now intros []. }
  destruct (perform_all_poll_safe effects w Hs) as (Hc & Href & Ht). fold w1 in Hc, Href, Ht.
  destruct (perform_all_poll_safe _ w1 Hr) as (Hc' & Href' & Ht').
  split; [ congruence | ]. split; [ auto | ]. split; [ auto | ].
  rewrite perform_all_clock. apply perform_all_clock.
Qed.

Lemma fire_all_poll ready w :
  closedWindows (fire_all ready w) = closedWindows w
  /\ (pdfViewerWindowRef w = None -> pdfViewerWindowRef (fire_all ready w) = None)
  /\ (forall x, x ∈ timers w -> isObserverPageChange x.2 = false ->
                x ∈ timers (fire_all ready w))
  /\ clock (fire_all ready w) = clock w
  /\ (forall old, PollClosed old ∈ ready -> old ∈ closedWindows w ->
                  pdfViewerWindowRef (fire_all ready w) = None).
Proof.
  revert w. induction ready as [ | t ready IH ]; intros w.
  - cbn. repeat split; auto. intros old Hin. inversion Hin.
  - cbn [fire_all fold_left]. fold (fire_all ready (run (fire w t) w)).
    destruct (run_poll_safe _ w (fire_poll_safe w t)) as (Hc & Href & Ht & Hk).
    destruct (IH (run (fire w t) w)) as (Hc' & Href' & Ht' & Hk' & Hpoll').
    split; [ congruence | ]. split; [ auto | ]. split; [ auto | ]. split; [ congruence | ].
    intros old [<- | Hin]%elem_of_cons Hclosed.
    + apply Href'. rewrite run_pdfViewerWindowRef. cbn [fire].
      rewrite bool_decide_eq_true_2 by assumption. reflexivity.
    + apply (Hpoll' old Hin). now rewrite Hc.
Qed.

Lemma tick_fields w :
  clock (with_timers (List.filter (fun t => (S (clock w) <? t.1)%nat) (timers w))
                     (with_clock (S (clock w)) w)) = S (clock w)
  /\ timers (with_timers (List.filter (fun t => (S (clock w) <? t.1)%nat) (timers w))
                         (with_clock (S (clock w)) w))
     = List.filter (fun t => (S (clock w) <? t.1)%nat) (timers w)
  /\ closedWindows (with_timers (List.filter (fun t => (S (clock w) <? t.1)%nat) (timers w))
                                (with_clock (S (clock w)) w)) = closedWindows w
  /\ pdfViewerWindowRef
       (with_timers (List.filter (fun t => (S (clock w) <? t.1)%nat) (timers w))
                    (with_clock (S (clock w)) w)) = pdfViewerWindowRef w.
Proof. destruct w. repeat split. Qed.

Lemma tick_clock w : clock (tick w) = S (clock w).
Proof.
  unfold tick. destruct (tick_fields w) as (Hc & _).
  destruct (fire_all_poll
              ((List.filter (fun t => (t.1 <? S (clock w))%nat) (timers w)
                ++ List.filter (fun t => (t.1 =? S (clock w))%nat) (timers w)).*2)
              (with_timers (List.filter (fun t => (S (clock w) <? t.1)%nat) (timers w))
                           (with_clock (S (clock w)) w))) as (_ & _ & _ & Hk & _).
  now rewrite Hk.
Qed.

Lemma advance_clock n w : clock (advance n w) = (clock w + n)%nat.
Proof.
  induction n as [ | n IH ]; [ cbn; lia | ].
  change (advance (S n) w) with (tick (advance n w)). rewrite tick_clock, IH. lia.
Qed.

Lemma tick_closedWindows w : closedWindows (tick w) = closedWindows w.
Proof.
  unfold tick. destruct (tick_fields w) as (_ & _ & Hc & _).
  destruct (fire_all_poll
              ((List.filter (fun t => (t.1 <? S (clock w))%nat) (timers w)
                ++ List.filter (fun t => (t.1 =? S (clock w))%nat) (timers w)).*2)
              (with_timers (List.filter (fun t => (S (clock w) <? t.1)%nat) (timers w))
                           (with_clock (S (clock w)) w))) as (Hc' & _).
  now rewrite Hc'.
Qed.

Lemma poll_pending_tick old due w : poll_pending old due w -> poll_pending old due (tick w).
Proof.
  intros Hp. pose proof (tick_clock w) as Hclock. unfold tick in *.
  destruct (tick_fields w) as (Hc & Hq & Hcl & Href).
  set (w0 := with_timers _ (with_clock (S (clock w)) w)) in *.
  set (ready := (_ ++ _).*2) in *.
  destruct (fire_all_poll ready w0) as (Hc' & Href' & Ht' & Hk' & Hpoll').
  destruct Hp as [Hnone | (Hin & Hclosed & Hlt)].
  - left. apply Href'. now rewrite Href.
  - destruct (Nat.eq_dec (S (clock w)) due) as [Hdue | Hnot].
    + left. apply (Hpoll' old); [ | now rewrite Hcl ].
      unfold ready. apply list_elem_of_fmap. exists (due, PollClosed old).
      split; [ reflexivity | ]. apply elem_of_app. right.
      apply list_elem_of_In, filter_In. split; [ now apply list_elem_of_In | ].
      cbn [fst]. apply Nat.eqb_eq. lia.
    + right. split; [ | split ].
      * apply Ht'; [ | reflexivity ]. rewrite Hq.
        apply list_elem_of_In, filter_In. split; [ now apply list_elem_of_In | ].
        cbn [fst]. apply Nat.ltb_lt. lia.
      * now rewrite Hc', Hcl.
      * rewrite Hclock. lia.
Qed.

(** X8.  Once a window whose one-second poll is pending has been
    closed, the stored window reference is dropped by the time that poll
    is due, and stays dropped while only timers run, whichever window the
    reference names by then: the poll of an old window also drops the
    reference to a window opened since, which is still open. *)
Theorem closed_window_poll (w : Runtime) (old due : nat) :
  (due, PollClosed old) ∈ timers w -> (clock w < due)%nat -> old ∈ closedWindows w ->
  forall n, (due - clock w <= n)%nat ->
    pdfViewerWindowRef (advance n w) = None
    /\ liveWindow (advance n w) = None
    /\ closedWindows (advance n w) = closedWindows w.
Proof.
  intros Hin Hlt Hclosed n Hn.
  assert (Hp : poll_pending old due (advance n w)).
  { clear Hn. induction n as [ | n IH ].
    - right. auto.
    - change (advance (S n) w) with (tick (advance n w)). now apply poll_pending_tick. }
  assert (Href : pdfViewerWindowRef (advance n w) = None).
  { destruct Hp as [Hnone | (_ & _ & Hclock)]; [ exact Hnone | ].
    rewrite advance_clock in Hclock. lia. }
  split; [ exact Href | ]. split; [ unfold liveWindow; now rewrite Href | ].
  clear. induction n as [ | n IH ]; [ reflexivity | ].
  change (advance (S n) w) with (tick (advance n w)). now rewrite tick_closedWindows.
Qed.

End Poll.

Lemma closed_window_poll_witness :
  liveWindow reopened_within_the_second = Some 1%nat
  /\ pdfViewerWindowRef (advance 1000 reopened_within_the_second) = None
  /\ closedWindows (advance 1000 reopened_within_the_second) = [0%nat].
Proof.
  split; [ reflexivity | ].
  assert (Hin : (1000%nat, PollClosed 0) ∈ timers reopened_within_the_second)
    by (apply elem_of_cons; now left).
  assert (Hclosed : 0%nat ∈ closedWindows reopened_within_the_second)
    by (apply elem_of_cons; now left).
  destruct (closed_window_poll reopened_within_the_second 0 1000 Hin
              ltac:(vm_compute; lia) Hclosed 1000 ltac:(vm_compute; lia))
    as (Href & _ & Hc).
  split; [ exact Href | exact Hc ].
Defined.

(** ** Page changes reach the stored window *)

Lemma last_set_pageChanges effects v :
  last_set sets_pdfCurrentPage effects v = default v (last (pageChanges effects)).
Proof.
  revert v. induction effects as [ | e effects IH ]; intros v; [ reflexivity | ].
  change (last_set sets_pdfCurrentPage (e :: effects) v)
    with (last_set sets_pdfCurrentPage effects (default v (sets_pdfCurrentPage e))).
  rewrite IH. unfold pageChanges. cbn [omap list_omap].
  destruct (sets_pdfCurrentPage e) as [ page | ]; cbn [from_option]; [ | reflexivity ].
  unfold Datatypes.id. destruct (omap sets_pdfCurrentPage effects) as [ | p ps ]; [ reflexivity | ].
  rewrite !last_cons. now destruct (last ps).
Qed.

Section ViewerEvents.
Context `{JsString}.

Lemma handle_run ev w :
  ev <> MillisecondPassed -> handle ev w = run (handlerEffects ev w) w.
Proof. destruct ev; try congruence; reflexivity. Qed.

Lemma handlerEffects_keep_window ev w :
  viewer_event ev = true ->
  Forall (fun e => keeps_window e = true) (handlerEffects ev w)
  /\ (length (pageChanges (handlerEffects ev w)) <= 1)%nat.
Proof.
  destruct ev; try discriminate; intros _; cbn [handlerEffects];
    unfold handlePageInput, handlePreviousPage, handleNextPage, handleSearchSubmit,
      observerCallback, navigateToSearchResult, nth_result;
    repeat match goal with
           | |- context [if ?b then _ else _] => destruct b
           | |- context [match ?x with _ => _ end] => destruct x
           end; (split; [ repeat constructor | cbn; lia ]).
Qed.

(** X7.  Every event of the viewer itself (a page typed, the page
    buttons, the search box and its submission, an observation, the two
    answers of a load, a change of the view mode) reports at most one
    page through [onPdfPageChange]; the page that is stored afterwards is
    the reported one; and the report is posted, as a bare [changePage]
    message without highlight or search text, to the window whose
    reference is stored, provided that window is not closed, and nothing
    else is posted.  When no reference is stored, or the stored window is
    closed, nothing is posted, also when another window is open.  The
    event leaves the stored window as it is. *)
Theorem page_changes_reach_the_window (ev : Event) (w : Runtime) :
  viewer_event ev = true ->
  let reported := pageChanges (handlerEffects ev w) in
  (length reported <= 1)%nat
  /\ pdfCurrentPage (handle ev w) = default (pdfCurrentPage w) (last reported)
  /\ messages (history (handle ev w))
     = messages (history w)
       ++ match liveWindow w with
          | Some win => (fun page => (win, pageMessage page)) <$> reported
          | None => []
          end
  /\ liveWindow (handle ev w) = liveWindow w.
Proof.
  intros Hev reported.
  destruct (handlerEffects_keep_window ev w Hev) as (Hk & Hone).
  assert (Hne : ev <> MillisecondPassed) by (intros ->; discriminate).
  rewrite (handle_run ev w Hne).
  destruct (run_messages _ w Hk) as (Hlive & Hmsg).
  split; [ exact Hone | ].
  split; [ rewrite run_pdfCurrentPage; apply last_set_pageChanges | ].
  split; [ exact Hmsg | exact Hlive ].
Qed.

End ViewerEvents.

Lemma page_changes_reach_the_window_witness :
  messages (history (handle NextClicked five_page_document_at_rest))
  = [(0%nat, pageMessage 2)]
  /\ pdfCurrentPage (handle NextClicked five_page_document_at_rest) = 2
  /\ ((1%nat ∉ closedWindows after_the_stale_poll)
      /\ openedWindows after_the_stale_poll = 2%nat
      /\ pdfViewerWindowRef after_the_stale_poll = None
      /\ pageChanges (handlerEffects (PageTyped 3) after_the_stale_poll) = [1]
      /\ messages (history (handle (PageTyped 3) after_the_stale_poll))
         = messages (history after_the_stale_poll)).
Proof.
  destruct (page_changes_reach_the_window NextClicked five_page_document_at_rest eq_refl)
    as (_ & Hpage & Hmsg & _).
  destruct (page_changes_reach_the_window (PageTyped 3) after_the_stale_poll eq_refl)
    as (_ & Hpage' & Hmsg' & _).
  split; [ rewrite Hmsg; vm_compute; reflexivity | ].
  split; [ rewrite Hpage; vm_compute; reflexivity | ].
  split; [ vm_compute; intros Hin; repeat (apply elem_of_cons in Hin as [Hin | Hin];
                                            [ discriminate | ]); inversion Hin | ].
  split; [ reflexivity | ]. split; [ reflexivity | ].
  split; [ reflexivity | ].
  rewrite Hmsg'. vm_compute. reflexivity.
Defined.

(** ** The search session over whole sessions *)

Lemma perform_all_history_error effects w :
  UncaughtTypeError ∈ history (perform_all effects w)
  <-> UncaughtTypeError ∈ history w \/ UncaughtTypeError ∈ effects.
Proof.
  revert w. induction effects as [ | e effects IH ]; intros w.
  - cbn. split; [ now left | intros [Hin | Hin]; [ assumption | inversion Hin ] ].
  - cbn [perform_all fold_left]. fold (perform_all effects (perform e w)).
    rewrite IH, perform_history, elem_of_app, !elem_of_cons.
    assert (Hf : UncaughtTypeError ∉ forwarded e w).
    { destruct e; cbn; try (intros Hin; inversion Hin; fail).
      destruct (liveWindow w); intros Hin; [ | inversion Hin ].
      apply list_elem_of_singleton in Hin. discriminate. }
    split.
    + intros [[Hin | [Hin | Hin]] | Hin]; auto. contradiction.
    + intros [Hin | [Hin | Hin]]; auto.
Qed.

Lemma search_neutral_sets e :
  search_neutral e = true ->
  sets_searchText e = None /\ sets_searchResults e = None
  /\ sets_currentSearchIndex e = None /\ sets_isSearching e = None
  /\ e <> UncaughtTypeError.
Proof. destruct e; try discriminate; intros _; repeat split; discriminate. Qed.

Lemma with_timers_search q c w :
  isSearching (with_timers q (with_clock c w)) = isSearching w
  /\ currentSearchIndex (with_timers q (with_clock c w)) = currentSearchIndex w
  /\ searchResults (with_timers q (with_clock c w)) = searchResults w
  /\ history (with_timers q (with_clock c w)) = history w.
Proof. destruct w. repeat split. Qed.

Lemma fire_search_neutral w t : Forall (fun e => search_neutral e = true) (fire w t).
Proof.
  destruct t as [ [f | ] | | f | m | m | p | win | win ]; cbn; unfold scrollToMatch;
    repeat match goal with
           | |- context [if ?b then _ else _] => destruct b
           end; cbn; repeat constructor.
Qed.

Lemma handlePageInput_search_neutral v w :
  Forall (fun e => search_neutral e = true) (handlePageInput v w).
Proof. repeat constructor. Qed.

Lemma handlePreviousPage_search_neutral w :
  Forall (fun e => search_neutral e = true) (handlePreviousPage w).
Proof. unfold handlePreviousPage. destruct (_ =? _); repeat constructor. Qed.

Lemma handleNextPage_search_neutral w :
  Forall (fun e => search_neutral e = true) (handleNextPage w).
Proof. unfold handleNextPage. destruct (_ =? _); repeat constructor. Qed.

Lemma observerCallback_search_neutral entries w :
  Forall (fun e => search_neutral e = true) (observerCallback entries w).
Proof.
  unfold observerCallback.
  repeat match goal with
         | |- context [if ?b then _ else _] => destruct b
         | |- context [match ?x with _ => _ end] => destruct x
         end; repeat constructor.
Qed.

Lemma handleReferenceClick_search_neutral b d w :
  Forall (fun e => search_neutral e = true) (handleReferenceClick b d w).
Proof.
  unfold handleReferenceClick, openViewerWindow.
  repeat match goal with
         | |- context [if ?b then _ else _] => destruct b
         | |- context [match ?x with _ => _ end] => destruct x
         end; repeat constructor.
Qed.

Ltac not_listed Hin :=
  repeat (apply elem_of_cons in Hin as [Hin | Hin]; [ discriminate | ]); inversion Hin.

Ltac session_fields :=
  split; [ first [ assumption | reflexivity ] | ];
  split; [ first [ assumption
                 | intros Hnil; first [ discriminate | now left | now right ] ] | ];
  split; [ first [ assumption | intros Hne; first [ congruence | cbn [length]; lia ] ] | ].

Section Sessions.
Context `{JsString}.

Lemma run_history_error effects w :
  UncaughtTypeError ∈ history (run effects w)
  <-> UncaughtTypeError ∈ history w \/ UncaughtTypeError ∈ effects.
Proof.
  unfold run. rewrite !perform_all_history_error.
  assert (Hr : UncaughtTypeError ∉ render_effects effects w (perform_all effects w)).
  { intros Hin. pose proof (render_effects_kind effects w (perform_all effects w)) as Hk.
    rewrite Forall_forall in Hk. specialize (Hk _ Hin). discriminate. }
  tauto.
Qed.

Lemma run_search_neutral effects w :
  Forall (fun e => search_neutral e = true) effects ->
  search_session_ok w -> search_session_ok (run effects w).
Proof.
  intros Hn (Hs & Hlow & Hidx & Herr).
  assert (Hq : Forall (fun e => sets_searchText e = None) effects)
    by (eapply Forall_impl; [ exact Hn | ]; intros e He; now apply search_neutral_sets).
  unfold search_session_ok.
  rewrite run_isSearching, run_currentSearchIndex, run_searchResults by assumption.
  rewrite !last_set_none
    by (eapply Forall_impl; [ exact Hn | ]; intros e He; now apply search_neutral_sets).
  repeat split; try assumption; try (now apply Hidx).
  rewrite run_history_error. intros [Hin | Hin]; [ contradiction | ].
  rewrite Forall_forall in Hn. specialize (Hn _ Hin). discriminate.
Qed.

Lemma fire_all_search ready w :
  search_session_ok w -> search_session_ok (fire_all ready w).
Proof.
  revert w. induction ready as [ | t ready IH ]; intros w Hok; [ exact Hok | ].
  cbn [fire_all fold_left]. fold (fire_all ready (run (fire w t) w)).
  apply IH, run_search_neutral; [ apply fire_search_neutral | exact Hok ].
Qed.

Lemma tick_search w : search_session_ok w -> search_session_ok (tick w).
Proof.
  intros Hok. unfold tick. apply fire_all_search.
  destruct (with_timers_search
              (List.filter (fun t => (S (clock w) <? t.1)%nat) (timers w)) (S (clock w)) w)
    as (Hs & Hi & Hr & Hh).
  unfold search_session_ok. now rewrite Hs, Hi, Hr, Hh.
Qed.

Lemma typed_search w s :
  search_session_ok w -> search_session_ok (dispatch (fun _ => [SetSearchText s]) w).
Proof.
  intros (Hs & Hlow & Hidx & Herr). unfold dispatch. rewrite run_SetSearchText.
  unfold search_session_ok.
  rewrite perform_all_history_error, perform_history,
    (perform_all_field _ _ perform_isSearching),
    (perform_all_field _ _ perform_currentSearchIndex),
    (perform_all_field _ _ perform_searchResults),
    perform_isSearching, perform_currentSearchIndex, perform_searchResults.
  cbn [sets_isSearching sets_currentSearchIndex sets_searchResults default forwarded].
  unfold searchResetEffect.
  destruct (negb _); [ destruct (String.eqb _ _) | ]; cbn; session_fields;
    intros [[Hin | Hin]%elem_of_app | Hin]; try contradiction;
    try (apply list_elem_of_singleton in Hin; discriminate); not_listed Hin.
Qed.

Lemma submitted_search w :
  search_session_ok w -> search_session_ok (dispatch handleSearchSubmit w).
Proof.
  intros (Hs & Hlow & Hidx & Herr).
  pose proof (handleSearchSubmit_no_SetSearchText w) as Hns.
  unfold dispatch, search_session_ok.
  rewrite run_isSearching, run_currentSearchIndex, run_searchResults, run_history_error
    by assumption.
  unfold handleSearchSubmit. destruct (_ || _).
  { cbn. session_fields. intros [Hin | Hin]; [ contradiction | inversion Hin ]. }
  destruct (negb _).
  - set (matches := List.filter _ (chunks w)).
    destruct matches as [ | first rest ] eqn:Em; cbn; session_fields;
      (intros [Hin | Hin]; [ contradiction | not_listed Hin ]).
  - destruct (searchResults w) as [ | r0 rs ] eqn:Er.
    + cbn. session_fields. intros [Hin | Hin]; [ contradiction | not_listed Hin ].
    + specialize (Hidx ltac:(discriminate)).
      set (count := Z.of_nat (length (r0 :: rs))) in *.
      cbv zeta.
      set (nextIndex := Z.rem (currentSearchIndex w + 1) count).
      assert (Hnext : 0 <= nextIndex < count).
      { unfold nextIndex. rewrite Z.rem_mod_nonneg by lia. apply Z.mod_pos_bound. lia. }
      unfold nth_result.
      replace (nextIndex <? 0) with false by (symmetry; apply Z.ltb_ge; lia).
      assert (Hlt : (Z.to_nat nextIndex < length (r0 :: rs))%nat) by (unfold count in Hnext; lia).
      destruct (lookup_lt_is_Some_2 _ _ Hlt) as [result ->].
      cbn. split; [ reflexivity | ]. split; [ discriminate | ].
      split; [ intros _; exact Hnext | ].
      intros [Hin | Hin]; [ contradiction | not_listed Hin ].
Qed.

Lemma handle_search ev w : search_session_ok w -> search_session_ok (handle ev w).
Proof.
  intros Hok. destruct ev; cbn [handle]; unfold resolveTotalPages, resolveChunks, dispatch.
  - apply run_search_neutral; [ apply handlePageInput_search_neutral | exact Hok ].
  - apply run_search_neutral; [ apply handlePreviousPage_search_neutral | exact Hok ].
  - apply run_search_neutral; [ apply handleNextPage_search_neutral | exact Hok ].
  - now apply typed_search.
  - now apply submitted_search.
  - apply run_search_neutral; [ apply observerCallback_search_neutral | exact Hok ].
  - apply run_search_neutral; [ apply handleReferenceClick_search_neutral | exact Hok ].
  - apply run_search_neutral; [ repeat constructor | exact Hok ].
  - apply run_search_neutral; [ repeat constructor | exact Hok ].
  - apply run_search_neutral; [ repeat constructor | exact Hok ].
  - apply run_search_neutral; [ repeat constructor | exact Hok ].
  - now apply tick_search.
Qed.

(** X9.  Whatever the user and the timers do, in any order: between
    two events the search is never left marked as running; while there
    are matches the cursor is an index into the match list (so the button
    shows a position between 1 and the number of matches); while there
    are none the cursor is -1 or 0 (it is 0 after a search that found
    nothing); and the submit handler never reads a match that is not
    there. *)
Theorem search_session_invariant (events : list Event) :
  let w := replay events in
  isSearching w = false
  /\ (searchResults w = [] -> currentSearchIndex w = -1 \/ currentSearchIndex w = 0)
  /\ (searchResults w <> [] ->
      0 <= currentSearchIndex w < Z.of_nat (length (searchResults w)))
  /\ UncaughtTypeError ∉ history w.
Proof.
  cbv zeta. change (search_session_ok (replay events)).
  induction events as [ | ev events IH ] using rev_ind.
  - unfold search_session_ok.
    change (currentSearchIndex (replay [])) with (-1).
    change (searchResults (replay [])) with (@nil PDFChunk).
    change (history (replay [])) with (@nil Effect).
    split; [ reflexivity | ]. split; [ now left | ]. split; [ congruence | ].
    intros Hin. inversion Hin.
  - unfold replay in *. rewrite fold_left_app. cbn [fold_left]. now apply handle_search.
Qed.

End Sessions.

Lemma search_session_invariant_witness :
  let found := replay [ChunksLoaded (chunks smoking_document); SearchTyped "smoking";
                       SearchSubmitted; SearchSubmitted; SearchSubmitted] in
  let nothing := replay [ChunksLoaded (chunks smoking_document); SearchTyped "parking";
                         SearchSubmitted] in
  (searchResults found <> [] /\ currentSearchIndex found = 0)
  /\ (searchResults nothing = [] /\ currentSearchIndex nothing = 0)
  /\ 0 <= currentSearchIndex found < Z.of_nat (length (searchResults found)).
Proof.
  intros found nothing.
  destruct (search_session_invariant
              [ChunksLoaded (chunks smoking_document); SearchTyped "smoking";
               SearchSubmitted; SearchSubmitted; SearchSubmitted]) as (_ & _ & Hidx & _).
  fold found in Hidx.
  assert (Hne : searchResults found <> []) by (vm_compute; discriminate).
  split; [ split; [ exact Hne | vm_compute; reflexivity ] | ].
  split; [ split; vm_compute; reflexivity | exact (Hidx Hne) ].
Defined.

(** ** The observer and the chunks on the screen *)

Lemma chunkOfEntry_Some chunks entry chunk :
  chunkOfEntry chunks entry = Some chunk ->
  chunk ∈ chunks /\ chunk_id chunk = entry_target entry.
Proof.
  unfold chunkOfEntry. intros [Hin Heq]%find_some.
  split; [ now apply list_elem_of_In | now apply String.eqb_eq ].
Qed.

Lemma mostVisibleChunk_entry chunks entries chunk :
  mostVisibleChunk chunks entries = Some chunk ->
  exists entry, entry ∈ entries /\ isIntersecting entry = true
                /\ chunkOfEntry chunks entry = Some chunk.
Proof.
  pose proof (mostVisibleChunk_loop chunks entries) as Hloop. cbv zeta in Hloop.
  unfold mostVisibleChunk.
  destruct (fold_left _ entries (None, 0%Q)) as [mostVisible ratio].
  cbn [fst snd] in Hloop |- *. destruct Hloop as (_ & _ & Hbest).
  intros ->. destruct Hbest as (entry & Hin & Hi & _ & Hc & _). eauto.
Qed.

Lemma rendered_on_current_page w id :
  rendered w id = true ->
  exists c, c ∈ getPaginatedChunks w /\ chunk_id c = id.
Proof.
  unfold rendered. fold (getPaginatedChunks w).
  intros [_ (c & Hin & Heq)%existsb_exists]%andb_true_iff.
  exists c. split; [ now apply list_elem_of_In | now apply String.eqb_eq ].
Qed.

Lemma pageOfChunk_on_screen w c :
  NoDup (chunk_id <$> chunks w) -> c ∈ getPaginatedChunks w ->
  pageOfChunk (grouped w) (chunk_id c) = Some (pdfCurrentPage w).
Proof.
  intros Hids Hin. unfold getPaginatedChunks, grouped in Hin.
  rewrite lookup_chunksByPage in Hin.
  assert (Hon : c ∈ chunks_on_page (pageNum (chunks w) (documentTotalPages w))
                       (pdfCurrentPage w) 0 (chunks w)).
  { destruct (chunks_on_page _ _ _ _); [ inversion Hin | exact Hin ]. }
  apply elem_of_chunks_on_page in Hon as (j & Hj & Hp). cbn in Hp.
  unfold grouped. rewrite (pageOfChunk_resolved _ _ j c Hids Hj). now rewrite Hp.
Qed.

Section ObserverOnScreen.
Context `{JsString}.

(** X10.  In a document whose chunk ids are distinct, an observation in
    which every intersecting element is a chunk on the screen (the text
    view renders the chunks of the current page only) schedules no page
    report and changes nothing, whatever the ratios: the page of the most
    visible chunk is the current page. *)
Theorem observer_inert_on_rendered_chunks (w : Runtime) (entries : list Entry) :
  NoDup (chunk_id <$> chunks w) ->
  (forall entry, entry ∈ entries -> isIntersecting entry = true ->
                 rendered w (entry_target entry) = true) ->
  observerCallback entries w = [] /\ dispatch (observerCallback entries) w = w.
Proof.
  intros Hids Hseen.
  assert (Hnil : observerCallback entries w = []).
  { unfold observerCallback.
    destruct (_ || _); [ reflexivity | ]. destruct (suppressObserverRef w); [ reflexivity | ].
    destruct (mostVisibleChunk (chunks w) entries) as [chunk | ] eqn:Em; [ | reflexivity ].
    apply mostVisibleChunk_entry in Em as (entry & Hin & Hi & Hc).
    apply chunkOfEntry_Some in Hc as (_ & Hid).
    destruct (rendered_on_current_page w _ (Hseen entry Hin Hi)) as (c & Hon & Hcid).
    rewrite Hid, <- Hcid, (pageOfChunk_on_screen w c Hids Hon), Z.eqb_refl. reflexivity. }
  split; [ exact Hnil | ]. unfold dispatch. rewrite Hnil.
  rewrite run_quiet by constructor. reflexivity.
Qed.

End ObserverOnScreen.

Lemma observer_inert_on_rendered_chunks_witness :
  observerCallback
    [ {| entry_target := "b"; isIntersecting := true; intersectionRatio := (6 # 10)%Q |};
      {| entry_target := "d"; isIntersecting := true; intersectionRatio := (9 # 10)%Q |} ]
    sparse_document_at_rest = [].
Proof.
  refine (proj1 (observer_inert_on_rendered_chunks sparse_document_at_rest _ _ _)).
  - refine (bool_decide_unpack _ _). vm_compute. exact I.
  - intros entry Hin Hi.
    repeat (apply elem_of_cons in Hin as [-> | Hin]; [ vm_compute; reflexivity | ]).
    inversion Hin.
Defined.

(** ** The debounce of a page report *)

Lemma filter_comm {A} (f g : A -> bool) (l : list A) :
  List.filter f (List.filter g l) = List.filter g (List.filter f l).
Proof.
  induction l as [ | x l IH ]; [ reflexivity | ]. cbn.
  destruct (f x) eqn:Ef, (g x) eqn:Eg; cbn; rewrite ?Ef, ?Eg, IH; reflexivity.
Qed.

Lemma filter_negb_filter {A} (f : A -> bool) (l : list A) :
  List.filter f (List.filter (fun x => negb (f x)) l) = [].
Proof.
  induction l as [ | x l IH ]; [ reflexivity | ]. cbn.
  destruct (f x) eqn:Ef; cbn; rewrite ?Ef; exact IH.
Qed.

Lemma timers_after_observation_free c e q :
  observation_free e = true ->
  List.filter (fun t => isObserverPageChange t.2) (timers_after c e q)
  = List.filter (fun t : nat * Task => isObserverPageChange t.2) q.
Proof.
  destruct e; try discriminate; cbn; intros Hf; try reflexivity.
  rewrite List.filter_app. cbn. apply negb_true_iff in Hf. rewrite Hf. apply app_nil_r.
Qed.

Lemma observation_free_quiet e : observation_free e = true -> is_quiet e = true.
Proof. now destruct e. Qed.

Lemma fire_observation_free w t :
  isObserverPageChange t = false -> Forall (fun e => observation_free e = true) (fire w t).
Proof.
  destruct t as [ [f | ] | | f | m | m | p | win | win ]; try discriminate; intros _; cbn;
    unfold scrollToMatch;
    repeat match goal with
           | |- context [if ?b then _ else _] => destruct b
           end; cbn; repeat constructor.
Qed.

Section Debounce.
Context `{JsString}.

Lemma run_observation_free effects w :
  Forall (fun e => observation_free e = true) effects ->
  pdfCurrentPage (run effects w) = pdfCurrentPage w
  /\ pendingObservations (run effects w) = pendingObservations w
  /\ clock (run effects w) = clock w.
Proof.
  intros Hf.
  assert (Hq : Forall (fun e => is_quiet e = true) effects)
    by (eapply Forall_impl; [ exact Hf | apply observation_free_quiet ]).
  rewrite (run_quiet _ _ Hq). unfold pendingObservations.
  rewrite (perform_all_field _ _ perform_pdfCurrentPage), perform_all_timers,
    perform_all_clock.
  split; [ | split; [ | reflexivity ] ].
  - apply last_set_none. eapply Forall_impl; [ exact Hf | ]. now intros [].
  - clear Hq. generalize (timers w) as q. induction Hf as [ | e effects He _ IH ]; intros q.
    + reflexivity.
    + cbn [fold_left]. rewrite IH. now apply timers_after_observation_free.
Qed.

Lemma render_effects_report_free effects before after :
  Forall (fun e => report_free e = true) (render_effects effects before after).
Proof.
  unfold render_effects, maxPdfPageEffect, searchResetEffect, syncScrollEffect.
  repeat match goal with
         | |- context [if ?b then _ else _] => destruct b
         | |- context [match ?x with _ => _ end] => destruct x
         end; repeat constructor.
Qed.

Lemma perform_all_report_free effects w :
  Forall (fun e => report_free e = true) effects ->
  pendingObservations w = [] -> pendingObservations (perform_all effects w) = [].
Proof.
  intros Hf Hp. unfold pendingObservations in *. rewrite perform_all_timers.
  revert Hp. generalize (timers w) as q.
  induction Hf as [ | e effects He _ IH ]; intros q Hp; [ exact Hp | ].
  cbn [fold_left]. apply IH.
  destruct e; try discriminate; cbn; try exact Hp.
  - rewrite List.filter_app, Hp. cbn. apply negb_true_iff in He. now rewrite He.
  - apply filter_negb_filter.
Qed.

Lemma run_reported_page page w :
  pendingObservations w = [] ->
  pdfCurrentPage (run [OnPdfPageChange page] w) = page
  /\ pendingObservations (run [OnPdfPageChange page] w) = []
  /\ clock (run [OnPdfPageChange page] w) = clock w.
Proof.
  intros Hp. rewrite run_pdfCurrentPage. split; [ reflexivity | ].
  unfold run. rewrite !perform_all_clock. split; [ | reflexivity ].
  apply perform_all_report_free; [ apply render_effects_report_free | ].
  apply perform_all_report_free; [ repeat constructor | exact Hp ].
Qed.

Lemma fire_all_free ready w :
  Forall (fun t => isObserverPageChange t = false) ready ->
  pdfCurrentPage (fire_all ready w) = pdfCurrentPage w
  /\ pendingObservations (fire_all ready w) = pendingObservations w
  /\ clock (fire_all ready w) = clock w.
Proof.
  intros Hr. revert w. induction Hr as [ | t ready Ht _ IH ]; intros w; [ now cbn | ].
  cbn [fire_all fold_left]. fold (fire_all ready (run (fire w t) w)).
  destruct (run_observation_free _ w (fire_observation_free w t Ht)) as (Hp & Hq & Hc).
  destruct (IH (run (fire w t) w)) as (Hp' & Hq' & Hc').
  repeat split; congruence.
Qed.

Lemma fire_all_reports ready w seen :
  Forall (fun t => isObserverPageChange t = true -> t = ObserverPageChange seen) ready ->
  pendingObservations w = [] ->
  pdfCurrentPage (fire_all ready w)
  = (if existsb isObserverPageChange ready then seen else pdfCurrentPage w)
  /\ pendingObservations (fire_all ready w) = []
  /\ clock (fire_all ready w) = clock w.
Proof.
  intros Hr. revert w. induction Hr as [ | t ready Ht _ IH ]; intros w Hp; [ now cbn | ].
  cbn [fire_all fold_left existsb]. fold (fire_all ready (run (fire w t) w)).
  destruct (isObserverPageChange t) eqn:Eo.
  - rewrite (Ht eq_refl). cbn [fire orb].
    destruct (run_reported_page seen w Hp) as (Hp1 & Hq1 & Hc1).
    destruct (IH _ Hq1) as (Hp' & Hq' & Hc').
    rewrite Hp', Hq', Hc', Hp1, Hc1. destruct (existsb _ ready); auto.
  - destruct (run_observation_free _ w (fire_observation_free w t Eo)) as (Hp1 & Hq1 & Hc1).
    assert (Hq0 : pendingObservations (run (fire w t) w) = []) by (rewrite Hq1; exact Hp).
    destruct (IH (run (fire w t) w) Hq0) as (Hp' & Hq' & Hc').
    rewrite Hp', Hq', Hc', Hp1, Hc1. auto.
Qed.

Lemma tick_fields_page w :
  pdfCurrentPage (with_timers (List.filter (fun t => (S (clock w) <? t.1)%nat) (timers w))
                              (with_clock (S (clock w)) w)) = pdfCurrentPage w
  /\ pendingObservations
       (with_timers (List.filter (fun t => (S (clock w) <? t.1)%nat) (timers w))
                    (with_clock (S (clock w)) w))
     = List.filter (fun t => (S (clock w) <? t.1)%nat) (pendingObservations w)
  /\ clock (with_timers (List.filter (fun t => (S (clock w) <? t.1)%nat) (timers w))
                        (with_clock (S (clock w)) w)) = S (clock w).
Proof.
  destruct w. unfold pendingObservations. cbn.
  split; [ reflexivity | ]. split; [ apply filter_comm | reflexivity ].
Qed.

Lemma ready_report w x :
  x ∈ List.filter (fun t => (t.1 <? S (clock w))%nat) (timers w)
      ++ List.filter (fun t => (t.1 =? S (clock w))%nat) (timers w) ->
  isObserverPageChange x.2 = true ->
  x ∈ pendingObservations w /\ (x.1 <= S (clock w))%nat.
Proof.
  intros Hx Ho. unfold pendingObservations.
  apply elem_of_app in Hx as [Hx | Hx]; apply list_elem_of_In, filter_In in Hx as [Hin Hd];
    (split; [ apply list_elem_of_In, filter_In; now split | ]).
  - apply Nat.ltb_lt in Hd. lia.
  - apply Nat.eqb_eq in Hd. lia.
Qed.

Lemma debouncing_tick c0 shown seen w :
  debouncing c0 shown seen w -> debouncing c0 shown seen (tick w).
Proof.
  intros [Hearly Hlate]. unfold tick.
  destruct (tick_fields_page w) as (Hp0 & Hq0 & Hc0).
  set (w0 := with_timers _ (with_clock (S (clock w)) w)) in *.
  set (ready := List.filter (fun t => (t.1 <? S (clock w))%nat) (timers w)
                ++ List.filter (fun t => (t.1 =? S (clock w))%nat) (timers w)).
  destruct (Nat.lt_ge_cases (clock w) (c0 + 100)%nat) as [Hlt | Hge].
  - destruct (Hearly Hlt) as (Hpage & Hpending). rewrite Hpending in Hq0. cbn [List.filter fst] in Hq0.
    destruct (Nat.eq_dec (S (clock w)) (c0 + 100)%nat) as [Hdue | Hnot].
    + (* the debounce is over: the report runs *)
      replace (S (clock w) <? c0 + 100)%nat with false in Hq0
        by (symmetry; apply Nat.ltb_ge; lia).
      assert (Hr : Forall (fun t => isObserverPageChange t = true ->
                                    t = ObserverPageChange seen) ready.*2).
      { apply Forall_fmap, Forall_forall. intros x Hx Ho. cbn in Ho |- *.
        destruct (ready_report w x Hx Ho) as [Hin _]. rewrite Hpending in Hin.
        apply list_elem_of_singleton in Hin. now subst x. }
      assert (Hex : existsb isObserverPageChange ready.*2 = true).
      { apply existsb_exists. exists (ObserverPageChange seen). split; [ | reflexivity ].
        apply list_elem_of_In, list_elem_of_fmap.
        exists ((c0 + 100)%nat, ObserverPageChange seen). split; [ reflexivity | ].
        apply elem_of_app. right. apply list_elem_of_In, filter_In. split.
        - assert (Hin : ((c0 + 100)%nat, ObserverPageChange seen) ∈ pendingObservations w)
            by (rewrite Hpending; now apply list_elem_of_singleton).
          unfold pendingObservations in Hin.
          apply list_elem_of_In, filter_In in Hin as [Hin _]. exact Hin.
        - cbn [fst]. apply Nat.eqb_eq. lia. }
      destruct (fire_all_reports _ w0 seen Hr Hq0) as (Hp & Hq & Hc).
      rewrite Hex in Hp. split; intros Hk; rewrite Hc, Hc0 in Hk; [ lia | auto ].
    + replace (S (clock w) <? c0 + 100)%nat with true in Hq0
        by (symmetry; apply Nat.ltb_lt; lia).
      assert (Hr : Forall (fun t => isObserverPageChange t = false) ready.*2).
      { apply Forall_fmap, Forall_forall. intros x Hx. cbn.
        destruct (isObserverPageChange x.2) eqn:Eo; [ exfalso | reflexivity ].
        destruct (ready_report w x Hx Eo) as [Hin Hd]. rewrite Hpending in Hin.
        apply list_elem_of_singleton in Hin. subst x. cbn in Hd. lia. }
      destruct (fire_all_free _ w0 Hr) as (Hp & Hq & Hc).
      split; intros Hk; rewrite Hc, Hc0 in Hk; [ | lia ].
      rewrite Hp, Hq, Hp0, Hq0. auto.
  - destruct (Hlate Hge) as (Hpage & Hpending). rewrite Hpending in Hq0. cbn [List.filter fst] in Hq0.
    assert (Hr : Forall (fun t => isObserverPageChange t = false) ready.*2).
    { apply Forall_fmap, Forall_forall. intros x Hx. cbn.
      destruct (isObserverPageChange x.2) eqn:Eo; [ exfalso | reflexivity ].
      destruct (ready_report w x Hx Eo) as [Hin _]. rewrite Hpending in Hin. inversion Hin. }
    destruct (fire_all_free _ w0 Hr) as (Hp & Hq & Hc).
    split; intros Hk; rewrite Hc, Hc0 in Hk; [ lia | ].
    rewrite Hp, Hq, Hp0, Hq0. auto.
Qed.

Lemma debouncing_advance c0 shown seen ms w :
  debouncing c0 shown seen w -> debouncing c0 shown seen (advance ms w).
Proof.
  intros H0. induction ms as [ | ms IH ]; [ exact H0 | ].
  change (advance (S ms) w) with (tick (advance ms w)). now apply debouncing_tick.
Qed.

(** X11.  An observation that resolves to another page than the one on
    the screen, made while the observer is not suppressed, changes no page
    at once.  It leaves exactly one page report pending, its own, due 100
    ms later: a report that was pending before is dropped, so of two
    observations less than 100 ms apart only the later one is reported.
    While only timers run, the page on the screen stays for the next 99
    ms and is the observed page from 100 ms on. *)
Theorem observation_debounced (w : Runtime) (entries : list Entry) (chunk : PDFChunk)
    (actualPage : Z) :
  suppressObserverRef w = false -> pdfViewerMode w = text -> chunks w <> [] ->
  mostVisibleChunk (chunks w) entries = Some chunk ->
  pageOfChunk (grouped w) (chunk_id chunk) = Some actualPage ->
  actualPage <> pdfCurrentPage w ->
  let w1 := dispatch (observerCallback entries) w in
  pdfCurrentPage w1 = pdfCurrentPage w
  /\ pendingObservations w1 = [((clock w + 100)%nat, ObserverPageChange actualPage)]
  /\ (forall ms, (ms < 100)%nat -> pdfCurrentPage (advance ms w1) = pdfCurrentPage w)
  /\ (forall ms, (100 <= ms)%nat -> pdfCurrentPage (advance ms w1) = actualPage).
Proof.
  intros Hs Hmode Hchunks Hmost Hpage Hne w1.
  assert (Heff : observerCallback entries w
                 = [DebounceTimeout (ObserverPageChange actualPage) 100]).
  { unfold observerCallback. rewrite Hs, Hmode, Hmost, Hpage.
    destruct (chunks w) as [ | c l ]; [ contradiction | ]. cbn.
    replace (actualPage =? pdfCurrentPage w) with false; [ reflexivity | ].
    symmetry. now apply Z.eqb_neq. }
  assert (Hw1 : w1 = perform_all [DebounceTimeout (ObserverPageChange actualPage) 100] w).
  { unfold w1, dispatch. rewrite Heff. apply run_quiet. repeat constructor. }
  assert (Hp1 : pdfCurrentPage w1 = pdfCurrentPage w)
    by (rewrite Hw1, (perform_all_field _ _ perform_pdfCurrentPage); reflexivity).
  assert (Hc1 : clock w1 = clock w) by (rewrite Hw1; apply perform_all_clock).
  assert (Hq1 : pendingObservations w1
                = [((clock w + 100)%nat, ObserverPageChange actualPage)]).
  { rewrite Hw1. unfold pendingObservations. rewrite perform_all_timers. cbn.
    rewrite List.filter_app, filter_negb_filter. reflexivity. }
  assert (Hd : debouncing (clock w) (pdfCurrentPage w) actualPage w1).
  { split; intros Hk; rewrite Hc1 in Hk; [ auto | lia ]. }
  split; [ exact Hp1 | ]. split; [ exact Hq1 | ].
  split; intros ms Hms;
    destruct (debouncing_advance _ _ _ ms _ Hd) as [Hearly Hlate];
    rewrite advance_clock, Hc1 in Hearly, Hlate.
  - now apply Hearly; lia.
  - now apply Hlate; lia.
Qed.

End Debounce.

Lemma observation_debounced_witness :
  pdfCurrentPage shared_id_document = 2
  /\ pdfCurrentPage (advance 99 (dispatch (observerCallback shared_id_entries)
                                          shared_id_document)) = 2
  /\ pdfCurrentPage (advance 100 (dispatch (observerCallback shared_id_entries)
                                           shared_id_document)) = 1.
Proof.
  split; [ reflexivity | ].
  destruct (observation_debounced shared_id_document shared_id_entries (paged_chunk "a" 1) 1
              eq_refl eq_refl ltac:(vm_compute; discriminate)
              ltac:(vm_compute; reflexivity) ltac:(vm_compute; reflexivity)
              ltac:(vm_compute; discriminate)) as (_ & _ & Hearly & Hlate).
  split; [ exact (Hearly 99%nat ltac:(lia)) | exact (Hlate 100%nat ltac:(lia)) ].
Defined.

(** ** The page while a document loads *)



Section Loading.
Context `{JsString}.











End Loading.



(** ** The highlight keywords of a reference click *)

Lemma split_pieces sep s :
  Forall (Forall (fun c => sep c = false /\ c ∈ s)) (Utf16.split sep s).
Proof.
  induction s as [ | c s IH ]; cbn; [ repeat constructor | ].
  assert (IH' : Forall (Forall (fun d => sep d = false /\ d ∈ c :: s)) (Utf16.split sep s)).
  { eapply Forall_impl; [ exact IH | ]. intros piece Hp.
    eapply Forall_impl; [ exact Hp | ]. intros d [Hd Hin].
    split; [ exact Hd | apply elem_of_cons; now right ]. }
  destruct (sep c) eqn:Ec.
  - constructor; [ constructor | exact IH' ].
  - destruct (Utf16.split sep s) as [ | piece pieces ].
    + repeat constructor. exact Ec.
    + apply Forall_cons in IH' as [Hp Hps]. constructor; [ | exact Hps ].
      constructor; [ | exact Hp ]. split; [ exact Ec | apply elem_of_cons; now left ].
Qed.

Lemma splitRuns_pieces sep s :
  Forall (Forall (fun c => sep c = false /\ c ∈ s)) (Utf16.splitRuns sep s).
Proof.
  induction s as [ | c s IH ]; [ repeat constructor | ].
  assert (IH' : Forall (Forall (fun d => sep d = false /\ d ∈ c :: s))
                  (Utf16.splitRuns sep s)).
  { eapply Forall_impl; [ exact IH | ]. intros piece Hp.
    eapply Forall_impl; [ exact Hp | ]. intros d [Hd Hin].
    split; [ exact Hd | apply elem_of_cons; now right ]. }
  cbn [Utf16.splitRuns]. destruct (sep c) eqn:Ec.
  - destruct s as [ | c' s' ]; [ repeat constructor | ].
    destruct (sep c'); [ exact IH' | constructor; [ constructor | exact IH' ] ].
  - destruct (Utf16.splitRuns sep s) as [ | piece pieces ].
    + repeat constructor. exact Ec.
    + apply Forall_cons in IH' as [Hp Hps]. constructor; [ | exact Hps ].
      constructor; [ | exact Hp ]. split; [ exact Ec | apply elem_of_cons; now left ].
Qed.

Lemma stripParticle_prefix word :
  exists n, ReferenceKeywords.stripParticle word = take n word.
Proof.
  unfold ReferenceKeywords.stripParticle. destruct (List.find _ _) as [particle | ].
  - eauto.
  - exists (length word). now rewrite take_ge.
Qed.

Lemma newSet_spec seen l :
  NoDup (ReferenceKeywords.newSet seen l)
  /\ forall x, x ∈ ReferenceKeywords.newSet seen l <-> x ∈ l /\ x ∉ seen.
Proof.
  revert seen. induction l as [ | y l IH ]; intros seen; cbn.
  - split; [ constructor | ]. intros x. split; [ intros Hin; inversion Hin | ].
    intros [Hin _]. inversion Hin.
  - destruct (bool_decide_reflect (y ∈ seen)) as [Hy | Hy].
    + destruct (IH seen) as [Hnd Hx]. split; [ exact Hnd | ].
      intros x. rewrite Hx, elem_of_cons. split; [ tauto | ].
      intros [[-> | Hin] Hn]; [ contradiction | tauto ].
    + destruct (IH (y :: seen)) as [Hnd Hx]. split.
      * constructor; [ | exact Hnd ]. rewrite Hx, elem_of_cons. tauto.
      * intros x. rewrite !elem_of_cons, Hx, elem_of_cons.
        destruct (decide (x = y)) as [-> | Hne]; tauto.
Qed.

Lemma validKeyword_length k :
  ReferenceKeywords.validKeyword k = true -> (3 <= length (Utf16.trim k) <= 20)%nat.
Proof.
  unfold ReferenceKeywords.validKeyword.
  intros [[_ H3%Nat.leb_le]%andb_true_iff H20%Nat.leb_le]%andb_true_iff. lia.
Qed.

Lemma withoutPunctuation_chars q c :
  c ∈ ReferenceKeywords.withoutPunctuation q -> Utf16.isWhiteSpace c = false ->
  Utf16.isWordChar c || Utf16.isHangul c = true.
Proof.
  unfold ReferenceKeywords.withoutPunctuation.
  intros (d & -> & _)%list_elem_of_fmap.
  destruct (Utf16.isWordChar d || Utf16.isHangul d || Utf16.isWhiteSpace d) eqn:E.
  - intros Hw. rewrite Hw, orb_false_r in E. exact E.
  - discriminate.
Qed.

(** X12.  The keywords a reference click hands to the PDF viewer: at
    most three, pairwise distinct, each between 3 and 20 code units long
    after trimming.  Each is one of the first two keywords of the chunk
    that pass that length test, or one of at most two words of the
    question; a word of the question has at least 3 code units and
    consists of letters, digits, underscores and Hangul syllables only,
    whatever punctuation the question contains. *)
Theorem reference_keywords (keywords : list (list Z)) (questionContent : list Z) :
  let ks := ReferenceKeywords.uniqueKeywords keywords questionContent in
  (length ks <= 3)%nat
  /\ NoDup ks
  /\ Forall (fun k => (3 <= length (Utf16.trim k) <= 20)%nat) ks
  /\ (forall k, k ∈ ks ->
        k ∈ take 2 (List.filter ReferenceKeywords.validKeyword keywords)
        \/ k ∈ ReferenceKeywords.questionWords questionContent)
  /\ (length (ReferenceKeywords.questionWords questionContent) <= 2)%nat
  /\ Forall (fun w => (3 <= length w)%nat
                      /\ Forall (fun c => Utf16.isWordChar c || Utf16.isHangul c = true) w)
            (ReferenceKeywords.questionWords questionContent).
Proof.
  intros ks. subst ks. unfold ReferenceKeywords.uniqueKeywords.
  set (pushed := ReferenceKeywords.highlightKeywords keywords questionContent).
  destruct (newSet_spec [] pushed) as [Hnd Hin].
  split; [ rewrite length_take; lia | ].
  split; [ eapply sublist_NoDup; [ | apply sublist_take ];
           now apply NoDup_ListNoDup, List.NoDup_filter, NoDup_ListNoDup | ].
  split.
  { apply Forall_take, Forall_forall. intros k Hk.
    apply list_elem_of_In, filter_In in Hk as [_ Hv]. now apply validKeyword_length. }
  split.
  { intros k Hk. apply subseteq_take in Hk.
    apply list_elem_of_In, filter_In in Hk as [Hk _]. apply list_elem_of_In, Hin in Hk as [Hk _].
    unfold pushed, ReferenceKeywords.highlightKeywords in Hk.
    apply elem_of_app in Hk as [Hk | Hk]; [ now left | right ].
    destruct questionContent; [ inversion Hk | exact Hk ]. }
  unfold ReferenceKeywords.questionWords.
  split; [ rewrite length_take; lia | ].
  apply Forall_take, Forall_forall. intros w Hw.
  apply list_elem_of_In, filter_In in Hw as [Hw Hlen]. apply Nat.leb_le in Hlen.
  split; [ exact Hlen | ].
  apply in_map_iff in Hw as (piece & <- & Hp). apply filter_In in Hp as [Hp _].
  pose proof (splitRuns_pieces Utf16.isWhiteSpace
                (ReferenceKeywords.withoutPunctuation questionContent)) as Hpieces.
  rewrite Forall_forall in Hpieces. specialize (Hpieces piece (proj2 (list_elem_of_In _ _) Hp)).
  destruct (stripParticle_prefix piece) as [n ->]. apply Forall_take.
  eapply Forall_impl; [ exact Hpieces | ]. intros c [Hc Hcin].
  now apply (withoutPunctuation_chars questionContent).
Qed.

Lemma reference_keywords_witness :
  ReferenceKeywords.uniqueKeywords
    [Utf16.ascii "smoking"; Utf16.ascii "no"; Utf16.ascii "smoking"; Utf16.ascii "areas"]
    (Utf16.ascii "Is smoking allowed, indoors?")
  = [Utf16.ascii "smoking"; Utf16.ascii "allowed"].
Proof.
  pose proof (reference_keywords
                [Utf16.ascii "smoking"; Utf16.ascii "no"; Utf16.ascii "smoking";
                 Utf16.ascii "areas"]
                (Utf16.ascii "Is smoking allowed, indoors?")) as (Hlen & _).
  vm_compute in Hlen |- *. reflexivity.
Defined.

Lemma stopWords_short :
  Forall (fun stopWord => (length stopWord <= 2)%nat) ReferenceKeywords.stopWords.
Proof. unfold ReferenceKeywords.stopWords. repeat constructor. Qed.

Lemma longEnough_length w :
  ReferenceKeywords.longEnough w = (3 <=? length (Utf16.trim w))%nat.
Proof.
  unfold ReferenceKeywords.longEnough. cbv zeta.
  destruct (3 <=? length (Utf16.trim w))%nat eqn:E; [ | reflexivity ]. cbn.
  apply Nat.leb_le in E. rewrite bool_decide_eq_false_2; [ reflexivity | ].
  intros Hin. pose proof stopWords_short as Hs. rewrite Forall_forall in Hs.
  specialize (Hs _ Hin). cbn in Hs. lia.
Qed.

Lemma filter_ext_all {A} (f g : A -> bool) (l : list A) :
  (forall x, f x = g x) -> List.filter f l = List.filter g l.
Proof. intros Hfg. apply List.filter_ext. exact Hfg. Qed.

(** X13.  Two entries of the keyword extraction never take effect.
    The stop-word list removes no word of the question: a word is looked
    up in it only when it has at least 3 code units, and no stop word is
    longer than 2.  And a word that ends in the syllable 로 loses exactly
    that syllable, also when it ends in 으로: the particle 으로 stands
    behind 로 in the list and is never the one cut off. *)
Theorem keyword_filters_without_effect (questionContent word : list Z) :
  ReferenceKeywords.questionWords questionContent
  = take 2
      (List.filter (fun w => (3 <=? length w)%nat)
         (map ReferenceKeywords.stripParticle
            (List.filter (fun w => (3 <=? length (Utf16.trim w))%nat)
               (Utf16.splitRuns Utf16.isWhiteSpace
                  (ReferenceKeywords.withoutPunctuation questionContent)))))
  /\ (word <> [] ->
      ReferenceKeywords.stripParticle (word ++ [0xB85C]) = word
      /\ ReferenceKeywords.stripParticle (word ++ [0xC73C; 0xB85C]) = word ++ [0xC73C]).
Proof.
  split.
  - unfold ReferenceKeywords.questionWords. do 3 f_equal.
    apply filter_ext_all, longEnough_length.
  - intros Hne.
    assert (Hstrip : forall stem, stem <> [] ->
              ReferenceKeywords.stripParticle (stem ++ [0xB85C]) = stem).
    { intros stem Hs. unfold ReferenceKeywords.stripParticle, Utf16.endsWith.
      rewrite reverse_snoc, length_app. cbn [length].
      destruct (reverse stem) as [ | d r ] eqn:Er.
      { exfalso. apply Hs. rewrite <- (reverse_involutive stem), Er. reflexivity. }
      assert (Hlen : length stem = S (length r))
        by (rewrite <- (length_reverse stem), Er; reflexivity).
      rewrite Hlen, Nat.add_1_r. cbn -[take Nat.sub].
      apply take_app_length'. cbn. lia. }
    split; [ now apply Hstrip | ].
    change (word ++ [0xC73C; 0xB85C]) with (word ++ [0xC73C] ++ [0xB85C]).
    rewrite (assoc_L (++)). apply Hstrip. now destruct word.
Qed.

Lemma keyword_filters_without_effect_witness :
  ReferenceKeywords.stripParticle [0xD559; 0xAD50; 0xC73C; 0xB85C] = [0xD559; 0xAD50; 0xC73C].
Proof.
  destruct (keyword_filters_without_effect [] [0xD559; 0xAD50]) as [_ Hro].
  exact (proj2 (Hro ltac:(discriminate))).
Defined.

Lemma trimStart_suffix s : exists ws, s = ws ++ Utf16.trimStart s.
Proof.
  induction s as [ | c s [ws IH] ]; [ now exists [] | ]. cbn.
  destruct (Utf16.isWhiteSpace c); [ exists (c :: ws); cbn; now f_equal | now exists [] ].
Qed.

Lemma trim_infix s : exists before after, s = before ++ Utf16.trim s ++ after.
Proof.
  unfold Utf16.trim. destruct (trimStart_suffix s) as [ws1 H1].
  destruct (trimStart_suffix (reverse (Utf16.trimStart s))) as [ws2 H2].
  exists ws1, (reverse ws2).
  rewrite <- reverse_app, <- H2, reverse_involutive. exact H1.
Qed.

Lemma Forall_trim (P : Z -> Prop) s : Forall P s -> Forall P (Utf16.trim s).
Proof.
  destruct (trim_infix s) as (before & after & Hs). intros Hall.
  rewrite Hs in Hall. apply Forall_app in Hall as [_ Hall].
  now apply Forall_app in Hall as [Hall _].
Qed.

Lemma first_long_sentence (sentences : list (list Z)) :
  match List.filter (fun s => (10 <=? length (Utf16.trim s))%nat) sentences with
  | [] => Forall (fun s => (length (Utf16.trim s) < 10)%nat) sentences
  | sentence :: _ =>
      (10 <= length (Utf16.trim sentence))%nat
      /\ exists earlier later,
           sentences = earlier ++ sentence :: later
           /\ Forall (fun s => (length (Utf16.trim s) < 10)%nat) earlier
  end.
Proof.
  induction sentences as [ | s sentences IH ]; [ constructor | ].
  cbn [List.filter]. destruct (10 <=? length (Utf16.trim s))%nat eqn:E10.
  - apply Nat.leb_le in E10. split; [ exact E10 | ].
    exists [], sentences. split; [ reflexivity | constructor ].
  - apply Nat.leb_gt in E10. destruct (List.filter _ sentences) as [ | sentence found ].
    + now constructor.
    + destruct IH as (Hlen & earlier & later & -> & He). split; [ exact Hlen | ].
      exists (s :: earlier), later. split; [ reflexivity | now constructor ].
Qed.

(** X14.  The search text a reference click hands to the PDF viewer is
    never longer than 30 code units.  When the chunk has a sentence (a
    piece between full stops, question or exclamation marks and line
    feeds) of at least 10 code units after trimming, the search text is
    the first such sentence, trimmed and cut to 30: it has between 10 and
    30 code units and contains no sentence end.  Otherwise it is the
    first 30 code units of the chunk, and there is none for an empty
    chunk. *)
Theorem reference_search_text (chunkContent : list Z) :
  let sentences := Utf16.split ReferenceKeywords.sentenceEnd chunkContent in
  match ReferenceKeywords.searchText chunkContent with
  | Some s => (length s <= 30)%nat /\ chunkContent <> []
  | None => chunkContent = []
  end
  /\ match ReferenceKeywords.coreSearchText chunkContent with
     | Some core =>
         ReferenceKeywords.searchText chunkContent = Some core
         /\ (10 <= length core <= 30)%nat
         /\ Forall (fun c => ReferenceKeywords.sentenceEnd c = false) core
         /\ exists earlier sentence later,
              sentences = earlier ++ sentence :: later
              /\ Forall (fun s => (length (Utf16.trim s) < 10)%nat) earlier
              /\ core = take 30 (Utf16.trim sentence)
     | None =>
         (chunkContent <> [] ->
          Forall (fun s => (length (Utf16.trim s) < 10)%nat) sentences
          /\ ReferenceKeywords.searchText chunkContent = Some (take 30 chunkContent))
     end.
Proof.
  intros sentences.
  destruct chunkContent as [ | c0 rest ].
  { cbn. split; [ reflexivity | ]. intros Hne. contradiction. }
  set (chunkContent := c0 :: rest) in *.
  assert (Hne : chunkContent <> []) by discriminate.
  pose proof (split_pieces ReferenceKeywords.sentenceEnd chunkContent) as Hpieces.
  pose proof (first_long_sentence sentences) as Hfirst.
  fold sentences in Hpieces.
  assert (Hcore : ReferenceKeywords.coreSearchText chunkContent
                  = match List.filter (fun s => (10 <=? length (Utf16.trim s))%nat)
                                      sentences with
                    | [] => None
                    | sentence :: _ =>
                        if (10 <=? length (take 30 (Utf16.trim sentence)))%nat
                        then Some (take 30 (Utf16.trim sentence)) else None
                    end) by reflexivity.
  assert (Hfallback : forall o,
            match o with Some (c :: core) => Some (c :: core)
                    | _ => match chunkContent with
                           | [] => None
                           | _ :: _ => Some (take 30 chunkContent)
                           end
            end
            = match o with Some (c :: core) => Some (c :: core)
                      | _ => Some (take 30 chunkContent) end) by reflexivity.
  clearbody chunkContent sentences.
  unfold ReferenceKeywords.searchText. rewrite Hfallback, Hcore.
  destruct (List.filter _ sentences) as [ | sentence found ].
  - split; [ split; [ rewrite length_take; lia | exact Hne ] | ].
    intros _. split; [ exact Hfirst | reflexivity ].
  - destruct Hfirst as (Hlong & earlier & later & Hsplit & Hearlier).
    assert (Hlen : (10 <= length (take 30 (Utf16.trim sentence)) <= 30)%nat)
      by (rewrite length_take; lia).
    replace (10 <=? length (take 30 (Utf16.trim sentence)))%nat with true
      by (symmetry; apply Nat.leb_le; lia).
    destruct (take 30 (Utf16.trim sentence)) as [ | c core ] eqn:Ecore;
      [ cbn in Hlen; lia | ].
    split; [ split; [ lia | exact Hne ] | ].
    split; [ reflexivity | ]. split; [ exact Hlen | ]. split.
    + rewrite <- Ecore. apply Forall_take, Forall_trim.
      rewrite Hsplit in Hpieces. apply Forall_app in Hpieces as [_ Hpieces].
      apply Forall_cons in Hpieces as [Hs _].
      eapply Forall_impl; [ exact Hs | ]. now intros d [Hd _].
    + exists earlier, sentence, later. auto.
Qed.

Lemma reference_search_text_witness :
  ReferenceKeywords.searchText
    (Utf16.ascii "Notice. Smoking is not allowed in the building or near it!")
  = Some (Utf16.ascii "Smoking is not allowed in the ").
Proof.
  pose proof (reference_search_text
                (Utf16.ascii "Notice. Smoking is not allowed in the building or near it!"))
    as [_ Hcore].
  destruct (ReferenceKeywords.coreSearchText _) as [core | ] eqn:E.
  - destruct Hcore as (-> & _). vm_compute in E. injection E as <-. reflexivity.
  - vm_compute in E. discriminate.
Defined.

(** ** The whitespace normaliser keeps the text *)

Lemma ink_app s t : Normalizer.ink (s ++ t) = Normalizer.ink s ++ Normalizer.ink t.
Proof. apply List.filter_app. Qed.

Lemma ink_reverse s : Normalizer.ink (reverse s) = reverse (Normalizer.ink s).
Proof.
  induction s as [ | c s IH ]; [ reflexivity | ].
  rewrite reverse_cons, ink_app, IH. unfold Normalizer.ink. cbn [List.filter].
  destruct (negb (Utf16.isWhiteSpace c)); [ now rewrite reverse_cons | now rewrite app_nil_r ].
Qed.

Lemma ink_trimStart s : Normalizer.ink (Utf16.trimStart s) = Normalizer.ink s.
Proof.
  induction s as [ | c s IH ]; [ reflexivity | ]. cbn.
  destruct (Utf16.isWhiteSpace c) eqn:E; cbn; [ exact IH | now rewrite E ].
Qed.

Lemma ink_trim s : Normalizer.ink (Utf16.trim s) = Normalizer.ink s.
Proof.
  unfold Utf16.trim.
  now rewrite ink_reverse, ink_trimStart, ink_reverse, reverse_involutive, ink_trimStart.
Qed.

Lemma isBlank_isWhiteSpace c : Normalizer.isBlank c = true -> Utf16.isWhiteSpace c = true.
Proof.
  unfold Normalizer.isBlank. intros [->%Z.eqb_eq | ->%Z.eqb_eq]%orb_true_iff; reflexivity.
Qed.

Lemma ink_collapseBlanks s : Normalizer.ink (Normalizer.collapseBlanks s) = Normalizer.ink s.
Proof.
  induction s as [ | c s IH ]; [ reflexivity | ].
  cbn [Normalizer.collapseBlanks]. destruct (Normalizer.isBlank c) eqn:Ec.
  - apply isBlank_isWhiteSpace in Ec.
    assert (Hc : Normalizer.ink (c :: s) = Normalizer.ink s) by (cbn; now rewrite Ec).
    rewrite Hc. destruct s as [ | c' s' ]; [ reflexivity | ].
    destruct (Normalizer.isBlank c'); [ exact IH | ]. cbn [Normalizer.ink List.filter].
    exact IH.
  - cbn. destruct (negb (Utf16.isWhiteSpace c)); [ f_equal | ]; exact IH.
Qed.

Lemma ink_split text :
  concat (map Normalizer.ink (Utf16.split Normalizer.isLineFeed text)) = Normalizer.ink text.
Proof.
  induction text as [ | c text IH ]; [ reflexivity | ]. cbn [Utf16.split].
  change (c :: text) with ([c] ++ text). rewrite ink_app, <- IH.
  unfold Normalizer.isLineFeed at 1.
  destruct (Z.eqb_spec c 0x0A) as [-> | Hne]; [ reflexivity | ].
  destruct (Utf16.split _ text) as [ | piece pieces ].
  - cbn [map concat]. now rewrite !app_nil_r.
  - cbn [map concat]. change (c :: piece) with ([c] ++ piece).
    now rewrite ink_app, <- (assoc_L (++)).
Qed.

Lemma ink_join pieces :
  Normalizer.ink (Normalizer.join pieces) = concat (map Normalizer.ink pieces).
Proof.
  induction pieces as [ | piece pieces IH ]; [ reflexivity | ].
  destruct pieces as [ | piece' pieces' ].
  - cbn. now rewrite app_nil_r.
  - change (Normalizer.join (piece :: piece' :: pieces'))
      with (piece ++ 0x0A :: Normalizer.join (piece' :: pieces')).
    rewrite ink_app. cbn [map concat]. f_equal.
    change (Normalizer.ink (0x0A :: Normalizer.join (piece' :: pieces')))
      with (Normalizer.ink (Normalizer.join (piece' :: pieces'))).
    exact IH.
Qed.

Lemma ink_flush cur : concat (map Normalizer.ink (Normalizer.flush cur)) = Normalizer.ink cur.
Proof.
  destruct cur as [ | c cur ]; [ reflexivity | ].
  cbn [Normalizer.flush map concat]. now rewrite app_nil_r, ink_trim.
Qed.

Lemma ink_extend cur line :
  Normalizer.ink (Normalizer.extend cur line) = Normalizer.ink cur ++ Normalizer.ink line.
Proof.
  unfold Normalizer.extend. rewrite !ink_app. destruct cur; reflexivity.
Qed.

Lemma ink_paragraphs cur lines :
  concat (map Normalizer.ink (Normalizer.paragraphs cur lines))
  = Normalizer.ink cur ++ concat (map Normalizer.ink lines).
Proof.
  revert cur. induction lines as [ | line rest IH ]; intros cur.
  - cbn [Normalizer.paragraphs map concat]. now rewrite app_nil_r, ink_flush.
  - cbn [Normalizer.paragraphs]. destruct line as [ | c line ].
    + rewrite map_app, concat_app, ink_flush. cbn [map concat Normalizer.ink List.filter app].
      now rewrite IH.
    + set (full := c :: line). destruct (Normalizer.isNewItem full).
      * rewrite map_app, concat_app, ink_flush. cbn [map concat]. now rewrite IH.
      * cbv zeta. destruct (match rest with [] => true | _ => _ end).
        -- cbn [map concat]. now rewrite IH, ink_trim, ink_extend, <- (assoc_L (++)).
        -- now rewrite IH, ink_extend, <- (assoc_L (++)).
Qed.

Lemma no_tab_trimStart s : Forall (fun c => c <> 0x09) s -> Forall (fun c => c <> 0x09) (Utf16.trimStart s).
Proof.
  induction 1 as [ | c s Hc Hs IH ]; [ constructor | ]. cbn.
  destruct (Utf16.isWhiteSpace c); [ exact IH | now constructor ].
Qed.

Lemma no_tab_collapseBlanks s : Forall (fun c => c <> 0x09) (Normalizer.collapseBlanks s).
Proof.
  induction s as [ | c s IH ]; [ constructor | ].
  cbn [Normalizer.collapseBlanks]. destruct (Normalizer.isBlank c) eqn:Ec.
  - destruct s as [ | c' s' ]; [ repeat constructor; discriminate | ].
    destruct (Normalizer.isBlank c'); [ exact IH | ]. constructor; [ discriminate | exact IH ].
  - constructor; [ | exact IH ]. intros ->. discriminate.
Qed.

Lemma no_tab_paragraphs cur lines :
  Forall (fun c => c <> 0x09) cur -> Forall (Forall (fun c => c <> 0x09)) lines ->
  Forall (Forall (fun c => c <> 0x09)) (Normalizer.paragraphs cur lines).
Proof.
  intros Hcur Hlines. revert cur Hcur.
  assert (Hflush : forall cur, Forall (fun c => c <> 0x09) cur ->
            Forall (Forall (fun c => c <> 0x09)) (Normalizer.flush cur)).
  { intros [ | c cur ] Hc; [ constructor | ].
    cbn [Normalizer.flush]. constructor; [ now apply Forall_trim | constructor ]. }
  assert (Hextend : forall cur line, Forall (fun c => c <> 0x09) cur ->
            Forall (fun c => c <> 0x09) line ->
            Forall (fun c => c <> 0x09) (Normalizer.extend cur line)).
  { intros cur line Hc Hl. unfold Normalizer.extend.
    apply Forall_app. split; [ exact Hc | ]. apply Forall_app. split; [ | exact Hl ].
    destruct cur; repeat constructor; discriminate. }
  induction Hlines as [ | line rest Hline Hrest IH ]; intros cur Hcur.
  - now apply Hflush.
  - cbn [Normalizer.paragraphs]. destruct line as [ | c line ].
    + apply Forall_app. split; [ now apply Hflush | ].
      constructor; [ constructor | apply IH; constructor ].
    + set (full := c :: line) in *. destruct (Normalizer.isNewItem full).
      * apply Forall_app. split; [ now apply Hflush | ].
        constructor; [ exact Hline | apply IH; constructor ].
      * cbv zeta. destruct (match rest with [] => true | _ => _ end).
        -- constructor; [ apply Forall_trim; now apply Hextend | apply IH; constructor ].
        -- apply IH. now apply Hextend.
Qed.

Lemma no_tab_join pieces :
  Forall (Forall (fun c => c <> 0x09)) pieces -> Forall (fun c => c <> 0x09) (Normalizer.join pieces).
Proof.
  induction 1 as [ | piece pieces Hp Hps IH ]; [ constructor | ].
  destruct pieces as [ | piece' pieces' ]; [ exact Hp | ].
  change (Normalizer.join (piece :: piece' :: pieces'))
    with (piece ++ 0x0A :: Normalizer.join (piece' :: pieces')).
  apply Forall_app. split; [ exact Hp | ]. constructor; [ discriminate | exact IH ].
Qed.

(** X15.  The whitespace normaliser changes whitespace only: the
    characters of its result that are no whitespace are those of the
    text, in the same order, none dropped, none added, whatever lines it
    joins or keeps apart.  The result contains no tab.  The empty text
    stays empty. *)
Theorem normalizeWhitespace_keeps_text (text : list Z) :
  Normalizer.ink (Normalizer.normalizeWhitespace text) = Normalizer.ink text
  /\ Forall (fun c => c <> 0x09) (Normalizer.normalizeWhitespace text)
  /\ Normalizer.normalizeWhitespace [] = [].
Proof.
  split; [ | split; [ | reflexivity ] ].
  - destruct text as [ | c text ]; [ reflexivity | ].
    unfold Normalizer.normalizeWhitespace, Normalizer.result, Normalizer.lines.
    rewrite ink_join, ink_paragraphs. change (Normalizer.ink []) with (@nil Z).
    cbn [app]. rewrite <- ink_split, map_map. f_equal. apply map_ext.
    intros line. now rewrite ink_trim, ink_collapseBlanks.
  - destruct text as [ | c text ]; [ constructor | ].
    unfold Normalizer.normalizeWhitespace, Normalizer.result, Normalizer.lines.
    apply no_tab_join, no_tab_paragraphs; [ constructor | ].
    apply Forall_forall. intros line (raw & -> & _)%list_elem_of_fmap.
    apply Forall_trim, no_tab_collapseBlanks.
Qed.

(** ** The lines of the normalised text *)

Lemma split_not_empty sep s : Utf16.split sep s <> [].
Proof.
  destruct s as [ | c s ]; [ discriminate | ]. cbn.
  destruct (sep c); [ discriminate | ]. now destruct (Utf16.split sep s).
Qed.

Lemma split_one_piece piece :
  Forall (fun c => Normalizer.isLineFeed c = false) piece ->
  Utf16.split Normalizer.isLineFeed piece = [piece].
Proof.
  induction 1 as [ | c piece Hc Hp IH ]; [ reflexivity | ].
  cbn [Utf16.split]. now rewrite Hc, IH.
Qed.

Lemma split_first_piece piece rest :
  Forall (fun c => Normalizer.isLineFeed c = false) piece ->
  Utf16.split Normalizer.isLineFeed (piece ++ 0x0A :: rest)
  = piece :: Utf16.split Normalizer.isLineFeed rest.
Proof.
  induction 1 as [ | c piece Hc Hp IH ]; [ reflexivity | ].
  cbn [app Utf16.split]. now rewrite Hc, IH.
Qed.

Lemma split_join pieces :
  pieces <> [] -> Forall (Forall (fun c => Normalizer.isLineFeed c = false)) pieces ->
  Utf16.split Normalizer.isLineFeed (Normalizer.join pieces) = pieces.
Proof.
  intros Hne Hall. induction Hall as [ | piece pieces Hp Hps IH ]; [ congruence | ].
  destruct pieces as [ | piece' pieces' ]; [ now apply split_one_piece | ].
  change (Normalizer.join (piece :: piece' :: pieces'))
    with (piece ++ 0x0A :: Normalizer.join (piece' :: pieces')).
  rewrite split_first_piece by exact Hp. f_equal. now apply IH.
Qed.

Lemma one_line_collapseBlanks s :
  Forall (fun c => Normalizer.isLineFeed c = false) s ->
  Forall (fun c => Normalizer.isLineFeed c = false) (Normalizer.collapseBlanks s).
Proof.
  induction 1 as [ | c s Hc Hs IH ]; [ constructor | ].
  cbn [Normalizer.collapseBlanks]. destruct (Normalizer.isBlank c).
  - destruct s as [ | c' s' ]; [ now repeat constructor | ].
    destruct (Normalizer.isBlank c'); [ exact IH | now constructor ].
  - now constructor.
Qed.

Lemma one_line_lines text :
  Forall (Forall (fun c => Normalizer.isLineFeed c = false)) (Normalizer.lines text).
Proof.
  unfold Normalizer.lines. apply Forall_forall.
  intros line (raw & -> & Hraw)%list_elem_of_fmap.
  apply Forall_trim, one_line_collapseBlanks.
  pose proof (split_pieces Normalizer.isLineFeed text) as Hall.
  rewrite Forall_forall in Hall. specialize (Hall raw Hraw).
  eapply Forall_impl; [ exact Hall | ]. now intros c [Hc _].
Qed.

Lemma one_line_flush cur :
  Forall (fun c => Normalizer.isLineFeed c = false) cur ->
  Forall (Forall (fun c => Normalizer.isLineFeed c = false)) (Normalizer.flush cur).
Proof.
  intros Hcur. destruct cur as [ | c cur ]; [ constructor | ].
  cbn [Normalizer.flush]. constructor; [ now apply Forall_trim | constructor ].
Qed.

Lemma one_line_extend cur line :
  Forall (fun c => Normalizer.isLineFeed c = false) cur ->
  Forall (fun c => Normalizer.isLineFeed c = false) line ->
  Forall (fun c => Normalizer.isLineFeed c = false) (Normalizer.extend cur line).
Proof.
  intros Hc Hl. unfold Normalizer.extend.
  apply Forall_app. split; [ exact Hc | ]. apply Forall_app. split; [ | exact Hl ].
  destruct cur; now repeat constructor.
Qed.

Lemma one_line_paragraphs cur lines :
  Forall (fun c => Normalizer.isLineFeed c = false) cur ->
  Forall (Forall (fun c => Normalizer.isLineFeed c = false)) lines ->
  Forall (Forall (fun c => Normalizer.isLineFeed c = false)) (Normalizer.paragraphs cur lines).
Proof.
  intros Hcur Hlines. revert cur Hcur.
  induction Hlines as [ | line rest Hline Hrest IH ]; intros cur Hcur.
  - now apply one_line_flush.
  - cbn [Normalizer.paragraphs]. destruct line as [ | c line ].
    + apply Forall_app. split; [ now apply one_line_flush | ].
      constructor; [ constructor | apply IH; constructor ].
    + set (full := c :: line) in *. destruct (Normalizer.isNewItem full).
      * apply Forall_app. split; [ now apply one_line_flush | ].
        constructor; [ exact Hline | apply IH; constructor ].
      * cbv zeta. destruct (match rest with [] => true | _ => _ end).
        -- constructor; [ apply Forall_trim; now apply one_line_extend | apply IH; constructor ].
        -- apply IH. now apply one_line_extend.
Qed.

Lemma paragraphs_not_empty cur lines :
  cur <> [] \/ lines <> [] -> Normalizer.paragraphs cur lines <> [].
Proof.
  revert cur. induction lines as [ | line rest IH ]; intros cur Hne.
  - destruct Hne as [Hne | Hne]; [ | congruence ]. now destruct cur.
  - cbn [Normalizer.paragraphs]. destruct line as [ | c line ].
    + now destruct (Normalizer.flush cur).
    + set (full := c :: line). destruct (Normalizer.isNewItem full).
      * now destruct (Normalizer.flush cur).
      * cbv zeta. destruct (match rest with [] => true | _ => _ end); [ discriminate | ].
        apply IH. left. unfold Normalizer.extend, full. now destruct cur.
Qed.

(** The lines of the normalised text are the entries of [result]. *)
Lemma lines_of_normalizeWhitespace text :
  text <> [] ->
  Utf16.split Normalizer.isLineFeed (Normalizer.normalizeWhitespace text) = Normalizer.result text.
Proof.
  intros Hne. destruct text as [ | c text ]; [ congruence | ].
  unfold Normalizer.normalizeWhitespace. apply split_join.
  - apply paragraphs_not_empty. right. unfold Normalizer.lines.
    intros Hnil%fmap_nil_inv. now apply split_not_empty in Hnil.
  - apply one_line_paragraphs; [ constructor | apply one_line_lines ].
Qed.

Lemma item_line_kept cur lines line :
  line ∈ lines -> Normalizer.isNewItem line = true -> line ∈ Normalizer.paragraphs cur lines.
Proof.
  intros Hin Hitem. revert cur. induction lines as [ | first rest IH ]; intros cur.
  - now apply elem_of_nil in Hin.
  - apply elem_of_cons in Hin as [<- | Hin].
    + cbn [Normalizer.paragraphs]. destruct line as [ | c line ]; [ discriminate | ].
      rewrite Hitem. apply elem_of_app. right. apply elem_of_cons. now left.
    + specialize (IH Hin). cbn [Normalizer.paragraphs]. destruct first as [ | c first ].
      * apply elem_of_app. right. apply elem_of_cons. right. apply IH.
      * set (full := c :: first). destruct (Normalizer.isNewItem full).
        -- apply elem_of_app. right. apply elem_of_cons. right. apply IH.
        -- cbv zeta. destruct (match rest with [] => true | _ => _ end).
           ++ apply elem_of_cons. right. apply IH.
           ++ apply IH.
Qed.

Lemma ink_trimStart_not_empty s : Utf16.trimStart s <> [] -> Normalizer.ink (Utf16.trimStart s) <> [].
Proof.
  induction s as [ | c s IH ]; [ easy | ]. cbn [Utf16.trimStart].
  destruct (Utf16.isWhiteSpace c) eqn:Ec; [ exact IH | ].
  intros _. unfold Normalizer.ink. cbn [List.filter]. now rewrite Ec.
Qed.

Lemma ink_trim_not_empty s : Utf16.trim s <> [] -> Normalizer.ink (Utf16.trim s) <> [].
Proof.
  unfold Utf16.trim. intros Hne. rewrite ink_reverse. intros Hnil.
  apply (f_equal reverse) in Hnil. rewrite reverse_involutive in Hnil.
  revert Hnil. apply ink_trimStart_not_empty. intros Hnil. apply Hne. now rewrite Hnil.
Qed.

Lemma trim_empty_iff s : Utf16.trim s = [] <-> forallb Utf16.isWhiteSpace s = true.
Proof.
  assert (Hink : Normalizer.ink s = [] <-> forallb Utf16.isWhiteSpace s = true).
  { induction s as [ | c s IH ]; [ easy | ]. unfold Normalizer.ink in *. cbn.
    destruct (Utf16.isWhiteSpace c); cbn; [ exact IH | easy ]. }
  rewrite <- Hink, <- (ink_trim s). split; [ now intros -> | ].
  intros Hnil. destruct (decide (Utf16.trim s = [])) as [ | Hne ]; [ assumption | ].
  now apply ink_trim_not_empty in Hne.
Qed.

Lemma emptyLines_app xs ys :
  Normalizer.emptyLines (xs ++ ys) = (Normalizer.emptyLines xs + Normalizer.emptyLines ys)%nat.
Proof. unfold Normalizer.emptyLines. now rewrite List.filter_app, length_app. Qed.

Lemma emptyLines_flush cur :
  cur = [] \/ Normalizer.ink cur <> [] -> Normalizer.emptyLines (Normalizer.flush cur) = 0%nat.
Proof.
  intros Hcur. destruct cur as [ | c cur ]; [ reflexivity | ].
  destruct Hcur as [ | Hink ]; [ discriminate | ]. cbn [Normalizer.flush].
  rewrite <- ink_trim in Hink. now destruct (Utf16.trim (c :: cur)).
Qed.

Lemma emptyLines_paragraphs cur lines :
  cur = [] \/ Normalizer.ink cur <> [] ->
  Forall (fun line => line = [] \/ Normalizer.ink line <> []) lines ->
  Normalizer.emptyLines (Normalizer.paragraphs cur lines) = Normalizer.emptyLines lines.
Proof.
  intros Hcur Hlines. revert cur Hcur.
  assert (Hextend : forall cur line, Normalizer.ink line <> [] ->
            Normalizer.ink (Normalizer.extend cur line) <> []).
  { intros cur line Hline. rewrite ink_extend. intros [_ Hnil]%app_eq_nil. now apply Hline. }
  assert (Hpushed : forall s rest, Normalizer.ink s <> [] ->
            Normalizer.emptyLines (Utf16.trim s :: rest) = Normalizer.emptyLines rest).
  { intros s rest Hs. rewrite <- ink_trim in Hs. now destruct (Utf16.trim s). }
  induction Hlines as [ | line rest Hline Hrest IH ]; intros cur Hcur.
  - now apply emptyLines_flush.
  - cbn [Normalizer.paragraphs]. destruct line as [ | c line ].
    + rewrite emptyLines_app, emptyLines_flush by exact Hcur.
      unfold Normalizer.emptyLines in *. cbn [List.filter length Nat.add]. f_equal.
      apply IH. now left.
    + destruct Hline as [ | Hline ]; [ discriminate | ].
      set (full := c :: line) in *.
      change (Normalizer.emptyLines (full :: rest)) with (Normalizer.emptyLines rest).
      destruct (Normalizer.isNewItem full).
      * rewrite emptyLines_app, emptyLines_flush by exact Hcur.
        change (Normalizer.emptyLines (full :: Normalizer.paragraphs [] rest))
          with (Normalizer.emptyLines (Normalizer.paragraphs [] rest)).
        apply IH. now left.
      * cbv zeta. destruct (match rest with [] => true | _ => _ end).
        -- rewrite Hpushed by now apply Hextend. apply IH. now left.
        -- apply IH. right. now apply Hextend.
Qed.

Lemma length_paragraphs cur lines :
  (length (Normalizer.paragraphs cur lines) <= length (Normalizer.flush cur) + length lines)%nat.
Proof.
  revert cur. induction lines as [ | line rest IH ]; intros cur.
  - cbn [Normalizer.paragraphs]. lia.
  - cbn [Normalizer.paragraphs]. destruct line as [ | c line ].
    + rewrite length_app. specialize (IH []). cbn in IH |- *. lia.
    + set (full := c :: line). destruct (Normalizer.isNewItem full) eqn:Eitem.
      * rewrite length_app. specialize (IH []). cbn in IH |- *. lia.
      * cbv zeta. destruct (match rest with [] => true | _ => _ end).
        -- specialize (IH []). cbn in IH |- *. lia.
        -- specialize (IH (Normalizer.extend cur full)).
           assert (Hflush : forall s, (length (Normalizer.flush s) <= 1)%nat)
             by (intros [ | ? ? ]; cbn; lia).
           pose proof (Hflush (Normalizer.extend cur full)). cbn [length]. lia.
Qed.

(** X16.  The lines of the normalised text of a text that is not empty:
    every line of the text that starts a new item (after its blanks are
    collapsed and it is trimmed) is one of them, unchanged and not joined
    to a neighbour; as many of them are empty as the text has lines of
    whitespace only; and there is at least one, and there are never more
    than the text has lines. *)
Theorem normalizeWhitespace_lines (text : list Z) :
  text <> [] ->
  let out := Utf16.split Normalizer.isLineFeed (Normalizer.normalizeWhitespace text) in
  (forall line, line ∈ Normalizer.lines text -> Normalizer.isNewItem line = true -> line ∈ out)
  /\ Normalizer.emptyLines out
     = length (List.filter (forallb Utf16.isWhiteSpace) (Utf16.split Normalizer.isLineFeed text))
  /\ (0 < length out <= length (Utf16.split Normalizer.isLineFeed text))%nat.
Proof.
  intros Hne out. subst out. rewrite lines_of_normalizeWhitespace by exact Hne.
  unfold Normalizer.result. split; [ | split ].
  - intros line Hin Hitem. now apply item_line_kept.
  - rewrite emptyLines_paragraphs.
    + unfold Normalizer.lines, Normalizer.emptyLines.
      induction (Utf16.split Normalizer.isLineFeed text) as [ | raw raws IH ]; [ reflexivity | ].
      cbn [map List.filter]. pose proof (trim_empty_iff (Normalizer.collapseBlanks raw)) as Hiff.
      assert (Hraw : forallb Utf16.isWhiteSpace (Normalizer.collapseBlanks raw)
                     = forallb Utf16.isWhiteSpace raw).
      { pose proof (ink_collapseBlanks raw) as Hink. clear - Hink.
        assert (Hall : forall s, forallb Utf16.isWhiteSpace s = true <-> Normalizer.ink s = []).
        { induction s as [ | c s IHs ]; [ easy | ]. unfold Normalizer.ink in *. cbn.
          destruct (Utf16.isWhiteSpace c); cbn; [ exact IHs | easy ]. }
        apply eq_true_iff_eq. now rewrite !Hall, Hink. }
      rewrite <- Hraw. destruct (forallb Utf16.isWhiteSpace (Normalizer.collapseBlanks raw)).
      * rewrite (proj2 Hiff eq_refl). cbn [length]. now f_equal.
      * destruct (Utf16.trim (Normalizer.collapseBlanks raw)); [ | exact IH ].
        discriminate (proj1 Hiff eq_refl).
    + now left.
    + unfold Normalizer.lines. apply Forall_forall.
      intros line (raw & -> & _)%list_elem_of_fmap.
      destruct (decide (Utf16.trim (Normalizer.collapseBlanks raw) = [])) as [ | Hink ];
        [ now left | right; now apply ink_trim_not_empty ].
  - split.
    + assert (Hout : Normalizer.paragraphs [] (Normalizer.lines text) <> []).
      { apply paragraphs_not_empty. right. unfold Normalizer.lines.
        intros Hnil%fmap_nil_inv. now apply split_not_empty in Hnil. }
      destruct (Normalizer.paragraphs [] (Normalizer.lines text)); [ congruence | cbn; lia ].
    + pose proof (length_paragraphs [] (Normalizer.lines text)) as Hlen.
      unfold Normalizer.lines in Hlen |- *. rewrite length_map in Hlen. exact Hlen.
Qed.

Lemma normalizeWhitespace_lines_witness :
  Normalizer.sample_text <> []
  /\ Utf16.split Normalizer.isLineFeed (Normalizer.normalizeWhitespace Normalizer.sample_text)
     = [Utf16.ascii "Smoking is not allowed here."; []; Utf16.ascii "1. indoors";
        Utf16.ascii "and outdoors"]
  /\ (forall line, line ∈ Normalizer.lines Normalizer.sample_text ->
       Normalizer.isNewItem line = true ->
       line ∈ Utf16.split Normalizer.isLineFeed
                (Normalizer.normalizeWhitespace Normalizer.sample_text))
  /\ Normalizer.emptyLines
       (Utf16.split Normalizer.isLineFeed (Normalizer.normalizeWhitespace Normalizer.sample_text))
     = length (List.filter (forallb Utf16.isWhiteSpace)
                 (Utf16.split Normalizer.isLineFeed Normalizer.sample_text))
  /\ (0 < length (Utf16.split Normalizer.isLineFeed
                    (Normalizer.normalizeWhitespace Normalizer.sample_text))
       <= length (Utf16.split Normalizer.isLineFeed Normalizer.sample_text))%nat.
Proof.
  split; [ discriminate | ]. split; [ vm_compute; reflexivity | ].
  apply (normalizeWhitespace_lines Normalizer.sample_text). discriminate.
Defined.

(** ** The width of the sidebar *)

Lemma newWidth_within_bounds clientX : Sidebar.within_bounds (Sidebar.newWidth clientX).
Proof.
  unfold Sidebar.within_bounds, Sidebar.newWidth.
  change 250%Q with (inject_Z 250). change 800%Q with (inject_Z 800).
  rewrite <- !Zle_Qle. lia.
Qed.

Lemma expandedWidth_within_bounds q :
  Sidebar.within_bounds q -> Sidebar.within_bounds (Sidebar.expandedWidth q).
Proof.
  unfold Sidebar.within_bounds, Sidebar.expandedWidth, Sidebar.Math_min. intros [Hlo Hhi].
  destruct (Qle_bool (q * (3 # 2)) 800) eqn:E.
  - apply Qle_bool_iff in E. split; [ | exact E ].
    apply Qle_trans with q; [ exact Hlo | ].
    destruct q as [n d]. unfold Qle, Qmult in *. cbn in *. nia.
  - split; [ discriminate | apply Qle_refl ].
Qed.

Lemma sidebar_step_bounds ev s :
  Sidebar.within_bounds (Sidebar.sidebarWidth s) ->
  Sidebar.within_bounds (Sidebar.originalSidebarWidth s) ->
  (forall q, Sidebar.pendingWidth s = Some q -> Sidebar.within_bounds q) ->
  Sidebar.within_bounds (Sidebar.sidebarWidth (Sidebar.handle ev s))
  /\ Sidebar.within_bounds (Sidebar.originalSidebarWidth (Sidebar.handle ev s))
  /\ (forall q, Sidebar.pendingWidth (Sidebar.handle ev s) = Some q -> Sidebar.within_bounds q).
Proof.
  intros Hw Ho Hp. destruct ev as [ | clientX | | | id ]; cbn [Sidebar.handle].
  - unfold Sidebar.handleResizeStart. destruct (Sidebar.isResizing s); cbn; [ easy | ].
    repeat split; try easy; apply Hw || apply Ho.
  - unfold Sidebar.handleResize. destruct (Sidebar.isResizing s); cbn; [ | easy ].
    split; [ exact Hw | split; [ exact Ho | ] ].
    intros q [= <-]. apply newWidth_within_bounds.
  - unfold Sidebar.flushWidth. destruct (Sidebar.rafId s); cbn; [ | easy ].
    split; [ | split; [ exact Ho | easy ] ].
    destruct (Sidebar.pendingWidth s) as [ q | ]; cbn; [ now apply Hp | exact Hw ].
  - unfold Sidebar.handleResizeEnd. destruct (Sidebar.isResizing s); cbn; [ | easy ].
    split; [ exact Hw | split; [ exact Ho | easy ] ].
  - unfold Sidebar.selectDocument. destruct (decide _); [ easy | ].
    destruct id as [ documentId | ]; [ destruct (String.eqb documentId "") | ]; cbn.
    + easy.
    + split; [ now apply expandedWidth_within_bounds | split; [ exact Hw | exact Hp ] ].
    + split; [ exact Ho | split; [ exact Ho | exact Hp ] ].
Qed.

Lemma resize_keeps_document events s :
  forallb Sidebar.isResizeEvent events = true ->
  Sidebar.selectedDocumentId (Sidebar.after events s) = Sidebar.selectedDocumentId s
  /\ Sidebar.originalSidebarWidth (Sidebar.after events s) = Sidebar.originalSidebarWidth s.
Proof.
  revert s. induction events as [ | ev events IH ]; intros s Hall; [ easy | ].
  cbn in Hall. apply andb_true_iff in Hall as [Hev Hall].
  change (Sidebar.after (ev :: events) s) with (Sidebar.after events (Sidebar.handle ev s)).
  destruct (IH (Sidebar.handle ev s) Hall) as [-> ->].
  destruct ev as [ | clientX | | | id ]; [ | | | | discriminate ]; cbn [Sidebar.handle].
  - unfold Sidebar.handleResizeStart. now destruct (Sidebar.isResizing s).
  - unfold Sidebar.handleResize. now destruct (Sidebar.isResizing s).
  - unfold Sidebar.flushWidth. now destruct (Sidebar.rafId s).
  - unfold Sidebar.handleResizeEnd. now destruct (Sidebar.isResizing s).
Qed.

(** X17.  Whatever the user does with the resize handle and whichever
    documents are opened and closed, in any order, the width of the
    sidebar, the width kept for the time a document is shown, and a
    width that waits for its animation frame are between 250 and 800
    pixels. *)
Theorem sidebar_width_bounds (events : list Sidebar.Event) :
  let s := Sidebar.after events Sidebar.initial in
  Sidebar.within_bounds (Sidebar.sidebarWidth s)
  /\ Sidebar.within_bounds (Sidebar.originalSidebarWidth s)
  /\ (forall q, Sidebar.pendingWidth s = Some q -> Sidebar.within_bounds q).
Proof.
  cbv zeta. induction events as [ | ev events IH ] using rev_ind.
  - cbn. unfold Sidebar.within_bounds. repeat split; try discriminate.
  - unfold Sidebar.after in *. rewrite fold_left_app. cbn [fold_left].
    destruct IH as (Hw & Ho & Hp). now apply sidebar_step_bounds.
Qed.

(** X18.  Opening a document when none is shown widens the sidebar to
    one and a half times its width, at most 800 pixels; closing it gives
    the sidebar the width it had before, whatever resizing was done in
    between.  When a second document is selected while the first is
    shown, the sidebar is widened again, and closing then leaves it at
    the width of the first widening. *)
Theorem sidebar_restored_on_close (s : Sidebar.State) (documentId other : string)
    (resizes : list Sidebar.Event) :
  Sidebar.selectedDocumentId s = None ->
  documentId <> "" -> other <> "" -> other <> documentId ->
  forallb Sidebar.isResizeEvent resizes = true ->
  let opened := Sidebar.selectDocument (Some documentId) s in
  Sidebar.sidebarWidth opened = Sidebar.expandedWidth (Sidebar.sidebarWidth s)
  /\ Sidebar.sidebarWidth (Sidebar.selectDocument None (Sidebar.after resizes opened))
     = Sidebar.sidebarWidth s
  /\ Sidebar.sidebarWidth (Sidebar.selectDocument (Some other) opened)
     = Sidebar.expandedWidth (Sidebar.expandedWidth (Sidebar.sidebarWidth s))
  /\ Sidebar.sidebarWidth
       (Sidebar.selectDocument None (Sidebar.selectDocument (Some other) opened))
     = Sidebar.expandedWidth (Sidebar.sidebarWidth s).
Proof.
  intros Hnone Hid Hother Hdiff Hresizes opened.
  assert (Hopened : opened
                    = {| Sidebar.sidebarWidth := Sidebar.expandedWidth (Sidebar.sidebarWidth s);
                         Sidebar.originalSidebarWidth := Sidebar.sidebarWidth s;
                         Sidebar.isResizing := Sidebar.isResizing s;
                         Sidebar.selectedDocumentId := Some documentId;
                         Sidebar.pendingWidth := Sidebar.pendingWidth s;
                         Sidebar.rafId := Sidebar.rafId s |}).
  { subst opened. unfold Sidebar.selectDocument. rewrite Hnone.
    destruct (decide _) as [ | _ ]; [ discriminate | ].
    apply String.eqb_neq in Hid. now rewrite Hid. }
  split; [ now rewrite Hopened | ]. split.
  - destruct (resize_keeps_document resizes opened Hresizes) as [Hdoc Horig].
    unfold Sidebar.selectDocument. rewrite Hdoc, Horig, Hopened. cbn.
    destruct (decide _) as [ | _ ]; [ discriminate | reflexivity ].
  - assert (Hswitched : Sidebar.selectDocument (Some other) opened
                        = {| Sidebar.sidebarWidth :=
                               Sidebar.expandedWidth (Sidebar.expandedWidth (Sidebar.sidebarWidth s));
                             Sidebar.originalSidebarWidth :=
                               Sidebar.expandedWidth (Sidebar.sidebarWidth s);
                             Sidebar.isResizing := Sidebar.isResizing s;
                             Sidebar.selectedDocumentId := Some other;
                             Sidebar.pendingWidth := Sidebar.pendingWidth s;
                             Sidebar.rafId := Sidebar.rafId s |}).
    { rewrite Hopened. unfold Sidebar.selectDocument. cbn.
      destruct (decide _) as [ [= ?] | _ ]; [ contradiction | ].
      apply String.eqb_neq in Hother. now rewrite Hother. }
    rewrite Hswitched. split; [ reflexivity | ].
    unfold Sidebar.selectDocument. cbn.
    destruct (decide _) as [ | _ ]; [ discriminate | reflexivity ].
Qed.

Lemma sidebar_restored_on_close_witness :
  let s := Sidebar.initial in
  let resizes := [Sidebar.MouseDown; Sidebar.MouseMove 300; Sidebar.AnimationFrame;
                  Sidebar.MouseUp] in
  let opened := Sidebar.selectDocument (Some "doc") s in
  Sidebar.sidebarWidth (Sidebar.after resizes opened) = 300%Q
  /\ Sidebar.sidebarWidth opened = Sidebar.expandedWidth (Sidebar.sidebarWidth s)
  /\ Sidebar.sidebarWidth (Sidebar.selectDocument None (Sidebar.after resizes opened))
     = Sidebar.sidebarWidth s
  /\ Sidebar.sidebarWidth (Sidebar.selectDocument (Some "other") opened)
     = Sidebar.expandedWidth (Sidebar.expandedWidth (Sidebar.sidebarWidth s))
  /\ Sidebar.sidebarWidth
       (Sidebar.selectDocument None (Sidebar.selectDocument (Some "other") opened))
     = Sidebar.expandedWidth (Sidebar.sidebarWidth s).
Proof.
  split; [ reflexivity | ].
  apply (sidebar_restored_on_close Sidebar.initial "doc" "other"); try reflexivity; discriminate.
Defined.

(** ** The reference buttons of a chat message *)

Lemma questionBefore_error allMessages i :
  Message.questionBefore allMessages i = None <-> (length allMessages < i)%nat.
Proof.
  induction i as [ | j IH ]; cbn [Message.questionBefore]; [ split; [ discriminate | lia ] | ].
  destruct (allMessages !! j) as [ m | ] eqn:Hm.
  - apply lookup_lt_Some in Hm. destruct (Message.role m).
    + split; [ discriminate | lia ].
    + rewrite IH. lia.
  - apply lookup_ge_None in Hm. split; [ lia | reflexivity ].
Qed.

Lemma questionBefore_nearest allMessages i question :
  Message.questionBefore allMessages i = Some question ->
  (exists j m, Message.nearest_question allMessages (Z.of_nat i) j m
               /\ question = Message.message_content m)
  \/ (question = ""
      /\ forall k m', (k < i)%nat -> allMessages !! k = Some m' -> Message.role m' = Message.model).
Proof.
  induction i as [ | j IH ]; cbn [Message.questionBefore].
  - intros [= <-]. right. split; [ reflexivity | ]. intros k m' Hk. lia.
  - destruct (allMessages !! j) as [ m | ] eqn:Hm; [ | discriminate ].
    destruct (Message.role m) eqn:Hrole.
    + intros [= <-]. left. exists j, m. split; [ | reflexivity ].
      split; [ lia | ]. split; [ exact Hm | ]. split; [ exact Hrole | ].
      intros k m' Hjk Hk. lia.
    + intros Hq. destruct (IH Hq) as [ (j' & m0 & (Hlt & Hm0 & Hr0 & Hbetween) & Hcontent)
                                     | (Hempty & Hnone) ].
      * left. exists j', m0. split; [ | exact Hcontent ].
        split; [ lia | ]. split; [ exact Hm0 | ]. split; [ exact Hr0 | ].
        intros k m' Hjk Hk Hm'. destruct (decide (k = j)) as [ -> | Hne ].
        -- rewrite Hm in Hm'. injection Hm' as <-. exact Hrole.
        -- apply (Hbetween k m'); [ exact Hjk | lia | exact Hm' ].
      * right. split; [ exact Hempty | ]. intros k m' Hk Hm'.
        destruct (decide (k = j)) as [ -> | Hne ].
        -- rewrite Hm in Hm'. injection Hm' as <-. exact Hrole.
        -- apply (Hnone k m'); [ lia | exact Hm' ].
Qed.

(** X19.  A click on a reference button of a chat message.  When an
    event is dispatched, the reference number is an index (from 1) into
    the references of the message, the document id and the chunk id of
    the detail are not empty, and the question of the detail is the
    content of the nearest message of the user before the message: there
    is no message of the user between the two; when there is no such
    message before it, the question is empty.  The handler fails with a
    TypeError exactly when the reference number is such an index and
    the message index is greater than the number of messages, of which
    there is at least one. *)
Theorem message_reference_click (message : Message.MessageType)
    (allMessages : list Message.MessageType) (messageIndex referenceNumber : Z) :
  let references := default [] (Message.chunkReferences message) in
  let outcome := Message.handleReferenceClick message allMessages messageIndex referenceNumber in
  (forall detail, outcome = Message.Dispatched detail ->
     1 <= referenceNumber <= Z.of_nat (length references)
     /\ Message.detail_documentId detail <> "" /\ Message.detail_chunkId detail <> ""
     /\ Message.referenceNumber detail = referenceNumber
     /\ ((exists j m, Message.nearest_question allMessages messageIndex j m
                      /\ Message.questionContent detail = Message.message_content m)
         \/ (Message.questionContent detail = ""
             /\ forall k m', Z.of_nat k < messageIndex -> allMessages !! k = Some m' ->
                             Message.role m' = Message.model)))
  /\ (outcome = Message.TypeError <->
      1 <= referenceNumber <= Z.of_nat (length references)
      /\ (0 < length allMessages)%nat /\ Z.of_nat (length allMessages) < messageIndex).
Proof.
  cbv zeta. unfold Message.handleReferenceClick.
  destruct (Message.chunkReferences message) as [ [ | first others ] | ].
  1, 3: split; [ discriminate | ]; split; [ discriminate | cbn; lia ].
  change (default [] (Some (first :: others))) with (first :: others).
  set (references := first :: others).
  destruct ((0 <=? referenceNumber - 1) && (referenceNumber - 1 <? Z.of_nat (length references)))
    eqn:Hrange.
  2: { split; [ discriminate | ]. split; [ discriminate | ].
       intros (Hn & _).
       apply andb_false_iff in Hrange as [Hlo%Z.leb_gt | Hhi%Z.ltb_ge]; lia. }
  apply andb_true_iff in Hrange as [Hlo Hhi].
  apply Z.leb_le in Hlo. apply Z.ltb_lt in Hhi.
  destruct (references !! Z.to_nat (referenceNumber - 1)) as [ chunk | ] eqn:Hchunk.
  2: { apply lookup_ge_None in Hchunk. lia. }
  cbv zeta.
  set (documentId :=
         default "" (Message.orString (Message.Chunk.documentId chunk) (Message.Chunk.id chunk))).
  set (chunkId :=
         default "" (Message.orString (Message.Chunk.chunkId chunk) (Message.Chunk.chunk_id chunk))).
  destruct ((0 <? messageIndex) && (0 <? length allMessages)%nat) eqn:Hsearch.
  - apply andb_true_iff in Hsearch as [Hpos Hlen].
    apply Z.ltb_lt in Hpos. apply Nat.ltb_lt in Hlen.
    destruct (Message.questionBefore allMessages (Z.to_nat messageIndex)) as [ question | ]
      eqn:Hquestion.
    + split.
      * intros detail Hd.
        destruct (String.eqb_spec documentId ""); [ discriminate | ].
        destruct (String.eqb_spec chunkId ""); [ discriminate | ].
        cbn [orb] in Hd. injection Hd as <-.
        cbn [Message.detail_documentId Message.detail_chunkId Message.referenceNumber
             Message.questionContent].
        split; [ lia | ]. split; [ assumption | ]. split; [ assumption | ].
        split; [ reflexivity | ].
        apply questionBefore_nearest in Hquestion. rewrite Z2Nat.id in Hquestion by lia.
        destruct Hquestion as [ Hnear | (Hempty & Hnone) ]; [ now left | right ].
        split; [ exact Hempty | ]. intros k m' Hk. apply Hnone. lia.
      * split.
        -- now destruct (String.eqb documentId "" || String.eqb chunkId "").
        -- intros (_ & _ & Hbeyond).
           assert (Hnone : Message.questionBefore allMessages (Z.to_nat messageIndex) = None)
             by (apply questionBefore_error; lia).
           congruence.
    + apply questionBefore_error in Hquestion. split; [ discriminate | ].
      split; [ intros _ | reflexivity ]. lia.
  - assert (Hnot : ~ ((0 < length allMessages)%nat /\ Z.of_nat (length allMessages) < messageIndex)).
    { apply andb_false_iff in Hsearch as [Hpos | Hlen].
      - apply Z.ltb_ge in Hpos. lia.
      - apply Nat.ltb_ge in Hlen. lia. }
    split.
    + intros detail Hd.
      destruct (String.eqb_spec documentId ""); [ discriminate | ].
      destruct (String.eqb_spec chunkId ""); [ discriminate | ].
      cbn [orb] in Hd. injection Hd as <-.
        cbn [Message.detail_documentId Message.detail_chunkId Message.referenceNumber
             Message.questionContent].
      split; [ lia | ]. split; [ assumption | ]. split; [ assumption | ].
      split; [ reflexivity | ]. right. split; [ reflexivity | ].
      intros k m' Hk Hm'. apply lookup_lt_Some in Hm'.
      apply andb_false_iff in Hsearch as [Hpos | Hlen].
      * apply Z.ltb_ge in Hpos. lia.
      * apply Nat.ltb_ge in Hlen. lia.
    + split.
      * now destruct (String.eqb documentId "" || String.eqb chunkId "").
      * intros (_ & Hbeyond). now destruct Hnot.
Qed.

Lemma message_reference_click_witness :
  (exists detail,
     Message.handleReferenceClick Message.sample_answer Message.sample_chat 1 1
     = Message.Dispatched detail
     /\ Message.questionContent detail = "Where may I smoke?"
     /\ Message.detail_page detail = Some 4
     /\ Message.detail_filename detail = "guide.pdf")
  /\ Message.handleReferenceClick Message.sample_answer Message.sample_chat 1 2
     = Message.Nothing
  /\ Message.handleReferenceClick Message.sample_answer Message.sample_chat 3 1
     = Message.TypeError.
Proof.
  split; [ eexists; repeat split; reflexivity | ]. split; [ reflexivity | ].
  apply (message_reference_click Message.sample_answer Message.sample_chat 3 1).
  cbn. lia.
Defined.

(** ** Turning pages with the wheel *)

Section WheelCooldown.
Context `{JsString}.

Lemma run_clock effects w : clock (run effects w) = clock w.
Proof. unfold run. now rewrite !perform_all_clock. Qed.

Lemma handle_clock ev w : ev <> MillisecondPassed -> clock (handle ev w) = clock w.
Proof.
  intros Hev. destruct ev; try congruence;
    cbn [handle]; unfold resolveTotalPages, resolveChunks, dispatch; apply run_clock.
Qed.

Lemma millisecond_or_not (ev : Event) : {ev = MillisecondPassed} + {ev <> MillisecondPassed}.
Proof. destruct ev; (now left) || (now right). Qed.

Lemma wheel_in_cooldown e s :
  Wheel.wheelCooldownRef s = true -> Wheel.handleWheelInScrollArea e s = s.
Proof.
  intros Href. unfold Wheel.handleWheelInScrollArea. rewrite Href.
  destruct (negb (bool_decide _)); [ reflexivity | ].
  now destruct (negb (scrollContainer _)).
Qed.

Lemma wheel_cases e s :
  Wheel.handleWheelInScrollArea e s = s
  \/ (Wheel.wheelCooldownRef s = false
      /\ exists handler, Wheel.handleWheelInScrollArea e s = Wheel.turnPage handler s).
Proof.
  destruct (Wheel.wheelCooldownRef s) eqn:Href.
  - left. now apply wheel_in_cooldown.
  - unfold Wheel.handleWheelInScrollArea. rewrite Href.
    destruct (negb (bool_decide _)); [ now left | ].
    destruct (negb (scrollContainer _)); [ now left | ].
    destruct (_ && _ && _); [ right; split; [ reflexivity | now eexists ] | ].
    destruct (_ && _ && _); [ right; split; [ reflexivity | now eexists ] | now left ].
Qed.

Lemma wheel_turned e s :
  Wheel.handleWheelInScrollArea e s <> s ->
  Wheel.wheelCooldownRef s = false
  /\ exists handler, Wheel.handleWheelInScrollArea e s = Wheel.turnPage handler s.
Proof. intros Hturned. now destruct (wheel_cases e s) as [ Hsame | Hturn ]. Qed.

Ltac wheel_fields :=
  cbn [Wheel.viewer Wheel.wheelCooldownRef Wheel.cooldownTimers existsb List.filter orb app
       forallb length].

Lemma react_cooldown_ok input s : Wheel.cooldown_ok s -> Wheel.cooldown_ok (Wheel.react input s).
Proof.
  intros Hok. destruct input as [ e | ev ].
  - cbn [Wheel.react].
    destruct (wheel_cases e s) as [ -> | (Href & handler & ->) ]; [ exact Hok | ].
    destruct Hok as [ (_ & Hnone) | (Hset & _) ]; [ | congruence ].
    right. split; [ reflexivity | ]. exists (clock (Wheel.viewer s) + 300)%nat.
    unfold Wheel.turnPage. wheel_fields. rewrite Hnone. split; [ reflexivity | ].
    unfold dispatch. rewrite run_clock. lia.
  - assert (Hother : ev <> MillisecondPassed ->
                     Wheel.cooldown_ok
                       {| Wheel.viewer := handle ev (Wheel.viewer s);
                          Wheel.wheelCooldownRef := Wheel.wheelCooldownRef s;
                          Wheel.cooldownTimers := Wheel.cooldownTimers s |}).
    { intros Hev. unfold Wheel.cooldown_ok in *. wheel_fields. now rewrite handle_clock. }
    destruct ev; try (apply Hother; discriminate). clear Hother.
    cbn [Wheel.react]. unfold Wheel.elapse, Wheel.cooldown_ok in *. wheel_fields.
    rewrite tick_clock.
    destruct Hok as [ (Href & Hnone) | (Href & due & Hdue & Hlo & Hhi) ].
    + left. now rewrite Href, Hnone.
    + rewrite Href, Hdue. wheel_fields.
      destruct (Nat.leb_spec due (S (clock (Wheel.viewer s)))) as [ Hfire | Hwait ].
      * left. split; [ reflexivity | ].
        destruct (Nat.ltb_spec (S (clock (Wheel.viewer s))) due); [ lia | reflexivity ].
      * right. split; [ reflexivity | ]. exists due.
        destruct (Nat.ltb_spec (S (clock (Wheel.viewer s))) due); [ | lia ].
        split; [ reflexivity | lia ].
Qed.

Lemma session_cooldown_ok inputs : Wheel.cooldown_ok (Wheel.session inputs).
Proof.
  unfold Wheel.session, Wheel.after.
  induction inputs as [ | input inputs IH ] using rev_ind.
  - left. now split.
  - rewrite fold_left_app. cbn [fold_left]. now apply react_cooldown_ok.
Qed.

(** While the timeout waits, the reference stays set. *)
Lemma wheel_cooling later : forall s due,
  Wheel.wheelCooldownRef s = true -> Wheel.cooldownTimers s = [due] ->
  (clock (Wheel.viewer s) + Wheel.milliseconds later < due)%nat ->
  Wheel.wheelCooldownRef (Wheel.after later s) = true
  /\ Wheel.cooldownTimers (Wheel.after later s) = [due]
  /\ clock (Wheel.viewer (Wheel.after later s))
     = (clock (Wheel.viewer s) + Wheel.milliseconds later)%nat.
Proof.
  induction later as [ | input later IH ]; intros s due Href Hdue Hbefore.
  - unfold Wheel.after, Wheel.milliseconds. cbn [fold_left List.filter length].
    repeat split; try assumption. lia.
  - change (Wheel.after (input :: later) s) with (Wheel.after later (Wheel.react input s)).
    destruct input as [ e | ev ].
    + cbn [Wheel.react]. rewrite wheel_in_cooldown by exact Href.
      change (Wheel.milliseconds (Wheel.Wheeled e :: later)) with (Wheel.milliseconds later)
        in *.
      now apply IH.
    + destruct (millisecond_or_not ev) as [ -> | Hev ].
      * change (Wheel.milliseconds (Wheel.Other MillisecondPassed :: later))
          with (S (Wheel.milliseconds later)) in *.
        cbn [Wheel.react].
        assert (Hwait : (S (clock (Wheel.viewer s)) < due)%nat) by lia.
        destruct (IH (Wheel.elapse s) due) as (Hr & Ht & Hc).
        -- unfold Wheel.elapse. wheel_fields. rewrite Hdue, Href. wheel_fields.
           now destruct (Nat.leb_spec due (S (clock (Wheel.viewer s)))); [ lia | ].
        -- unfold Wheel.elapse. wheel_fields. rewrite Hdue. wheel_fields.
           now destruct (Nat.ltb_spec (S (clock (Wheel.viewer s))) due); [ | lia ].
        -- unfold Wheel.elapse. wheel_fields. rewrite tick_clock. lia.
        -- rewrite Hr, Ht, Hc. unfold Wheel.elapse. wheel_fields. rewrite tick_clock.
           repeat split. lia.
      * assert (Hms : Wheel.milliseconds (Wheel.Other ev :: later) = Wheel.milliseconds later)
          by now destruct ev.
        rewrite Hms in *.
        assert (Hreact : Wheel.react (Wheel.Other ev) s
                         = {| Wheel.viewer := handle ev (Wheel.viewer s);
                              Wheel.wheelCooldownRef := Wheel.wheelCooldownRef s;
                              Wheel.cooldownTimers := Wheel.cooldownTimers s |})
          by now destruct ev.
        rewrite Hreact.
        destruct (IH {| Wheel.viewer := handle ev (Wheel.viewer s);
                        Wheel.wheelCooldownRef := Wheel.wheelCooldownRef s;
                        Wheel.cooldownTimers := Wheel.cooldownTimers s |} due) as (Hr & Ht & Hc);
          wheel_fields; rewrite ?handle_clock by exact Hev; try assumption.
        cbn [Wheel.viewer] in Hc. rewrite handle_clock in Hc by exact Hev. now rewrite Hr, Ht, Hc.
Qed.

(** Without a turn of the wheel, a released reference stays released. *)
Lemma wheel_released later : forall s,
  forallb (fun input => negb (Wheel.isWheeled input)) later = true ->
  Wheel.wheelCooldownRef s = false -> Wheel.cooldownTimers s = [] ->
  Wheel.wheelCooldownRef (Wheel.after later s) = false.
Proof.
  induction later as [ | input later IH ]; intros s Hnone Href Htimers; [ exact Href | ].
  cbn in Hnone. apply andb_true_iff in Hnone as [Hinput Hnone].
  change (Wheel.after (input :: later) s) with (Wheel.after later (Wheel.react input s)).
  destruct input as [ e | ev ]; [ discriminate | ].
  apply IH; [ exact Hnone | | ]; destruct ev; cbn [Wheel.react]; try unfold Wheel.elapse;
    wheel_fields; try assumption.
  - now rewrite Htimers, Href.
  - now rewrite Htimers.
Qed.

(** When the timeout is due, the reference is released. *)
Lemma wheel_cooled later : forall s due,
  forallb (fun input => negb (Wheel.isWheeled input)) later = true ->
  Wheel.wheelCooldownRef s = true -> Wheel.cooldownTimers s = [due] ->
  (clock (Wheel.viewer s) < due <= clock (Wheel.viewer s) + Wheel.milliseconds later)%nat ->
  Wheel.wheelCooldownRef (Wheel.after later s) = false.
Proof.
  induction later as [ | input later IH ]; intros s due Hnone Href Hdue Hwhen.
  - unfold Wheel.milliseconds in Hwhen. cbn in Hwhen. lia.
  - cbn [forallb] in Hnone. apply andb_true_iff in Hnone as [Hinput Hnone].
    change (Wheel.after (input :: later) s) with (Wheel.after later (Wheel.react input s)).
    destruct input as [ e | ev ]; [ discriminate | ].
    destruct (millisecond_or_not ev) as [ -> | Hev ].
    + change (Wheel.milliseconds (Wheel.Other MillisecondPassed :: later))
        with (S (Wheel.milliseconds later)) in *.
      cbn [Wheel.react].
      destruct (Nat.leb_spec due (S (clock (Wheel.viewer s)))) as [ Hfire | Hwait ].
      * apply wheel_released; [ exact Hnone | | ]; unfold Wheel.elapse; wheel_fields; rewrite Hdue; wheel_fields.
        -- now destruct (Nat.leb_spec due (S (clock (Wheel.viewer s)))); [ | lia ].
        -- now destruct (Nat.ltb_spec (S (clock (Wheel.viewer s))) due); [ lia | ].
      * apply (IH (Wheel.elapse s) due); [ exact Hnone | | | ]; unfold Wheel.elapse; wheel_fields.
        -- rewrite Hdue, Href. wheel_fields.
           now destruct (Nat.leb_spec due (S (clock (Wheel.viewer s)))); [ lia | ].
        -- rewrite Hdue. wheel_fields.
           now destruct (Nat.ltb_spec (S (clock (Wheel.viewer s))) due); [ | lia ].
        -- rewrite tick_clock. lia.
    + assert (Hms : Wheel.milliseconds (Wheel.Other ev :: later) = Wheel.milliseconds later)
        by now destruct ev.
      rewrite Hms in *.
      assert (Hreact : Wheel.react (Wheel.Other ev) s
                       = {| Wheel.viewer := handle ev (Wheel.viewer s);
                            Wheel.wheelCooldownRef := Wheel.wheelCooldownRef s;
                            Wheel.cooldownTimers := Wheel.cooldownTimers s |})
        by now destruct ev.
      rewrite Hreact. apply (IH _ due); [ exact Hnone | exact Href | exact Hdue | ].
      wheel_fields. now rewrite handle_clock.
Qed.

(** X20.  When, at any moment of a session, a turn of the wheel changes
    anything, it sets the cooldown reference; until 300 milliseconds have
    passed, whatever else happens, no turn of the wheel has any effect;
    and once 300 milliseconds have passed without another turn of the
    wheel, the reference is released. *)
Theorem wheel_page_turns_throttled (inputs : list Wheel.Input) (e : Wheel.WheelEvent)
    (later : list Wheel.Input) :
  let s := Wheel.session inputs in
  let turned := Wheel.handleWheelInScrollArea e s in
  turned <> s ->
  Wheel.wheelCooldownRef turned = true
  /\ ((Wheel.milliseconds later < 300)%nat ->
      forall e', Wheel.handleWheelInScrollArea e' (Wheel.after later turned)
                 = Wheel.after later turned)
  /\ (forallb (fun input => negb (Wheel.isWheeled input)) later = true ->
      (300 <= Wheel.milliseconds later)%nat ->
      Wheel.wheelCooldownRef (Wheel.after later turned) = false).
Proof.
  intros s turned Hturned. subst turned.
  destruct (wheel_turned e s Hturned) as (Href & handler & Hturn).
  pose proof (session_cooldown_ok inputs) as [ (_ & Hnone) | (Hset & _) ];
    [ | fold s in Hset; congruence ].
  fold s in Hnone. rewrite Hturn.
  assert (Htimers : Wheel.cooldownTimers (Wheel.turnPage handler s)
                    = [(clock (Wheel.viewer s) + 300)%nat])
    by (unfold Wheel.turnPage; cbn; now rewrite Hnone).
  assert (Hclock : clock (Wheel.viewer (Wheel.turnPage handler s)) = clock (Wheel.viewer s))
    by (unfold Wheel.turnPage, dispatch; cbn; apply run_clock).
  split; [ reflexivity | ]. split.
  - intros Hms e'. apply wheel_in_cooldown.
    apply (wheel_cooling later (Wheel.turnPage handler s) _ eq_refl Htimers). rewrite Hclock. lia.
  - intros Hquiet Hms.
    apply (wheel_cooled later (Wheel.turnPage handler s) _ Hquiet eq_refl Htimers).
    rewrite Hclock. lia.
Qed.

End WheelCooldown.

Lemma wheel_page_turns_throttled_witness :
  let s := Wheel.session Wheel.two_pages in
  let turned := Wheel.handleWheelInScrollArea Wheel.wheel_down_at_bottom s in
  let later := repeat (Wheel.Other MillisecondPassed) 299 in
  pdfCurrentPage (Wheel.viewer s) = 1 /\ pdfCurrentPage (Wheel.viewer turned) = 2
  /\ Wheel.wheelCooldownRef turned = true
  /\ ((Wheel.milliseconds later < 300)%nat ->
      forall e', Wheel.handleWheelInScrollArea e' (Wheel.after later turned)
                 = Wheel.after later turned)
  /\ (forallb (fun input => negb (Wheel.isWheeled input)) later = true ->
      (300 <= Wheel.milliseconds later)%nat ->
      Wheel.wheelCooldownRef (Wheel.after later turned) = false).
Proof.
  split; [ vm_compute; reflexivity | ]. split; [ vm_compute; reflexivity | ].
  apply (wheel_page_turns_throttled Wheel.two_pages Wheel.wheel_down_at_bottom).
  intros Hsame. apply (f_equal Wheel.wheelCooldownRef) in Hsame.
  vm_compute in Hsame. discriminate.
Defined.

(** ** The embedding cache *)

Lemma Map_get_Some key cache v :
  Embedding.Map_get key cache = Some v -> key ∈ cache.*1.
Proof.
  induction cache as [ | [k v'] rest IH ]; [ discriminate | ]. cbn.
  destruct (String.eqb_spec k key) as [ -> | Hne ].
  - intros _. apply elem_of_cons. now left.
  - intros Hget. apply elem_of_cons. right. now apply IH.
Qed.

Lemma Map_get_None key cache :
  Embedding.Map_get key cache = None <-> key ∉ cache.*1.
Proof.
  induction cache as [ | [k v'] rest IH ]; cbn.
  - split; [ intros _; apply not_elem_of_nil | reflexivity ].
  - rewrite not_elem_of_cons. destruct (String.eqb_spec k key) as [ -> | Hne ].
    + split; [ discriminate | now intros [Hne _] ].
    + rewrite IH. split; [ intros Hnot; split; [ congruence | exact Hnot ] | now intros [_ Hnot] ].
Qed.

Lemma Map_set_present key value cache :
  key ∈ cache.*1 ->
  (Embedding.Map_set key value cache).*1 = cache.*1
  /\ length (Embedding.Map_set key value cache) = length cache.
Proof.
  induction cache as [ | [k v'] rest IH ]; [ now intros ?%elem_of_nil | ].
  cbn. destruct (String.eqb_spec k key) as [ -> | Hne ]; [ easy | ].
  intros [ Heq | Hin ]%elem_of_cons; [ congruence | ].
  destruct (IH Hin) as [Hkeys Hlen]. cbn. now rewrite Hkeys, Hlen.
Qed.

Lemma Map_set_absent key value cache :
  key ∉ cache.*1 -> Embedding.Map_set key value cache = cache ++ [(key, value)].
Proof.
  induction cache as [ | [k v'] rest IH ]; [ reflexivity | ].
  cbn. intros [Hne Hnot]%not_elem_of_cons.
  destruct (String.eqb_spec k key) as [ -> | _ ]; [ congruence | ].
  now rewrite IH.
Qed.

Lemma Map_get_set key value cache :
  NoDup cache.*1 -> Embedding.Map_get key (Embedding.Map_set key value cache) = Some value.
Proof.
  induction cache as [ | [k v'] rest IH ]; cbn.
  - now rewrite String.eqb_refl.
  - intros [_ Hrest]%NoDup_cons. destruct (String.eqb_spec k key) as [ -> | Hne ]; cbn.
    + now rewrite String.eqb_refl.
    + destruct (String.eqb_spec k key); [ congruence | now apply IH ].
Qed.

Lemma store_invariant key value cache :
  (length cache <= Embedding.maxSize)%nat -> NoDup cache.*1 ->
  (length (Embedding.store key value cache) <= Embedding.maxSize)%nat
  /\ NoDup (Embedding.store key value cache).*1
  /\ Embedding.Map_get key (Embedding.store key value cache) = Some value.
Proof.
  intros Hlen Hkeys. unfold Embedding.store.
  destruct (decide (key ∈ cache.*1)) as [ Hin | Hnot ].
  - destruct (Map_set_present key value cache Hin) as [Hsame Hsize].
    rewrite Hsize. destruct (Nat.ltb_spec Embedding.maxSize (length cache)); [ lia | ].
    rewrite Hsame. split; [ lia | ]. split; [ exact Hkeys | now apply Map_get_set ].
  - rewrite (Map_set_absent key value cache Hnot), length_app. cbn [length].
    assert (Hnew : NoDup (cache ++ [(key, value)]).*1).
    { rewrite fmap_app. apply NoDup_app. split; [ exact Hkeys | ].
      split; [ | apply NoDup_singleton ].
      intros k Hk [ -> | ?%elem_of_nil ]%elem_of_cons; [ | easy ]. now apply Hnot. }
    assert (Hget : Embedding.Map_get key (cache ++ [(key, value)]) = Some value).
    { rewrite <- (Map_set_absent key value cache Hnot). now apply Map_get_set. }
    destruct (Nat.ltb_spec Embedding.maxSize (length cache + 1)) as [ Hfull | Hroom ].
    + destruct cache as [ | [k v'] rest ]; [ unfold Embedding.maxSize in Hfull; cbn in Hfull; lia | ].
      cbn [app tail]. cbn [length] in Hlen. split; [ rewrite length_app; cbn [length]; lia | ].
      cbn [app fmap list_fmap] in Hnew. apply NoDup_cons in Hnew as [Hk Hrest].
      split; [ exact Hrest | ].
      cbn [app Embedding.Map_get] in Hget.
      destruct (String.eqb_spec k key) as [ -> | _ ]; [ | exact Hget ].
      exfalso. apply Hnot. cbn. apply elem_of_cons. now left.
    + split; [ rewrite length_app; cbn [length]; lia | ]. split; [ exact Hnew | exact Hget ].
Qed.

Lemma cacheAfter_invariant ops :
  (length (Embedding.cacheAfter ops) <= Embedding.maxSize)%nat
  /\ NoDup (Embedding.cacheAfter ops).*1.
Proof.
  unfold Embedding.cacheAfter. induction ops as [ | op ops IH ] using rev_ind.
  - cbn. split; [ unfold Embedding.maxSize; lia | constructor ].
  - rewrite fold_left_app. cbn [fold_left]. destruct IH as [Hlen Hkeys].
    destruct op as [ key embedding | ]; cbn [Embedding.apply].
    + destruct (store_invariant key embedding _ Hlen Hkeys) as (Hl & Hk & _). now split.
    + cbn. split; [ unfold Embedding.maxSize; lia | constructor ].
Qed.

(** X21.  Whatever embeddings are stored and however often the cache is
    cleared, the cache never holds more than 1000 embeddings, and no two
    of its entries have the same key.  Storing an embedding under a key
    that is absent from a cache of 1000 entries drops the entry that was
    inserted first, whether or not it was read since, and keeps the
    others in their order. *)
Theorem embedding_cache_bounded (ops : list Embedding.Operation) :
  let cache := Embedding.cacheAfter ops in
  ((Embedding.getCacheStats cache).1 <= (Embedding.getCacheStats cache).2)%nat
  /\ NoDup cache.*1
  /\ forall key embedding,
       length cache = Embedding.maxSize -> key ∉ cache.*1 ->
       Embedding.store key embedding cache = tail cache ++ [(key, embedding)].
Proof.
  cbv zeta. destruct (cacheAfter_invariant ops) as [Hlen Hkeys].
  split; [ cbn; lia | ]. split; [ exact Hkeys | ].
  intros key embedding Hfull Hnot. unfold Embedding.store.
  rewrite (Map_set_absent key embedding _ Hnot), length_app, Hfull. cbn [length].
  destruct (Nat.ltb_spec Embedding.maxSize (Embedding.maxSize + 1)); [ | lia ].
  destruct (Embedding.cacheAfter ops); [ discriminate | reflexivity ].
Qed.

Section EmbedText.
Context `{JsString}.

(** X22.  A call of [embedText] that finds the hash of the text in the
    cache answers the cached embedding and leaves the cache as it is.  A
    call that misses and whose model fails answers nothing and leaves the
    cache as it is.  A call that misses and whose model answers gives
    that answer and changes the cache by storing it under the hash.
    Whenever a call answers an embedding, the cache after the call holds
    it under the hash of the text, and a following call for a text with
    the same hash (the same text up to case and outer whitespace) answers
    the same embedding and leaves the cache as it is, whatever the model
    would answer. *)
Theorem embedText_cached (ops : list Embedding.Operation)
    (generateEmbedding again : string -> option Embedding.Vector) (text same : string) :
  let cache := Embedding.cacheAfter ops in
  let hash := Embedding.hashText text in
  let answer := Embedding.embedText generateEmbedding text cache in
  (forall cached, Embedding.Map_get hash cache = Some cached -> answer = (Some cached, cache))
  /\ (Embedding.Map_get hash cache = None -> generateEmbedding text = None ->
      answer = (None, cache))
  /\ (forall fresh,
        Embedding.Map_get hash cache = None -> generateEmbedding text = Some fresh ->
        answer = (Some fresh, Embedding.cacheAfter (ops ++ [Embedding.Store hash fresh])))
  /\ forall embedding,
       answer.1 = Some embedding ->
       Embedding.hashText same = hash ->
       Embedding.Map_get hash answer.2 = Some embedding
       /\ Embedding.embedText again same answer.2 = (Some embedding, answer.2).
Proof.
  cbv zeta. destruct (cacheAfter_invariant ops) as [Hlen Hkeys].
  unfold Embedding.embedText.
  destruct (Embedding.Map_get (Embedding.hashText text) (Embedding.cacheAfter ops))
    as [ cached | ] eqn:Hget.
  - split; [ now intros ? [= <-] | ]. split; [ discriminate | ]. split; [ discriminate | ].
    cbn [fst snd]. intros embedding [= <-] Hsame.
    split; [ exact Hget | ]. now rewrite Hsame, Hget.
  - split; [ discriminate | ].
    destruct (generateEmbedding text) as [ fresh | ]; cbn [fst snd].
    + split; [ discriminate | ]. split.
      * intros ? _ [= <-]. unfold Embedding.cacheAfter. now rewrite fold_left_app.
      * intros embedding [= <-] Hsame.
        destruct (store_invariant (Embedding.hashText text) fresh _ Hlen Hkeys)
          as (_ & _ & Hstored).
        split; [ exact Hstored | ]. now rewrite Hsame, Hstored.
    + split; [ reflexivity | ]. split; [ discriminate | discriminate ].
Qed.

End EmbedText.

Lemma embedText_cached_witness :
  let model := fun _ : string => Some Embedding.sample_vector in
  let failing := fun _ : string => @None Embedding.Vector in
  let answer := Embedding.embedText model "  Smoking " (Embedding.cacheAfter []) in
  answer = (Some Embedding.sample_vector,
            Embedding.cacheAfter [Embedding.Store "smoking" Embedding.sample_vector])
  /\ Embedding.embedText failing "  Smoking " (Embedding.cacheAfter []) = (None, [])
  /\ Embedding.Map_get "smoking" answer.2 = Some Embedding.sample_vector
  /\ Embedding.embedText failing "SMOKING" answer.2 = (Some Embedding.sample_vector, answer.2).
Proof.
  cbv zeta.
  pose proof (embedText_cached [] (fun _ => Some Embedding.sample_vector) (fun _ => None)
                "  Smoking " "SMOKING") as (_ & _ & Hmiss & Hagain).
  pose proof (embedText_cached [] (fun _ => None) (fun _ => None)
                "  Smoking " "SMOKING") as (_ & Hfail & _).
  split; [ exact (Hmiss Embedding.sample_vector eq_refl eq_refl) | ].
  split; [ exact (Hfail eq_refl eq_refl) | ].
  exact (Hagain Embedding.sample_vector eq_refl eq_refl).
Defined.

(** ** A click on a source *)

Lemma prefix_refl s : String.prefix s s = true.
Proof.
  induction s as [ | a s IH ]; [ reflexivity | ]. cbn.
  destruct (ascii_dec a a); [ exact IH | congruence ].
Qed.

Lemma prefix_append s t : String.prefix s (s ++ t) = true.
Proof.
  induction s as [ | a s IH ]; [ now destruct t | ].
  change (String.prefix (String a s) (String a (String.append s t)) = true). cbn.
  destruct (ascii_dec a a); [ exact IH | congruence ].
Qed.

Lemma find_first (test : SourceClick.PDFDocument -> bool) documents :
  match List.find test documents with
  | Some doc => SourceClick.first_with test documents doc
  | None => SourceClick.none_with test documents
  end.
Proof.
  induction documents as [ | d documents IH ]; cbn; [ constructor | ].
  destruct (test d) eqn:Hd.
  - exists [], documents. now repeat split.
  - destruct (List.find test documents) as [ doc | ].
    + destruct IH as (before & after & -> & Hdoc & Hbefore).
      exists (d :: before), after. repeat split; [ exact Hdoc | now constructor ].
    + now constructor.
Qed.

Lemma find_ext (f g : SourceClick.PDFDocument -> bool) documents :
  Forall (fun d => f d = g d) documents -> List.find f documents = List.find g documents.
Proof.
  induction 1 as [ | d documents Hd Hall IH ]; [ reflexivity | ]. cbn. now rewrite Hd, IH.
Qed.

Lemma split_head sourceId : exists parts0 rest, SourceClick.split sourceId = parts0 :: rest.
Proof.
  induction sourceId as [ | a s (p & r & IH) ]; cbn; [ now eexists _, _ | ].
  destruct (Ascii.eqb a "-"); [ now eexists _, _ | ]. rewrite IH. now eexists _, _.
Qed.

(** X23.  A click on a source whose id is no number, when the documents
    can be read: the document that is selected is the first one whose id
    is the source id; when there is none, the first one whose file name
    starts with the part of the source id before its first hyphen; when
    there is none either and the source id has a hyphen, the first one
    whose file name contains the first two parts joined by a hyphen;
    otherwise nothing is selected.  The comparisons of the file name with
    the first part and with the first part followed by .pdf, and the
    second test of its start, never decide. *)
Theorem source_click_selects (depth : nat) (sources : list SourceClick.SourceInfo)
    (documents : list SourceClick.PDFDocument) (sourceId : string) :
  SourceClick.isNumber sourceId = false ->
  let parts := SourceClick.split sourceId in
  let parts0 := default "" (parts !! 0%nat) in
  let hasId := fun doc => String.eqb (SourceClick.doc_id doc) sourceId in
  let starts := fun doc => String.prefix parts0 (SourceClick.doc_filename doc) in
  let contains := fun doc =>
    match parts !! 1%nat with
    | Some parts1 => includes (SourceClick.doc_filename doc) (parts0 ++ "-" ++ parts1)
    | None => false
    end in
  match SourceClick.handleSourceClick (S depth) sources (Some documents) sourceId with
  | SourceClick.Selected selectedDocumentId pdfFilename =>
      exists doc,
        selectedDocumentId = SourceClick.doc_id doc
        /\ pdfFilename = SourceClick.doc_filename doc
        /\ (SourceClick.first_with hasId documents doc
            \/ (SourceClick.none_with hasId documents
                /\ SourceClick.first_with starts documents doc)
            \/ (SourceClick.none_with hasId documents
                /\ SourceClick.none_with starts documents
                /\ SourceClick.first_with contains documents doc))
  | SourceClick.Unchanged =>
      SourceClick.none_with hasId documents /\ SourceClick.none_with starts documents
      /\ SourceClick.none_with contains documents
  | SourceClick.RangeError => False
  end.
Proof.
  intros Hnumber. cbv zeta. cbn [SourceClick.handleSourceClick]. rewrite Hnumber.
  unfold SourceClick.matchingDoc.
  destruct (split_head sourceId) as (parts0 & rest & Hparts). rewrite !Hparts.
  change (default "" ((parts0 :: rest) !! 0%nat)) with parts0.
  set (hasId := fun doc => String.eqb (SourceClick.doc_id doc) sourceId).
  set (starts := fun doc => String.prefix parts0 (SourceClick.doc_filename doc)).
  pose proof (find_first hasId documents) as Hid.
  destruct (List.find hasId documents) as [ doc | ]; [ exists doc; now repeat split; left | ].
  assert (Hsecond : List.find (fun doc =>
                       String.eqb (SourceClick.doc_filename doc) (parts0 ++ ".pdf")
                       || String.eqb (SourceClick.doc_filename doc) parts0
                       || String.prefix parts0 (SourceClick.doc_filename doc)) documents
                    = List.find starts documents).
  { apply find_ext, Forall_forall. intros d _. unfold starts.
    destruct (String.eqb_spec (SourceClick.doc_filename d) (parts0 ++ ".pdf")) as [ -> | _ ];
      [ now rewrite prefix_append | ].
    destruct (String.eqb_spec (SourceClick.doc_filename d) parts0) as [ -> | _ ];
      [ now rewrite prefix_refl | reflexivity ]. }
  rewrite Hsecond. pose proof (find_first starts documents) as Hstarts.
  destruct (List.find starts documents) as [ doc | ];
    [ exists doc; repeat split; right; left; now split | ].
  destruct rest as [ | parts1 rest ].
  - split; [ exact Hid | ]. split; [ exact Hstarts | ]. now apply Forall_forall.
  - change ((parts0 :: parts1 :: rest) !! 1%nat) with (Some parts1).
    set (contains := fun doc =>
           includes (SourceClick.doc_filename doc) (parts0 ++ "-" ++ parts1)).
    assert (Hthird : List.find (fun doc =>
                         includes (SourceClick.doc_filename doc) (parts0 ++ "-" ++ parts1)
                         || String.prefix parts0 (SourceClick.doc_filename doc)) documents
                     = List.find contains documents).
    { apply find_ext. eapply Forall_impl; [ exact Hstarts | ]. intros d Hd.
      unfold contains. unfold starts in Hd. rewrite Hd. apply orb_false_r. }
    rewrite Hthird. pose proof (find_first contains documents) as Hcontains.
    destruct (List.find contains documents) as [ doc | ].
    + exists doc. repeat split. right. right. now repeat split.
    + now repeat split.
Qed.

Lemma source_click_selects_witness :
  SourceClick.handleSourceClick 1 [] (Some SourceClick.sample_documents) "law"
  = SourceClick.Selected "law" "old-law.pdf"
  /\ SourceClick.handleSourceClick 1 [] (Some SourceClick.sample_documents) "law-3-1"
     = SourceClick.Selected "d2" "law.pdf"
  /\ SourceClick.handleSourceClick 1 [] (Some SourceClick.sample_documents) "guide-2024-5"
     = SourceClick.Selected "d1" "health-guide-2024.pdf"
  /\ SourceClick.handleSourceClick 1 [] (Some SourceClick.sample_documents) "-7"
     = SourceClick.Selected "d1" "health-guide-2024.pdf"
  /\ match SourceClick.handleSourceClick 1 [] (Some SourceClick.sample_documents) "tax-1" with
     | SourceClick.Unchanged =>
         SourceClick.none_with (fun doc => String.eqb (SourceClick.doc_id doc) "tax-1")
           SourceClick.sample_documents
     | _ => False
     end.
Proof.
  repeat (split; [ reflexivity | ]).
  pose proof (source_click_selects 0 [] SourceClick.sample_documents "tax-1" eq_refl) as Hclick.
  cbv zeta in Hclick.
  change (SourceClick.handleSourceClick 1 [] (Some SourceClick.sample_documents) "tax-1")
    with SourceClick.Unchanged in *.
  exact (proj1 Hclick).
Defined.
